(* ===== verification/_CoqProject ===== *)
-Q . S2P
Prelude.v
GoStd.v
GoHash.v
GoConv.v
InteractionDomain.v
RelationDomain.v
VideoDomain.v
MessageDomain.v
ExposureDomain.v
PlaybackDomain.v
AccountDomain.v
FeedDomain.v
RecommendationDomain.v
EmbeddingDomain.v
Errors.v
Files.v
Models.v
Resilience.v
Redis.v
Store.v
FileOps.v
RedisClient.v
SessionCache.v
Paging.v
Codec.v
InteractionRepo.v
RelationRepo.v
MessageRepo.v
VideoRepo.v
FeedRepo.v
RecommendationRepo.v
ExposureRepo.v
PlaybackRepo.v
AccountRepo.v
Views.v
Edge.v
EdgeRules.v
AuthHandlers.v
AccountSpec.v
OutboxWorker.v
PublishHandlers.v
SocialHandlers.v
VideoDetail.v
Uploads.v
ExtensionRules.v
System.v
Frames.v
RepoProperties.v
Ports.v
RecommendationService.v
FeedService.v
FeedCache.v
ActionLedger.v
MessageService.v
InteractionService.v
RelationService.v
VideoService.v
OtherServices.v
MessageBroker.v
Wiring.v
HttpDto.v
Tokens.v
Requests.v
HttpRouter.v
HttpAnswers.v
CoreHandlers.v
EdgeRequests.v
UploadRules.v
UploadFlow.v
CoreMedia.v
ServiceExamples.v
HttpProperties.v
EdgeProperties.v
UploadProperties.v
ServiceProperties.v
FeedProperties.v
FeedCacheProperties.v
FanoutProperties.v
ResilienceProperties.v
Findings.v
