(* ===== verification/Prelude.v ===== *)
(** * Owlet Video: a verification library for the Go back end

    The back end of a short-video site ([src/backend]): Go processes (an edge server and a
    worker, chosen by the command line) that serve an HTTP API through gin, keep their data in
    MySQL (GORM), their caches in Redis and in memory, and send events through RabbitMQ. The
    code has two halves. The layered core has [internal/domain] (entities and their
    validation), [internal/infra/persistence] (repositories), [internal/infra/cache] (Redis),
    [internal/application] (services), [internal/interfaces/http] (handlers). The main package
    around it has the accounts, sessions, uploads, moderation, the outbox with its worker, the
    page of a video ([auth.go], [admin.go], [video.go], [messaging.go], [social.go],
    [worker.go], [cache.go], [resilience.go], [session_cache.go], ...), and reads the core
    tables through views. The model is a shallow embedding: a Go function is a Rocq function
    of the same name, a struct a record, a sentinel error a constructor.

    ** How code is modelled

    - [GoStd] (with [float64]), [GoConv], [GoHash]: the part of Go and of its standard library that
      the code uses. A [string] is a list of bytes; an [int] is a [Z] with its wrap-around
      ([int64_of]) where an overflow can happen; a [time.Time] is the number of nanoseconds
      since the zero time; a [float64] is an IEEE 754 number. [Codec] is the class of the
      functions of [encoding/base64], [encoding/json] and RFC 3339 times with what the code
      relies on ([CodecLaws]: what is encoded is decoded); [plain_codec] of [ServiceExamples]
      is an instance with its laws proved. [Edge.JWT] and [Tokens.JWTLib] are the same for the
      signed tokens of the two halves, [GoConv.Unicode] for the classes and the lower case of
      the Unicode tables.
    - [Models], [Store]: the tables as finite maps under a collation of the database (class
      [Collation]), and a monad [M] of computations on a [World] (tables, auto-increment
      counters, Redis, queue, the memory of the process, clock and environment). Any call may
      fail, any time may pass: the environment is an arbitrary stream of faults, so a theorem
      about [wp m Q E w] speaks of every outcome, success [Q] and failure [E]. A transaction
      that fails, in its body or in its [COMMIT], leaves the tables as they were and keeps the
      auto-increment counters. The field [process] of a world is what the main package holds
      in memory: breakers, the video cache, limiters, the database slots.
    - [Redis], [RedisClient]: keys with deadlines, the commands the code uses, pipelines and
      watched transactions. A command may fail before or after it took effect. [before until]
      says what a computation does if it ends before a moment; it is how expiry enters a
      statement.
    - [Files], [FileOps]: [path/filepath], and the calls of [os] on a tree that maps paths to
      directories and files (the field [disk] of a world). A call may fail, a write that fails
      leaves some part of its data. Links, permissions and open descriptors of a file that was
      removed are not modelled.
    - [Views]: the SQL views of the main package as functions of the tables.

    ** Files and the code they model

    - [InteractionDomain], [RelationDomain], [VideoDomain], [MessageDomain], [ExposureDomain],
      [PlaybackDomain], [AccountDomain], [FeedDomain], [RecommendationDomain],
      [EmbeddingDomain]: the packages of [internal/domain]. [Errors]: the sentinel errors and
      [coreError] of [core.go].
    - [InteractionRepo], [RelationRepo], [MessageRepo], [VideoRepo], [FeedRepo],
      [RecommendationRepo] (with the embedding repository), [ExposureRepo], [PlaybackRepo],
      [AccountRepo]: the [gorm.go] files of [internal/infra/persistence]. [Paging]: the keyset
      pagination they share. [System]: every write of every repository and of every
      transaction of the main package as a step, the worlds reachable by steps, and
      [integrity], the invariant of the whole database.
    - [Ports]: the Go interfaces between the layers, as records. [MessageService],
      [InteractionService] (with the worker), [RelationService], [VideoService] (with the
      fan-out worker), [OtherServices] (exposure, playback, account, embedding), [FeedService],
      [RecommendationService]: the packages of [internal/application]. [FeedCache]:
      [internal/infra/cache/feed_cache.go]. [Requests]: the list of the operations a client
      can call, and the rules to reason about all of them.
    - [MessageBroker]: [internal/infra/mq/rabbitmq.go]: names, exchanges, queues and bindings,
      publication, consumers. [Tokens]: [internal/infra/jwt] and the middleware. [HttpDto]: the
      [handler.go] and [dto.go] files of [internal/interfaces/http], a Module each: a handler
      gets the context [Gin] and the body that gin bound, and gives an [Answer]. [HttpRouter]:
      the routes of [router.go] with their guards; [Wiring]: how [router.go] and [core.go] put
      repositories, caches, broker and services together; [HttpAnswers]: what each route may
      answer. [CoreHandlers]: the handlers of [core.go] over the same services.
    - [Resilience]: [resilience.go]. [SessionCache]: [session_cache.go], as steps of concurrent
      loads and one revocation.
    - [Edge]: what the handlers of the main package share: answers, tokens, cookies, sessions
      as one request runs them, rate limits, invalidations ([auth.go], [main.go], [config.go]).
      [AuthHandlers]: [auth.go] and the accounts of [admin.go]. [PublishHandlers]: publishing
      and moderation ([video.go], [admin.go], [core.go]). [SocialHandlers]: direct messages,
      lists, mentions ([messaging.go], [social.go], [feed.go]) and the pages of the administrators
      ([admin.go]). [OutboxWorker]: [worker.go], the queues it declares and the broker as steps.
      [VideoDetail]: [cache.go] and [upload_cache.go]. A handler is a computation that always
      answers, a [Response]; [Edge.authed], [Edge.limited] and [Edge.admin_only] are the
      middleware around it. [EdgeRequests]: the routes of [main.go], [core.go] and of the API, and the
      messages that the process handles ([plain_request]; [any_request] with those on files).
    - [Uploads]: the rest of [video.go]: chunks, assembly, images, publication with its files,
      the removal of abandoned uploads. [UploadRules]: the rules of the file calls, [files_ok],
      how rows and files agree, and the paths that the handlers keep apart; [UploadFlow]: what
      each handler does to files and rows, and that all of them keep [files_ok].
    - [CoreMedia]: [core_media.go], the copy of the media of an old installation.
    - [Frames]: what computations leave alone. [EdgeRules], [ExtensionRules]: the rules of the shared parts, of the transactions and of the tables of
      the main package.
    - [ActionLedger]: the abstract specification of the fast path of likes. [AccountSpec]: the
      contract of the operations on accounts, as a relation between tables.
    - [ServiceExamples] (and the beginning of [RepoProperties]): a reachable database, a run of
      the main package from the empty one, a clip that is uploaded and published, and instances
      of the parameters.

    ** What the theorems show

    - [RepoProperties]: in every reachable database the counters are the numbers of rows they
      stand for; the effect of each write on each branch, its
      retries included; pages are parts of one sorted list without repetition.
    - [HttpProperties]: every route of the API but the upload answers, with fixed texts or the sentinels of
      its service; the guards of a route let in whom they should; an account from its
      registration over the login to its profile and the end of its token.
    - [EdgeProperties]: every request keeps [lawful]: a revoked session stays revoked, a used
      invite used, and a changed password or a disabled account revokes its sessions in the
      same commit; registration and login do what they promise; a refresh token that was replaced is
      refused in every later world; the guard of the
      administrators, and their search, which takes the text literally. A video is published
      with its tags and its event or not at all; a round of the outbox worker marks events that
      the broker confirmed, and without faults the worker empties the outbox; no event on the
      broker is lost unless a consumer waits in vain for a confirmation; the page of a video
      shows a published one, whatever Redis and earlier pages left in the caches.
    - [UploadProperties]: a chunk is stored only as it was announced, chunks come together to
      the file they were cut from, a failing upload or publication loses nothing, and in every
      world of a run each published video has its whole file. The run has to draw UUIDs that
      are not the name of a file yet ([fresh_name]).
    - [CoreMedia]: the copy loses and overwrites nothing, on failure too, and a copy that
      succeeds has the files of the source and no other.
    - [ServiceProperties]: every request keeps the integrity of the database; error answers
      of the services other than the feed hold nothing the driver said; publishing and deleting do what they promise;
      notifications are valid; cursors continue lists; the broker takes an event to each of its consumers and to no other queue.
    - [FeedProperties]: the feed without a cache is equal to a reference that lists rows; with
      any cache it shows published videos only. What is recommended is fresh, distinct, bounded
      and spread over the authors; the vector of a video's text reaches the recommender,
      however often its event is delivered.
    - [FeedCacheProperties]: the Redis fast path of likes and favourites refines the ledger
      ([tracks] relates the keys to it; a day is the life of a counter, so the statement is
      about requests that end within a day); members of the indexes are read back.
    - [FanoutProperties]: the fan-out of the main package ends and puts a video into the sorted
      set of every follower, or into the outbox of an author with too many.
    - [ResilienceProperties]: the breaker is a policy on the history of its reports, loads are single, the video cache and
      the limiter are bounded, a revoked session is rejected, revocations and loads end.
    - [Findings]: runs of the modelled code that show a defect.

    ** Fuel

    The loops of the code are structural recursions, with these exceptions: the fan-out loop
    ([VideoService.fanout_loop]) has as fuel the number of follow rows plus one, and each round
    passes a batch of them; the spreading of candidates ([RecommendationService.spread_rounds])
    has the number of delayed candidates, and each round places one or ends
    ([interleave_total]). The theorems prove that the fuel is enough. A request that waits for
    the fill of a cache ([VideoDetail.wait_cache]) sleeps 25 ms a round for at most 600 ms;
    its fuel is 25 rounds, after which the deadline has passed whatever the clock does.
    [FileOps.create_temp] tries 10000 names, as [os.CreateTemp] does.

    ** Not modelled, and why

    - Binding inside gin, encoding of JSON answers, configuration, metrics, profiling,
      connections to MySQL, Redis and RabbitMQ, the stream of notifications: pure input and
      output. A handler starts from what gin bound, a consumer from what a delivery decodes to.
    - bcrypt, HMAC and the format of the tokens, [math.Log1p], [singleflight.Group.Do], the
      Unicode tables: third-party or tabulated code, parameters with the laws a theorem needs.
    - [sameOrigin] of [main.go] compares the hosts that [net/url] parses.
    - The uploads of the layered API ([interfaces/http/upload]): what they accept is decided by
      [http.DetectContentType], ffprobe and ffmpeg. The uploads of the main package are
      modelled.
    - The migration of legacy data ([core_migration.go]), apart from its views and the copy of
      the media.
    - The free space of the disk ([disk_linux.go]): an argument of [initUpload].
    - The cache validation tool ([tools/cachevalidation]): a load generator beside the
      system. *)
From Stdlib Require Export ZArith Lia.
From stdpp Require Export sorting base tactics option gmap strings pretty numbers.
From stdpp Require Export list.
#[export] Set Default Goal Selector "!".
Open Scope Z_scope.

(** ** Finite maps: how many entries satisfy a predicate *)
Section map_count.
Context `{Countable K} {A : Type}.
Implicit Types (m : gmap K A) (P : A -> bool).

(** The number of rows of a table that satisfy [P]. *)
Definition map_count P m : Z := Z.of_nat (size (filter (fun kv => P (kv.2) = true) m)).

Definition b2z (b : bool) : Z := if b then 1 else 0.

Lemma map_count_empty P : map_count P ∅ = 0.
Proof. unfold map_count. by rewrite map_filter_empty, map_size_empty. Qed.

Lemma map_count_nonneg P m : 0 <= map_count P m.
Proof. unfold map_count. lia. Qed.

Lemma map_count_insert_new P m k x :
  m !! k = None -> map_count P (<[k := x]> m) = map_count P m + b2z (P x).
Proof.
  intros Hk. unfold map_count. destruct (P x) eqn:HP; simpl.
  - rewrite map_filter_insert_True by done.
    rewrite map_size_insert_None by (by apply map_lookup_filter_None_2; left).
    lia.
  - rewrite map_filter_insert_False by (simpl; congruence).
    rewrite delete_id by done. lia.
Qed.

Lemma map_count_insert P m k x y :
  m !! k = Some y -> map_count P (<[k := x]> m) = map_count P m - b2z (P y) + b2z (P x).
Proof.
  intros Hk.
  assert (map_count P m = map_count P (delete k m) + b2z (P y)) as Heq.
  { rewrite <-(insert_delete_id m k y Hk) at 1.
    apply map_count_insert_new. apply lookup_delete_eq. }
  rewrite Heq. rewrite <-insert_delete_eq.
  rewrite map_count_insert_new by apply lookup_delete_eq. lia.
Qed.

Lemma map_count_insert_pos P m k y : m !! k = Some y -> P y = true -> 1 <= map_count P m.
Proof.
  intros Hk HP. pose proof (map_count_insert P m k y y Hk) as Hc.
  rewrite <-(insert_delete_id m k y Hk).
  rewrite map_count_insert_new by apply lookup_delete_eq.
  rewrite HP. pose proof (map_count_nonneg P (delete k m)). simpl. lia.
Qed.

Lemma map_count_ext P Q m :
  (forall k x, m !! k = Some x -> P x = Q x) -> map_count P m = map_count Q m.
Proof.
  intros Hext. unfold map_count. do 2 f_equal. apply map_filter_ext.
  intros k x Hx. simpl. by rewrite (Hext k x Hx).
Qed.

Lemma map_count_add P Q R m :
  (forall x, b2z (P x) = b2z (Q x) + b2z (R x)) -> map_count P m = map_count Q m + map_count R m.
Proof.
  intros Hb. induction m as [|k x m Hk IH] using map_ind.
  - by rewrite !map_count_empty.
  - rewrite !map_count_insert_new by done. rewrite IH, Hb. lia.
Qed.

Lemma map_count_zero P m : (forall k x, m !! k = Some x -> P x = false) -> map_count P m = 0.
Proof.
  intros HP. rewrite (map_count_ext P (fun _ => false) m) by done. clear.
  induction m as [|k x m Hk IH] using map_ind; [apply map_count_empty|].
  rewrite map_count_insert_new by done. simpl. lia.
Qed.

Lemma map_count_fmap P (f : A -> A) m : map_count P (f <$> m) = map_count (fun x => P (f x)) m.
Proof.
  induction m as [|k x m Hk IH] using map_ind.
  - by rewrite fmap_empty, !map_count_empty.
  - rewrite fmap_insert, !map_count_insert_new; [lia|done|by rewrite lookup_fmap, Hk].
Qed.
End map_count.

(** ** Filters *)
Section filter.
Context {A : Type} (P : A -> Prop) `{!forall x, Decision (P x)}.

Lemma filter_all (l : list A) : (forall x, x ∈ l -> P x) -> filter P l = l.
Proof.
  induction l as [|x l IH]; intros Hall; [done|].
  rewrite filter_cons_True by (apply Hall; by left). f_equal. apply IH. intros y Hy. apply Hall. by right.
Qed.

Lemma filter_none (l : list A) : (forall x, x ∈ l -> ~ P x) -> filter P l = [].
Proof.
  induction l as [|x l IH]; intros Hall; [done|].
  rewrite filter_cons_False by (apply Hall; by left). apply IH. intros y Hy. apply Hall. by right.
Qed.

Lemma StronglySorted_filter (R : A -> A -> Prop) (l : list A) : StronglySorted R l -> StronglySorted R (filter P l).
Proof.
  induction 1 as [|x l Hs IH Hall]; [constructor|]. rewrite filter_cons. case_decide; [|done].
  constructor; [done|]. apply Forall_forall. intros y [_ Hy]%list_elem_of_filter.
  by apply (proj1 (Forall_forall _ _) Hall).
Qed.
End filter.

Lemma StronglySorted_lt_NoDup (l : list Z) : StronglySorted Z.lt l -> NoDup l.
Proof.
  induction 1 as [|x l Hs IH Hall]; [constructor|]. constructor; [|done].
  intros Hx. pose proof (proj1 (Forall_forall _ _) Hall x Hx). lia.
Qed.

Lemma omap_all {A B C} (f : B -> option C) (h : A -> B) (g : A -> C) (l : list A) :
  (forall x, x ∈ l -> f (h x) = Some (g x)) -> omap f (h <$> l) = g <$> l.
Proof.
  induction l as [|x l IH]; intros Hl; [done|]. simpl. rewrite (Hl x) by left.
  f_equal. apply IH. intros y Hy. apply Hl. by right.
Qed.

(** ** Stable sorting by a Go [less] function *)
Section stable_sort.
Context {A : Type} (less : A -> A -> bool).

Fixpoint insert_sorted (x : A) (l : list A) : list A :=
  match l with
  | [] => [x]
  | y :: l => if less y x then y :: insert_sorted x l else x :: y :: l
  end.

(** [sort.SliceStable]: of elements neither of which is less, the earlier stays first. *)
Definition stable_sort (l : list A) : list A := foldr insert_sorted [] l.

Lemma insert_sorted_Permutation x l : insert_sorted x l ≡ₚ x :: l.
Proof.
  induction l as [|y l IH]; simpl; [done|]. destruct (less y x); [|done].
  rewrite IH. apply Permutation_swap.
Qed.

Lemma stable_sort_Permutation l : stable_sort l ≡ₚ l.
Proof. induction l as [|x l IH]; simpl; [done|]. by rewrite insert_sorted_Permutation, IH. Qed.

(** Nothing in the result is less than something before it, if [less] is a strict weak order
    on the elements. *)
Lemma insert_sorted_ordered (P : A -> Prop) x l :
  (forall y z, P y -> P z -> less y z = true -> less z y = false) ->
  (forall y z t, P y -> P z -> P t -> less z y = false -> less t z = false -> less t y = false) ->
  P x -> Forall P l -> StronglySorted (fun y z => less z y = false) l ->
  StronglySorted (fun y z => less z y = false) (insert_sorted x l).
Proof.
  intros Has Htr Hx Hl Hs. induction Hs as [|y l Hs IH Hall]; simpl; [by repeat constructor|].
  apply Forall_cons in Hl as [Hy Hl]. destruct (less y x) eqn:Hyx.
  - constructor; [by apply IH|]. rewrite insert_sorted_Permutation. constructor; [|done].
    by apply Has.
  - constructor; [by constructor|]. constructor; [done|].
    rewrite Forall_forall in *. intros z Hz. eapply (Htr x y z); auto.
Qed.

Lemma stable_sort_ordered (P : A -> Prop) l :
  (forall y z, P y -> P z -> less y z = true -> less z y = false) ->
  (forall y z t, P y -> P z -> P t -> less z y = false -> less t z = false -> less t y = false) ->
  Forall P l -> StronglySorted (fun y z => less z y = false) (stable_sort l).
Proof.
  intros Has Htr Hl. induction Hl as [|x l Hx Hl IH]; simpl; [constructor|].
  apply (insert_sorted_ordered P); try done. by rewrite stable_sort_Permutation.
Qed.
End stable_sort.
