(* ===== verification/GoStd.v ===== *)
(** * The Go language and standard library, as far as the back end uses them

    - [string] is a sequence of bytes, as a Go string is; [len] counts bytes;
    - [TrimSpace] follows [strings.TrimSpace] on every input: the white space of
      [unicode.IsSpace] is recognised in its UTF-8 encoding at either end;
    - [ToLower] and [ToUpper] are exact on every string of ASCII characters; of
      the other letters they know the three code points whose case mapping is an
      ASCII letter and leave the bytes of all others in place;
    - [Time] counts nanoseconds from Go's zero time (1 January of year 1, UTC),
      so that [IsZero] is [t = 0]; the location of a [time.Time] is not kept,
      which makes [UTC] the identity;
    - [int64] conversion wraps around. *)
From Stdlib Require Import Ascii.
From Stdlib Require Export SpecFloat.
From S2P Require Import Prelude.

(** ** Integers *)

(** Conversion of an arbitrary integer to [int64]: two's complement. *)
Definition int64_of (z : Z) : Z := (z + 2 ^ 63) mod 2 ^ 64 - 2 ^ 63.

Lemma int64_of_id z : - 2 ^ 63 <= z < 2 ^ 63 -> int64_of z = z.
Proof. intros Hz. unfold int64_of. rewrite Z.mod_small; lia. Qed.

Lemma int64_of_range z : - 2 ^ 63 <= int64_of z < 2 ^ 63.
Proof. unfold int64_of. pose proof (Z.mod_pos_bound (z + 2 ^ 63) (2 ^ 64)). lia. Qed.

Lemma int64_of_high z : 2 ^ 63 <= z < 2 ^ 64 -> int64_of z < 0.
Proof.
  intros Hz. unfold int64_of.
  replace (z + 2 ^ 63) with ((z - 2 ^ 63) + 1 * 2 ^ 64) by lia.
  rewrite Z.mod_add by lia. rewrite Z.mod_small; lia.
Qed.

(** ** Strings *)

Definition len (s : string) : Z := Z.of_nat (String.length s).

Definition byte_of (c : ascii) : Z := Z.of_N (N_of_ascii c).

Definition chr (z : Z) : ascii := ascii_of_N (Z.to_N z).

(** Length of the white-space rune that the bytes [a b c] start with, 0 if they
    start with none: ASCII white space, U+0085, U+00A0, U+1680, U+2000 to U+200A,
    U+2028, U+2029, U+202F, U+205F, U+3000. A byte past the end is -1. *)
Definition space_width (a b c : Z) : nat :=
  if (9 <=? a) && (a <=? 13) || (a =? 32) then 1%nat
  else if (a =? 194) && ((b =? 133) || (b =? 160)) then 2%nat
  else if (a =? 225) && (b =? 154) && (c =? 128) then 3%nat
  else if (a =? 226) && (b =? 128)
          && ((128 <=? c) && (c <=? 138) || (c =? 168) || (c =? 169) || (c =? 175)) then 3%nat
  else if (a =? 226) && (b =? 129) && (c =? 159) then 3%nat
  else if (a =? 227) && (b =? 128) && (c =? 128) then 3%nat
  else 0%nat.

Definition bytes := list Z.

Definition string_bytes (s : string) : bytes := byte_of <$> String.list_ascii_of_string s.

Definition string_of_bytes (l : bytes) : string := String.string_of_list_ascii (chr <$> l).

Definition nth_byte (i : nat) (l : bytes) : Z := default (-1) (l !! i).

Definition space_at_start (l : bytes) : nat :=
  space_width (nth_byte 0 l) (nth_byte 1 l) (nth_byte 2 l).

(** The rune that ends the bytes whose reversal is [r] ([utf8.DecodeLastRune]). *)
Definition space_at_end (r : bytes) : nat :=
  if bool_decide (space_width (nth_byte 0 r) (-1) (-1) = 1%nat) then 1%nat
  else if bool_decide (space_width (nth_byte 1 r) (nth_byte 0 r) (-1) = 2%nat) then 2%nat
  else if bool_decide (space_width (nth_byte 2 r) (nth_byte 1 r) (nth_byte 0 r) = 3%nat)
       then 3%nat
  else 0%nat.

(** Drop white-space runes while [width] finds one; each costs a byte of fuel at
    least, so the length of the list is enough. *)
Fixpoint trim_fuel (width : bytes -> nat) (fuel : nat) (l : bytes) : bytes :=
  match fuel with
  | O => l
  | S fuel' => match width l with O => l | w => trim_fuel width fuel' (drop w l) end
  end.

Definition trim_left (l : bytes) : bytes := trim_fuel space_at_start (length l) l.

Definition trim_right (l : bytes) : bytes :=
  reverse (trim_fuel space_at_end (length l) (reverse l)).

Definition TrimSpace (s : string) : string :=
  string_of_bytes (trim_right (trim_left (string_bytes s))).

(** [strings.ToLower] and [strings.ToUpper]. *)
Fixpoint to_lower_bytes (l : bytes) : bytes :=
  match l with
  | 196 :: 176 :: l' => 105 :: to_lower_bytes l'
  | 226 :: 132 :: 170 :: l' => 107 :: to_lower_bytes l'
  | a :: l' => (if (65 <=? a) && (a <=? 90) then a + 32 else a) :: to_lower_bytes l'
  | [] => []
  end.

Fixpoint to_upper_bytes (l : bytes) : bytes :=
  match l with
  | 196 :: 177 :: l' => 73 :: to_upper_bytes l'
  | 197 :: 191 :: l' => 83 :: to_upper_bytes l'
  | a :: l' => (if (97 <=? a) && (a <=? 122) then a - 32 else a) :: to_upper_bytes l'
  | [] => []
  end.

Definition ToLower (s : string) : string := string_of_bytes (to_lower_bytes (string_bytes s)).

Definition ToUpper (s : string) : string := string_of_bytes (to_upper_bytes (string_bytes s)).

(** [strings.Contains]. *)
Fixpoint contains (s sub : string) : bool :=
  String.prefix sub s || match s with String _ s' => contains s' sub | EmptyString => false end.

(** [fmt.Sprintf("%d")]. *)
Definition fmt_d (z : Z) : string := pretty z.

(** ** Time *)

Definition Time := Z.

Definition nanosecond : Z := 1.
Definition millisecond : Z := 10 ^ 6.
Definition second : Z := 10 ^ 9.
Definition minute : Z := 60 * second.
Definition hour : Z := 60 * minute.

Definition time_IsZero (t : Time) : bool := t =? 0.
Definition time_Before (t u : Time) : bool := t <? u.
Definition time_After (t u : Time) : bool := u <? t.
Definition time_Equal (t u : Time) : bool := t =? u.

(** [t.Unix()]: seconds since 1970; the constant is the number of seconds from
    year 1 to 1970. *)
Definition unix_to_internal : Z := 62135596800.
Definition time_Unix (t : Time) : Z := t / second - unix_to_internal.

(** [t.Truncate(d)] for a positive [d]. *)
Definition time_Truncate (t : Time) (d : Z) : Time := t - t mod d.

(** [t.Sub(u)] saturates. *)
Definition time_Sub (t u : Time) : Z := Z.max (- 2 ^ 63) (Z.min (2 ^ 63 - 1) (t - u)).

(** ** Slices *)

(** [items[:limit]] when there are more than [limit]. *)
Definition take_z {A} (n : Z) (l : list A) : list A := take (Z.to_nat n) l.
Definition len_z {A} (l : list A) : Z := Z.of_nat (length l).

(** The loop "skip what [seen] holds, else remember and append": the elements of
    [l] in order, each once. *)
Fixpoint dedup_from {A} `{EqDecision A} (seen : list A) (l : list A) : list A :=
  match l with
  | [] => []
  | x :: l' => if bool_decide (x ∈ seen) then dedup_from seen l'
               else x :: dedup_from (x :: seen) l'
  end.

Definition dedup {A} `{EqDecision A} (l : list A) : list A := dedup_from [] l.

(** ** Facts about the functions above *)

Lemma string_of_bytes_bytes s : string_of_bytes (string_bytes s) = s.
Proof.
  unfold string_of_bytes, string_bytes. rewrite <-list_fmap_compose.
  rewrite (list_fmap_ext _ id).
  - rewrite list_fmap_id. apply String.string_of_list_ascii_of_string.
  - intros i c _. unfold chr, byte_of. simpl. rewrite N2Z.id. apply ascii_N_embedding.
Qed.

Definition is_byte (z : Z) : Prop := 0 <= z < 256.

Lemma string_bytes_range s : Forall is_byte (string_bytes s).
Proof.
  unfold string_bytes. apply Forall_fmap, Forall_true. intros c.
  unfold is_byte, byte_of; simpl. pose proof (N_ascii_bounded c). lia.
Qed.

Lemma byte_of_chr z : is_byte z -> byte_of (chr z) = z.
Proof. unfold byte_of, chr, is_byte. intros Hz. rewrite N_ascii_embedding by lia. lia. Qed.

Lemma string_bytes_of_bytes l : Forall is_byte l -> string_bytes (string_of_bytes l) = l.
Proof.
  intros Hl. unfold string_of_bytes, string_bytes.
  rewrite String.list_ascii_of_string_of_list_ascii, <-list_fmap_compose.
  induction Hl as [|z l Hz Hl IH]; simpl; [done|].
  f_equal; [|done]. by apply byte_of_chr.
Qed.

Lemma string_of_bytes_inj l k :
  Forall is_byte l -> Forall is_byte k -> string_of_bytes l = string_of_bytes k -> l = k.
Proof.
  intros Hl Hk Heq. apply (f_equal string_bytes) in Heq.
  by rewrite !string_bytes_of_bytes in Heq.
Qed.

Lemma len_string_bytes s : len s = len_z (string_bytes s).
Proof.
  unfold len, len_z, string_bytes. rewrite length_fmap.
  induction s as [|c s IH]; simpl; lia.
Qed.

Lemma len_string_of_bytes l : len (string_of_bytes l) = len_z l.
Proof.
  unfold len, len_z, string_of_bytes. rewrite <-(length_fmap chr).
  induction (chr <$> l) as [|c k IH]; simpl; lia.
Qed.

Lemma len_nonneg s : 0 <= len s.
Proof. unfold len. lia. Qed.

Lemma len_empty s : len s = 0 <-> s = ""%string.
Proof. unfold len. destruct s; simpl; split; intros; try done; lia. Qed.

Lemma len_append s t : len (s +:+ t) = len s + len t.
Proof.
  unfold len, String.app. induction s as [|c s IH]; simpl; [done|]. lia.
Qed.

Section trim.
Lemma space_width_shorter a b c d :
  space_width a b c = 0%nat -> d = -1 -> space_width a b d = 0%nat.
Proof.
  intros H ->. revert H. unfold space_width.
  repeat case_match; try done; intros; lia.
Qed.

Lemma space_width_shortest a b c :
  space_width a b c = 0%nat -> space_width a (-1) (-1) = 0%nat.
Proof.
  unfold space_width.
  repeat case_match; try done; intros; lia.
Qed.

Lemma space_at_start_prefix l k :
  space_at_start (l ++ k) = 0%nat -> space_at_start l = 0%nat.
Proof.
  unfold space_at_start, nth_byte.
  destruct l as [|a [|b [|c l]]]; simpl; try done; intros H.
  - by eapply space_width_shortest.
  - by eapply space_width_shorter.
Qed.

Lemma trim_fuel_suffix w fuel l : exists p, l = p ++ trim_fuel w fuel l.
Proof.
  revert l. induction fuel as [|fuel IH]; intros l; simpl; [by exists []|].
  destruct (w l) as [|n] eqn:Hn; [by exists []|].
  destruct (IH (drop (S n) l)) as [p Hp].
  exists (take (S n) l ++ p). rewrite <-app_assoc, <-Hp. by rewrite take_drop.
Qed.

Lemma trim_fuel_done w fuel l :
  w [] = 0%nat -> (length l <= fuel)%nat -> w (trim_fuel w fuel l) = 0%nat.
Proof.
  intros Hnil. revert l. induction fuel as [|fuel IH]; intros l Hl; simpl.
  - by destruct l; simpl in Hl; [|lia].
  - destruct (w l) as [|n] eqn:Hn; [done|]. apply IH. rewrite length_drop. lia.
Qed.

Lemma trim_fuel_id w fuel l : w l = 0%nat -> trim_fuel w fuel l = l.
Proof. intros Hl. destruct fuel; simpl; [done|]. by rewrite Hl. Qed.

Lemma trim_left_done l : space_at_start (trim_left l) = 0%nat.
Proof. by apply trim_fuel_done. Qed.

Lemma trim_right_prefix l : exists p, l = trim_right l ++ p.
Proof.
  unfold trim_right.
  destruct (trim_fuel_suffix space_at_end (length l) (reverse l)) as [p Hp].
  exists (reverse p). rewrite <-reverse_app, <-Hp. by rewrite reverse_involutive.
Qed.

Lemma trim_right_id l : space_at_end (reverse l) = 0%nat -> trim_right l = l.
Proof. intros Hl. unfold trim_right. rewrite trim_fuel_id by done. apply reverse_involutive. Qed.

Lemma trim_bytes_twice l :
  trim_right (trim_left (trim_right (trim_left l))) = trim_right (trim_left l).
Proof.
  assert (space_at_start (trim_right (trim_left l)) = 0%nat) as Hs.
  { destruct (trim_right_prefix (trim_left l)) as [p Hp].
    apply (space_at_start_prefix _ p). rewrite <-Hp. apply trim_left_done. }
  unfold trim_left at 1. rewrite trim_fuel_id by done.
  apply trim_right_id. unfold trim_right. rewrite reverse_involutive.
  apply trim_fuel_done; [done|]. by rewrite length_reverse.
Qed.

Lemma trim_bytes_sublist l : exists p q, l = p ++ trim_right (trim_left l) ++ q.
Proof.
  destruct (trim_fuel_suffix space_at_start (length l) l) as [p Hp].
  destruct (trim_right_prefix (trim_left l)) as [q Hq].
  exists p, q. rewrite <-Hq. exact Hp.
Qed.

Lemma trim_bytes_range l : Forall is_byte l -> Forall is_byte (trim_right (trim_left l)).
Proof.
  intros Hl. destruct (trim_bytes_sublist l) as (p & q & Hpq). rewrite Hpq in Hl.
  by apply Forall_app in Hl as [_ [Hl _]%Forall_app].
Qed.

Lemma string_bytes_TrimSpace s :
  string_bytes (TrimSpace s) = trim_right (trim_left (string_bytes s)).
Proof.
  unfold TrimSpace. apply string_bytes_of_bytes, trim_bytes_range, string_bytes_range.
Qed.

Lemma TrimSpace_idemp s : TrimSpace (TrimSpace s) = TrimSpace s.
Proof.
  unfold TrimSpace at 1. rewrite string_bytes_TrimSpace, trim_bytes_twice. done.
Qed.

Lemma TrimSpace_len s : len (TrimSpace s) <= len s.
Proof.
  rewrite !len_string_bytes, string_bytes_TrimSpace. unfold len_z.
  destruct (trim_bytes_sublist (string_bytes s)) as (p & q & Hpq).
  rewrite Hpq at 2. rewrite !length_app. lia.
Qed.
End trim.

(** A string in the form [TrimSpace] gives it. *)
Definition trimmed (s : string) : Prop := TrimSpace s = s.

#[export] Instance trimmed_dec s : Decision (trimmed s).
Proof. unfold trimmed. apply _. Defined.

Lemma TrimSpace_trimmed s : trimmed (TrimSpace s).
Proof. apply TrimSpace_idemp. Qed.

Section dedup.
Context {A} `{EqDecision A}.

Lemma elem_of_dedup_from seen (l : list A) x :
  x ∈ dedup_from seen l <-> x ∈ l /\ x ∉ seen.
Proof.
  revert seen. induction l as [|y l IH]; intros seen; simpl.
  { rewrite elem_of_nil. tauto. }
  destruct (decide (x = y)) as [->|Hne]; case_bool_decide;
    rewrite ?elem_of_cons, IH, ?elem_of_cons; tauto.
Qed.

Lemma elem_of_dedup (l : list A) x : x ∈ dedup l <-> x ∈ l.
Proof. unfold dedup. rewrite elem_of_dedup_from, elem_of_nil. tauto. Qed.

Lemma NoDup_dedup_from seen (l : list A) : NoDup (dedup_from seen l).
Proof.
  revert seen. induction l as [|y l IH]; intros seen; simpl; [constructor|].
  case_bool_decide; [done|]. constructor; [|done].
  rewrite elem_of_dedup_from, elem_of_cons. tauto.
Qed.

Lemma NoDup_dedup (l : list A) : NoDup (dedup l).
Proof. apply NoDup_dedup_from. Qed.
End dedup.

Lemma fmt_d_inj z z' : fmt_d z = fmt_d z' -> z = z'.
Proof. unfold fmt_d. apply (inj pretty). Qed.

(** ** Decimal numerals *)

Fixpoint string_forall (P : ascii -> Prop) (s : string) : Prop :=
  match s with
  | EmptyString => True
  | String c s => P c /\ string_forall P s
  end.

Lemma string_forall_app P s t : string_forall P (s +:+ t) <-> string_forall P s /\ string_forall P t.
Proof. unfold String.app. induction s as [|c s IH]; simpl; tauto. Qed.

Section fmt_d.
Context (P : ascii -> Prop) (Hdigit : forall n, P (pretty_N_char n)) (Hminus : P "-"%char).

Lemma pretty_N_go_forall x s : string_forall P s -> string_forall P (pretty_N_go x s).
Proof.
  revert s. induction (N.lt_wf_0 x) as [x _ IH]; intros s Hs.
  assert (x = 0 \/ 0 < x)%N as [->|?] by lia; [done|].
  rewrite pretty_N_go_step by done. apply IH; [by apply N.div_lt|]. by split.
Qed.

Lemma pretty_N_forall (n : N) : string_forall P (pretty n).
Proof.
  unfold pretty, pretty_N. case_decide; [split; [apply (Hdigit 0)|done]|by apply pretty_N_go_forall].
Qed.

Lemma fmt_d_forall z : string_forall P (fmt_d z).
Proof.
  unfold fmt_d, pretty, pretty_Z. destruct z as [|p|p].
  - split; [apply (Hdigit 0)|done].
  - apply pretty_N_forall.
  - apply string_forall_app. split; [by split|apply pretty_N_forall].
Qed.
End fmt_d.

Lemma pretty_N_go_length k x s :
  (x < 10 ^ N.of_nat k)%N -> (String.length (pretty_N_go x s) <= k + String.length s)%nat.
Proof.
  revert x s. induction k as [|k IH]; intros x s Hx.
  - change (10 ^ N.of_nat 0)%N with 1%N in Hx. assert (x = 0)%N as -> by lia.
    rewrite pretty_N_go_0. lia.
  - assert (x = 0 \/ 0 < x)%N as [->|?] by lia; [rewrite pretty_N_go_0; lia|].
    rewrite pretty_N_go_step by done.
    pose proof (IH (x `div` 10)%N (String (pretty_N_char (x `mod` 10)) s)) as H'. simpl in H'.
    rewrite Nat2N.inj_succ, N.pow_succ_r' in Hx. apply N.Div0.div_lt_upper_bound in Hx.
    specialize (H' Hx). lia.
Qed.

(** A positive [int64] has at most 19 digits. *)
Lemma fmt_d_len z : 0 < z < 2 ^ 63 -> len (fmt_d z) <= 19.
Proof.
  intros Hz. destruct z as [|p|p]; [lia| |lia].
  change (fmt_d (Z.pos p)) with (pretty_N_go (N.pos p) ""). unfold len.
  pose proof (pretty_N_go_length 19 (N.pos p) "") as Hl. simpl String.length in Hl.
  assert (N.pos p < 10 ^ N.of_nat 19)%N as Hp; [|specialize (Hl Hp); lia].
  assert (2 ^ 63 < 10 ^ 19) by done. change (10 ^ N.of_nat 19)%N with (Z.to_N (10 ^ 19)). lia.
Qed.

Definition no_colon : string -> Prop := string_forall (fun c => c <> ":"%char).

Lemma fmt_d_no_colon z : no_colon (fmt_d z).
Proof. apply fmt_d_forall; [|done]. intros n. unfold pretty_N_char. by repeat case_match. Qed.

Lemma colon_split s1 t1 s2 t2 :
  no_colon s1 -> no_colon s2 -> s1 +:+ ":" +:+ t1 = s2 +:+ ":" +:+ t2 -> s1 = s2 /\ t1 = t2.
Proof.
  unfold String.app. revert s2. induction s1 as [|c s1 IH]; intros [|c2 s2] H1 H2 Heq; simpl in *.
  - by injection Heq as <-.
  - injection Heq as <- _. by destruct H2.
  - injection Heq as -> _. by destruct H1.
  - injection Heq as <- Heq. destruct H1 as [_ H1], H2 as [_ H2].
    destruct (IH s2 H1 H2 Heq) as [-> ->]. done.
Qed.

(** Strings of visible ASCII characters have nothing to trim. *)
Definition visible_byte (b : Z) : Prop := 33 <= b <= 126.
Definition visible : string -> Prop := string_forall (fun c => visible_byte (byte_of c)).

Lemma fmt_d_visible z : visible (fmt_d z).
Proof.
  apply fmt_d_forall; [|split; by vm_compute]. intros n. unfold visible_byte, pretty_N_char.
  repeat case_match; split; by vm_compute.
Qed.

Lemma visible_bytes s : visible s -> Forall visible_byte (string_bytes s).
Proof.
  unfold string_bytes. induction s as [|c s IH]; [constructor|]. intros [Hc Hs]. simpl. auto.
Qed.

Lemma visible_space_width a b c : (33 <= a <= 126 \/ a = -1) -> space_width a b c = 0%nat.
Proof. unfold space_width. intros Ha. repeat case_match; try done; lia. Qed.

Lemma visible_nth (l : bytes) i : Forall visible_byte l -> 33 <= nth_byte i l <= 126 \/ nth_byte i l = -1.
Proof.
  intros Hl. unfold nth_byte. destruct (l !! i) as [b|] eqn:Hb; [left|by right].
  exact (Forall_lookup_1 _ _ _ _ Hl Hb).
Qed.

Lemma visible_trimmed s : visible s -> trimmed s.
Proof.
  intros Hs%visible_bytes. unfold trimmed, TrimSpace.
  unfold trim_left. rewrite trim_fuel_id by (by apply visible_space_width, visible_nth).
  rewrite trim_right_id; [apply string_of_bytes_bytes|].
  assert (Forall visible_byte (reverse (string_bytes s))) as Hr by by apply Forall_reverse.
  unfold space_at_end. by rewrite !visible_space_width by (by apply visible_nth).
Qed.

(** * Go's [float64]

    The IEEE 754 binary64 numbers and their operations, rounding to nearest even, as the
    Standard Library of Rocq specifies them. The constant expressions of the source are
    exact rationals rounded once, which a division of integers is. *)

#[export] Instance spec_float_eq_dec : EqDecision spec_float.
Proof. solve_decision. Defined.

Definition float64 : Type := spec_float.

Definition float_of_int (n : Z) : float64 := binary_normalize 53 1024 n 0 false.

Definition float_add : float64 -> float64 -> float64 := SFadd 53 1024.
Definition float_sub : float64 -> float64 -> float64 := SFsub 53 1024.
Definition float_mul : float64 -> float64 -> float64 := SFmul 53 1024.
Definition float_div : float64 -> float64 -> float64 := SFdiv 53 1024.

(** The constant [n / d]. *)
Definition float_const (n d : Z) : float64 := float_div (float_of_int n) (float_of_int d).

Definition float_IsNaN (f : float64) : bool := match f with S754_nan => true | _ => false end.
Definition float_IsInf (f : float64) : bool := match f with S754_infinity _ => true | _ => false end.

(** A number that a [float64] holds: neither NaN nor infinite. *)
Definition float_finite (f : float64) : bool :=
  negb (float_IsNaN f) && negb (float_IsInf f) && valid_binary 53 1024 f.

Definition float_zero : float64 := S754_zero false.
Definition float_abs : float64 -> float64 := SFabs.
Definition float_sqrt : float64 -> float64 := SFsqrt 53 1024.
Definition float_eqb : float64 -> float64 -> bool := SFeqb.
Definition float_ltb : float64 -> float64 -> bool := SFltb.

(** The conversion to an integer, towards zero. *)
Definition float_trunc (f : float64) : Z :=
  match f with
  | S754_finite sign m e =>
      let n := if 0 <=? e then Z.pos m * 2 ^ e else Z.pos m / 2 ^ (- e) in
      if sign then - n else n
  | _ => 0
  end.
