(* ===== verification/GoHash.v ===== *)
(** * Go's [hash/fnv], [crypto/sha1], [crypto/sha256] and [crypto/md5]

    The hashes of the cache keys and of the embedded texts, on the bytes of a string, as
    their standards define them. *)
From Stdlib Require Import Ascii.
From S2P Require Import Prelude.
From S2P Require Import GoStd.

(** ** FNV-1a *)

Definition fnv1a (width prime offset : Z) (s : string) : Z :=
  foldl (fun h b => (Z.lxor h b * prime) mod 2 ^ width) offset (string_bytes s).

Definition fnv32a : string -> Z := fnv1a 32 16777619 2166136261.
Definition fnv64a : string -> Z := fnv1a 64 1099511628211 14695981039346656037.

(** ** SHA-1 *)

Definition word32 (z : Z) : Z := z mod 2 ^ 32.
Definition rotl (n w : Z) : Z := word32 (Z.lor (Z.shiftl w n) (Z.shiftr w (32 - n))).
Definition not32 (w : Z) : Z := Z.lxor w (2 ^ 32 - 1).

(** [n] in [k] bytes, the most significant first. *)
Definition big_endian (k : nat) (n : Z) : bytes :=
  (fun i => (n / 256 ^ Z.of_nat (k - 1 - i)) mod 256) <$> seq 0 k.

Definition word_of (l : bytes) : Z := foldl (fun w b => w * 256 + b) 0 l.

(** The message, a one bit, zeros, and its length in bits. *)
Definition sha1_pad (l : bytes) : bytes :=
  let n := Z.of_nat (length l) in
  l ++ [128] ++ replicate (Z.to_nat ((55 - n) mod 64)) 0 ++ big_endian 8 (8 * n).

Fixpoint chunks {A} (fuel k : nat) (l : list A) : list (list A) :=
  match fuel, l with
  | S fuel, _ :: _ => take k l :: chunks fuel k (drop k l)
  | _, _ => []
  end.

(** The eighty words of a block; the list holds the newest first. *)
Fixpoint sha1_extend (fuel : nat) (ws : list Z) : list Z :=
  match fuel with
  | O => reverse ws
  | S fuel =>
      let w i := default 0 (ws !! i) in
      sha1_extend fuel
        (rotl 1 (Z.lxor (Z.lxor (w 2%nat) (w 7%nat)) (Z.lxor (w 13%nat) (w 15%nat))) :: ws)
  end.

Record sha1_state := mkSha1 { sha_a : Z; sha_b : Z; sha_c : Z; sha_d : Z; sha_e : Z }.

Definition sha1_round (h : sha1_state) (tw : nat * Z) : sha1_state :=
  let '(t, w) := tw in
  let '(mkSha1 a b c d e) := h in
  let parity := Z.lxor b (Z.lxor c d) in
  let '(f, k) :=
    if (t <? 20)%nat then (Z.lor (Z.land b c) (Z.land (not32 b) d), 0x5A827999)
    else if (t <? 40)%nat then (parity, 0x6ED9EBA1)
    else if (t <? 60)%nat
    then (Z.lor (Z.land b c) (Z.lor (Z.land b d) (Z.land c d)), 0x8F1BBCDC)
    else (parity, 0xCA62C1D6) in
  mkSha1 (word32 (rotl 5 a + f + e + k + w)) a (rotl 30 b) c d.

Definition sha1_block (h : sha1_state) (block : bytes) : sha1_state :=
  let ws := sha1_extend 64 (reverse (word_of <$> chunks 16 4 block)) in
  let r := foldl sha1_round h (imap pair ws) in
  mkSha1 (word32 (sha_a h + sha_a r)) (word32 (sha_b h + sha_b r)) (word32 (sha_c h + sha_c r))
    (word32 (sha_d h + sha_d r)) (word32 (sha_e h + sha_e r)).

Definition sha1_sum (s : string) : bytes :=
  let l := sha1_pad (string_bytes s) in
  let h := foldl sha1_block (mkSha1 0x67452301 0xEFCDAB89 0x98BADCFE 0x10325476 0xC3D2E1F0)
             (chunks (length l) 64 l) in
  big_endian 4 (sha_a h) ++ big_endian 4 (sha_b h) ++ big_endian 4 (sha_c h)
  ++ big_endian 4 (sha_d h) ++ big_endian 4 (sha_e h).

(** ** SHA-256 *)

(** The first 64 primes, and the first 32 bits of the fractional part of their roots: the
    constants of the rounds are those of the cube roots, the initial words those of the square
    roots of the first eight. *)
Definition is_prime (n : Z) : bool := forallb (fun d => negb (n mod d =? 0)) (seqZ 2 (n - 2)).
Definition sha256_primes : list Z := Eval vm_compute in filter (fun n => is_prime n = true) (seqZ 2 310).

(** The greatest [r] below [2 ^ bits] above [acc] in the high bits with [r ^ k <= n]. *)
Fixpoint root_bits (k n : Z) (bits : nat) (acc : Z) : Z :=
  match bits with
  | O => acc
  | S bits =>
      let r := acc + 2 ^ Z.of_nat bits in
      root_bits k n bits (if r ^ k <=? n then r else acc)
  end.

Definition root_fraction (k p : Z) : Z := root_bits k (p * 2 ^ (32 * k)) 40 0 mod 2 ^ 32.

Definition sha256_k : list Z := Eval vm_compute in root_fraction 3 <$> sha256_primes.
Definition sha256_init : list Z := Eval vm_compute in root_fraction 2 <$> take 8 sha256_primes.

Definition rotr (n w : Z) : Z := rotl (32 - n) w.

Definition xor3 (a b c : Z) : Z := Z.lxor a (Z.lxor b c).

(** The sixty-four words of a block; the list holds the newest first. *)
Fixpoint sha256_extend (fuel : nat) (ws : list Z) : list Z :=
  match fuel with
  | O => reverse ws
  | S fuel =>
      let w i := default 0 (ws !! i) in
      let s0 := xor3 (rotr 7 (w 14%nat)) (rotr 18 (w 14%nat)) (Z.shiftr (w 14%nat) 3) in
      let s1 := xor3 (rotr 17 (w 1%nat)) (rotr 19 (w 1%nat)) (Z.shiftr (w 1%nat) 10) in
      sha256_extend fuel (word32 (w 15%nat + s0 + w 6%nat + s1) :: ws)
  end.

Definition sha256_round (h : list Z) (kw : Z * Z) : list Z :=
  match h with
  | [a; b; c; d; e; f; g; i] =>
      let s1 := xor3 (rotr 6 e) (rotr 11 e) (rotr 25 e) in
      let ch := Z.lxor (Z.land e f) (Z.land (not32 e) g) in
      let t1 := i + s1 + ch + kw.1 + kw.2 in
      let s0 := xor3 (rotr 2 a) (rotr 13 a) (rotr 22 a) in
      let maj := xor3 (Z.land a b) (Z.land a c) (Z.land b c) in
      [word32 (t1 + s0 + maj); a; b; c; word32 (d + t1); e; f; g]
  | _ => h
  end.

Definition sha256_block (h : list Z) (block : bytes) : list Z :=
  let ws := sha256_extend 48 (reverse (word_of <$> chunks 16 4 block)) in
  (fun p => word32 (p.1 + p.2)) <$> zip h (foldl sha256_round h (zip sha256_k ws)).

Definition sha256_sum (s : string) : bytes :=
  let l := sha1_pad (string_bytes s) in
  let h := foldl sha256_block sha256_init (chunks (length l) 64 l) in
  flat_map (big_endian 4) h.

(** ** MD5 *)

(** The first 32 bits of the fractional parts of the absolute sines of 1 to 64. *)
Definition md5_k : list Z :=
  [0xd76aa478; 0xe8c7b756; 0x242070db; 0xc1bdceee; 0xf57c0faf; 0x4787c62a; 0xa8304613; 0xfd469501;
   0x698098d8; 0x8b44f7af; 0xffff5bb1; 0x895cd7be; 0x6b901122; 0xfd987193; 0xa679438e; 0x49b40821;
   0xf61e2562; 0xc040b340; 0x265e5a51; 0xe9b6c7aa; 0xd62f105d; 0x02441453; 0xd8a1e681; 0xe7d3fbc8;
   0x21e1cde6; 0xc33707d6; 0xf4d50d87; 0x455a14ed; 0xa9e3e905; 0xfcefa3f8; 0x676f02d9; 0x8d2a4c8a;
   0xfffa3942; 0x8771f681; 0x6d9d6122; 0xfde5380c; 0xa4beea44; 0x4bdecfa9; 0xf6bb4b60; 0xbebfbc70;
   0x289b7ec6; 0xeaa127fa; 0xd4ef3085; 0x04881d05; 0xd9d4d039; 0xe6db99e5; 0x1fa27cf8; 0xc4ac5665;
   0xf4292244; 0x432aff97; 0xab9423a7; 0xfc93a039; 0x655b59c3; 0x8f0ccc92; 0xffeff47d; 0x85845dd1;
   0x6fa87e4f; 0xfe2ce6e0; 0xa3014314; 0x4e0811a1; 0xf7537e82; 0xbd3af235; 0x2ad7d2bb; 0xeb86d391].

Definition md5_shifts : list Z :=
  flat_map (fun row => row ++ row ++ row ++ row)
    [[7; 12; 17; 22]; [5; 9; 14; 20]; [4; 11; 16; 23]; [6; 10; 15; 21]].

(** [n] in [k] bytes, the least significant first. *)
Definition little_endian (k : nat) (n : Z) : bytes := reverse (big_endian k n).

Definition md5_pad (l : bytes) : bytes :=
  let n := Z.of_nat (length l) in
  l ++ [128] ++ replicate (Z.to_nat ((55 - n) mod 64)) 0 ++ little_endian 8 ((8 * n) mod 2 ^ 64).

(** Round [t] of a block of the words [ws]. *)
Definition md5_round (ws : list Z) (h : Z * Z * Z * Z) (t : nat) : Z * Z * Z * Z :=
  let '(a, b, c, d) := h in
  let '(f, g) :=
    if (t <? 16)%nat then (Z.lor (Z.land b c) (Z.land (not32 b) d), t)
    else if (t <? 32)%nat then (Z.lor (Z.land d b) (Z.land (not32 d) c), (5 * t + 1)%nat)
    else if (t <? 48)%nat then (Z.lxor b (Z.lxor c d), (3 * t + 5)%nat)
    else (Z.lxor c (Z.lor b (not32 d)), (7 * t)%nat) in
  let w := default 0 (ws !! (g mod 16)%nat) in
  (d, word32 (b + rotl (default 0 (md5_shifts !! t)) (word32 (a + f + default 0 (md5_k !! t) + w))), b, c).

Definition md5_block (h : Z * Z * Z * Z) (block : bytes) : Z * Z * Z * Z :=
  let ws := (fun w => word_of (reverse w)) <$> chunks 16 4 block in
  let '(a, b, c, d) := h in
  let '(a', b', c', d') := foldl (md5_round ws) h (seq 0 64) in
  (word32 (a + a'), word32 (b + b'), word32 (c + c'), word32 (d + d')).

Definition md5_sum (s : string) : bytes :=
  let l := md5_pad (string_bytes s) in
  let '(a, b, c, d) := foldl md5_block (0x67452301, 0xefcdab89, 0x98badcfe, 0x10325476)
                         (chunks (length l) 64 l) in
  little_endian 4 a ++ little_endian 4 b ++ little_endian 4 c ++ little_endian 4 d.

(** ** [encoding/hex] *)

Definition hex_digit (n : Z) : Ascii.ascii := chr (if n <? 10 then 48 + n else 87 + n).

Definition hex_EncodeToString (l : bytes) : string :=
  String.string_of_list_ascii (flat_map (fun b => [hex_digit (b / 16); hex_digit (b mod 16)]) l).

(** [hex.DecodeString] accepts the string. *)
Definition hex_valid (s : string) : bool :=
  (Z.of_nat (String.length s) mod 2 =? 0) &&
  forallb (fun b => (48 <=? b) && (b <=? 57) || (97 <=? b) && (b <=? 102) || (65 <=? b) && (b <=? 70))
    (string_bytes s).

Lemma fnv1a_range width prime offset s : 0 <= width -> 0 <= offset < 2 ^ width ->
  0 <= fnv1a width prime offset s < 2 ^ width.
Proof.
  intros Hw. unfold fnv1a. generalize (string_bytes s). intros l. revert offset.
  induction l as [|b l IH]; intros offset Ho; simpl; [done|].
  apply IH, Z.mod_pos_bound. lia.
Qed.

Lemma fnv32a_range s : 0 <= fnv32a s < 2 ^ 32.
Proof. apply fnv1a_range; lia. Qed.

Lemma big_endian_bytes k n : Forall is_byte (big_endian k n).
Proof. unfold big_endian. apply Forall_fmap, Forall_true. intros i. apply Z.mod_pos_bound. lia. Qed.

Lemma sha256_bytes s : Forall is_byte (sha256_sum s).
Proof.
  unfold sha256_sum. generalize (foldl sha256_block sha256_init (chunks (length (sha1_pad (string_bytes s))) 64
    (sha1_pad (string_bytes s)))).
  intros h. induction h as [|w h IH]; [constructor|]. apply Forall_app. split; [apply big_endian_bytes|exact IH].
Qed.

Lemma hex_digit_visible n : 0 <= n < 16 -> visible_byte (byte_of (hex_digit n)).
Proof.
  intros Hn. unfold hex_digit, visible_byte. rewrite byte_of_chr; destruct (Z.ltb_spec n 10); unfold is_byte; lia.
Qed.

Lemma hex_visible l : Forall is_byte l -> visible (hex_EncodeToString l).
Proof.
  unfold hex_EncodeToString, is_byte. induction 1 as [|b l Hb Hl IH]; [done|]. simpl.
  assert (0 <= b / 16 < 16) by (split; [apply Z.div_pos; lia|apply Z.div_lt_upper_bound; lia]).
  assert (0 <= b mod 16 < 16) by (apply Z.mod_pos_bound; lia).
  split; [by apply hex_digit_visible|split; [by apply hex_digit_visible|exact IH]].
Qed.

(** The vectors of the standards. *)
Example sha1_abc : hex_EncodeToString (sha1_sum "abc") = "a9993e364706816aba3e25717850c26c9cd0d89d"%string.
Proof. by vm_compute. Qed.

Example sha1_two_blocks :
  hex_EncodeToString (sha1_sum "abcdbcdecdefdefgefghfghighijhijkijkljklmklmnlmnomnopnopq")
  = "84983e441c3bd26ebaae4aa1f95129e5e54670f1"%string.
Proof. by vm_compute. Qed.

Example fnv32a_foobar : fnv32a "foobar" = 0xbf9cf968.
Proof. by vm_compute. Qed.

Example fnv64a_foobar : fnv64a "foobar" = 0x85944171f73967e8.
Proof. by vm_compute. Qed.

Example sha256_abc : hex_EncodeToString (sha256_sum "abc")
  = "ba7816bf8f01cfea414140de5dae2223b00361a396177a9cb410ff61f20015ad"%string.
Proof. by vm_compute. Qed.

Example md5_abc : hex_EncodeToString (md5_sum "abc") = "900150983cd24fb0d6963f7d28e17f72"%string.
Proof. by vm_compute. Qed.

Example md5_two_blocks :
  hex_EncodeToString (md5_sum "12345678901234567890123456789012345678901234567890123456789012345678901234567890")
  = "57edf4a22be3c955ac49da2e2107b67a"%string.
Proof. by vm_compute. Qed.
