(* ===== verification/GoConv.v ===== *)
(** * Go's [strconv], the verbs of [fmt], runes and the calendar of [time]

    Decimal numerals as they are printed and parsed, runes and UTF-8, splitting at colons, and
    dates of the proleptic Gregorian calendar. *)
From Stdlib Require Import Ascii.
From S2P Require Import Prelude.
From S2P Require Import GoStd.

(** ** Parsing numerals *)

Definition is_digit (b : Z) : bool := (48 <=? b) && (b <=? 57).

(** The loop of [ParseUint]: [None] is a syntax error; an overflow of 64 bits ends the loop
    with the greatest number. *)
Fixpoint parse_digits (acc : Z) (l : bytes) : option Z :=
  match l with
  | [] => Some acc
  | b :: l =>
      if negb (is_digit b) then None
      else
        let acc := acc * 10 + (b - 48) in
        if 2 ^ 64 <=? acc then Some (2 ^ 64 - 1) else parse_digits acc l
  end.

(** [strconv.ParseInt(s, 10, 64)]: the value and whether there was no error. *)
Definition ParseInt (s : string) : Z * bool :=
  let '(neg, l) := match string_bytes s with
    | 45 :: l => (true, l)
    | 43 :: l => (false, l)
    | l => (false, l)
    end in
  match l with
  | [] => (0, false)
  | _ =>
      match parse_digits 0 l with
      | None => (0, false)
      | Some un =>
          if negb neg && (2 ^ 63 <=? un) then (2 ^ 63 - 1, false)
          else if neg && (2 ^ 63 <? un) then (- 2 ^ 63, false)
          else (if neg then - un else un, true)
      end
  end.

(** [strconv.ParseUint(s, 10, 64)]; [None] is an error. *)
Fixpoint parse_uint (acc : Z) (l : bytes) : option Z :=
  match l with
  | [] => Some acc
  | b :: l =>
      let acc := acc * 10 + (b - 48) in
      if negb (is_digit b) || (2 ^ 64 <=? acc) then None else parse_uint acc l
  end.

Definition ParseUint (s : string) : option Z :=
  match string_bytes s with [] => None | l => parse_uint 0 l end.

(** [n, _ := strconv.Atoi(s)] *)
Definition Atoi (s : string) : Z := (ParseInt s).1.

(** A time whose year has four digits: [json.Marshal] fails for the others. *)
Definition json_time (t : Time) : bool := (- 31622400 * second <=? t) && (t <? 315537897600 * second).

(** ** [time.ParseDuration] *)

(** [leadingInt]: the number and what follows it; [None] is an overflow. *)
Fixpoint leading_int (x : Z) (l : bytes) : option (Z * bytes) :=
  match l with
  | b :: l' =>
      if negb (is_digit b) then Some (x, l) else
      if (2 ^ 63) / 10 <? x then None else
      let x := x * 10 + (b - 48) in
      if 2 ^ 63 <? x then None else leading_int x l'
  | [] => Some (x, [])
  end.

(** [leadingFraction]: the digits as a number, the power of ten they are divided by, and the
    rest; digits that do not fit are skipped. *)
Fixpoint leading_fraction (x scale : Z) (overflow : bool) (l : bytes) : Z * Z * bytes :=
  match l with
  | b :: l' =>
      if negb (is_digit b) then (x, scale, l) else
      if overflow then leading_fraction x scale true l' else
      if (2 ^ 63 - 1) / 10 <? x then leading_fraction x scale true l' else
      let y := x * 10 + (b - 48) in
      if 2 ^ 63 <? y then leading_fraction x scale true l' else leading_fraction y (scale * 10) false l'
  | [] => (x, scale, [])
  end.

(** The text up to the next digit or point. *)
Fixpoint leading_unit (l : bytes) : bytes * bytes :=
  match l with
  | b :: l' =>
      if (b =? 46) || is_digit b then ([], l) else let '(u, rest) := leading_unit l' in (b :: u, rest)
  | [] => ([], [])
  end.

(** [unitMap]; the micro sign comes in two code points. *)
Definition unit_nanoseconds (u : bytes) : option Z :=
  match u with
  | [110; 115] => Some 1
  | [117; 115] | [194; 181; 115] | [206; 188; 115] => Some (10 ^ 3)
  | [109; 115] => Some millisecond
  | [115] => Some second
  | [109] => Some minute
  | [104] => Some hour
  | _ => None
  end.

(** One number with its unit, in nanoseconds. *)
Definition duration_term (l : bytes) : option (Z * bytes) :=
  match l with
  | b :: _ =>
      if negb ((b =? 46) || is_digit b) then None else
      match leading_int 0 l with
      | None => None
      | Some (v, l1) =>
          let pre := negb (length l1 =? length l)%nat in
          let '(f, scale, post, l2) := match l1 with
            | 46 :: l1' =>
                let '(f, scale, l2) := leading_fraction 0 1 false l1' in
                (f, scale, negb (length l2 =? length l1')%nat, l2)
            | _ => (0, 1, false, l1)
            end in
          if negb pre && negb post then None else
          let '(u, rest) := leading_unit l2 in
          match unit_nanoseconds u with
          | None => None
          | Some unit_ =>
              if (2 ^ 63) / unit_ <? v then None else
              let v := v * unit_ + (if 0 <? f then
                float_trunc (float_mul (float_of_int f) (float_div (float_of_int unit_) (float_of_int scale)))
                else 0) in
              if 2 ^ 63 <? v then None else Some (v, rest)
          end
      end
  | [] => None
  end.

Fixpoint duration_terms (fuel : nat) (d : Z) (l : bytes) : option Z :=
  match fuel, l with
  | _, [] => Some d
  | O, _ => None
  | S fuel, _ =>
      match duration_term l with
      | None => None
      | Some (v, rest) =>
          let d := (d + v) mod 2 ^ 64 in
          if 2 ^ 63 <? d then None else duration_terms fuel d rest
      end
  end.

(** Each term takes a byte at least: the length of the text is fuel enough. *)
Definition ParseDuration (s : string) : option Z :=
  let '(neg, l) := match string_bytes s with
    | 45 :: l => (true, l)
    | 43 :: l => (false, l)
    | l => (false, l)
    end in
  match l with
  | [48] => Some 0
  | [] => None
  | _ =>
      match duration_terms (length l) 0 l with
      | None => None
      | Some d => if neg : bool then Some (- d) else if 2 ^ 63 - 1 <? d then None else Some d
      end
  end.

(** ** Printing *)

(** [%0wd]: zeros up to the width, after the sign. *)
Definition pad_zeros (width : nat) (s : string) : string :=
  String.string_of_list_ascii (replicate (width - String.length s) "0"%char) +:+ s.

Definition fmt_0d (width : nat) (z : Z) : string :=
  if z <? 0 then "-" +:+ pad_zeros (width - 1) (fmt_d (- z)) else pad_zeros width (fmt_d z).

(** [strings.TrimLeft(s, "0")] *)
Fixpoint trim_zeros (s : string) : string :=
  match s with
  | String "0"%char s => trim_zeros s
  | _ => s
  end.

(** [strings.Fields(s)]: the parts between runs of white space. *)
Fixpoint fields_from (fuel : nat) (current : bytes) (l : bytes) : list bytes :=
  let flush := match current with [] => [] | _ => [current] end in
  match fuel, l with
  | O, _ | _, [] => flush
  | S fuel, b :: rest =>
      match space_at_start l with
      | O => fields_from fuel (current ++ [b]) rest
      | width => flush ++ fields_from fuel [] (drop width l)
      end
  end.

Definition Fields (s : string) : list string :=
  let l := string_bytes s in string_of_bytes <$> fields_from (length l) [] l.

(** ** [unicode] and [unicode/utf8]

    The tables of Unicode are parameters: the class [Unicode]. *)

Class Unicode := {
  letter_or_number : Z -> bool;          (* \p{L} or \p{N} *)
  unicode_IsLetter : Z -> bool;
  unicode_IsDigit : Z -> bool;
  unicode_IsPunct : Z -> bool;
  unicode_IsSymbol : Z -> bool;
  unicode_ToLower : string -> string;
}.

Definition continuation (b : Z) : bool := (128 <=? b) && (b <? 192).

(** [utf8.DecodeRune] on well-formed sequences; anything else is U+FFFD of width 1. *)
Definition decode_rune (l : bytes) : Z * nat :=
  let a := nth_byte 0 l in
  let b := nth_byte 1 l in
  let c := nth_byte 2 l in
  let d := nth_byte 3 l in
  if a <? 128 then (a, 1%nat) else
  if (194 <=? a) && (a <? 224) && continuation b then ((a - 192) * 64 + (b - 128), 2%nat) else
  let r3 := (a - 224) * 4096 + (b - 128) * 64 + (c - 128) in
  if (224 <=? a) && (a <? 240) && continuation b && continuation c && (2048 <=? r3)
     && negb ((55296 <=? r3) && (r3 <? 57344)) then (r3, 3%nat) else
  let r4 := (a - 240) * 262144 + (b - 128) * 4096 + (c - 128) * 64 + (d - 128) in
  if (240 <=? a) && (a <? 245) && continuation b && continuation c && continuation d
     && (65536 <=? r4) && (r4 <? 1114112) then (r4, 4%nat) else (65533, 1%nat).

(** [range] over a string and the conversion to [[]rune]; every rune has a byte at least. *)
Fixpoint runes_from (fuel : nat) (l : bytes) : list Z :=
  match fuel, l with
  | O, _ | _, [] => []
  | S fuel, _ => let '(r, width) := decode_rune l in r :: runes_from fuel (drop width l)
  end.

Definition runes (s : string) : list Z := let l := string_bytes s in runes_from (length l) l.

(** [utf8.AppendRune] of a code point that [decode_rune] gives. *)
Definition encode_rune (r : Z) : bytes :=
  if r <? 128 then [r] else
  if r <? 2048 then [192 + r / 64; 128 + r mod 64] else
  if r <? 65536 then [224 + r / 4096; 128 + r / 64 mod 64; 128 + r mod 64] else
  [240 + r / 262144; 128 + r / 4096 mod 64; 128 + r / 64 mod 64; 128 + r mod 64].

Definition string_of_runes (l : list Z) : string := string_of_bytes (l ≫= encode_rune).

Definition unicode_IsSpace (r : Z) : bool :=
  (9 <=? r) && (r <=? 13) || (r =? 32) || (r =? 133) || (r =? 160) || (r =? 5760)
  || (8192 <=? r) && (r <=? 8202) || (r =? 8232) || (r =? 8233) || (r =? 8239) || (r =? 8287) || (r =? 12288).

(** [strings.Cut(s, ":")] *)
Fixpoint cut_colon (s : string) : option (string * string) :=
  match s with
  | EmptyString => None
  | String ":"%char s => Some (EmptyString, s)
  | String c s => '(a, b) ← cut_colon s; Some (String c a, b)
  end.

(** [strings.SplitN(s, ":", 3)] *)
Definition split3_colon (s : string) : list string :=
  match cut_colon s with
  | None => [s]
  | Some (a, r) =>
      match cut_colon r with
      | None => [a; r]
      | Some (b, c) => [a; b; c]
      end
  end.

(** ** The calendar *)

(** Year, month and day of the day with this number; day 0 is 1 January of year 1. The years
    of the computation begin in March. *)
Definition civil (day : Z) : Z * Z * Z :=
  let z := day + 306 in
  let era := z / 146097 in
  let doe := z mod 146097 in
  let yoe := (doe - doe / 1460 + doe / 36524 - doe / 146096) / 365 in
  let doy := doe - (365 * yoe + yoe / 4 - yoe / 100) in
  let mp := (5 * doy + 2) / 153 in
  let m := if mp <? 10 then mp + 3 else mp - 9 in
  (yoe + era * 400 + (if m <=? 2 then 1 else 0), m, doy - (153 * mp + 2) / 5 + 1).

(** [t.Format("200601021504")] *)
Definition FormatMinute (t : Time) : string :=
  let '(y, m, d) := civil (t / (24 * hour)) in
  fmt_0d 4 y +:+ fmt_0d 2 m +:+ fmt_0d 2 d +:+ fmt_0d 2 (t / hour mod 24)
  +:+ fmt_0d 2 (t / minute mod 60).

(** ** What is printed is parsed *)

Definition digits_value (acc : Z) (l : bytes) : Z := foldl (fun a b => a * 10 + (b - 48)) acc l.

Definition digits (l : bytes) : Prop := Forall (fun b => is_digit b = true) l.

Lemma digits_value_app acc l k : digits_value acc (l ++ k) = digits_value (digits_value acc l) k.
Proof. apply foldl_app. Qed.

Lemma digits_value_ge acc l : 0 <= acc -> digits l -> acc <= digits_value acc l.
Proof.
  intros Ha Hl. revert acc Ha. induction Hl as [|b l Hb Hl IH]; intros acc Ha; simpl; [lia|].
  unfold is_digit in Hb. etrans; [|apply IH]; lia.
Qed.

Lemma parse_digits_value acc l :
  0 <= acc -> digits l -> digits_value acc l < 2 ^ 64 -> parse_digits acc l = Some (digits_value acc l).
Proof.
  intros Ha Hl. revert acc Ha. induction Hl as [|b l Hb Hl IH]; intros acc Ha Hv; [done|].
  cbn [parse_digits]. rewrite Hb. cbn [negb]. unfold is_digit in Hb.
  assert (0 <= acc * 10 + (b - 48)) as Ha' by lia.
  pose proof (digits_value_ge _ _ Ha' Hl) as Hge. change (digits_value acc (b :: l)) with
    (digits_value (acc * 10 + (b - 48)) l) in *.
  destruct (Z.leb_spec (2 ^ 64) (acc * 10 + (b - 48))); [lia|]. by apply IH.
Qed.

Lemma string_bytes_app s t : string_bytes (s +:+ t) = string_bytes s ++ string_bytes t.
Proof.
  induction s as [|c s IH]; [done|].
  change (byte_of c :: string_bytes (s +:+ t) = byte_of c :: (string_bytes s ++ string_bytes t)).
  by rewrite IH.
Qed.

Lemma pretty_char_digit n : (n < 10)%N -> byte_of (pretty_N_char n) = 48 + Z.of_N n.
Proof. intros Hn. destruct n as [|p]; [done|]. do 4 (destruct p as [p|p|]; try done); lia. Qed.

Lemma pretty_N_digits (n : N) (s : string) : exists ds,
  string_bytes (pretty_N_go n s) = ds ++ string_bytes s /\ digits ds /\
  digits_value 0 ds = Z.of_N n /\ (n <> 0%N -> ds <> []).
Proof.
  revert s. induction (N.lt_wf_0 n) as [n _ IH]; intros s.
  assert (n = 0 \/ 0 < n)%N as [->|Hn] by lia.
  { exists []. by repeat constructor. }
  rewrite pretty_N_go_step by done.
  destruct (IH (n / 10)%N (N.div_lt n 10 Hn eq_refl) (String (pretty_N_char (n mod 10)) s))
    as (ds & Hb & Hd & Hv & _).
  assert (n mod 10 < 10)%N as Hm by by apply N.mod_lt.
  exists (ds ++ [byte_of (pretty_N_char (n mod 10))]). rewrite pretty_char_digit in * by done. split_and!.
  - rewrite Hb, <-app_assoc. unfold string_bytes. simpl. by rewrite pretty_char_digit.
  - apply Forall_app. split; [done|]. apply Forall_singleton. unfold is_digit.
    generalize dependent (n mod 10)%N. intros m _ Hm. apply andb_true_iff. split; apply Z.leb_le; lia.
  - rewrite digits_value_app, Hv. simpl. pose proof (N.div_mod n 10). lia.
  - intros _ Hnil. by apply app_nil in Hnil as [_ ?].
Qed.

Lemma fmt_d_digits z : 0 <= z -> exists ds,
  string_bytes (fmt_d z) = ds /\ digits ds /\ digits_value 0 ds = z /\ ds <> [].
Proof.
  intros Hz. destruct z as [|p|p]; [|..]; [by exists [48]; repeat constructor| |lia].
  change (fmt_d (Z.pos p)) with (pretty_N_go (N.pos p) "").
  destruct (pretty_N_digits (N.pos p) "") as (ds & Hb & Hd & Hv & Hn).
  exists ds. rewrite Hb. unfold string_bytes. simpl. rewrite app_nil_r. split_and!; [done..|by apply Hn].
Qed.

Lemma digits_no_sign l : digits l -> forall b k, l = b :: k -> b <> 45 /\ b <> 43.
Proof. intros Hl b k ->. apply Forall_cons in Hl as [Hb _]. unfold is_digit in Hb. lia. Qed.

(** A text of digits is parsed to its value. *)
Lemma ParseInt_digits s : digits (string_bytes s) -> s <> ""%string ->
  digits_value 0 (string_bytes s) < 2 ^ 63 -> ParseInt s = (digits_value 0 (string_bytes s), true).
Proof.
  intros Hd Hne Hv. unfold ParseInt. destruct (string_bytes s) as [|b l] eqn:Hb.
  { apply (f_equal string_of_bytes) in Hb. by rewrite string_of_bytes_bytes in Hb. }
  destruct (digits_no_sign _ Hd b l eq_refl) as [H45 H43].
  assert ((match b :: l with 45 :: l => (true, l) | 43 :: l => (false, l) | l => (false, l) end)
    = (false, b :: l)) as -> by (repeat case_match; try done; lia).
  rewrite parse_digits_value by (done || lia).
  destruct (Z.leb_spec (2 ^ 63) (digits_value 0 (b :: l))); [lia|]. done.
Qed.

Lemma ParseInt_fmt_d z : - 2 ^ 63 <= z < 2 ^ 63 -> ParseInt (fmt_d z) = (z, true).
Proof.
  intros Hz. destruct (Z.leb_spec 0 z) as [Hp|Hn].
  - destruct (fmt_d_digits z Hp) as (ds & Hb & Hd & Hv & Hne).
    rewrite ParseInt_digits; [by rewrite Hb, Hv|by rewrite Hb| |rewrite Hb; lia].
    intros He. by rewrite He in Hb.
  - destruct z as [|p|p]; try lia.
    assert (string_bytes (fmt_d (Z.neg p)) = 45 :: string_bytes (fmt_d (Z.pos p))) as Hb by done.
    destruct (fmt_d_digits (Z.pos p)) as (ds & Hds & Hd & Hv & Hne); [lia|].
    unfold ParseInt. rewrite Hb, Hds. destruct ds as [|d ds]; [done|].
    rewrite parse_digits_value by (done || lia). rewrite Hv. cbn [negb andb].
    destruct (Z.ltb_spec (2 ^ 63) (Z.pos p)); [lia|]. done.
Qed.

Lemma Atoi_fmt_d z : - 2 ^ 63 <= z < 2 ^ 63 -> Atoi (fmt_d z) = z.
Proof. intros Hz. unfold Atoi. by rewrite ParseInt_fmt_d. Qed.

(** Leading zeros do not change the value. *)
Lemma trim_zeros_value s : digits (string_bytes s) ->
  digits (string_bytes (trim_zeros s)) /\
  digits_value 0 (string_bytes (trim_zeros s)) = digits_value 0 (string_bytes s).
Proof.
  induction s as [|c s IH]; intros Hd; [done|]. change (string_bytes (String c s)) with
    (byte_of c :: string_bytes s) in *.
  destruct (decide (c = "0"%char)) as [->|Hc].
  - apply Forall_cons in Hd as [_ Hd]. by apply IH.
  - assert (trim_zeros (String c s) = String c s) as ->; [|done].
    cbn [trim_zeros]. repeat case_match; try done; by destruct Hc.
Qed.

Lemma pad_zeros_digits width s : digits (string_bytes s) ->
  digits (string_bytes (pad_zeros width s)) /\
  digits_value 0 (string_bytes (pad_zeros width s)) = digits_value 0 (string_bytes s).
Proof.
  intros Hd. unfold pad_zeros. induction (width - String.length s)%nat as [|n [IHd IHv]]; [done|].
  rewrite string_bytes_app in *. split.
  - constructor; [done|exact IHd].
  - exact IHv.
Qed.

Lemma cut_colon_app s t : no_colon s -> cut_colon (s +:+ ":" +:+ t) = Some (s, t).
Proof.
  induction s as [|c s IH]; intros Hs; [done|]. destruct Hs as [Hc Hs]. specialize (IH Hs).
  change (String c s +:+ ":" +:+ t) with (String c (s +:+ ":" +:+ t)).
  assert (forall r, cut_colon (String c r) =
    ('(a, b) ← cut_colon r; Some (String c a, b))) as ->.
  { intros r. cbn [cut_colon]. repeat case_match; try done; by destruct Hc. }
  by rewrite IH.
Qed.

Example civil_2024_02_29 : civil (738944 + 0) = (2024, 2, 29).
Proof. done. Qed.

Example civil_1_1_1 : civil 0 = (1, 1, 1).
Proof. done. Qed.
