(* ===== verification/InteractionDomain.v ===== *)
(** * Interaction domain: likes, favourites and comments
    ([internal/domain/interaction]) *)
From S2P Require Import Prelude.
From S2P Require Import GoStd.

(** The error values of [error.go], with their texts. *)
Inductive interaction_error :=
  | ErrInvalidUserID | ErrInvalidVideoID | ErrInvalidCommentID | ErrInvalidActionType
  | ErrInvalidLimit | ErrInvalidCursor | ErrEmptyCommentContent | ErrCommentContentTooLong
  | ErrIdempotencyKeyTooLong | ErrVideoNotFound | ErrCommentNotFound
  | ErrCommentPermissionDenied.

#[export] Instance interaction_error_eq_dec : EqDecision interaction_error.
Proof. solve_decision. Defined.

Definition interaction_error_text (e : interaction_error) : string :=
  match e with
  | ErrInvalidUserID => "user id must be positive"
  | ErrInvalidVideoID => "video id must be positive"
  | ErrInvalidCommentID => "comment id must be positive"
  | ErrInvalidActionType => "action type is invalid"
  | ErrInvalidLimit => "limit must be positive"
  | ErrInvalidCursor => "cursor is invalid"
  | ErrEmptyCommentContent => "comment content is required"
  | ErrCommentContentTooLong => "comment content is too long"
  | ErrIdempotencyKeyTooLong => "idempotency key is too long"
  | ErrVideoNotFound => "video not found"
  | ErrCommentNotFound => "comment not found"
  | ErrCommentPermissionDenied => "comment permission denied"
  end.

Definition ActionTypeLike : string := "LIKE".
Definition ActionTypeFavorite : string := "FAVORITE".
Definition ActionStatusActive : Z := 1.
Definition ActionStatusCanceled : Z := 2.
Definition CommentStatusNormal : Z := 1.
Definition CommentStatusDeleted : Z := 2.
Definition MaxCommentContentLength : Z := 1000.
Definition MaxIdempotencyKeyLength : Z := 128.
Definition MaxLimit : Z := 100.

Record Action := mkAction {
  a_ID : Z;
  a_UserID : Z;
  a_VideoID : Z;
  a_ActionType : string;
  a_Status : Z;
  a_IdempotencyKey : string;
  a_CreatedAt : Time;
  a_UpdatedAt : Time;
}.

Record Comment := mkComment {
  c_ID : Z;
  c_VideoID : Z;
  c_UserID : Z;
  c_UserNickname : string;
  c_UserAvatarURL : string;
  c_Content : string;
  c_Status : Z;
  c_IdempotencyKey : string;
  c_CreatedAt : Time;
  c_UpdatedAt : Time;
}.

Record CommentCursor := mkCommentCursor { cc_CreatedAt : Time; cc_CommentID : Z }.

Record VideoStat := mkVideoStat {
  vs_VideoID : Z;
  vs_LikeCount : Z;
  vs_CommentCount : Z;
  vs_FavoriteCount : Z;
}.

Record UserProfile := mkUserProfile { up_ID : Z; up_Nickname : string; up_AvatarURL : string }.

Definition NormalizeActionType (value : string) : interaction_error + string :=
  let value := ToUpper (TrimSpace value) in
  if negb (String.eqb value ActionTypeLike) && negb (String.eqb value ActionTypeFavorite)
  then inl ErrInvalidActionType
  else inr value.

Definition NewComment (videoID userID : Z) (content idempotencyKey : string)
    : interaction_error + Comment :=
  if videoID <=? 0 then inl ErrInvalidVideoID else
  if userID <=? 0 then inl ErrInvalidUserID else
  let content := TrimSpace content in
  let idempotencyKey := TrimSpace idempotencyKey in
  if String.eqb content "" then inl ErrEmptyCommentContent else
  if MaxCommentContentLength <? len content then inl ErrCommentContentTooLong else
  if MaxIdempotencyKeyLength <? len idempotencyKey then inl ErrIdempotencyKeyTooLong else
  inr {| c_ID := 0; c_VideoID := videoID; c_UserID := userID; c_UserNickname := "";
         c_UserAvatarURL := ""; c_Content := content; c_Status := CommentStatusNormal;
         c_IdempotencyKey := idempotencyKey; c_CreatedAt := 0; c_UpdatedAt := 0 |}.

Definition RestoreAction (id userID videoID : Z) (actionType : string) (status : Z)
    (idempotencyKey : string) (createdAt updatedAt : Time) : Action :=
  let actionType := match NormalizeActionType actionType with inl _ => ""%string | inr t => t end in
  let idempotencyKey := TrimSpace idempotencyKey in
  let status := if status =? 0 then ActionStatusActive else status in
  {| a_ID := id; a_UserID := userID; a_VideoID := videoID; a_ActionType := actionType;
     a_Status := status; a_IdempotencyKey := idempotencyKey; a_CreatedAt := createdAt;
     a_UpdatedAt := updatedAt |}.

Definition RestoreComment (id videoID userID : Z) (userNickname userAvatarURL content : string)
    (status : Z) (idempotencyKey : string) (createdAt updatedAt : Time) : Comment :=
  let content := TrimSpace content in
  let idempotencyKey := TrimSpace idempotencyKey in
  let status := if status =? 0 then CommentStatusNormal else status in
  {| c_ID := id; c_VideoID := videoID; c_UserID := userID;
     c_UserNickname := TrimSpace userNickname; c_UserAvatarURL := TrimSpace userAvatarURL;
     c_Content := content; c_Status := status; c_IdempotencyKey := idempotencyKey;
     c_CreatedAt := createdAt; c_UpdatedAt := updatedAt |}.

Definition Active (a : Action) : bool := a_Status a =? ActionStatusActive.

Definition Deleted (c : Comment) : bool := c_Status c =? CommentStatusDeleted.

(** ** Lemmas *)

(** What [NewComment] promises of the comments it returns. *)
Record comment_ok (c : Comment) : Prop := {
  ok_video : 0 < c_VideoID c;
  ok_user : 0 < c_UserID c;
  ok_content_trimmed : trimmed (c_Content c);
  ok_content_len : 0 < len (c_Content c) <= MaxCommentContentLength;
  ok_key_trimmed : trimmed (c_IdempotencyKey c);
  ok_key_len : len (c_IdempotencyKey c) <= MaxIdempotencyKeyLength;
  ok_normal : c_Status c = CommentStatusNormal;
}.

Lemma NewComment_ok v u content key c : NewComment v u content key = inr c -> comment_ok c.
Proof.
  unfold NewComment. repeat case_match; intros; simplify_eq.
  split; simpl; try apply TrimSpace_trimmed; try lia.
  pose proof (len_nonneg (TrimSpace content)).
  assert (len (TrimSpace content) <> 0).
  { intros Hz%len_empty. by rewrite Hz in *. }
  lia.
Qed.

Lemma NewComment_fields v u content key c :
  NewComment v u content key = inr c ->
  c_VideoID c = v /\ c_UserID c = u /\ c_IdempotencyKey c = TrimSpace key.
Proof. unfold NewComment. repeat case_match; intros; by simplify_eq. Qed.

Lemma NormalizeActionType_cases s t :
  NormalizeActionType s = inr t -> t = ActionTypeLike \/ t = ActionTypeFavorite.
Proof.
  unfold NormalizeActionType. repeat case_match; intros; simplify_eq.
  destruct (String.eqb_spec (ToUpper (TrimSpace s)) ActionTypeLike) as [->|]; [by left|].
  destruct (String.eqb_spec (ToUpper (TrimSpace s)) ActionTypeFavorite) as [->|]; [by right|].
  done.
Qed.

Lemma NormalizeActionType_idemp s t :
  NormalizeActionType s = inr t -> NormalizeActionType t = inr t.
Proof. by intros [-> | ->]%NormalizeActionType_cases. Qed.
