(* ===== verification/RelationDomain.v ===== *)
(** * Relation domain: follows and follower counts ([internal/domain/relation]) *)
From S2P Require Import Prelude.
From S2P Require Import GoStd.

Inductive relation_error :=
  | ErrInvalidUserID | ErrInvalidTargetUserID | ErrFollowSelfForbidden | ErrInvalidLimit
  | ErrInvalidCursor | ErrIdempotencyKeyTooLong | ErrTargetUserNotFound | ErrFollowNotFound.

#[export] Instance relation_error_eq_dec : EqDecision relation_error.
Proof. solve_decision. Defined.

Definition relation_error_text (e : relation_error) : string :=
  match e with
  | ErrInvalidUserID => "user id must be positive"
  | ErrInvalidTargetUserID => "target user id must be positive"
  | ErrFollowSelfForbidden => "follow self forbidden"
  | ErrInvalidLimit => "limit must be positive"
  | ErrInvalidCursor => "cursor is invalid"
  | ErrIdempotencyKeyTooLong => "idempotency key is too long"
  | ErrTargetUserNotFound => "target user not found"
  | ErrFollowNotFound => "follow not found"
  end.

Definition FollowStatusActive : Z := 1.
Definition FollowStatusCanceled : Z := 2.
Definition MaxIdempotencyKeyLength : Z := 128.
Definition MaxLimit : Z := 100.

Record Follow := mkFollow {
  f_ID : Z;
  f_UserID : Z;
  f_TargetUserID : Z;
  f_Status : Z;
  f_IdempotencyKey : string;
  f_CreatedAt : Time;
  f_UpdatedAt : Time;
}.

Record RelationStat := mkRelationStat {
  rs_UserID : Z;
  rs_FollowingCount : Z;
  rs_FollowerCount : Z;
  rs_CreatedAt : Time;
  rs_UpdatedAt : Time;
}.

Record UserItem := mkUserItem {
  ui_UserID : Z;
  ui_Nickname : string;
  ui_AvatarURL : string;
  ui_Bio : string;
  ui_FollowedAt : Time;
}.

Record RelationProfile := mkRelationProfile {
  rp_UserID : Z;
  rp_Nickname : string;
  rp_AvatarURL : string;
  rp_Bio : string;
}.

Record ListCursor := mkListCursor { lc_FollowedAt : Time; lc_UserID : Z }.

Definition NewFollow (userID targetUserID : Z) (idempotencyKey : string)
    : relation_error + Follow :=
  if userID <=? 0 then inl ErrInvalidUserID else
  if targetUserID <=? 0 then inl ErrInvalidTargetUserID else
  if userID =? targetUserID then inl ErrFollowSelfForbidden else
  let idempotencyKey := TrimSpace idempotencyKey in
  if MaxIdempotencyKeyLength <? len idempotencyKey then inl ErrIdempotencyKeyTooLong else
  inr {| f_ID := 0; f_UserID := userID; f_TargetUserID := targetUserID;
         f_Status := FollowStatusActive; f_IdempotencyKey := idempotencyKey;
         f_CreatedAt := 0; f_UpdatedAt := 0 |}.

Definition RestoreFollow (id userID targetUserID status : Z) (idempotencyKey : string)
    (createdAt updatedAt : Time) : Follow :=
  let idempotencyKey := TrimSpace idempotencyKey in
  let status := if status =? 0 then FollowStatusActive else status in
  {| f_ID := id; f_UserID := userID; f_TargetUserID := targetUserID; f_Status := status;
     f_IdempotencyKey := idempotencyKey; f_CreatedAt := createdAt; f_UpdatedAt := updatedAt |}.

Definition clampCount (value : Z) : Z := if value <? 0 then 0 else value.

Definition RestoreRelationStat (userID followingCount followerCount : Z)
    (createdAt updatedAt : Time) : RelationStat :=
  {| rs_UserID := userID; rs_FollowingCount := clampCount followingCount;
     rs_FollowerCount := clampCount followerCount; rs_CreatedAt := createdAt;
     rs_UpdatedAt := updatedAt |}.

Definition RestoreUserItem (userID : Z) (nickname avatarURL bio : string) (followedAt : Time)
    : UserItem :=
  {| ui_UserID := userID; ui_Nickname := TrimSpace nickname;
     ui_AvatarURL := TrimSpace avatarURL; ui_Bio := TrimSpace bio;
     ui_FollowedAt := followedAt |}.

Definition RestoreUserProfile (userID : Z) (nickname avatarURL bio : string) : RelationProfile :=
  {| rp_UserID := userID; rp_Nickname := TrimSpace nickname;
     rp_AvatarURL := TrimSpace avatarURL; rp_Bio := TrimSpace bio |}.

Definition FollowActive (f : Follow) : bool := f_Status f =? FollowStatusActive.

(** ** Lemmas *)

Lemma clampCount_id v : 0 <= v -> clampCount v = v.
Proof. unfold clampCount. case_match; lia. Qed.

Lemma clampCount_nonneg v : 0 <= clampCount v.
Proof. unfold clampCount. case_match; lia. Qed.

Lemma NewFollow_inv u t key f :
  NewFollow u t key = inr f ->
  0 < u /\ 0 < t /\ u <> t /\ len (TrimSpace key) <= MaxIdempotencyKeyLength.
Proof. unfold NewFollow. repeat case_match; intros; simplify_eq. lia. Qed.
