(* ===== verification/VideoDomain.v ===== *)
(** * Video domain ([internal/domain/video]) *)
From S2P Require Import Prelude.
From S2P Require Import GoStd.

Inductive video_error :=
  | ErrInvalidVideoID | ErrInvalidAuthorID | ErrEmptyTitle | ErrTitleTooLong
  | ErrDescriptionTooLong | ErrEmptyMediaURL | ErrEmptyCoverURL | ErrIdempotencyKeyTooLong
  | ErrInvalidLimit | ErrInvalidOffset | ErrVideoNotFound | ErrVideoPermissionDenied
  | ErrDuplicateIdempotencyKey.

#[export] Instance video_error_eq_dec : EqDecision video_error.
Proof. solve_decision. Defined.

Definition video_error_text (e : video_error) : string :=
  match e with
  | ErrInvalidVideoID => "video id must be positive"
  | ErrInvalidAuthorID => "author id must be positive"
  | ErrEmptyTitle => "title is required"
  | ErrTitleTooLong => "title is too long"
  | ErrDescriptionTooLong => "description is too long"
  | ErrEmptyMediaURL => "media url is required"
  | ErrEmptyCoverURL => "cover url is required"
  | ErrIdempotencyKeyTooLong => "idempotency key is too long"
  | ErrInvalidLimit => "limit must be positive"
  | ErrInvalidOffset => "offset must be non-negative"
  | ErrVideoNotFound => "video not found"
  | ErrVideoPermissionDenied => "video permission denied"
  | ErrDuplicateIdempotencyKey => "duplicate idempotency key"
  end.

Definition StatusDraft : Z := 1.
Definition StatusPublished : Z := 2.
Definition StatusOffline : Z := 3.
Definition StatusDeleted : Z := 4.
Definition MaxTitleLength : Z := 160.
Definition MaxDescriptionLength : Z := 2000.
Definition MaxIdempotencyKeyLength : Z := 128.

Record Video := mkVideo {
  v_ID : Z;
  v_AuthorID : Z;
  v_Title : string;
  v_Description : string;
  v_MediaURL : string;
  v_CoverURL : string;
  v_Status : Z;
  v_LikeCount : Z;
  v_CommentCount : Z;
  v_FavoriteCount : Z;
  v_PublishedAt : option Time;
  v_CreatedAt : Time;
  v_UpdatedAt : Time;
  v_IdempotencyKey : string;
}.

(** [NewPublished]; [now] is what [time.Now()] returns in it. *)
Definition NewPublished (now : Time) (authorID : Z)
    (title description mediaURL coverURL idempotencyKey : string) : video_error + Video :=
  if authorID <=? 0 then inl ErrInvalidAuthorID else
  let title := TrimSpace title in
  let description := TrimSpace description in
  let mediaURL := TrimSpace mediaURL in
  let coverURL := TrimSpace coverURL in
  let idempotencyKey := TrimSpace idempotencyKey in
  if String.eqb title "" then inl ErrEmptyTitle else
  if MaxTitleLength <? len title then inl ErrTitleTooLong else
  if MaxDescriptionLength <? len description then inl ErrDescriptionTooLong else
  if String.eqb mediaURL "" then inl ErrEmptyMediaURL else
  if String.eqb coverURL "" then inl ErrEmptyCoverURL else
  if MaxIdempotencyKeyLength <? len idempotencyKey then inl ErrIdempotencyKeyTooLong else
  inr {| v_ID := 0; v_AuthorID := authorID; v_Title := title; v_Description := description;
         v_MediaURL := mediaURL; v_CoverURL := coverURL; v_Status := StatusPublished;
         v_LikeCount := 0; v_CommentCount := 0; v_FavoriteCount := 0;
         v_PublishedAt := Some now; v_CreatedAt := 0; v_UpdatedAt := 0;
         v_IdempotencyKey := idempotencyKey |}.

Definition RestoreVideo (id authorID : Z) (title description mediaURL coverURL : string)
    (status likeCount commentCount favoriteCount : Z) (publishedAt : option Time)
    (createdAt updatedAt : Time) (idempotencyKey : string) : Video :=
  let title := TrimSpace title in
  let description := TrimSpace description in
  let mediaURL := TrimSpace mediaURL in
  let coverURL := TrimSpace coverURL in
  let idempotencyKey := TrimSpace idempotencyKey in
  let status := if status =? 0 then StatusPublished else status in
  {| v_ID := id; v_AuthorID := authorID; v_Title := title; v_Description := description;
     v_MediaURL := mediaURL; v_CoverURL := coverURL; v_Status := status;
     v_LikeCount := likeCount; v_CommentCount := commentCount;
     v_FavoriteCount := favoriteCount; v_PublishedAt := publishedAt;
     v_CreatedAt := createdAt; v_UpdatedAt := updatedAt;
     v_IdempotencyKey := idempotencyKey |}.

Definition video_with_status (v : Video) (status : Z) : Video :=
  {| v_ID := v_ID v; v_AuthorID := v_AuthorID v; v_Title := v_Title v;
     v_Description := v_Description v; v_MediaURL := v_MediaURL v;
     v_CoverURL := v_CoverURL v; v_Status := status; v_LikeCount := v_LikeCount v;
     v_CommentCount := v_CommentCount v; v_FavoriteCount := v_FavoriteCount v;
     v_PublishedAt := v_PublishedAt v; v_CreatedAt := v_CreatedAt v;
     v_UpdatedAt := v_UpdatedAt v; v_IdempotencyKey := v_IdempotencyKey v |}.

(** The method mutates the video it is called on: the result is the video after it. *)
Definition DeleteBy (v : Video) (authorID : Z) : video_error + Video :=
  if authorID <=? 0 then inl ErrInvalidAuthorID else
  if negb (v_AuthorID v =? authorID) then inl ErrVideoPermissionDenied else
  if v_Status v =? StatusDeleted then inr v else
  inr (video_with_status v StatusDeleted).

(** ** Lemmas *)

Lemma DeleteBy_deletes v author v' :
  DeleteBy v author = inr v' ->
  v_Status v' = StatusDeleted /\ v_ID v' = v_ID v /\ v_AuthorID v = author /\ 0 < author.
Proof. unfold DeleteBy. repeat case_match; intros; simplify_eq/=; split_and!; try done; lia. Qed.

(** A new video has trimmed texts, no counts yet, and is published. *)
Lemma NewPublished_ok now a title desc media cover key v :
  NewPublished now a title desc media cover key = inr v ->
  trimmed (v_Title v) /\ trimmed (v_Description v) /\ trimmed (v_MediaURL v) /\
  trimmed (v_CoverURL v) /\ trimmed (v_IdempotencyKey v) /\ v_Status v = StatusPublished /\
  v_LikeCount v = 0 /\ v_FavoriteCount v = 0 /\ v_CommentCount v = 0.
Proof.
  unfold NewPublished. cbv zeta. repeat case_match; intros; simplify_eq/=.
  split_and!; try done; apply TrimSpace_trimmed.
Qed.

Lemma NewPublished_fields now a title desc media cover key v :
  NewPublished now a title desc media cover key = inr v ->
  v_AuthorID v = a /\ v_IdempotencyKey v = TrimSpace key /\ 0 < a.
Proof.
  unfold NewPublished. cbv zeta. repeat case_match; intros; simplify_eq/=. split_and!; try done. lia.
Qed.

Lemma DeleteBy_refuses v author err :
  0 < author -> DeleteBy v author = inl err -> err = ErrVideoPermissionDenied /\ v_AuthorID v <> author.
Proof.
  intros Ha. unfold DeleteBy. destruct (Z.leb_spec author 0); [lia|].
  destruct (Z.eqb_spec (v_AuthorID v) author); simpl; [by case_match|]. by intros [= <-].
Qed.
