(* ===== verification/MessageDomain.v ===== *)
(** * Message domain: in-site notifications ([internal/domain/message]) *)
From S2P Require Import Prelude.
From S2P Require Import GoStd.

Inductive message_error :=
  | ErrInvalidUserID | ErrInvalidMessageID | ErrInvalidLimit | ErrInvalidCursor
  | ErrInvalidMessageType | ErrEmptyTitle | ErrTitleTooLong | ErrEmptyContent
  | ErrContentTooLong | ErrEventIDTooLong | ErrIdempotencyKeyTooLong | ErrMessageNotFound.

#[export] Instance message_error_eq_dec : EqDecision message_error.
Proof. solve_decision. Defined.

Definition message_error_text (e : message_error) : string :=
  match e with
  | ErrInvalidUserID => "user id must be positive"
  | ErrInvalidMessageID => "message id must be positive"
  | ErrInvalidLimit => "limit must be positive"
  | ErrInvalidCursor => "cursor is invalid"
  | ErrInvalidMessageType => "message type is invalid"
  | ErrEmptyTitle => "title is required"
  | ErrTitleTooLong => "title is too long"
  | ErrEmptyContent => "content is required"
  | ErrContentTooLong => "content is too long"
  | ErrEventIDTooLong => "event id is too long"
  | ErrIdempotencyKeyTooLong => "idempotency key is too long"
  | ErrMessageNotFound => "message not found"
  end.

Definition TypeLike : string := "LIKE".
Definition TypeComment : string := "COMMENT".
Definition TypeFollow : string := "FOLLOW".
Definition TypeSystem : string := "SYSTEM".
Definition MaxTitleLength : Z := 128.
Definition MaxContentLength : Z := 1024.
Definition MaxEventIDLength : Z := 64.
Definition MaxIdempotencyKeyLength : Z := 128.
Definition MaxLimit : Z := 100.

Record Message := mkMessage {
  m_ID : Z;
  m_UserID : Z;
  m_Type : string;
  m_Title : string;
  m_Content : string;
  m_EventID : string;
  m_ActorID : Z;
  m_ActorNickname : string;
  m_ActorAvatarURL : string;
  m_IsRead : bool;
  m_CreatedAt : Time;
  m_ReadAt : option Time;
}.

Record MessageCursor := mkMessageCursor { mc_CreatedAt : Time; mc_MessageID : Z }.

Definition NormalizeType (value : string) : message_error + string :=
  let value := ToUpper (TrimSpace value) in
  if String.eqb value TypeLike || String.eqb value TypeComment
     || String.eqb value TypeFollow || String.eqb value TypeSystem
  then inr value
  else inl ErrInvalidMessageType.

(** [domainmessage.New]. *)
Definition NewMessage (userID : Z) (messageType title content eventID : string)
    : message_error + Message :=
  if userID <=? 0 then inl ErrInvalidUserID else
  match NormalizeType messageType with
  | inl err => inl err
  | inr messageType =>
      let title := TrimSpace title in
      let content := TrimSpace content in
      let eventID := TrimSpace eventID in
      if String.eqb title "" then inl ErrEmptyTitle else
      if MaxTitleLength <? len title then inl ErrTitleTooLong else
      if String.eqb content "" then inl ErrEmptyContent else
      if MaxContentLength <? len content then inl ErrContentTooLong else
      if MaxEventIDLength <? len eventID then inl ErrEventIDTooLong else
      inr {| m_ID := 0; m_UserID := userID; m_Type := messageType; m_Title := title;
             m_Content := content; m_EventID := eventID; m_ActorID := 0;
             m_ActorNickname := ""; m_ActorAvatarURL := ""; m_IsRead := false;
             m_CreatedAt := 0; m_ReadAt := None |}
  end.

(** The method mutates its receiver; the result is the message after it. *)
Definition WithActor (m : Message) (actorID : Z) (nickname avatarURL : string) : Message :=
  {| m_ID := m_ID m; m_UserID := m_UserID m; m_Type := m_Type m; m_Title := m_Title m;
     m_Content := m_Content m; m_EventID := m_EventID m;
     m_ActorID := if 0 <? actorID then actorID else m_ActorID m;
     m_ActorNickname := TrimSpace nickname; m_ActorAvatarURL := TrimSpace avatarURL;
     m_IsRead := m_IsRead m; m_CreatedAt := m_CreatedAt m; m_ReadAt := m_ReadAt m |}.

(** [domainmessage.Restore]: an unknown type becomes the empty string. *)
Definition RestoreMessage (id userID : Z) (messageType title content eventID : string)
    (isRead : bool) (createdAt : Time) (readAt : option Time) : Message :=
  let messageType := match NormalizeType messageType with inl _ => ""%string | inr t => t end in
  {| m_ID := id; m_UserID := userID; m_Type := messageType; m_Title := TrimSpace title;
     m_Content := TrimSpace content; m_EventID := TrimSpace eventID; m_ActorID := 0;
     m_ActorNickname := ""; m_ActorAvatarURL := ""; m_IsRead := isRead;
     m_CreatedAt := createdAt; m_ReadAt := readAt |}.

Definition RestoreWithActor (id userID : Z) (messageType title content eventID : string)
    (actorID : Z) (actorNickname actorAvatarURL : string) (isRead : bool)
    (createdAt : Time) (readAt : option Time) : Message :=
  let message := RestoreMessage id userID messageType title content eventID isRead createdAt readAt in
  WithActor message actorID actorNickname actorAvatarURL.

(** ** Lemmas *)

Lemma NormalizeType_idemp s t : NormalizeType s = inr t -> NormalizeType t = inr t.
Proof.
  unfold NormalizeType at 1. set (v := ToUpper (TrimSpace s)).
  destruct (String.eqb_spec v TypeLike) as [->|]; [by intros [= <-]|].
  destruct (String.eqb_spec v TypeComment) as [->|]; [by intros [= <-]|].
  destruct (String.eqb_spec v TypeFollow) as [->|]; [by intros [= <-]|].
  destruct (String.eqb_spec v TypeSystem) as [->|]; [by intros [= <-]|].
  done.
Qed.

(** What [NewMessage] promises of the messages it returns. *)
Record message_ok (m : Message) : Prop := {
  ok_user : 0 < m_UserID m;
  ok_type : NormalizeType (m_Type m) = inr (m_Type m);
  ok_title : trimmed (m_Title m) /\ 0 < len (m_Title m) <= MaxTitleLength;
  ok_content : trimmed (m_Content m) /\ 0 < len (m_Content m) <= MaxContentLength;
  ok_event : trimmed (m_EventID m) /\ len (m_EventID m) <= MaxEventIDLength;
}.

Lemma len_pos_eqb s : String.eqb s "" = false -> 0 < len s.
Proof.
  intros Hs. pose proof (len_nonneg s).
  assert (len s <> 0); [|lia]. intros Hz%len_empty. by rewrite Hz in *.
Qed.

Lemma NewMessage_ok u t title content ev m :
  NewMessage u t title content ev = inr m -> message_ok m.
Proof.
  unfold NewMessage. destruct (_ <=? 0) eqn:?; [done|].
  destruct (NormalizeType t) as [?|t'] eqn:Ht; [done|]. cbv zeta.
  repeat case_match; intros; simplify_eq.
  split; simpl; try lia; [by eapply NormalizeType_idemp|..]; split;
    eauto using TrimSpace_trimmed; try split; try lia; by apply len_pos_eqb.
Qed.

(** What [NewMessage] accepts. *)
Lemma NewMessage_accepts u t title content ev :
  0 < u -> NormalizeType t = inr t ->
  trimmed title -> 0 < len title <= MaxTitleLength ->
  trimmed content -> 0 < len content <= MaxContentLength ->
  trimmed ev -> len ev <= MaxEventIDLength ->
  exists m, NewMessage u t title content ev = inr m /\ m_UserID m = u /\ m_EventID m = ev /\
            m_Content m = content.
Proof.
  intros Hu Ht Htt Htl Hct Hcl Het Hel. unfold NewMessage. rewrite Ht, Htt, Hct, Het.
  assert (forall s, 0 < len s -> String.eqb s "" = false) as Hne.
  { intros s Hs. destruct (String.eqb_spec s "") as [->|]; [|done]. by vm_compute in Hs. }
  rewrite !Hne by lia.
  destruct (Z.leb_spec u 0); [lia|]. destruct (Z.ltb_spec MaxTitleLength (len title)); [lia|].
  destruct (Z.ltb_spec MaxContentLength (len content)); [lia|].
  destruct (Z.ltb_spec MaxEventIDLength (len ev)); [lia|]. by eexists.
Qed.
