(* ===== verification/ExposureDomain.v ===== *)
(** * Exposure domain: view events and exposure aggregates ([internal/domain/exposure]) *)
From S2P Require Import Prelude.
From S2P Require Import GoStd.

Inductive exposure_error :=
  | ErrInvalidUserID | ErrInvalidVideoID | ErrEmptyScene | ErrSceneTooLong
  | ErrInvalidEventType | ErrRequestIDTooLong | ErrWatchMsNegative | ErrVideoNotFound.

#[export] Instance exposure_error_eq_dec : EqDecision exposure_error.
Proof. solve_decision. Defined.

Definition exposure_error_text (e : exposure_error) : string :=
  match e with
  | ErrInvalidUserID => "user id must be positive"
  | ErrInvalidVideoID => "video id must be positive"
  | ErrEmptyScene => "scene is required"
  | ErrSceneTooLong => "scene is too long"
  | ErrInvalidEventType => "event type is invalid"
  | ErrRequestIDTooLong => "request id is too long"
  | ErrWatchMsNegative => "watch ms must be non-negative"
  | ErrVideoNotFound => "video not found"
  end.

Definition EventTypeExposed : string := "exposed".
Definition EventTypePlay : string := "play".
Definition EventTypeComplete : string := "complete".
Definition EventTypeSkip : string := "skip".
Definition MaxSceneLength : Z := 32.
Definition MaxRequestIDLength : Z := 64.

Record ViewEvent := mkViewEvent {
  e_ID : Z;
  e_UserID : Z;
  e_VideoID : Z;
  e_Scene : string;
  e_RequestID : string;
  e_EventType : string;
  e_WatchMs : Z;
  e_Completed : bool;
  e_CreatedAt : Time;
}.

Record Exposure := mkExposure {
  x_ID : Z;
  x_UserID : Z;
  x_VideoID : Z;
  x_FirstExposedAt : Time;
  x_LastExposedAt : Time;
  x_ExposureCount : Z;
  x_LastScene : string;
  x_CreatedAt : Time;
  x_UpdatedAt : Time;
}.

Definition isSupportedEventType (eventType : string) : bool :=
  String.eqb eventType EventTypeExposed || String.eqb eventType EventTypePlay
  || String.eqb eventType EventTypeComplete || String.eqb eventType EventTypeSkip.

Definition NewViewEvent (userID videoID : Z) (scene requestID eventType : string)
    (watchMs : Z) (completed : bool) : exposure_error + ViewEvent :=
  if userID <=? 0 then inl ErrInvalidUserID else
  if videoID <=? 0 then inl ErrInvalidVideoID else
  let scene := TrimSpace (ToLower scene) in
  let requestID := TrimSpace requestID in
  let eventType := TrimSpace (ToLower eventType) in
  if String.eqb scene "" then inl ErrEmptyScene else
  if MaxSceneLength <? len scene then inl ErrSceneTooLong else
  if MaxRequestIDLength <? len requestID then inl ErrRequestIDTooLong else
  if watchMs <? 0 then inl ErrWatchMsNegative else
  if negb (isSupportedEventType eventType) then inl ErrInvalidEventType else
  inr {| e_ID := 0; e_UserID := userID; e_VideoID := videoID; e_Scene := scene;
         e_RequestID := requestID; e_EventType := eventType; e_WatchMs := watchMs;
         e_Completed := completed || String.eqb eventType EventTypeComplete;
         e_CreatedAt := 0 |}.

Definition RestoreViewEvent (id userID videoID : Z) (scene requestID eventType : string)
    (watchMs : Z) (completed : bool) (createdAt : Time) : ViewEvent :=
  {| e_ID := id; e_UserID := userID; e_VideoID := videoID; e_Scene := TrimSpace scene;
     e_RequestID := TrimSpace requestID; e_EventType := TrimSpace eventType;
     e_WatchMs := watchMs; e_Completed := completed; e_CreatedAt := createdAt |}.

Definition RestoreExposure (id userID videoID : Z) (firstExposedAt lastExposedAt : Time)
    (exposureCount : Z) (lastScene : string) (createdAt updatedAt : Time) : Exposure :=
  {| x_ID := id; x_UserID := userID; x_VideoID := videoID; x_FirstExposedAt := firstExposedAt;
     x_LastExposedAt := lastExposedAt; x_ExposureCount := exposureCount;
     x_LastScene := TrimSpace lastScene; x_CreatedAt := createdAt; x_UpdatedAt := updatedAt |}.

Definition CountsAsExposure (e : option ViewEvent) : bool :=
  match e with None => false | Some e => String.eqb (e_EventType e) EventTypeExposed end.

(** ** Lemmas *)

(** What [NewViewEvent] promises of the events it returns. *)
Record view_event_ok (e : ViewEvent) : Prop := {
  ok_user : 0 < e_UserID e;
  ok_video : 0 < e_VideoID e;
  ok_scene : trimmed (e_Scene e) /\ e_Scene e <> "" /\ len (e_Scene e) <= MaxSceneLength;
  ok_request : trimmed (e_RequestID e) /\ len (e_RequestID e) <= MaxRequestIDLength;
  ok_type : isSupportedEventType (e_EventType e) = true;
  ok_watch : 0 <= e_WatchMs e;
  ok_complete : e_EventType e = EventTypeComplete -> e_Completed e = true;
}.

Lemma NewViewEvent_ok u v scene rid t w c e :
  NewViewEvent u v scene rid t w c = inr e -> view_event_ok e.
Proof.
  unfold NewViewEvent. cbv zeta. repeat case_match; intros; simplify_eq.
  split; simpl; try split_and!; try apply TrimSpace_trimmed; try lia.
  - intros Hs. by rewrite Hs in *.
  - by destruct (isSupportedEventType _).
  - intros ->. apply orb_true_r.
Qed.
