(* ===== verification/PlaybackDomain.v ===== *)
(** * Playback domain: client configuration and quality reports ([internal/domain/playback]) *)
From S2P Require Import Prelude.
From S2P Require Import GoStd.

Inductive playback_error :=
  | ErrInvalidUserID | ErrInvalidVideoID | ErrInvalidPlatform | ErrInvalidNetworkType
  | ErrInvalidLimit | ErrInvalidFirstFrameMs | ErrInvalidStutterCount | ErrInvalidWatchMs
  | ErrIdempotencyKeyTooLong.

#[export] Instance playback_error_eq_dec : EqDecision playback_error.
Proof. solve_decision. Defined.

Definition playback_error_text (e : playback_error) : string :=
  match e with
  | ErrInvalidUserID => "user id must be non-negative"
  | ErrInvalidVideoID => "video id must be positive"
  | ErrInvalidPlatform => "platform is invalid"
  | ErrInvalidNetworkType => "network type is invalid"
  | ErrInvalidLimit => "limit must be positive"
  | ErrInvalidFirstFrameMs => "first frame ms must be non-negative"
  | ErrInvalidStutterCount => "stutter count must be non-negative"
  | ErrInvalidWatchMs => "watch ms must be non-negative"
  | ErrIdempotencyKeyTooLong => "idempotency key is too long"
  end.

Definition PlatformWeb : string := "Web".
Definition NetworkDefault : string := "DEFAULT".
Definition DefaultPreloadCount : Z := 3.
Definition DefaultBufferMs : Z := 1200.
Definition MaxPreloadLimit : Z := 10.
Definition MaxPlatformLength : Z := 16.
Definition MaxNetworkTypeLength : Z := 16.
Definition MaxIdempotencyKeyLength : Z := 128.

Record Config := mkConfig {
  cf_ID : Z;
  cf_Platform : string;
  cf_NetworkType : string;
  cf_PreloadCount : Z;
  cf_BufferMs : Z;
  cf_UpdatedAt : Time;
}.

Record PreloadVideo := mkPreloadVideo {
  pv_VideoID : Z;
  pv_MediaURL : string;
  pv_CoverURL : string;
}.

Record QoSReport := mkQoSReport {
  q_ID : Z;
  q_UserID : Z;
  q_VideoID : Z;
  q_FirstFrameMs : option Z;
  q_StutterCount : Z;
  q_WatchMs : Z;
  q_IdempotencyKey : string;
  q_CreatedAt : Time;
}.

Definition NormalizePlatform (value : string) : string :=
  let value := TrimSpace value in
  if String.eqb value "" then PlatformWeb else value.

Definition NormalizeNetworkType (value : string) : string :=
  let value := TrimSpace value in
  if String.eqb value "" then NetworkDefault else
  let upper := ToUpper value in
  if String.eqb upper "WIFI" || String.eqb upper "WI-FI" then "WiFi"%string
  else if String.eqb upper "3G" then "3G"%string
  else if String.eqb upper "4G" then "4G"%string
  else if String.eqb upper "5G" then "5G"%string
  else if String.eqb upper NetworkDefault then NetworkDefault
  else upper.

Definition RestoreConfig (id : Z) (platform networkType : string)
    (preloadCount bufferMs : Z) (updatedAt : Time) : Config :=
  {| cf_ID := id; cf_Platform := NormalizePlatform platform;
     cf_NetworkType := NormalizeNetworkType networkType; cf_PreloadCount := preloadCount;
     cf_BufferMs := bufferMs; cf_UpdatedAt := updatedAt |}.

Definition DefaultConfig (now : Time) (platform networkType : string) : Config :=
  {| cf_ID := 0; cf_Platform := NormalizePlatform platform;
     cf_NetworkType := NormalizeNetworkType networkType;
     cf_PreloadCount := DefaultPreloadCount; cf_BufferMs := DefaultBufferMs;
     cf_UpdatedAt := now |}.

Definition RestorePreloadVideo (videoID : Z) (mediaURL coverURL : string) : PreloadVideo :=
  {| pv_VideoID := videoID; pv_MediaURL := TrimSpace mediaURL;
     pv_CoverURL := TrimSpace coverURL |}.

Definition NewQoSReport (userID videoID : Z) (firstFrameMs : option Z)
    (stutterCount watchMs : Z) (idempotencyKey : string) : playback_error + QoSReport :=
  if userID <? 0 then inl ErrInvalidUserID else
  if videoID <=? 0 then inl ErrInvalidVideoID else
  if match firstFrameMs with Some ms => ms <? 0 | None => false end
  then inl ErrInvalidFirstFrameMs else
  if stutterCount <? 0 then inl ErrInvalidStutterCount else
  if watchMs <? 0 then inl ErrInvalidWatchMs else
  let idempotencyKey := TrimSpace idempotencyKey in
  if MaxIdempotencyKeyLength <? len idempotencyKey then inl ErrIdempotencyKeyTooLong else
  inr {| q_ID := 0; q_UserID := userID; q_VideoID := videoID; q_FirstFrameMs := firstFrameMs;
         q_StutterCount := stutterCount; q_WatchMs := watchMs;
         q_IdempotencyKey := idempotencyKey; q_CreatedAt := 0 |}.

Definition RestoreQoSReport (id userID videoID : Z) (firstFrameMs : option Z)
    (stutterCount watchMs : Z) (idempotencyKey : string) (createdAt : Time) : QoSReport :=
  {| q_ID := id; q_UserID := userID; q_VideoID := videoID; q_FirstFrameMs := firstFrameMs;
     q_StutterCount := stutterCount; q_WatchMs := watchMs;
     q_IdempotencyKey := TrimSpace idempotencyKey; q_CreatedAt := createdAt |}.
