(* ===== verification/AccountDomain.v ===== *)
(** * Account domain: users and their credentials ([internal/domain/account])

    bcrypt is a third-party package: the class [Bcrypt] holds the two functions the
    code calls, [BcryptLaws] what it relies on. *)
From S2P Require Import Prelude.
From S2P Require Import GoStd.

Inductive account_error :=
  | ErrEmptyAccount | ErrEmptyPassword | ErrEmptyNickname | ErrInvalidUserID
  | ErrEmptyProfileUpdate | ErrUserNotFound | ErrAccountAlreadyExists
  | ErrInvalidCredentials | ErrHashPasswordFailed.

#[export] Instance account_error_eq_dec : EqDecision account_error.
Proof. solve_decision. Defined.

Definition account_error_text (e : account_error) : string :=
  match e with
  | ErrEmptyAccount => "account is required"
  | ErrEmptyPassword => "password is required"
  | ErrEmptyNickname => "nickname is required"
  | ErrInvalidUserID => "user id must be positive"
  | ErrEmptyProfileUpdate => "profile update is required"
  | ErrUserNotFound => "user not found"
  | ErrAccountAlreadyExists => "account already exists"
  | ErrInvalidCredentials => "invalid credentials"
  | ErrHashPasswordFailed => "hash password failed"
  end.

Definition RoleUser : string := "user".
Definition RoleAdmin : string := "admin".
Definition StatusNormal : Z := 1.

(** [GenerateFromPassword] draws a random salt, its first argument here, and fails
    on passwords it does not accept. *)
Class Bcrypt := {
  GenerateFromPassword : string -> string -> option string;
  CompareHashAndPassword : string -> string -> bool;
}.

Class BcryptLaws (B : Bcrypt) := {
  bcrypt_accepts : forall salt p h,
    GenerateFromPassword salt p = Some h -> CompareHashAndPassword h p = true;
  bcrypt_trimmed : forall salt p h, GenerateFromPassword salt p = Some h -> trimmed h;
}.

Record User := mkUser {
  u_ID : Z;
  u_Account : string;
  u_Password : string;
  u_Nickname : string;
  u_AvatarURL : string;
  u_Bio : string;
  u_Status : Z;
  u_Role : string;
  u_FollowingCount : Z;
  u_FollowerCount : Z;
  u_WorkCount : Z;
}.

Definition clampCount (value : Z) : Z := if value <? 0 then 0 else value.

Section with_bcrypt.
Context `{Bcrypt}.

(** [domainaccount.New]. *)
Definition NewUser (salt account password nickname : string) : account_error + User :=
  let account := TrimSpace account in
  let password := TrimSpace password in
  let nickname := TrimSpace nickname in
  if String.eqb account "" then inl ErrEmptyAccount else
  if String.eqb password "" then inl ErrEmptyPassword else
  if String.eqb nickname "" then inl ErrEmptyNickname else
  match GenerateFromPassword salt password with
  | None => inl ErrHashPasswordFailed
  | Some hashedPassword =>
      inr {| u_ID := 0; u_Account := account; u_Password := hashedPassword;
             u_Nickname := nickname; u_AvatarURL := ""; u_Bio := "";
             u_Status := StatusNormal; u_Role := RoleUser; u_FollowingCount := 0;
             u_FollowerCount := 0; u_WorkCount := 0 |}
  end.

Definition Authenticate (u : User) (password : string) : account_error + unit :=
  let password := TrimSpace password in
  if String.eqb password "" then inl ErrEmptyPassword else
  if CompareHashAndPassword (u_Password u) password then inr tt
  else inl ErrInvalidCredentials.
End with_bcrypt.

Definition RestoreUserWithStats (id : Z) (account password nickname avatarURL bio : string)
    (status : Z) (role : string) (followingCount followerCount workCount : Z) : User :=
  let role := TrimSpace role in
  {| u_ID := id; u_Account := TrimSpace account; u_Password := TrimSpace password;
     u_Nickname := TrimSpace nickname; u_AvatarURL := TrimSpace avatarURL;
     u_Bio := TrimSpace bio;
     u_Status := if status =? 0 then StatusNormal else status;
     u_Role := if String.eqb role "" then RoleUser else role;
     u_FollowingCount := clampCount followingCount;
     u_FollowerCount := clampCount followerCount; u_WorkCount := clampCount workCount |}.

Definition RestoreUser (id : Z) (account password nickname avatarURL bio : string)
    (status : Z) (role : string) : User :=
  RestoreUserWithStats id account password nickname avatarURL bio status role 0 0 0.

Definition user_with_profile (u : User) (nickname avatarURL bio : string) : User :=
  {| u_ID := u_ID u; u_Account := u_Account u; u_Password := u_Password u;
     u_Nickname := nickname; u_AvatarURL := avatarURL; u_Bio := bio;
     u_Status := u_Status u; u_Role := u_Role u; u_FollowingCount := u_FollowingCount u;
     u_FollowerCount := u_FollowerCount u; u_WorkCount := u_WorkCount u |}.

(** The method mutates its receiver; the result is the user after it. *)
Definition UpdateProfile (u : User) (nickname avatarURL bio : option string)
    : account_error + User :=
  match nickname, avatarURL, bio with
  | None, None, None => inl ErrEmptyProfileUpdate
  | _, _, _ =>
      match (match nickname with
             | None => inr (u_Nickname u)
             | Some n => let value := TrimSpace n in
                         if String.eqb value "" then inl ErrEmptyNickname else inr value
             end) with
      | inl err => inl err
      | inr nick =>
          inr (user_with_profile u nick
                 (match avatarURL with Some a => TrimSpace a | None => u_AvatarURL u end)
                 (match bio with Some b => TrimSpace b | None => u_Bio u end))
      end
  end.

(** ** Lemmas *)

Lemma account_clampCount_id n : 0 <= n -> clampCount n = n.
Proof. unfold clampCount. case_match; lia. Qed.

Lemma NewUser_inv `{Bcrypt} salt account password nickname u :
  NewUser salt account password nickname = inr u ->
  GenerateFromPassword salt (TrimSpace password) = Some (u_Password u) /\
  TrimSpace password <> "" /\ u_Role u = RoleUser /\ u_Status u = StatusNormal.
Proof.
  unfold NewUser. cbv zeta. repeat case_match; intros; simplify_eq/=.
  split_and!; try done. intros Hp. by rewrite Hp in *.
Qed.

Lemma NewUser_account `{Bcrypt} salt account password nickname u :
  NewUser salt account password nickname = inr u -> u_Account u = TrimSpace account.
Proof. unfold NewUser. cbv zeta. repeat case_match; intros; by simplify_eq/=. Qed.

Lemma NewUser_not_taken `{Bcrypt} salt account password nickname e :
  NewUser salt account password nickname = inl e -> e <> ErrAccountAlreadyExists.
Proof. unfold NewUser. cbv zeta. repeat case_match; intros; by simplify_eq/=. Qed.
