(* ===== verification/FeedDomain.v ===== *)
(** * Feed domain: pages, cards and cursors ([internal/domain/feed]) *)
From S2P Require Import Prelude.
From S2P Require Import GoStd.

Inductive feed_error := ErrInvalidLimit | ErrInvalidCursor | ErrUnsupportedScene | ErrViewerRequired.

#[export] Instance feed_error_eq_dec : EqDecision feed_error.
Proof. solve_decision. Defined.

Definition feed_error_text (e : feed_error) : string :=
  match e with
  | ErrInvalidLimit => "limit must be positive"
  | ErrInvalidCursor => "cursor is invalid"
  | ErrUnsupportedScene => "feed scene is unsupported"
  | ErrViewerRequired => "viewer is required"
  end.

Definition MaxLimit : Z := 100.
Definition BigCreatorFollowerThreshold : Z := 10000.

Definition SceneTimeline : string := "timeline".
Definition SceneRecommend : string := "recommend".
Definition SceneFollowing : string := "following".
Definition SceneHot : string := "hot".
Definition DefaultScene : string := SceneTimeline.

Record FeedItem := mkFeedItem {
  fi_VideoID : Z;
  fi_AuthorID : Z;
  fi_AuthorNickname : string;
  fi_AuthorAvatarURL : string;
  fi_Title : string;
  fi_Description : string;
  fi_MediaURL : string;
  fi_CoverURL : string;
  fi_LikeCount : Z;
  fi_CommentCount : Z;
  fi_FavoriteCount : Z;
  fi_Liked : bool;
  fi_Favorited : bool;
  fi_HotScore : Z;
  fi_PublishedAt : Time;
}.

Record FeedPageItem := mkFeedPageItem {
  pi_VideoID : Z;
  pi_AuthorID : Z;
  pi_PublishedAt : Time;
  pi_HotScore : Z;
}.

Record FeedCard := mkFeedCard {
  fc_VideoID : Z;
  fc_AuthorID : Z;
  fc_AuthorNickname : string;
  fc_AuthorAvatarURL : string;
  fc_Title : string;
  fc_Description : string;
  fc_MediaURL : string;
  fc_CoverURL : string;
  fc_PublishedAt : Time;
}.

Record FeedStat := mkFeedStat {
  fs_VideoID : Z;
  fs_LikeCount : Z;
  fs_CommentCount : Z;
  fs_FavoriteCount : Z;
}.

Record ViewerActionState := mkViewerActionState {
  va_VideoID : Z;
  va_Liked : bool;
  va_Favorited : bool;
}.

Record TimelineCursor := mkTimelineCursor { tc_PublishedAt : Time; tc_VideoID : Z }.

Record HotCursor := mkHotCursor {
  hc_HotScore : Z;
  hc_PublishedAt : Time;
  hc_VideoID : Z;
  hc_WindowEnd : Time;
  hc_Offset : Z;
}.

#[export] Instance FeedItem_eq_dec : EqDecision FeedItem.
Proof. solve_decision. Defined.
#[export] Instance FeedPageItem_eq_dec : EqDecision FeedPageItem.
Proof. solve_decision. Defined.
#[export] Instance FeedStat_eq_dec : EqDecision FeedStat.
Proof. solve_decision. Defined.

Definition NormalizeScene (scene : string) : string :=
  let value := TrimSpace (ToLower scene) in
  if String.eqb value "" then DefaultScene else value.

Definition ScoreHotFeedItem (likeCount commentCount favoriteCount : Z) : Z :=
  likeCount * 3 + commentCount * 5 + favoriteCount * 4.

Definition RestoreFeedItem (videoID authorID : Z)
    (authorNickname authorAvatarURL title description mediaURL coverURL : string)
    (likeCount commentCount favoriteCount : Z) (publishedAt : Time) : FeedItem :=
  {| fi_VideoID := videoID; fi_AuthorID := authorID;
     fi_AuthorNickname := TrimSpace authorNickname;
     fi_AuthorAvatarURL := TrimSpace authorAvatarURL; fi_Title := TrimSpace title;
     fi_Description := TrimSpace description; fi_MediaURL := TrimSpace mediaURL;
     fi_CoverURL := TrimSpace coverURL; fi_LikeCount := likeCount;
     fi_CommentCount := commentCount; fi_FavoriteCount := favoriteCount; fi_Liked := false;
     fi_Favorited := false;
     fi_HotScore := ScoreHotFeedItem likeCount commentCount favoriteCount;
     fi_PublishedAt := publishedAt |}.
