(* ===== verification/RecommendationDomain.v ===== *)
(** * Recommendation domain: candidates, cursors and exposure decisions
    ([internal/domain/recommendation]) *)
From S2P Require Import Prelude.
From S2P Require Import GoStd.

Inductive recommendation_error :=
  | ErrInvalidUserID | ErrInvalidVideoID | ErrInvalidLimit | ErrEmptyScene | ErrSceneTooLong
  | ErrRequestIDTooLong | ErrInvalidCursor | ErrVideoNotFound.

#[export] Instance recommendation_error_eq_dec : EqDecision recommendation_error.
Proof. solve_decision. Defined.

Definition recommendation_error_text (e : recommendation_error) : string :=
  match e with
  | ErrInvalidUserID => "invalid user id"
  | ErrInvalidVideoID => "invalid video id"
  | ErrInvalidLimit => "invalid limit"
  | ErrEmptyScene => "scene is required"
  | ErrSceneTooLong => "scene is too long"
  | ErrRequestIDTooLong => "request id is too long"
  | ErrInvalidCursor => "invalid cursor"
  | ErrVideoNotFound => "video not found"
  end.

Definition MaxLimit : Z := 100.
Definition MaxSceneLength : Z := 32.
Definition MaxRequestIDLength : Z := 64.
Definition RecentExposureWindow : Z := 7 * 24 * hour.
Definition ExposureDecisionReasonFresh : string := "fresh".
Definition ExposureDecisionReasonRecentlyExposed : string := "recently_exposed".

Record Cursor := mkCursor {
  rc_RankScore : float64;
  rc_PublishedAt : Time;
  rc_VideoID : Z;
}.

Record CandidateRequest := mkCandidateRequest {
  cr_UserID : Z;
  cr_Scene : string;
  cr_RequestID : string;
  cr_Cursor : option Cursor;
  cr_Limit : Z;
}.

Record Candidate := mkCandidate {
  cd_VideoID : Z;
  cd_AuthorID : Z;
  cd_RankScore : float64;
  cd_Similarity : float64;
  cd_HotScore : Z;
  cd_FreshnessScore : float64;
  cd_Reason : string;
  cd_PublishedAt : Time;
}.

Record ExposureWrite := mkExposureWrite {
  ew_UserID : Z;
  ew_VideoID : Z;
  ew_Scene : string;
  ew_RequestID : string;
}.

Record ExposureDecisionRequest := mkExposureDecisionRequest {
  dr_UserID : Z;
  dr_Scene : string;
  dr_RequestID : string;
  dr_VideoIDs : list Z;
}.

Record RecExposure := mkRecExposure {
  re_ID : Z;
  re_UserID : Z;
  re_VideoID : Z;
  re_FirstExposedAt : Time;
  re_LastExposedAt : Time;
  re_ExposureCount : Z;
  re_LastScene : string;
}.

Record ExposureDecision := mkExposureDecision {
  ed_VideoID : Z;
  ed_Allowed : bool;
  ed_Reason : string;
  ed_LastExposedAt : option Time;
}.

(** [(c *Cursor).Valid()]; a nil cursor is not valid. *)
Definition Valid (c : option Cursor) : bool :=
  match c with
  | None => false
  | Some c => (0 <? rc_VideoID c) && negb (time_IsZero (rc_PublishedAt c))
              && negb (float_IsNaN (rc_RankScore c)) && negb (float_IsInf (rc_RankScore c))
  end.

Definition NewCandidateRequest (userID : Z) (scene requestID : string) (cursor : option Cursor)
    (limit : Z) : recommendation_error + CandidateRequest :=
  if userID <=? 0 then inl ErrInvalidUserID else
  let scene := TrimSpace (ToLower scene) in
  let requestID := TrimSpace requestID in
  if String.eqb scene "" then inl ErrEmptyScene else
  if MaxSceneLength <? len scene then inl ErrSceneTooLong else
  if MaxRequestIDLength <? len requestID then inl ErrRequestIDTooLong else
  if (limit <=? 0) || (MaxLimit <? limit) then inl ErrInvalidLimit else
  if match cursor with Some _ => negb (Valid cursor) | None => false end
  then inl ErrInvalidCursor else
  inr {| cr_UserID := userID; cr_Scene := scene; cr_RequestID := requestID;
         cr_Cursor := cursor; cr_Limit := limit |}.

(** The loop of [NewExposureDecisionRequest]: it stops at the first id that is not
    positive. *)
Fixpoint dedup_video_ids (seen ids : list Z) : recommendation_error + list Z :=
  match ids with
  | [] => inr []
  | videoID :: ids' =>
      if videoID <=? 0 then inl ErrInvalidVideoID else
      if bool_decide (videoID ∈ seen) then dedup_video_ids seen ids' else
      match dedup_video_ids (videoID :: seen) ids' with
      | inl err => inl err
      | inr deduped => inr (videoID :: deduped)
      end
  end.

Definition NewExposureDecisionRequest (userID : Z) (scene requestID : string) (videoIDs : list Z)
    : recommendation_error + ExposureDecisionRequest :=
  if userID <=? 0 then inl ErrInvalidUserID else
  let scene := TrimSpace (ToLower scene) in
  let requestID := TrimSpace requestID in
  if String.eqb scene "" then inl ErrEmptyScene else
  if MaxSceneLength <? len scene then inl ErrSceneTooLong else
  if MaxRequestIDLength <? len requestID then inl ErrRequestIDTooLong else
  match dedup_video_ids [] videoIDs with
  | inl err => inl err
  | inr deduped => inr {| dr_UserID := userID; dr_Scene := scene; dr_RequestID := requestID;
                          dr_VideoIDs := deduped |}
  end.

Definition NewExposureWrite (userID videoID : Z) (scene requestID : string)
    : recommendation_error + ExposureWrite :=
  if userID <=? 0 then inl ErrInvalidUserID else
  if videoID <=? 0 then inl ErrInvalidVideoID else
  let scene := TrimSpace (ToLower scene) in
  let requestID := TrimSpace requestID in
  if String.eqb scene "" then inl ErrEmptyScene else
  if MaxSceneLength <? len scene then inl ErrSceneTooLong else
  if MaxRequestIDLength <? len requestID then inl ErrRequestIDTooLong else
  inr {| ew_UserID := userID; ew_VideoID := videoID; ew_Scene := scene;
         ew_RequestID := requestID |}.

Definition RestoreCandidate (videoID authorID : Z) (rankScore similarity : float64)
    (hotScore : Z) (freshnessScore : float64) (reason : string) (publishedAt : Time)
    : Candidate :=
  {| cd_VideoID := videoID; cd_AuthorID := authorID; cd_RankScore := rankScore;
     cd_Similarity := similarity; cd_HotScore := hotScore;
     cd_FreshnessScore := freshnessScore; cd_Reason := TrimSpace reason;
     cd_PublishedAt := publishedAt |}.

Definition RestoreRecExposure (id userID videoID : Z) (firstExposedAt lastExposedAt : Time)
    (exposureCount : Z) (lastScene : string) : RecExposure :=
  {| re_ID := id; re_UserID := userID; re_VideoID := videoID;
     re_FirstExposedAt := firstExposedAt; re_LastExposedAt := lastExposedAt;
     re_ExposureCount := exposureCount; re_LastScene := TrimSpace lastScene |}.

Definition RestoreExposureDecision (videoID : Z) (allowed : bool) (reason : string)
    (lastExposedAt : option Time) : ExposureDecision :=
  {| ed_VideoID := videoID; ed_Allowed := allowed; ed_Reason := TrimSpace reason;
     ed_LastExposedAt := lastExposedAt |}.

(** ** Lemmas *)

Lemma dedup_video_ids_ok seen ids out :
  dedup_video_ids seen ids = inr out -> out = dedup_from seen ids /\ Forall (Z.lt 0) ids.
Proof.
  revert seen out. induction ids as [|v ids IH]; intros seen out; simpl.
  { by intros [= <-]. }
  destruct (Z.leb_spec v 0); [done|]. case_bool_decide.
  - intros [-> Hall]%IH. by repeat constructor.
  - destruct (dedup_video_ids (v :: seen) ids) eqn:Hd; [done|].
    intros [= <-]. apply IH in Hd as [-> Hall]. by repeat constructor.
Qed.
