(* ===== verification/EmbeddingDomain.v ===== *)
(** * Embedding domain ([internal/domain/embedding])

    The vectors of the videos' texts, of [float64] numbers. A vectorizer is an interface;
    [HashNgramVectorizer] hashes the words of a text and its pairs and triples of characters
    into the coordinates of a vector. *)
From Stdlib Require Import Ascii.
From S2P Require Import Prelude.
From S2P Require Import GoStd.
From S2P Require Import GoHash.
From S2P Require Import GoConv.

Definition HashNgramModel : string := "hash-ngram-v1".
Definition HashNgramDimension : Z := 128.

Record VideoEmbedding := mkVideoEmbedding {
  ve_VideoID : Z;
  ve_Model : string;
  ve_Dimension : Z;
  ve_Embedding : list float64;
  ve_TextHash : string;
  ve_EmbeddingJSON : string;
  ve_CreatedAt : Time;
  ve_UpdatedAt : Time;
}.

Record Vectorizer := {
  vz_Model : string;
  vz_Dimension : Z;
  vz_Vectorize : string -> list float64;
}.

Definition BuildVideoText (title description : string) : string :=
  let title := TrimSpace title in
  let description := TrimSpace description in
  if String.eqb description "" then title else
  if String.eqb title "" then description else
  title +:+ String (chr 10) description.

Definition TextHash (text : string) : string := hex_EncodeToString (sha256_sum (TrimSpace text)).

Definition NewVideoEmbedding (videoID : Z) (model : string) (embedding : list float64)
    (textHash embeddingJSON : string) : VideoEmbedding :=
  {| ve_VideoID := videoID; ve_Model := TrimSpace model; ve_Dimension := len_z embedding;
     ve_Embedding := embedding; ve_TextHash := TrimSpace textHash;
     ve_EmbeddingJSON := TrimSpace embeddingJSON; ve_CreatedAt := 0; ve_UpdatedAt := 0 |}.

Definition RestoreVideoEmbedding (videoID : Z) (model : string) (dimension : Z)
    (embeddingJSON textHash : string) (createdAt updatedAt : Time) : VideoEmbedding :=
  {| ve_VideoID := videoID; ve_Model := TrimSpace model; ve_Dimension := dimension;
     ve_Embedding := []; ve_TextHash := TrimSpace textHash;
     ve_EmbeddingJSON := TrimSpace embeddingJSON; ve_CreatedAt := createdAt;
     ve_UpdatedAt := updatedAt |}.

(** The three sums of [CosineSimilarity], in the order of the loop. *)
Fixpoint cosine_sums (ls rs : list float64) (dot leftNorm rightNorm : float64)
    : float64 * float64 * float64 :=
  match ls, rs with
  | l :: ls, r :: rs =>
      cosine_sums ls rs (float_add dot (float_mul l r))
        (float_add leftNorm (float_mul l l)) (float_add rightNorm (float_mul r r))
  | _, _ => (dot, leftNorm, rightNorm)
  end.

(** [None] is [ErrDimensionMismatch]. *)
Definition CosineSimilarity (ls rs : list float64) : option float64 :=
  if negb (Nat.eqb (length ls) (length rs)) then None else
  let '(dot, leftNorm, rightNorm) := cosine_sums ls rs float_zero float_zero float_zero in
  if float_eqb leftNorm float_zero || float_eqb rightNorm float_zero then Some float_zero
  else Some (float_div dot (float_mul (float_sqrt leftNorm) (float_sqrt rightNorm))).

(** ** [hash_ngram.go] *)

Section HashNgram.
Context `{Unicode}.

(** The body of the loop over the runes: the runes written so far and [previousSpace]. *)
Definition normalize_rune (acc : list Z * bool) (r : Z) : list Z * bool :=
  let '(out, previousSpace) := acc in
  if unicode_IsLetter r || unicode_IsDigit r then (out ++ [r], false) else
  if (unicode_IsSpace r || unicode_IsPunct r || unicode_IsSymbol r) && negb previousSpace
  then (out ++ [32], true) else acc.

Definition normalizeText (text : string) : string :=
  let text := unicode_ToLower (TrimSpace text) in
  if String.eqb text "" then ""%string
  else TrimSpace (string_of_runes (foldl normalize_rune ([], true) (runes text)).1).

Definition addFeature (vector : list float64) (feature : string) (weight : float64) : list float64 :=
  match vector with
  | [] => []
  | _ =>
      if String.eqb feature "" then vector else
      let hash := fnv64a feature in
      let index := hash mod len_z vector in
      let sign := if Z.testbit hash 63 then float_of_int (-1) else float_of_int 1 in
      alter (fun x => float_add x (float_mul sign weight)) (Z.to_nat index) vector
  end.

Definition normalizeVector (vector : list float64) : list float64 :=
  let sum := foldl (fun sum value => float_add sum (float_mul value value)) float_zero vector in
  if float_eqb sum float_zero then vector
  else let norm := float_sqrt sum in (fun value => float_div value norm) <$> vector.

(** The [n] characters from each position that has as many. *)
Definition ngrams (n : nat) (l : list Z) : list string :=
  (fun i => string_of_runes (take n (drop i l))) <$> seq 0 (S (length l) - n).

(** The features in the order of the loops: the words, the pairs, the triples. *)
Definition features (normalized : string) : list string :=
  let letters := runes (string_of_bytes (filter (fun b => b <> 32) (string_bytes normalized))) in
  ((fun token => "tok:" +:+ token)%string <$> Fields normalized) ++ ngrams 2 letters ++ ngrams 3 letters.

Definition Dimension (dimension : Z) : Z := if dimension <=? 0 then HashNgramDimension else dimension.

Definition Vectorize (dimension : Z) (text : string) : list float64 :=
  let vector := replicate (Z.to_nat (Dimension dimension)) float_zero in
  let normalized := normalizeText text in
  if String.eqb normalized "" then vector
  else normalizeVector (foldl (fun v f => addFeature v f (float_of_int 1)) vector (features normalized)).

Definition NewHashNgramVectorizer : Vectorizer := {|
  vz_Model := HashNgramModel;
  vz_Dimension := Dimension HashNgramDimension;
  vz_Vectorize := Vectorize HashNgramDimension;
|}.

Lemma addFeature_length v f x : length (addFeature v f x) = length v.
Proof.
  unfold addFeature. destruct v; [done|]. destruct (String.eqb f ""); [done|]. by rewrite length_alter.
Qed.

(** A vector has the dimension of its vectorizer, whatever the text. *)
Lemma Vectorize_length dimension text : len_z (Vectorize dimension text) = Dimension dimension.
Proof.
  assert (0 < Dimension dimension) as Hd.
  { unfold Dimension, HashNgramDimension. destruct (Z.leb_spec dimension 0); lia. }
  assert (forall fs v, length (foldl (fun v f => addFeature v f (float_of_int 1)) v fs) = length v) as Hf.
  { induction fs as [|f fs IH]; intros v; simpl; [done|]. by rewrite IH, addFeature_length. }
  unfold Vectorize, len_z, normalizeVector. cbv zeta.
  repeat case_match; rewrite ?length_fmap, ?Hf, length_replicate; lia.
Qed.

End HashNgram.
