(* ===== verification/Errors.v ===== *)
(** * Error values of the back end and their mapping to HTTP answers

    A Go [error] is one of the domains' sentinel values, one of the services' own
    sentinels, a value of GORM or of the database driver. [errors.Is] on sentinels is
    equality. [coreError] (core.go) chooses the status of an answer by looking for
    words in the error's text. *)
From S2P Require Import Prelude.
From S2P Require Import GoStd.
From S2P Require Import InteractionDomain.
From S2P Require Import RelationDomain.
From S2P Require Import VideoDomain.
From S2P Require Import MessageDomain.
From S2P Require Import ExposureDomain.
From S2P Require Import PlaybackDomain.
From S2P Require Import AccountDomain.
From S2P Require Import FeedDomain.
From S2P Require Import RecommendationDomain.

(** The sentinels of the packages under [internal/application]. *)
Inductive app_error :=
  | ErrLoadInteractionFailed | ErrSaveInteractionFailed | ErrUpdateInteractionFailed
  | ErrLoadRelationFailed | ErrUpdateRelationFailed | ErrBackfillFollowFeedFailed
  | ErrLoadMessageFailed | ErrSaveMessageFailed | ErrUpdateMessageFailed
  | ErrLoadVideoFailed | ErrSaveVideoFailed | ErrUpdateVideoFailed
  | ErrSaveExposureFailed
  | ErrLoadPlaybackFailed | ErrSaveQoSReportFailed
  | ErrLoadAccountFailed | ErrSaveAccountFailed | ErrUpdateAccountFailed
  | ErrSignAccessTokenFailed
  | ErrLoadFeedFailed
  | ErrLoadRecommendationFailed | ErrLoadExposureDecisionsFailed
  | ErrSaveRecommendationExposureFailed
  | ErrSaveVideoEmbeddingFailed | ErrMarshalEmbeddingFailed.

#[export] Instance app_error_eq_dec : EqDecision app_error.
Proof. solve_decision. Defined.

Definition app_error_text (e : app_error) : string :=
  match e with
  | ErrLoadInteractionFailed => "failed to load interaction"
  | ErrSaveInteractionFailed => "failed to save interaction"
  | ErrUpdateInteractionFailed => "failed to update interaction"
  | ErrLoadRelationFailed => "failed to load relation"
  | ErrUpdateRelationFailed => "failed to update relation"
  | ErrBackfillFollowFeedFailed => "failed to backfill follow feed"
  | ErrLoadMessageFailed => "failed to load message"
  | ErrSaveMessageFailed => "failed to save message"
  | ErrUpdateMessageFailed => "failed to update message"
  | ErrLoadVideoFailed => "failed to load video"
  | ErrSaveVideoFailed => "failed to save video"
  | ErrUpdateVideoFailed => "failed to update video"
  | ErrSaveExposureFailed => "failed to save exposure"
  | ErrLoadPlaybackFailed => "failed to load playback data"
  | ErrSaveQoSReportFailed => "failed to save playback qos report"
  | ErrLoadAccountFailed => "failed to load account"
  | ErrSaveAccountFailed => "failed to save account"
  | ErrUpdateAccountFailed => "failed to update account"
  | ErrSignAccessTokenFailed => "failed to sign access token"
  | ErrLoadFeedFailed => "failed to load feed"
  | ErrLoadRecommendationFailed => "failed to load recommendations"
  | ErrLoadExposureDecisionsFailed => "failed to load exposure decisions"
  | ErrSaveRecommendationExposureFailed => "failed to save recommendation exposure"
  | ErrSaveVideoEmbeddingFailed => "failed to save video embedding"
  | ErrMarshalEmbeddingFailed => "failed to marshal embedding"
  end.

Inductive error :=
  | EInteraction (e : interaction_error)
  | ERelation (e : relation_error)
  | EVideo (e : video_error)
  | EMessage (e : message_error)
  | EExposure (e : exposure_error)
  | EPlayback (e : playback_error)
  | EAccount (e : account_error)
  | EFeed (e : feed_error)
  | ERecommendation (e : recommendation_error)
  | EApp (e : app_error)
  | EMain (text : string)      (* errors.New in the main package *)
  | ERecordNotFound            (* gorm.ErrRecordNotFound *)
  | EDuplicatedKey             (* a unique index refused the row *)
  | EDriver (text : string).   (* anything else the driver reports *)

#[export] Instance error_eq_dec : EqDecision error.
Proof. solve_decision. Defined.

Definition error_text (e : error) : string :=
  match e with
  | EInteraction e => interaction_error_text e
  | ERelation e => relation_error_text e
  | EVideo e => video_error_text e
  | EMessage e => message_error_text e
  | EExposure e => exposure_error_text e
  | EPlayback e => playback_error_text e
  | EAccount e => account_error_text e
  | EFeed e => feed_error_text e
  | ERecommendation e => recommendation_error_text e
  | EApp e => app_error_text e
  | EMain text => text
  | ERecordNotFound => "record not found"
  | EDuplicatedKey => "duplicated key not allowed"
  | EDriver text => text
  end.

(** [errors.Is(err, target)] for a sentinel [target]. *)
Definition errors_Is (err target : error) : bool := bool_decide (err = target).

(** [coreError]: the HTTP status and the code in the body. *)
Definition coreError (err : error) : Z * string :=
  let s := error_text err in
  let status :=
    if contains s "not found" then 404
    else if contains s "permission" || contains s "forbidden" then 403
    else if contains s "invalid" || contains s "empty" || contains s "too long"
            || contains s "required" then 400
    else 503 in
  let status := if errors_Is err (EFeed ErrViewerRequired) then 401 else status in
  (status, if status =? 503 then "operation_failed"%string else s).

(** ** Lemmas *)

Lemma errors_Is_true e t : errors_Is e t = true <-> e = t.
Proof. unfold errors_Is. by rewrite bool_decide_eq_true. Qed.

Lemma errors_Is_false e t : errors_Is e t = false <-> e <> t.
Proof. unfold errors_Is. by rewrite bool_decide_eq_false. Qed.

(** The text of an error whose cause is not the client's is never sent out: a 503
    answer carries the constant code. *)
Lemma coreError_503 err : (coreError err).1 = 503 -> (coreError err).2 = "operation_failed"%string.
Proof. unfold coreError. simpl. by intros ->. Qed.
