(* ===== verification/Files.v ===== *)
(** * Files: [path/filepath] and the tree that [os] works on

    A path is the list of its names after [filepath.Clean], and whether it starts at the root;
    links are not modelled. A disk maps paths to directories and files. *)
From Stdlib Require Import Ascii.
From S2P Require Import Prelude.
From S2P Require Import GoStd.

(** ** [path/filepath] on Unix *)

Definition slash : ascii := "/".

(** The parts of a path between slashes. *)
Fixpoint split_slash (s : string) : list string :=
  match s with
  | EmptyString => [""%string]
  | String c s =>
      if Ascii.eqb c slash then ""%string :: split_slash s else
      match split_slash s with
      | [] => [String c ""]
      | name :: names => String c name :: names
      end
  end.

Fixpoint join_slash (names : list string) : string :=
  match names with
  | [] => ""
  | [name] => name
  | name :: names => (name +:+ "/" +:+ join_slash names)%string
  end.

Notation Path := (bool * list string)%type.

Definition is_dots (name : string) : bool := String.eqb name "..".

(** One part of a path after those of the stack, the innermost first. *)
Definition clean_part (rooted : bool) (stack : list string) (part : string) : list string :=
  if String.eqb part "" || String.eqb part "." then stack else
  if is_dots part then
    match stack with
    | name :: rest => if is_dots name then part :: stack else rest
    | [] => if rooted then [] else [part]
    end
  else part :: stack.

Definition rooted (s : string) : bool :=
  match s with String c _ => Ascii.eqb c slash | EmptyString => false end.

Definition clean_parts (r : bool) (parts : list string) : list string :=
  reverse (foldl (clean_part r) [] parts).

Definition path_of (s : string) : Path := (rooted s, clean_parts (rooted s) (split_slash s)).

Definition path_string (p : Path) : string :=
  match p with
  | (true, names) => String slash (join_slash names)
  | (false, []) => "."
  | (false, names) => join_slash names
  end.

Definition filepath_Clean (s : string) : string := path_string (path_of s).

Definition filepath_Join (elems : list string) : string :=
  match filter (fun e => e <> ""%string) elems with
  | [] => ""
  | elems => filepath_Clean (join_slash elems)
  end.

Definition filepath_Dir (s : string) : string :=
  path_string (rooted s, clean_parts (rooted s) (removelast (split_slash s))).

(** [filepath.Base] of a clean path. *)
Definition filepath_Base (s : string) : string :=
  match last (path_of s).2 with
  | Some name => name
  | None => if rooted s then "/" else "."
  end.

(** ** The tree *)

Inductive node := Dir | File (content : string).

#[export] Instance node_eq_dec : EqDecision node.
Proof. solve_decision. Defined.

Notation Disk := (gmap Path node).

(** The root and the directories above a relative path are there. *)
Definition is_dir (d : Disk) (p : Path) : bool :=
  forallb is_dots p.2 || match d !! p with Some Dir => true | _ => false end.

Definition exists_at (d : Disk) (p : Path) : bool :=
  is_dir d p || match d !! p with Some _ => true | None => false end.

Definition parent (p : Path) : Path := (p.1, removelast p.2).

(** [q] is [p] or below it. *)
Definition under (p q : Path) : bool := Bool.eqb p.1 q.1 && bool_decide (p.2 `prefix_of` q.2).

(** [p], renamed from below [old] to below [new]. *)
Definition rebase (old new p : Path) : Path := (new.1, new.2 ++ drop (length old.2) p.2).

Definition move_tree (old new : Path) (d : Disk) : Disk :=
  list_to_map (prod_map (rebase old new) id <$>
    map_to_list (filter (fun kn => under old (kn.1) = true) d))
  ∪ filter (fun kn => under old (kn.1) = false) d.

(** [os.Rename]: Go refuses a directory as the new name. *)
Definition rename (old new : Path) (d : Disk) : option Disk :=
  n ← d !! old;
  if negb (is_dir d (parent new)) || is_dir d new then None else
  match n with
  | File c => Some (<[new := File c]> (delete old d))
  | Dir =>
      if exists_at d new || under old new then None else Some (move_tree old new d)
  end.

(** [os.Remove] of a file or of an empty directory. *)
Definition remove (p : Path) (d : Disk) : option Disk :=
  n ← d !! p;
  match n with
  | File _ => Some (delete p d)
  | Dir =>
      if bool_decide (filter (fun kn => under p (kn.1) = true) (delete p d) = ∅)
      then Some (delete p d) else None
  end.

Definition file_at (d : Disk) (p : Path) : option string :=
  match d !! p with Some (File c) => Some c | _ => None end.

(** ** Names and joins *)

Definition no_slash (s : string) : Prop := string_forall (fun c => c <> slash) s.

(** A name that a directory can list. *)
Definition plain (name : string) : Prop :=
  no_slash name /\ name <> ""%string /\ name <> "."%string /\ name <> ".."%string.

Definition child (p : Path) (names : list string) : Path := (p.1, p.2 ++ names).

Lemma string_app_assoc (a b c : string) : ((a +:+ b) +:+ c = a +:+ (b +:+ c))%string.
Proof. unfold String.app. induction a as [|x a IH]; simpl; congruence. Qed.

Lemma split_slash_ne s : split_slash s <> [].
Proof. destruct s as [|c s]; simpl; [done|]. destruct (Ascii.eqb c slash); [done|]. by destruct (split_slash s). Qed.

Lemma split_slash_one s : no_slash s -> split_slash s = [s].
Proof.
  induction s as [|c s IH]; intros Hs; simpl; [done|]. destruct Hs as [Hc Hs].
  rewrite (proj2 (Ascii.eqb_neq _ _) Hc). by rewrite IH.
Qed.

Lemma split_slash_app a b : split_slash (a +:+ "/" +:+ b) = split_slash a ++ split_slash b.
Proof.
  unfold String.app. induction a as [|c a IH]; [done|]. cbn [String.append split_slash].
  rewrite IH. destruct (Ascii.eqb c slash); [done|].
  pose proof (split_slash_ne a). by destruct (split_slash a).
Qed.

Lemma split_slash_parts s : Forall no_slash (split_slash s).
Proof.
  induction s as [|c s IH]; simpl; [by repeat constructor|].
  destruct (Ascii.eqb_spec c slash) as [->|Hc]; [by constructor|].
  destruct (split_slash s) as [|name names]; [by repeat constructor|].
  apply Forall_cons in IH as [Hn IH]. constructor; [by split|done].
Qed.

Lemma split_join elems :
  elems <> [] -> split_slash (join_slash elems) = elems ≫= split_slash.
Proof.
  induction elems as [|e elems IH]; intros He; [done|].
  destruct elems as [|e2 elems]; [simpl; by rewrite app_nil_r|].
  change (join_slash (e :: e2 :: elems)) with (e +:+ "/" +:+ join_slash (e2 :: elems))%string.
  rewrite split_slash_app. rewrite IH by done. done.
Qed.

Lemma rooted_app a b : a <> ""%string -> rooted (a +:+ b) = rooted a.
Proof. by destruct a. Qed.

(** ** Cleaning *)

Lemma push_plain r stack names :
  Forall plain names -> foldl (clean_part r) stack names = reverse names ++ stack.
Proof.
  revert stack. induction names as [|n names IH]; intros stack Hn; [done|].
  apply Forall_cons in Hn as [(_ & H1 & H2 & H3) Hn]. simpl. rewrite IH by done.
  unfold clean_part, is_dots. rewrite !(proj2 (String.eqb_neq _ _)) by done. simpl.
  rewrite reverse_cons. by rewrite <-app_assoc.
Qed.

Record clean_names (r : bool) (names : list string) : Prop := {
  cn_dots : exists k rest, names = replicate k ".."%string ++ rest /\ Forall plain rest /\ (r = true -> k = 0%nat);
}.

Lemma clean_part_ok r stack part :
  no_slash part -> clean_names r (reverse stack) -> clean_names r (reverse (clean_part r stack part)).
Proof.
  intros Hp [(k & rest & E & Hr & Hk)]. unfold clean_part.
  destruct (String.eqb_spec part "") as [->|H1]; [by split; eauto|].
  destruct (String.eqb_spec part ".") as [->|H2]; [by split; eauto|]. simpl.
  unfold is_dots. destruct (String.eqb_spec part "..") as [->|H3].
  - apply (f_equal reverse) in E. rewrite reverse_involutive, reverse_app, reverse_replicate in E.
    destruct rest as [|x rest' _] using rev_ind.
    + simpl in E. subst stack. destruct k as [|k]; simpl.
      * destruct r; split; [by exists 0%nat, []|by exists 1%nat, []].
      * destruct r; [by specialize (Hk eq_refl)|]. split. exists (S (S k)), [].
        split_and!; [|done|done]. change (".."%string :: ".."%string :: replicate k ".."%string)
          with (replicate (S (S k)) ".."%string). by rewrite reverse_replicate, app_nil_r.
    + rewrite reverse_app in E. simpl in E. rewrite E. simpl. apply Forall_app in Hr as [Hr Hx].
      apply Forall_cons in Hx as [(_ & _ & _ & Hx) _]. rewrite (proj2 (String.eqb_neq _ _)) by done.
      split. exists k, rest'. split_and!; [|done|done].
      by rewrite reverse_app, reverse_involutive, reverse_replicate.
  - split. exists k, (rest ++ [part]). rewrite reverse_cons, E, app_assoc. split_and!; [done| |done].
    apply Forall_app. split; [done|]. by repeat constructor.
Qed.

Lemma path_of_clean s : clean_names (path_of s).1 (path_of s).2.
Proof.
  unfold path_of, clean_parts. simpl.
  assert (forall parts stack, Forall no_slash parts -> clean_names (rooted s) (reverse stack) ->
    clean_names (rooted s) (reverse (foldl (clean_part (rooted s)) stack parts))) as Hf.
  { induction parts as [|p parts IH]; intros stack Hp Hs; [done|]. apply Forall_cons in Hp as [Hp Hps].
    simpl. apply IH; [done|]. by apply clean_part_ok. }
  apply Hf; [apply split_slash_parts|]. split. by exists 0%nat, [].
Qed.

Lemma push_dots k stack :
  Forall (eq ".."%string) stack -> foldl (clean_part false) stack (replicate k ".."%string) = replicate k ".."%string ++ stack.
Proof.
  revert stack. induction k as [|k IH]; intros stack Hs; [done|]. simpl replicate. simpl foldl.
  assert (clean_part false stack ".." = ".."%string :: stack) as ->.
  { unfold clean_part. simpl. destruct Hs as [|x stack Hx Hs]; [done|]. subst x. done. }
  rewrite IH by by constructor. by rewrite (cons_middle _ _ stack), app_assoc, <-replicate_cons_app.
Qed.

Lemma clean_again r names : clean_names r names -> clean_parts r names = names.
Proof.
  intros [(k & rest & -> & Hr & Hk)]. unfold clean_parts. rewrite foldl_app.
  destruct r.
  - rewrite Hk by done. simpl. rewrite push_plain by done. by rewrite app_nil_r, reverse_involutive.
  - rewrite push_dots by done. rewrite push_plain by done.
    rewrite app_nil_r, reverse_app, reverse_involutive, reverse_replicate. done.
Qed.

Lemma clean_names_parts r names : clean_names r names -> Forall (fun n => no_slash n /\ n <> ""%string) names.
Proof.
  intros [(k & rest & -> & Hr & _)]. apply Forall_app. split.
  - apply Forall_replicate. split; [|done]. repeat split; done.
  - eapply Forall_impl; [exact Hr|]. intros n (? & ? & _). done.
Qed.

Lemma split_names names : Forall (fun n => no_slash n /\ n <> ""%string) names -> names ≫= split_slash = names.
Proof.
  induction 1 as [|n names [Hn _] _ IH]; [done|]. rewrite bind_cons, split_slash_one, IH by done. done.
Qed.

Lemma path_of_string p : clean_names p.1 p.2 -> path_of (path_string p) = p.
Proof.
  destruct p as [r names]. simpl. intros Hc. pose proof (clean_names_parts _ _ Hc) as Hp. unfold path_of.
  destruct r.
  - simpl. f_equal. destruct names as [|n names]; [done|]. rewrite split_join by done.
    rewrite split_names by done. unfold clean_parts. simpl. exact (clean_again _ _ Hc).
  - destruct names as [|n names]; [done|]. cbn [path_string].
    assert (rooted (join_slash (n :: names)) = false) as ->.
    { apply Forall_cons in Hp as [[Hn Hne] _]. destruct n as [|c n]; [done|]. destruct Hn as [Hc' _].
      destruct names; simpl; by apply Ascii.eqb_neq. }
    rewrite split_join by done. rewrite split_names by done. by rewrite clean_again.
Qed.

Lemma Join_filtered elems l :
  filter (fun e => e <> ""%string) elems = l -> l <> [] -> filepath_Join elems = filepath_Clean (join_slash l).
Proof. intros <- Hl. unfold filepath_Join. by destruct (filter _ _). Qed.

(** Joining goes on from the names of the directory. *)
Lemma path_of_Join dir elems :
  elems <> [] -> Forall (fun e => e <> ""%string) elems -> rooted (join_slash elems) = false ->
  path_of (filepath_Join (dir :: elems)) =
    ((path_of dir).1, reverse (foldl (clean_part (path_of dir).1) (reverse (path_of dir).2) (elems ≫= split_slash))).
Proof.
  intros Hne Hfull Hroot.
  assert (filter (fun e => e <> ""%string) elems = elems) as Hf.
  { apply filter_all. by apply Forall_forall. }
  erewrite Join_filtered; [|done|rewrite filter_cons, Hf; by case_decide].
  unfold filepath_Clean. rewrite path_of_string by apply path_of_clean. rewrite filter_cons, Hf.
  destruct (decide (dir = ""%string)) as [->|Hd].
  - rewrite decide_False by (intros Hn; by apply Hn). unfold path_of at 1. rewrite split_join by done.
    by rewrite Hroot.
  - rewrite decide_True by done. unfold path_of. destruct elems as [|e elems]; [done|].
    change (join_slash (dir :: e :: elems)) with (dir +:+ "/" +:+ join_slash (e :: elems))%string.
    rewrite split_slash_app, split_join by done. rewrite rooted_app by done.
    unfold clean_parts. simpl fst. simpl snd. by rewrite foldl_app, reverse_involutive.
Qed.

Lemma rooted_plain e : Forall plain (split_slash e) -> rooted e = false.
Proof.
  destruct e as [|c e]; [done|]. simpl. destruct (Ascii.eqb c slash); [|done].
  by intros [(_ & ? & _) _]%Forall_cons.
Qed.

Lemma rooted_join e elems : rooted e = false -> e <> ""%string -> rooted (join_slash (e :: elems)) = false.
Proof. intros Hr He. destruct elems; [done|]. simpl. by rewrite rooted_app. Qed.

(** Joining whole names to a directory goes down from it. *)
Lemma path_of_parts dir elems :
  elems <> [] -> Forall (fun e => Forall plain (split_slash e)) elems ->
  path_of (filepath_Join (dir :: elems)) = child (path_of dir) (elems ≫= split_slash).
Proof.
  intros Hne Hp.
  assert (Forall (fun e => e <> ""%string) elems) as Hfull.
  { eapply Forall_impl; [exact Hp|]. intros e He ->. by apply Forall_cons in He as [(_ & ? & _) _]. }
  assert (Forall plain (elems ≫= split_slash)) as Hpl.
  { clear -Hp. induction Hp; simpl; [done|]. by apply Forall_app. }
  rewrite path_of_Join; [|done|done|].
  - rewrite push_plain by done. unfold child. by rewrite reverse_app, !reverse_involutive.
  - destruct Hp as [|e elems He _]; [done|]. apply Forall_cons in Hfull as [Hf _].
    apply rooted_join; [by apply rooted_plain|done].
Qed.

Lemma plain_split name : plain name -> split_slash name = [name].
Proof. intros [Hn _]. by apply split_slash_one. Qed.

Lemma plains_split names : Forall plain names -> names ≫= split_slash = names.
Proof.
  intros Hn. apply split_names. eapply Forall_impl; [exact Hn|]. by intros n (? & ? & _).
Qed.

Lemma path_of_names dir names :
  names <> [] -> Forall plain names -> path_of (filepath_Join (dir :: names)) = child (path_of dir) names.
Proof.
  intros Hne Hn. rewrite path_of_parts; [by rewrite plains_split|done|].
  eapply Forall_impl; [exact Hn|]. intros n Hp. rewrite plain_split by done. by constructor.
Qed.

Lemma join_slash_ne names : names <> [] -> Forall (fun n => n <> ""%string) names -> join_slash names <> ""%string.
Proof.
  intros Hne Hn. destruct Hn as [|n names Hn _]; [done|]. destruct names; simpl; [done|].
  by destruct n.
Qed.

Lemma Clean_ne s : filepath_Clean s <> ""%string.
Proof.
  unfold filepath_Clean. pose proof (clean_names_parts _ _ (path_of_clean s)) as Hp.
  destruct (path_of s) as [[] names]; [done|]. destruct names as [|n names]; [done|]. cbn [path_string].
  apply join_slash_ne; [done|]. eapply Forall_impl; [exact Hp|]. by intros x [_ ?].
Qed.

Lemma Join_ne dir name : name <> ""%string -> filepath_Join [dir; name] <> ""%string.
Proof.
  intros Hn. unfold filepath_Join. rewrite !filter_cons. destruct (decide (dir <> ""%string)), (decide (name <> ""%string));
    simpl; done || apply Clean_ne.
Qed.

(** The directory of a clean path. *)
Lemma path_of_Dir p names name :
  clean_names p.1 p.2 -> p.2 = names ++ [name] -> path_of (filepath_Dir (path_string p)) = (p.1, names).
Proof.
  intros Hc E. pose proof (clean_names_parts _ _ Hc) as Hp. destruct p as [r l]. cbn [fst snd] in *. subst l.
  assert (clean_names r names) as Hn.
  { destruct Hc as [(k & rest & Hk & Hr & Hz)]. destruct rest as [|x rest _] using rev_ind.
    - rewrite app_nil_r in Hk. destruct k as [|k]; [by destruct names|]. simpl in Hk; rewrite replicate_cons_app in Hk.
      apply app_inj_tail in Hk as [-> _]. split. exists k, []. split_and!; [by rewrite app_nil_r|done|].
      intros Hr'. by specialize (Hz Hr').
    - rewrite app_assoc in Hk. apply app_inj_tail in Hk as [-> _]. apply Forall_app in Hr as [Hr _].
      split. by exists k, rest. }
  assert (rooted (path_string (r, names ++ [name])) = r) as Hroot.
  { exact (f_equal fst (path_of_string (r, names ++ [name]) Hc)). }
  unfold filepath_Dir. rewrite Hroot.
  assert (clean_parts r (removelast (split_slash (path_string (r, names ++ [name])))) = names) as ->.
  2: { by apply (path_of_string (r, names)). }
  assert (names ++ [name] <> []) as Hne by by destruct names.
  assert (split_slash (join_slash (names ++ [name])) = names ++ [name]) as Hs.
  { rewrite split_join by done. by apply split_names. }
  destruct r.
  - cbn [path_string split_slash]. rewrite (proj2 (Ascii.eqb_eq _ _) eq_refl), Hs.
    change (""%string :: names ++ [name]) with ((""%string :: names) ++ [name]). rewrite removelast_last.
    unfold clean_parts. simpl. exact (clean_again true names Hn).
  - assert (path_string (false, names ++ [name]) = join_slash (names ++ [name])) as -> by by destruct names.
    rewrite Hs, removelast_last. by apply clean_again.
Qed.

(** A name after a slash. *)
Lemma path_of_slash dir name :
  dir <> ""%string -> plain name -> path_of (dir +:+ "/" +:+ name) = child (path_of dir) [name].
Proof.
  intros Hd Hn. unfold path_of. rewrite rooted_app by done. rewrite split_slash_app, (plain_split name) by done.
  unfold clean_parts, child. rewrite foldl_app. rewrite (push_plain _ _ [name]) by by constructor.
  by rewrite reverse_app, reverse_involutive.
Qed.

(** Joined plain names have only slashes between them. *)
Lemma Join_plain names : names <> [] -> Forall plain names -> filepath_Join names = join_slash names.
Proof.
  intros Hne Hn.
  assert (clean_names false names) as Hc by (split; by exists 0%nat, names).
  assert (filter (fun e => e <> ""%string) names = names) as Hf.
  { apply filter_all. intros x Hx. by apply (proj1 (Forall_forall _ _) Hn) in Hx as (_ & ? & _). }
  rewrite (Join_filtered _ names) by done. unfold filepath_Clean.
  assert (join_slash names = path_string (false, names)) as -> by by destruct names.
  by rewrite path_of_string.
Qed.

(** ** What the operations leave alone *)

Lemma under_refl p : under p p = true.
Proof. unfold under. rewrite eqb_reflx. simpl. by apply bool_decide_eq_true. Qed.

Lemma under_child p names : under p (child p names) = true.
Proof. unfold under, child. simpl. rewrite eqb_reflx. simpl. apply bool_decide_eq_true. by apply prefix_app_r. Qed.

Lemma under_false_ne p q : under p q = false -> q <> p.
Proof. intros Hu ->. by rewrite under_refl in Hu. Qed.

(** Below two children of one directory that differ, nothing is shared. *)
Lemma under_apart p a names b names' :
  a <> b -> under (child p (a :: names)) (child p (b :: names')) = false.
Proof.
  intros Hab. unfold under, child. simpl. rewrite eqb_reflx. simpl. apply bool_decide_eq_false.
  intros [k Hk]. rewrite <-app_assoc in Hk. apply app_inv_head in Hk. simpl in Hk. by injection Hk as ->.
Qed.

Lemma move_tree_other old new d p :
  under old p = false -> under new p = false -> move_tree old new d !! p = d !! p.
Proof.
  intros Ho Hn. unfold move_tree. rewrite lookup_union_r.
  - destruct (d !! p) as [n|] eqn:Hp; [by apply map_lookup_filter_Some|].
    apply map_lookup_filter_None. by left.
  - apply not_elem_of_list_to_map_1. rewrite list_elem_of_fmap.
    intros ([q n] & Hq & Hin). simpl in Hq. apply list_elem_of_fmap in Hin as ([k m] & E & Hin).
    injection E as -> ->. subst p. unfold under, rebase in Hn. simpl in Hn. rewrite eqb_reflx in Hn. simpl in Hn.
    apply bool_decide_eq_false in Hn. destruct Hn. by apply prefix_app_r.
Qed.

(** Renaming changes what is at or below the two names only. *)
Lemma rename_other old new d d' p :
  rename old new d = Some d' -> under old p = false -> under new p = false -> d' !! p = d !! p.
Proof.
  unfold rename. intros E Ho Hn. destruct (d !! old) as [n|]; simpl in E; [|done].
  destruct (_ || is_dir d new); [done|]. destruct n.
  - destruct (_ || under old new); [done|]. injection E as <-. by apply move_tree_other.
  - injection E as <-. pose proof (under_false_ne _ _ Ho). pose proof (under_false_ne _ _ Hn).
    by rewrite lookup_insert_ne, lookup_delete_ne by done.
Qed.

(** A file that is renamed is at the new name, and at the new name only. *)
Lemma rename_file old new d d' c :
  rename old new d = Some d' -> d !! old = Some (File c) -> d' = <[new := File c]> (delete old d).
Proof.
  unfold rename. intros E Ho. rewrite Ho in E. simpl in E. destruct (_ || is_dir d new); [done|]. by injection E as <-.
Qed.

Lemma rename_source old new d d' : rename old new d = Some d' -> is_Some (d !! old).
Proof. unfold rename. by destruct (d !! old). Qed.

Lemma remove_other p q d d' : remove p d = Some d' -> q <> p -> d' !! q = d !! q.
Proof.
  unfold remove. intros E Hq. destruct (d !! p) as [[]|]; simpl in E; [|by injection E as <-; rewrite lookup_delete_ne|done].
  case_bool_decide; [|done]. injection E as <-. by rewrite lookup_delete_ne.
Qed.
