(* ===== verification/Models.v ===== *)
(** * The database tables ([model.go] of the packages under [internal/infra/persistence])

    A table is a finite map. A table whose rows the code always finds through a unique
    index is keyed by that index; the others are keyed by their primary key. Text
    columns are compared by the database's collation, a parameter: two strings are
    equal to the database when [collate] maps them to the same string. *)
From S2P Require Import Prelude.
From S2P Require Import GoStd.

Class Collation := { collate : string -> string }.

(** The collation tells the two kinds of actions apart. *)
Class CollationLaws `{Collation} := {
  collate_like_favorite : collate "LIKE" <> collate "FAVORITE"
}.

Record UserModel := mkUserModel {
  am_ID : Z;
  am_Account : string;
  am_Password : string;
  am_Nickname : string;
  am_AvatarURL : string;
  am_Bio : string;
  am_Status : Z;
  am_Role : string;
  am_CreatedAt : Time;
  am_UpdatedAt : Time;
}.

Record VideoModel := mkVideoModel {
  vm_ID : Z;
  vm_AuthorID : Z;
  vm_Title : string;
  vm_Description : string;
  vm_MediaURL : string;
  vm_CoverURL : string;
  vm_Status : Z;
  vm_PublishedAt : option Time;
  vm_IdempotencyKey : option string;
  vm_CreatedAt : Time;
  vm_UpdatedAt : Time;
  vm_FilePath : string;
  vm_CoverPath : string;
  vm_Size : Z;
}.

Record VideoStatModel := mkVideoStatModel {
  sm_VideoID : Z;
  sm_LikeCount : Z;
  sm_CommentCount : Z;
  sm_FavoriteCount : Z;
  sm_CreatedAt : Time;
  sm_UpdatedAt : Time;
}.

Record ActionModel := mkActionModel {
  im_ID : Z;
  im_UserID : Z;
  im_VideoID : Z;
  im_ActionType : string;
  im_Status : Z;
  im_IdempotencyKey : option string;
  im_CreatedAt : Time;
  im_UpdatedAt : Time;
}.

Record CommentModel := mkCommentModel {
  cm_ID : Z;
  cm_VideoID : Z;
  cm_UserID : Z;
  cm_Content : string;
  cm_Status : Z;
  cm_IdempotencyKey : option string;
  cm_CreatedAt : Time;
  cm_UpdatedAt : Time;
}.

Record FollowModel := mkFollowModel {
  fm_ID : Z;
  fm_UserID : Z;
  fm_TargetUserID : Z;
  fm_Status : Z;
  fm_IdempotencyKey : option string;
  fm_CreatedAt : Time;
  fm_UpdatedAt : Time;
}.

Record RelationStatModel := mkRelationStatModel {
  rm_UserID : Z;
  rm_FollowingCount : Z;
  rm_FollowerCount : Z;
  rm_CreatedAt : Time;
  rm_UpdatedAt : Time;
}.

Record MessageModel := mkMessageModel {
  mm_ID : Z;
  mm_UserID : Z;
  mm_Type : string;
  mm_Title : string;
  mm_Content : string;
  mm_ActorID : Z;
  mm_ActorNickname : string;
  mm_ActorAvatarURL : string;
  mm_EventID : option string;
  mm_IdempotencyKey : option string;
  mm_IsRead : bool;
  mm_CreatedAt : Time;
  mm_ReadAt : option Time;
  mm_VideoID : option Z;
}.

Record ViewEventModel := mkViewEventModel {
  em_ID : Z;
  em_UserID : Z;
  em_VideoID : Z;
  em_Scene : string;
  em_RequestID : option string;
  em_EventType : string;
  em_WatchMs : Z;
  em_Completed : bool;
  em_CreatedAt : Time;
}.

Record ExposureModel := mkExposureModel {
  xm_ID : Z;
  xm_UserID : Z;
  xm_VideoID : Z;
  xm_FirstExposedAt : Time;
  xm_LastExposedAt : Time;
  xm_ExposureCount : Z;
  xm_LastScene : string;
  xm_CreatedAt : Time;
  xm_UpdatedAt : Time;
}.

Record ConfigModel := mkConfigModel {
  fgm_ID : Z;
  fgm_Platform : string;
  fgm_NetworkType : string;
  fgm_PreloadCount : Z;
  fgm_BufferMs : Z;
  fgm_UpdatedAt : Time;
}.

Record QoSLogModel := mkQoSLogModel {
  qm_ID : Z;
  qm_UserID : Z;
  qm_VideoID : Z;
  qm_FirstFrameMs : option Z;
  qm_StutterCount : Z;
  qm_WatchMs : Z;
  qm_IdempotencyKey : option string;
  qm_CreatedAt : Time;
}.

Record VideoEmbeddingModel := mkVideoEmbeddingModel {
  bm_VideoID : Z;
  bm_Model : string;
  bm_Dimension : Z;
  bm_EmbeddingJSON : string;
  bm_TextHash : string;
  bm_CreatedAt : Time;
  bm_UpdatedAt : Time;
}.

(** The tables of the main package ([models.go], [core_migration.go]). *)

Record SessionModel := mkSessionModel {
  se_ID : string;
  se_UserID : Z;
  se_RefreshHash : string;
  se_ExpiresAt : Time;
  se_RevokedAt : option Time;
  se_CreatedAt : Time;
}.

Record InviteModel := mkInviteModel {
  iv_ID : Z;
  iv_CodeHash : string;
  iv_UsedBy : option Z;
  iv_ExpiresAt : Time;
  iv_CreatedAt : Time;
}.

Record UploadModel := mkUploadModel {
  ul_ID : string;
  ul_UserID : Z;
  ul_FileMD5 : string;
  ul_Size : Z;
  ul_Chunks : Z;
  ul_Completed : bool;
  ul_Published : bool;
  ul_StoredPath : string;
  ul_CreatedAt : Time;
}.

Record VideoTagModel := mkVideoTagModel { vt_ID : Z; vt_VideoID : Z; vt_Tag : string }.

Record DirectMessageModel := mkDirectMessageModel {
  dm_ID : Z;
  dm_SenderID : Z;
  dm_RecipientID : Z;
  dm_Body : string;
  dm_CreatedAt : Time;
}.

(** The [event] of [worker.go]; the outbox holds it as JSON. *)
Record event := mkEvent { ev_ID : string; ev_Kind : string; ev_Data : list (string * Z) }.

Record OutboxModel := mkOutboxModel {
  ob_ID : string;
  ob_Kind : string;
  ob_Payload : event;
  ob_PublishedAt : option Time;
  ob_CreatedAt : Time;
}.

Record ProcessedEventModel := mkProcessedEventModel { pv_ID : string; pv_CreatedAt : Time }.

(** The rows of the views [users], [videos], [likes], [comments], [follows] and
    [notifications] ([models.go]). *)

Record UserView := mkUserView {
  vu_ID : Z;
  vu_Username : string;
  vu_PasswordHash : string;
  vu_Bio : string;
  vu_AvatarURL : string;
  vu_CreatedAt : Time;
}.

(** [Preload("User")] fills the author; the URLs are not columns. *)
Record VideoView := mkVideoView {
  vv_ID : Z;
  vv_UserID : Z;
  vv_User : UserView;
  vv_Title : string;
  vv_Description : string;
  vv_FilePath : string;
  vv_Size : Z;
  vv_CoverPath : string;
  vv_PlayURL : string;
  vv_CoverURL : string;
  vv_LikesCount : Z;
  vv_CommentsCount : Z;
  vv_FavoritesCount : Z;
  vv_Popularity : Z;
  vv_PublishedAt : Time;
  vv_CreatedAt : Time;
}.

Record LikeView := mkLikeView {
  vl_ID : Z; vl_UserID : Z; vl_VideoID : Z; vl_CreatedAt : Time }.

Record CommentView := mkCommentView {
  vc_ID : Z; vc_UserID : Z; vc_User : UserView; vc_VideoID : Z; vc_Body : string;
  vc_CreatedAt : Time }.

Record FollowView := mkFollowView {
  vf_ID : Z; vf_FollowerID : Z; vf_FollowingID : Z; vf_CreatedAt : Time }.

Record NotificationView := mkNotificationView {
  vo_ID : Z; vo_UserID : Z; vo_ActorID : Z; vo_VideoID : option Z; vo_Kind : string;
  vo_Body : string; vo_ReadAt : option Time; vo_CreatedAt : Time }.

(** [videoEnvelope] of [resilience.go], what the caches of single videos hold. *)
Record videoEnvelope := mkEnvelope { vn_Video : VideoView; vn_Missing : bool }.

Record Extension := mkExtension {
  sessions : gmap string SessionModel;        (* id, collated *)
  invites : gmap Z InviteModel;
  uploads : gmap string UploadModel;          (* id, collated *)
  video_tags : gmap Z VideoTagModel;
  messages : gmap Z DirectMessageModel;
  outbox : gmap string OutboxModel;           (* id, collated *)
  processed_events : gmap string ProcessedEventModel;   (* id, collated *)
}.

Definition no_extension : Extension := mkExtension ∅ ∅ ∅ ∅ ∅ ∅ ∅.

Definition set_sessions f (x : Extension) : Extension :=
  mkExtension (f (sessions x)) (invites x) (uploads x) (video_tags x) (messages x) (outbox x)
    (processed_events x).
Definition set_invites f (x : Extension) : Extension :=
  mkExtension (sessions x) (f (invites x)) (uploads x) (video_tags x) (messages x) (outbox x)
    (processed_events x).
Definition set_uploads f (x : Extension) : Extension :=
  mkExtension (sessions x) (invites x) (f (uploads x)) (video_tags x) (messages x) (outbox x)
    (processed_events x).
Definition set_video_tags f (x : Extension) : Extension :=
  mkExtension (sessions x) (invites x) (uploads x) (f (video_tags x)) (messages x) (outbox x)
    (processed_events x).
Definition set_messages f (x : Extension) : Extension :=
  mkExtension (sessions x) (invites x) (uploads x) (video_tags x) (f (messages x)) (outbox x)
    (processed_events x).
Definition set_outbox f (x : Extension) : Extension :=
  mkExtension (sessions x) (invites x) (uploads x) (video_tags x) (messages x) (f (outbox x))
    (processed_events x).
Definition set_processed_events f (x : Extension) : Extension :=
  mkExtension (sessions x) (invites x) (uploads x) (video_tags x) (messages x) (outbox x)
    (f (processed_events x)).

(** The tables the modelled code reads and writes. *)
Record Tables := mkTables {
  account : gmap Z UserModel;
  video : gmap Z VideoModel;
  video_stat : gmap Z VideoStatModel;
  interaction_action : gmap (Z * Z * string) ActionModel;   (* uk_user_video_type *)
  interaction_comment : gmap Z CommentModel;
  user_follow : gmap (Z * Z) FollowModel;                   (* uk_user_target *)
  user_relation_stat : gmap Z RelationStatModel;
  user_message : gmap Z MessageModel;
  video_view_events : gmap Z ViewEventModel;
  exposures : gmap (Z * Z) ExposureModel;                   (* uk_user_video *)
  playback_config : gmap Z ConfigModel;
  playback_qos_log : gmap Z QoSLogModel;
  video_embedding : gmap (Z * string) VideoEmbeddingModel;  (* uk_video_model *)
  extension : Extension;
}.

Definition no_tables : Tables := mkTables ∅ ∅ ∅ ∅ ∅ ∅ ∅ ∅ ∅ ∅ ∅ ∅ ∅ no_extension.

Definition set_account f (d : Tables) : Tables :=
  mkTables (f (account d)) (video d) (video_stat d) (interaction_action d)
    (interaction_comment d) (user_follow d) (user_relation_stat d) (user_message d)
    (video_view_events d) (exposures d) (playback_config d) (playback_qos_log d)
    (video_embedding d) (extension d).
Definition set_video f (d : Tables) : Tables :=
  mkTables (account d) (f (video d)) (video_stat d) (interaction_action d)
    (interaction_comment d) (user_follow d) (user_relation_stat d) (user_message d)
    (video_view_events d) (exposures d) (playback_config d) (playback_qos_log d)
    (video_embedding d) (extension d).
Definition set_video_stat f (d : Tables) : Tables :=
  mkTables (account d) (video d) (f (video_stat d)) (interaction_action d)
    (interaction_comment d) (user_follow d) (user_relation_stat d) (user_message d)
    (video_view_events d) (exposures d) (playback_config d) (playback_qos_log d)
    (video_embedding d) (extension d).
Definition set_interaction_action f (d : Tables) : Tables :=
  mkTables (account d) (video d) (video_stat d) (f (interaction_action d))
    (interaction_comment d) (user_follow d) (user_relation_stat d) (user_message d)
    (video_view_events d) (exposures d) (playback_config d) (playback_qos_log d)
    (video_embedding d) (extension d).
Definition set_interaction_comment f (d : Tables) : Tables :=
  mkTables (account d) (video d) (video_stat d) (interaction_action d)
    (f (interaction_comment d)) (user_follow d) (user_relation_stat d) (user_message d)
    (video_view_events d) (exposures d) (playback_config d) (playback_qos_log d)
    (video_embedding d) (extension d).
Definition set_user_follow f (d : Tables) : Tables :=
  mkTables (account d) (video d) (video_stat d) (interaction_action d)
    (interaction_comment d) (f (user_follow d)) (user_relation_stat d) (user_message d)
    (video_view_events d) (exposures d) (playback_config d) (playback_qos_log d)
    (video_embedding d) (extension d).
Definition set_user_relation_stat f (d : Tables) : Tables :=
  mkTables (account d) (video d) (video_stat d) (interaction_action d)
    (interaction_comment d) (user_follow d) (f (user_relation_stat d)) (user_message d)
    (video_view_events d) (exposures d) (playback_config d) (playback_qos_log d)
    (video_embedding d) (extension d).
Definition set_user_message f (d : Tables) : Tables :=
  mkTables (account d) (video d) (video_stat d) (interaction_action d)
    (interaction_comment d) (user_follow d) (user_relation_stat d) (f (user_message d))
    (video_view_events d) (exposures d) (playback_config d) (playback_qos_log d)
    (video_embedding d) (extension d).
Definition set_video_view_events f (d : Tables) : Tables :=
  mkTables (account d) (video d) (video_stat d) (interaction_action d)
    (interaction_comment d) (user_follow d) (user_relation_stat d) (user_message d)
    (f (video_view_events d)) (exposures d) (playback_config d) (playback_qos_log d)
    (video_embedding d) (extension d).
Definition set_exposures f (d : Tables) : Tables :=
  mkTables (account d) (video d) (video_stat d) (interaction_action d)
    (interaction_comment d) (user_follow d) (user_relation_stat d) (user_message d)
    (video_view_events d) (f (exposures d)) (playback_config d) (playback_qos_log d)
    (video_embedding d) (extension d).
Definition set_playback_qos_log f (d : Tables) : Tables :=
  mkTables (account d) (video d) (video_stat d) (interaction_action d)
    (interaction_comment d) (user_follow d) (user_relation_stat d) (user_message d)
    (video_view_events d) (exposures d) (playback_config d) (f (playback_qos_log d))
    (video_embedding d) (extension d).
Definition set_video_embedding f (d : Tables) : Tables :=
  mkTables (account d) (video d) (video_stat d) (interaction_action d)
    (interaction_comment d) (user_follow d) (user_relation_stat d) (user_message d)
    (video_view_events d) (exposures d) (playback_config d) (playback_qos_log d)
    (f (video_embedding d)) (extension d).

Definition set_extension f (d : Tables) : Tables :=
  mkTables (account d) (video d) (video_stat d) (interaction_action d)
    (interaction_comment d) (user_follow d) (user_relation_stat d) (user_message d)
    (video_view_events d) (exposures d) (playback_config d) (playback_qos_log d)
    (video_embedding d) (f (extension d)).

(** Writing a row that is there already changes nothing. *)
Lemma set_video_stat_id k s d : video_stat d !! k = Some s -> set_video_stat <[k := s]> d = d.
Proof. intros Hs. destruct d. unfold set_video_stat. simpl in *. by rewrite insert_id. Qed.

Lemma set_video_id k v d : video d !! k = Some v -> set_video <[k := v]> d = d.
Proof. intros Hv. destruct d. unfold set_video. simpl in *. by rewrite insert_id. Qed.

Lemma set_interaction_action_id k a d :
  interaction_action d !! k = Some a -> set_interaction_action <[k := a]> d = d.
Proof. intros Ha. destruct d. unfold set_interaction_action. simpl in *. by rewrite insert_id. Qed.

(** A table whose rows were all inserted before auto-increment value [next]. *)
Definition ids_below {A} (next : Z) (t : gmap Z A) : Prop :=
  forall id row, t !! id = Some row -> id < next.

Lemma ids_below_fresh {A} next (t : gmap Z A) id : ids_below next t -> next <= id -> t !! id = None.
Proof.
  intros Hb Hle. destruct (t !! id) eqn:Hid; [|done]. apply Hb in Hid. lia.
Qed.

Lemma ids_below_insert {A} next (t : gmap Z A) id row :
  ids_below next t -> id < next -> ids_below next (<[id := row]> t).
Proof.
  intros Hb Hlt id' row'. destruct (decide (id = id')) as [->|Hne]; [done|].
  rewrite lookup_insert_ne by done. apply Hb.
Qed.

Lemma ids_below_mono {A} n n' (t : gmap Z A) : ids_below n t -> n <= n' -> ids_below n' t.
Proof. intros Hb Hle id row Hid. apply Hb in Hid. lia. Qed.
