(* ===== verification/Resilience.v ===== *)
(** * Overload and outage protection ([resilience.go])

    Each component is a state machine: the methods take the lock, so a run is a sequence of
    calls. [now] is what [time.Now()] returns inside the call. *)
From S2P Require Import Prelude.
From S2P Require Import GoStd.

(** ** The circuit breaker in front of Redis *)
Module Breaker.

Record circuitBreaker := mkBreaker { failures : Z; until : Time; probing : bool }.

Definition new : circuitBreaker := mkBreaker 0 0 false.

Definition allow (b : circuitBreaker) (now : Time) : bool * circuitBreaker :=
  if time_IsZero (until b) then (true, b) else
  if time_Before now (until b) || probing b then (false, b) else
  (true, mkBreaker (failures b) (until b) true).

Definition result (b : circuitBreaker) (now : Time) (failed : bool) : circuitBreaker :=
  if negb failed then mkBreaker 0 0 false
  else
    let failures := failures b + 1 in
    mkBreaker failures (if 3 <=? failures then now + 2 * second else until b) false.

(** A call of [withRedis] enters ([allow]) and leaves ([result]). *)
Inductive call := Allow (now : Time) | Result (now : Time) (failed : bool).

Definition exec (b : circuitBreaker) (c : call) : circuitBreaker :=
  match c with Allow now => (allow b now).2 | Result now failed => result b now failed end.

Definition run (b : circuitBreaker) (cs : list call) : circuitBreaker := fold_left exec cs b.

(** The failures reported since the last success, and the time of the last of them. *)
Fixpoint streak (n : Z) (last : Time) (cs : list call) : Z * Time :=
  match cs with
  | [] => (n, last)
  | Allow _ :: cs => streak n last cs
  | Result now failed :: cs => if failed then streak (n + 1) now cs else streak 0 0 cs
  end.

(** The state the streak stands for. *)
Definition tracks (b : circuitBreaker) (s : Z * Time) : Prop :=
  0 <= s.1 /\ failures b = s.1 /\ until b = (if 3 <=? s.1 then s.2 + 2 * second else 0).

Lemma allow_tracks b now s : tracks b s -> tracks (allow b now).2 s.
Proof. unfold allow, tracks. by repeat case_match. Qed.

Lemma result_tracks b now failed s :
  tracks b s -> tracks (result b now failed) (if failed then (s.1 + 1, now) else (0, 0)).
Proof.
  intros (H0 & Hf & Hu). destruct failed; simpl; [|by repeat split].
  split; [simpl; lia|]. simpl. split; [lia|]. rewrite Hf, Hu.
  destruct (Z.leb_spec 3 (s.1 + 1)); [done|]. destruct (Z.leb_spec 3 s.1); [lia|done].
Qed.

Lemma run_tracks cs b n last : tracks b (n, last) -> tracks (run b cs) (streak n last cs).
Proof.
  revert b n last. induction cs as [|[now|now failed] cs IH]; intros b n last Hb; [done|..]; simpl.
  - apply IH. by apply allow_tracks.
  - apply (result_tracks b now failed) in Hb. destruct failed; by apply IH.
Qed.

Lemma new_tracks : tracks new (0, 0).
Proof. by repeat split. Qed.
End Breaker.

(** ** The bounded single-flight group

    [calls] maps a key to its flight; [flights] remembers the key and the outcome of every
    flight ever started. *)
Module Flight.

Definition capacity : Z := 1024.

Section Flight.
Context {V : Type}.   (* what a loader returns: a value or an error *)

Record flightGroup := mkGroup {
  calls : gmap string nat;
  flights : list (string * option V);
}.

Definition new : flightGroup := mkGroup ∅ [].

(** What [do] decides under the lock: join a flight, start one, or refuse. *)
Inductive decision := Join (f : nat) | Started (f : nat) | Busy.

Definition enter (g : flightGroup) (key : string) : decision * flightGroup :=
  match calls g !! key with
  | Some f => (Join f, g)
  | None =>
      if capacity <=? Z.of_nat (size (calls g)) then (Busy, g)
      else
        let f := length (flights g) in
        (Started f, mkGroup (<[key := f]> (calls g)) (flights g ++ [(key, None)]))
  end.

(** The end of the goroutine of flight [f]: store the outcome, forget the key, wake the
    waiters. *)
Definition finish (g : flightGroup) (f : nat) (v : V) : flightGroup :=
  match flights g !! f with
  | Some (key, None) => mkGroup (delete key (calls g)) (<[f := (key, Some v)]> (flights g))
  | _ => g
  end.

(** What a waiter of flight [f] sees: nothing until it is done. *)
Definition outcome (g : flightGroup) (f : nat) : option V :=
  match flights g !! f with Some (_, v) => v | None => None end.

Inductive step : flightGroup -> flightGroup -> Prop :=
  | step_enter g key : step g (enter g key).2
  | step_finish g f v : step g (finish g f v).

Definition reachable (g : flightGroup) : Prop := rtc step new g.

(** The running flights are those of [calls], one per key. *)
Record group_ok (g : flightGroup) : Prop := {
  gk_calls : forall key f, calls g !! key = Some f -> flights g !! f = Some (key, None);
  gk_running : forall key f, flights g !! f = Some (key, None) -> calls g !! key = Some f;
  gk_size : Z.of_nat (size (calls g)) <= capacity;
}.

Lemma enter_ok g key : group_ok g -> group_ok (enter g key).2.
Proof.
  intros [Hc Hr Hs]. unfold enter. destruct (calls g !! key) as [f|] eqn:Hk; [by split|].
  destruct (Z.leb_spec capacity (Z.of_nat (size (calls g)))); [by split|]. simpl.
  assert (forall k f, flights g !! f = Some (k, None) -> k <> key) as Hne.
  { intros k f Hf ->. apply Hr in Hf. congruence. }
  split; simpl.
  - intros k f. destruct (decide (k = key)) as [->|Hn].
    + rewrite lookup_insert_eq. intros [= <-]. by rewrite lookup_app_r, Nat.sub_diag by lia.
    + rewrite lookup_insert_ne by done. intros Hf%Hc. by apply lookup_app_l_Some.
  - intros k f. destruct (decide (f = length (flights g))) as [->|Hn].
    + rewrite lookup_app_r, Nat.sub_diag by lia. intros [= ->]. by rewrite lookup_insert_eq.
    + intros Hf. destruct (decide (f < length (flights g))%nat).
      * rewrite lookup_app_l in Hf by done. rewrite lookup_insert_ne; [by apply Hr|].
        intros <-. by apply (Hne _ _ Hf).
      * rewrite lookup_ge_None_2 in Hf; [done|]. rewrite length_app. simpl. lia.
  - rewrite map_size_insert_None by done. lia.
Qed.

Lemma finish_ok g f v : group_ok g -> group_ok (finish g f v).
Proof.
  intros [Hc Hr Hs]. unfold finish. destruct (flights g !! f) as [[key [o|]]|] eqn:Hf; [by split| |by split].
  assert (calls g !! key = Some f) as Hk by by apply Hr.
  split; simpl.
  - intros k f'. rewrite lookup_delete_Some. intros [Hne Hk']. pose proof (Hc _ _ Hk') as Hf'.
    rewrite list_lookup_insert_ne; [done|]. intros ->. congruence.
  - intros k f'. destruct (decide (f' = f)) as [->|Hne].
    + rewrite list_lookup_insert_eq; [done|]. by apply lookup_lt_Some in Hf.
    + rewrite list_lookup_insert_ne by done. intros Hf'. apply lookup_delete_Some.
      split; [|by apply Hr]. intros ->. apply Hr in Hf'. congruence.
  - rewrite map_size_delete, Hk. lia.
Qed.

Lemma steps_ok g g' : rtc step g g' -> group_ok g -> group_ok g'.
Proof. induction 1 as [|g1 g2 g3 [] _ IH]; auto using enter_ok, finish_ok. Qed.

Lemma flights_ok g : reachable g -> group_ok g.
Proof. intros Hr. by apply (steps_ok _ _ Hr). Qed.

(** Outcomes are never overwritten. *)
Lemma step_outcome g g' f v : step g g' -> outcome g f = Some v -> outcome g' f = Some v.
Proof.
  intros [g0 key|g0 f' v'] Ho; unfold outcome in *.
  - destruct (flights g0 !! f) as [[k o]|] eqn:Hf; [|done].
    assert (flights (enter g0 key).2 !! f = Some (k, o)) as ->; [|done].
    unfold enter. destruct (calls g0 !! key); [done|].
    destruct (_ <=? _); simpl; [done|]. by apply lookup_app_l_Some.
  - unfold finish. destruct (flights g0 !! f') as [[k [o|]]|] eqn:Hf'; try done. simpl.
    destruct (decide (f = f')) as [->|Hne]; [by rewrite Hf' in Ho|].
    by rewrite list_lookup_insert_ne.
Qed.

Lemma steps_outcome g g' f v : rtc step g g' -> outcome g f = Some v -> outcome g' f = Some v.
Proof. induction 1; eauto using step_outcome. Qed.

End Flight.
Arguments flightGroup : clear implicits.
End Flight.

(** ** The video cache of a process: at most 512 entries, least recently used out first

    [order] lists the ids, most recently used first; [entries] holds the elements. *)
Module Memory.

Definition limit : nat := 512.

Section Memory.
Context {V : Type} (Missing : V -> bool).   (* [videoEnvelope] and its flag *)

Record localVideo := mkLocal { value : V; fresh : Time; stale : Time }.

Record videoMemory := mkMemory {
  entries : gmap Z localVideo;
  order : list Z;
  epoch : Z;
}.

Definition new : videoMemory := mkMemory ∅ [] 0.

Definition remove (id : Z) (l : list Z) : list Z := filter (fun x => x <> id) l.

(** [now1] and [now2] are the two readings of the clock. *)
Definition get (m : videoMemory) (id : Z) (allow_stale : bool) (now1 now2 : Time)
    : option V * videoMemory :=
  match entries m !! id with
  | None => (None, m)
  | Some v =>
      if time_Before now1 (if allow_stale then stale v else fresh v)
      then (Some (value v), mkMemory (entries m) (id :: remove id (order m)) (epoch m))
      else if time_After now2 (stale v)
      then (None, mkMemory (delete id (entries m)) (remove id (order m)) (epoch m))
      else (None, m)
  end.

Definition generation (m : videoMemory) : Z := epoch m.

(** [m.order.Back()] goes when the list is too long. *)
Definition trim (m : videoMemory) : videoMemory :=
  if (limit <? length (order m))%nat then
    match last (order m) with
    | Some id => mkMemory (delete id (entries m)) (remove id (order m)) (epoch m)
    | None => m
    end
  else m.

Definition put (m : videoMemory) (id : Z) (v : V) (gen : Z) (now : Time) : videoMemory :=
  if negb (epoch m =? gen) then m else
  let stale := if Missing v then now + second else now + minute in
  trim (mkMemory (<[id := mkLocal v (now + second) stale]> (entries m))
          (id :: remove id (order m)) (epoch m)).

(** [epoch] is a uint64. *)
Definition invalidate (m : videoMemory) (id : Z) : videoMemory :=
  mkMemory (delete id (entries m)) (remove id (order m)) ((epoch m + 1) mod 2 ^ 64).

Inductive call :=
  | Get (id : Z) (allow_stale : bool) (now1 now2 : Time)
  | Put (id : Z) (v : V) (gen : Z) (now : Time)
  | Invalidate (id : Z).

Definition exec (m : videoMemory) (c : call) : videoMemory :=
  match c with
  | Get id st now1 now2 => (get m id st now1 now2).2
  | Put id v gen now => put m id v gen now
  | Invalidate id => invalidate m id
  end.

Definition run (m : videoMemory) (cs : list call) : videoMemory := fold_left exec cs m.

(** The list and the map have the same ids, each once, and not too many. *)
Record memory_ok (m : videoMemory) : Prop := {
  mo_nodup : NoDup (order m);
  mo_same : forall id, id ∈ order m <-> is_Some (entries m !! id);
  mo_bound : (length (order m) <= limit)%nat;
}.

Lemma elem_of_remove id x l : x ∈ remove id l <-> x <> id /\ x ∈ l.
Proof. unfold remove. by rewrite list_elem_of_filter. Qed.

Lemma NoDup_remove id l : NoDup l -> NoDup (remove id l).
Proof. apply NoDup_filter. Qed.

Lemma length_remove_le id l : (length (remove id l) <= length l)%nat.
Proof. apply length_filter. Qed.

Lemma length_remove_lt id l : id ∈ l -> (length (remove id l) < length l)%nat.
Proof.
  intros Hin. unfold remove. apply length_filter_lt with id; [done|]. naive_solver.
Qed.

Lemma delete_ok m id :
  memory_ok m -> memory_ok (mkMemory (delete id (entries m)) (remove id (order m)) (epoch m)).
Proof.
  intros [Hn Hs Hb]. split; simpl.
  - by apply NoDup_remove.
  - intros x. rewrite elem_of_remove, Hs, lookup_delete_is_Some. naive_solver.
  - pose proof (length_remove_le id (order m)). lia.
Qed.

Lemma touch_ok m id : memory_ok m -> is_Some (entries m !! id) ->
  memory_ok (mkMemory (entries m) (id :: remove id (order m)) (epoch m)).
Proof.
  intros [Hn Hs Hb] Hid. split; simpl.
  - apply NoDup_cons. rewrite elem_of_remove. split; [naive_solver|]. by apply NoDup_remove.
  - intros x. rewrite elem_of_cons, elem_of_remove, Hs. destruct (decide (x = id)) as [->|]; naive_solver.
  - apply Hs in Hid. pose proof (length_remove_lt id (order m) Hid). lia.
Qed.

Lemma put_ok m id v gen now : memory_ok m -> memory_ok (put m id v gen now).
Proof.
  intros [Hn Hs Hb]. unfold put. destruct (negb _); [by split|]. cbv zeta.
  set (m1 := mkMemory _ _ _).
  assert (NoDup (order m1)) as Hn1.
  { simpl. apply NoDup_cons. rewrite elem_of_remove. split; [naive_solver|]. by apply NoDup_remove. }
  assert (forall x, x ∈ order m1 <-> is_Some (entries m1 !! x)) as Hs1.
  { intros x. simpl. rewrite elem_of_cons, elem_of_remove, Hs, lookup_insert_is_Some.
    destruct (decide (x = id)); naive_solver. }
  assert (length (order m1) <= S limit)%nat as Hb1.
  { simpl. pose proof (length_remove_le id (order m)). lia. }
  unfold trim. destruct (Nat.ltb_spec limit (length (order m1))) as [Hlt|Hle]; [|by split].
  destruct (last (order m1)) as [b|] eqn:Hl.
  - assert (b ∈ order m1) as Hb2 by by apply last_Some_elem_of.
    pose proof (length_remove_lt b (order m1) Hb2).
    split; simpl in *.
    + by apply NoDup_remove.
    + intros x. rewrite elem_of_remove, Hs1, lookup_delete_is_Some. simpl. naive_solver.
    + lia.
  - apply last_None in Hl. done.
Qed.

Lemma memory_exec_ok m c : memory_ok m -> memory_ok (exec m c).
Proof.
  intros Hok. destruct c as [id st n1 n2|id v gen now|id]; simpl.
  - unfold get. destruct (entries m !! id) eqn:Hid; [|done].
    destruct (time_Before _ _); [by apply touch_ok|].
    destruct (time_After _ _); [by apply delete_ok|done].
  - by apply put_ok.
  - by destruct (delete_ok m id Hok); split.
Qed.

(** A write of [id] that started before generation [g + 1]. *)
Definition old_put (id g : Z) (c : call) : Prop :=
  match c with Put id' _ gen _ => id' = id -> gen <= g | _ => True end.

Lemma lookup_trim_None m id : entries m !! id = None -> entries (trim m) !! id = None.
Proof.
  intros Hn. unfold trim. destruct (_ <? _)%nat; [|done]. destruct (last (order m)); [|done].
  simpl. apply lookup_delete_None. by right.
Qed.

Lemma trim_epoch m : epoch (trim m) = epoch m.
Proof. unfold trim. by repeat case_match. Qed.

Lemma exec_fenced m c id g :
  g < epoch m -> epoch m + 1 < 2 ^ 64 -> entries m !! id = None -> old_put id g c -> 0 <= epoch m ->
  entries (exec m c) !! id = None /\ epoch m <= epoch (exec m c) <= epoch m + 1.
Proof.
  intros Hg Hw Hn Hc H0. destruct c as [id' st n1 n2|id' v gen now|id']; simpl in *.
  - unfold get. destruct (entries m !! id') eqn:Hid; simpl; [|split; [done|lia]].
    destruct (time_Before _ _); simpl; [split; [done|lia]|].
    destruct (time_After _ _); simpl; [|split; [done|lia]].
    split; [apply lookup_delete_None; by right|lia].
  - unfold put. destruct (Z.eqb_spec (epoch m) gen) as [He|]; simpl; [|split; [done|lia]].
    rewrite trim_epoch. simpl. split; [|lia]. apply lookup_trim_None. simpl.
    apply lookup_insert_None. split; [done|]. intros ->. specialize (Hc eq_refl). lia.
  - unfold invalidate. simpl. rewrite Z.mod_small by lia. split; [apply lookup_delete_None; by right|lia].
Qed.

Lemma run_fenced cs m id g :
  g < epoch m -> 0 <= epoch m -> epoch m + Z.of_nat (length cs) < 2 ^ 64 ->
  entries m !! id = None -> Forall (old_put id g) cs -> entries (run m cs) !! id = None.
Proof.
  revert m. induction cs as [|c cs IH]; intros m Hg H0 Hw Hn Hall; [done|].
  inversion Hall; subst. simpl in *.
  destruct (exec_fenced m c id g) as [Hn' He]; [done|lia|done..|].
  apply IH; [lia|lia|lia|done|done].
Qed.

Lemma new_ok : memory_ok new.
Proof. split; simpl; [constructor| |unfold limit; lia]. intros id. split; [by intros ?%elem_of_nil|by intros [? ?]]. Qed.

Lemma memory_size m : memory_ok m -> (size (entries m) <= limit)%nat.
Proof.
  intros [Hn Hs Hb]. rewrite <-size_dom. etrans; [|exact Hb].
  assert (dom (entries m) = list_to_set (order m)) as ->.
  { apply set_eq. intros id. rewrite elem_of_dom, elem_of_list_to_set. by rewrite Hs. }
  by rewrite size_list_to_set.
Qed.

(** Each call moves the epoch by one at most. *)
Lemma run_epoch cs m :
  0 <= epoch m -> epoch m + Z.of_nat (length cs) < 2 ^ 64 ->
  0 <= epoch (run m cs) <= epoch m + Z.of_nat (length cs).
Proof.
  revert m. induction cs as [|c cs IH]; intros m H0 Hw; [simpl in *; lia|]. simpl in *.
  assert (epoch m <= epoch (exec m c) <= epoch m + 1) as He.
  { destruct c as [id st n1 n2|id v gen now|id]; simpl.
    - unfold get. repeat (case_match; simpl; try lia).
    - unfold put. case_match; [lia|]. rewrite trim_epoch. simpl. lia.
    - rewrite Z.mod_small; lia. }
  specialize (IH (exec m c)). lia.
Qed.

Lemma run_ok cs m : memory_ok m -> memory_ok (run m cs).
Proof. revert m. induction cs as [|c cs IH]; intros m Hok; [done|]. simpl. by apply IH, memory_exec_ok. Qed.

End Memory.
End Memory.

(** ** The fixed-window limiter used when Redis is away *)
Module Limiter.

Definition capacity : Z := 10000.

Record localLimit := mkLimit { count : Z; expires : Time }.

Notation memoryLimiter := (gmap string localLimit).

(** The zero value a Go map gives for a missing key. *)
Definition no_limit : localLimit := mkLimit 0 0.

Definition purge (l : memoryLimiter) (now : Time) : memoryLimiter :=
  filter (fun kv => time_Before now (expires (kv.2)) = true) l.

(** [None]: [errBusy]. *)
Definition take (l : memoryLimiter) (key : string) (max window : Z) (now : Time)
    : option bool * memoryLimiter :=
  let v := default no_limit (l !! key) in
  let exists_ := bool_decide (is_Some (l !! key)) in
  let l := if negb exists_ && (capacity <=? Z.of_nat (size l)) then purge l now else l in
  if negb exists_ && (capacity <=? Z.of_nat (size l)) then (None, l)
  else
    let v := if time_Before now (expires v) then v else mkLimit 0 (now + window) in
    let v := mkLimit (count v + 1) (expires v) in
    (Some (count v <=? max), <[key := v]> l).

Record request := mkRequest { r_key : string; r_max : Z; r_window : Z; r_now : Time }.

(** A run and its answers. *)
Fixpoint run (l : memoryLimiter) (rs : list request) : list (option bool) * memoryLimiter :=
  match rs with
  | [] => ([], l)
  | r :: rs =>
      let '(a, l) := take l (r_key r) (r_max r) (r_window r) (r_now r) in
      let '(out, l) := run l rs in
      (a :: out, l)
  end.

(** How many requests for [key] were let through. *)
Fixpoint granted (key : string) (rs : list request) (out : list (option bool)) : Z :=
  match rs, out with
  | r :: rs, a :: out =>
      b2z (String.eqb (r_key r) key && match a with Some b => b | None => false end) + granted key rs out
  | _, _ => 0
  end.

Lemma purge_size l now : (size (purge l now) <= size l)%nat.
Proof. apply map_size_filter. Qed.

Lemma take_size l key max window now :
  Z.of_nat (size l) <= capacity -> Z.of_nat (size (take l key max window now).2) <= capacity.
Proof.
  intros Hs. unfold take. cbv zeta.
  set (e := bool_decide (is_Some (l !! key))).
  set (l' := if negb e && (capacity <=? Z.of_nat (size l)) then purge l now else l).
  assert (Z.of_nat (size l') <= capacity) as Hs'.
  { unfold l'. destruct (_ && _); [|done]. pose proof (purge_size l now). lia. }
  destruct (negb e && (capacity <=? Z.of_nat (size l'))) eqn:Hfull; [done|]. simpl.
  destruct (l' !! key) eqn:Hk.
  - rewrite map_size_insert_Some by by eexists. done.
  - rewrite map_size_insert_None by done.
    assert (e = false) as ->.
    { unfold l' in Hk. destruct e eqn:He; [|done]. simpl in Hk. unfold e in He.
      apply bool_decide_eq_true_1 in He as [x Hx]. congruence. }
    simpl in Hfull. lia.
Qed.

(** While its window lasts, the entry of a key only counts up. *)
Lemma take_entry l key r v :
  l !! key = Some v -> r_now r < expires v ->
  let '(a, l') := take l (r_key r) (r_max r) (r_window r) (r_now r) in
  if String.eqb (r_key r) key
  then a = Some (count v + 1 <=? r_max r) /\ l' !! key = Some (mkLimit (count v + 1) (expires v))
  else l' !! key = Some v.
Proof.
  intros Hv Hnow. unfold take. cbv zeta.
  assert (time_Before (r_now r) (expires v) = true) as Hb by (unfold time_Before; lia).
  destruct (String.eqb_spec (r_key r) key) as [->|Hne].
  - rewrite Hv. simpl. rewrite Hb. simpl. split; [done|]. apply lookup_insert_eq.
  - set (e := bool_decide (is_Some (l !! r_key r))).
    set (l' := if negb e && (capacity <=? Z.of_nat (size l)) then purge l (r_now r) else l).
    assert (l' !! key = Some v) as Hv'.
    { unfold l'. destruct (_ && _); [|done]. unfold purge. by apply map_lookup_filter_Some. }
    destruct (negb e && (capacity <=? Z.of_nat (size l'))); [done|].
    by rewrite lookup_insert_ne.
Qed.

(** When a key has no live entry, a request for it opens a window, or is refused. *)
Lemma take_free l key r t0 :
  (forall v, l !! key = Some v -> expires v <= t0) -> 0 <= t0 <= r_now r ->
  let '(a, l') := take l (r_key r) (r_max r) (r_window r) (r_now r) in
  if String.eqb (r_key r) key
  then a = None /\ (forall v, l' !! key = Some v -> expires v <= t0) \/
       a = Some (1 <=? r_max r) /\ l' !! key = Some (mkLimit 1 (r_now r + r_window r))
  else forall v, l' !! key = Some v -> expires v <= t0.
Proof.
  intros Hfree Hnow. unfold take. cbv zeta.
  set (e := bool_decide (is_Some (l !! r_key r))).
  set (l1 := if negb e && (capacity <=? Z.of_nat (size l)) then purge l (r_now r) else l).
  assert (forall v, l1 !! key = Some v -> expires v <= t0) as Hfree1.
  { intros v. unfold l1. destruct (_ && _); [|apply Hfree]. unfold purge.
    intros [Hv _]%map_lookup_filter_Some. by apply Hfree. }
  destruct (String.eqb_spec (r_key r) key) as [Hk|Hne].
  - destruct (negb e && (capacity <=? Z.of_nat (size l1))); [by left|right].
    rewrite Hk. assert (time_Before (r_now r) (expires (default no_limit (l !! key))) = false) as ->.
    { unfold time_Before. destruct (l !! key) as [v|] eqn:Hv; simpl; [specialize (Hfree v eq_refl)|]; lia. }
    simpl. split; [done|]. apply lookup_insert_eq.
  - destruct (negb e && (capacity <=? Z.of_nat (size l1))); [done|].
    intros v. rewrite lookup_insert_ne by done. apply Hfree1.
Qed.

(** Within one window, the requests let through stay below the budget that is left. *)
Lemma run_budget key max rs l v :
  l !! key = Some v ->
  Forall (fun r => r_now r < expires v /\ (r_key r = key -> r_max r = max)) rs ->
  granted key rs (run l rs).1 <= Z.max 0 (max - count v).
Proof.
  revert l v. induction rs as [|r rs IH]; intros l v Hv Hall; simpl; [lia|].
  inversion Hall as [|? ? [Hnow Hmax] Hall']; subst.
  pose proof (take_entry l key r v Hv Hnow) as Ht.
  destruct (take l (r_key r) (r_max r) (r_window r) (r_now r)) as [a l'].
  destruct (run l' rs) as [out l''] eqn:Hrun. simpl.
  destruct (String.eqb_spec (r_key r) key) as [Hk|Hne]; simpl.
  - destruct Ht as [-> Hl']. specialize (IH l' (mkLimit (count v + 1) (expires v)) Hl').
    rewrite Hrun in IH. simpl in IH. specialize (IH Hall'). rewrite Hmax by done.
    destruct (Z.leb_spec (count v + 1) max); simpl; lia.
  - specialize (IH l' v Ht Hall'). rewrite Hrun in IH. simpl in IH. lia.
Qed.

End Limiter.
