(* ===== verification/Redis.v ===== *)
(** * The state outside the database: Redis and the message queue

    Redis keeps strings, hashes and sorted sets under string keys, with deadlines; the
    commands follow its documentation, a command on a key of another type included. A
    string that holds the JSON of a Go value is kept as that value. Scores are float64 in
    Redis; the code only stores integers below 2^53, which float64 represents exactly, and
    adds such integers: they are integers here. The queue is the list of the events
    published so far. *)
From S2P Require Import Prelude.
From S2P Require Import GoStd.
From S2P Require Import GoConv.
From S2P Require Import FeedDomain.
From S2P Require Import Models.

(** The events of [internal/application]: [ActionChangedEvent], [PublishedEvent] and
    [ViewEventRecordedEvent]. *)
Record ActionChangedEvent := mkActionChangedEvent {
  ae_EventID : string;
  ae_UserID : Z;
  ae_VideoID : Z;
  ae_ActionType : string;
  ae_Active : bool;
  ae_IdempotencyKey : string;
  ae_OccurredAt : Time;
}.

Record PublishedEvent := mkPublishedEvent {
  pe_EventID : string;
  pe_VideoID : Z;
  pe_AuthorID : Z;
  pe_Title : string;
  pe_Description : string;
  pe_MediaURL : string;
  pe_CoverURL : string;
  pe_PublishedAt : Time;
  pe_OccurredAt : Time;
}.

Record ViewEventRecordedEvent := mkViewEventRecordedEvent {
  ve_EventID : string;
  ve_ViewEventID : Z;
  ve_UserID : Z;
  ve_VideoID : Z;
  ve_Scene : string;
  ve_RequestID : string;
  ve_EventType : string;
  ve_WatchMs : Z;
  ve_Completed : bool;
  ve_RecordedAt : Time;
  ve_OccurredAt : Time;
  ve_ExposureCount : Z;
}.

Inductive Event :=
  | EvActionChanged (e : ActionChangedEvent)
  | EvVideoPublished (e : PublishedEvent)
  | EvViewEventRecorded (e : ViewEventRecordedEvent)
  | EvOutbox (e : event).   (* a message of the exchange [owlet.events] *)

(** [FeedPage] of [internal/application/feed]: the light page that is cached; JSON may hold
    a null item. *)
Record FeedPage := mkFeedPage {
  fp_Scene : string;
  fp_Items : list (option FeedPageItem);
  fp_NextCursor : string;
  fp_HasMore : bool;
}.

(** JSON texts the code stores, as the values they stand for ([cachedSession] is a session
    and its lease), and the texts that are not JSON. *)
Inductive json_value :=
  | JStat (s : FeedStat)
  | JCard (c : FeedCard)
  | JPage (p : FeedPage)
  | JSession (s : SessionModel) (until : Time)
  | JVideo (v : videoEnvelope)
  | JUpload (u : UploadModel)
  | JRaw (s : string).

(** ** The store *)

Inductive redis_value :=
  | RString (v : json_value)
  | RHash (h : gmap string string)
  | RZset (z : gmap string Z).

Record redis_entry := mkEntry { e_value : redis_value; e_deadline : option Time }.

Notation Redis := (gmap string redis_entry).
Definition no_redis : Redis := ∅.

(** An entry whose deadline has passed is gone. *)
Definition live_entry (now : Time) (e : redis_entry) : bool :=
  match e_deadline e with Some t => now <? t | None => true end.

Definition redis_get (now : Time) (r : Redis) (key : string) : option redis_entry :=
  e ← r !! key;
  if live_entry now e then Some e else None.

(** A command that keeps the deadline of its key. *)
Definition redis_put (now : Time) (key : string) (v : redis_value) (r : Redis) : Redis :=
  <[key := mkEntry v (e ← redis_get now r key; e_deadline e)]> r.

(** [SET key v EX ttl]; no expiry if [ttl] is 0. *)
Definition redis_set (now : Time) (key : string) (v : json_value) (ttl : Z) (r : Redis) : Redis :=
  <[key := mkEntry (RString v) (if ttl <=? 0 then None else Some (now + ttl))]> r.

(** [SET key v NX PX ttl]: whether the key was free, and the store. *)
Definition redis_setnx (now : Time) (key : string) (v : json_value) (ttl : Z) (r : Redis) : bool * Redis :=
  match redis_get now r key with
  | Some _ => (false, r)
  | None => (true, redis_set now key v ttl r)
  end.

(** [DEL] *)
Definition redis_del (keys : list string) (r : Redis) : Redis := foldl (fun r key => delete key r) r keys.

(** [EXPIRE]: nothing happens when the key is not there. *)
Definition redis_expire (now : Time) (key : string) (ttl : Z) (r : Redis) : Redis :=
  match redis_get now r key with
  | Some e => <[key := mkEntry (e_value e) (Some (now + ttl))]> r
  | None => r
  end.

(** The string, hash or sorted set at a key; [None]: the key holds a value of another type
    (the WRONGTYPE error). *)
Definition string_at (now : Time) (r : Redis) (key : string) : option (option json_value) :=
  match e_value <$> redis_get now r key with
  | None => Some None
  | Some (RString v) => Some (Some v)
  | _ => None
  end.

Definition hash_at (now : Time) (r : Redis) (key : string) : option (gmap string string) :=
  match e_value <$> redis_get now r key with
  | None => Some ∅
  | Some (RHash h) => Some h
  | _ => None
  end.

Definition zset_at (now : Time) (r : Redis) (key : string) : option (gmap string Z) :=
  match e_value <$> redis_get now r key with
  | None => Some ∅
  | Some (RZset z) => Some z
  | _ => None
  end.

(** A sorted set without members is no key. *)
Definition zset_put (now : Time) (key : string) (z : gmap string Z) (r : Redis) : Redis :=
  if decide (z = ∅) then delete key r else redis_put now key (RZset z) r.

(** [INCR]: the text at the key must be an integer, and so must the result. *)
Definition redis_incr (now : Time) (key : string) (r : Redis) : option (Z * Redis) :=
  v ← string_at now r key;
  n ← match v with
      | None => Some 0
      | Some (JRaw s) => let '(n, ok) := ParseInt s in if ok : bool then Some n else None
      | Some _ => None
      end;
  if n + 1 <? 2 ^ 63 then Some (n + 1, redis_put now key (RString (JRaw (fmt_d (n + 1)))) r) else None.

(** ** Hashes *)

Definition redis_hset (now : Time) (key field value : string) (r : Redis) : option Redis :=
  h ← hash_at now r key; Some (redis_put now key (RHash (<[field := value]> h)) r).

Definition redis_hsetnx (now : Time) (key field value : string) (r : Redis) : option Redis :=
  h ← hash_at now r key;
  match h !! field with
  | Some _ => Some r
  | None => Some (redis_put now key (RHash (<[field := value]> h)) r)
  end.

(** [HINCRBY]: the field must hold an integer, and so must the result. *)
Definition redis_hincrby (now : Time) (key field : string) (delta : Z) (r : Redis) : option Redis :=
  h ← hash_at now r key;
  let '(n, ok) := match h !! field with Some s => ParseInt s | None => (0, true) end in
  if ok && bool_decide (- 2 ^ 63 <= n + delta < 2 ^ 63)
  then Some (redis_put now key (RHash (<[field := fmt_d (n + delta)]> h)) r) else None.

(** ** Sorted sets *)

(** Members by descending score, those of one score by descending bytes. *)
Definition zset_less (x y : string * Z) : bool :=
  (y.2 <? x.2) || ((x.2 =? y.2) && String.ltb y.1 x.1).

Definition zset_desc (z : gmap string Z) : list (string * Z) := stable_sort zset_less (map_to_list z).

Definition redis_zadd (now : Time) (key member : string) (score : Z) (r : Redis) : option Redis :=
  z ← zset_at now r key; Some (zset_put now key (<[member := score]> z) r).

Definition redis_zincrby (now : Time) (key member : string) (delta : Z) (r : Redis) : option Redis :=
  z ← zset_at now r key;
  Some (zset_put now key (<[member := default 0 (z !! member) + delta]> z) r).

(** [ZREMRANGEBYRANK key 0 (-n-1)] for a positive [n]: the [n] highest stay. *)
Definition redis_zkeep (now : Time) (key : string) (n : Z) (r : Redis) : option Redis :=
  z ← zset_at now r key;
  Some (zset_put now key (list_to_map (take (Z.to_nat n) (zset_desc z))) r).

(** [ZREVRANGEBYSCORE key (max -inf LIMIT 0 count]; [None] is [+inf]. *)
Definition redis_zbelow (now : Time) (r : Redis) (key : string) (max : option Z) (count : Z)
    : option (list (string * Z)) :=
  z ← zset_at now r key;
  Some (take_z count (filter (fun ms => match max with Some m => ms.2 <? m | None => true end = true)
                        (zset_desc z))).

(** [ZREVRANGE key start stop WITHSCORES], for offsets that are not negative. *)
Definition redis_zrevrange (now : Time) (r : Redis) (key : string) (start stop : Z)
    : option (list (string * Z)) :=
  z ← zset_at now r key;
  Some (take_z (stop + 1 - start) (drop (Z.to_nat start) (zset_desc z))).

(** [ZUNIONSTORE dest keys AGGREGATE SUM]: the result has no deadline. *)
Definition zset_add (a b : gmap string Z) : gmap string Z := union_with (fun x y => Some (x + y)) a b.

Definition redis_zunion (now : Time) (r : Redis) (keys : list string) : option (gmap string Z) :=
  zs ← mapM (zset_at now r) keys; Some (foldr zset_add ∅ zs).

Definition redis_zunionstore (now : Time) (dest : string) (keys : list string) (r : Redis)
    : option Redis :=
  z ← redis_zunion now r keys;
  Some (if decide (z = ∅) then delete dest r else <[dest := mkEntry (RZset z) None]> r).

(** [ZREMRANGEBYSCORE key -inf max] *)
Definition redis_zremabove (now : Time) (key : string) (max : Z) (r : Redis) : option Redis :=
  z ← zset_at now r key;
  Some (zset_put now key (filter (fun ms => max < ms.2) z) r).

(** ** What reading a key after a write gives *)

Lemma redis_get_put now key v r :
  redis_get now (redis_put now key v r) key
  = Some (mkEntry v (e ← redis_get now r key; e_deadline e)).
Proof.
  unfold redis_put. set (d := e ← redis_get now r key; e_deadline e).
  assert (match d with Some t => now <? t | None => true end = true) as Hd.
  { subst d. unfold redis_get. destruct (r !! key) as [e|]; [|done]. simpl.
    destruct (live_entry now e) eqn:Hl; [|done]. exact Hl. }
  unfold redis_get. rewrite lookup_insert_eq. simpl. unfold live_entry. simpl. by rewrite Hd.
Qed.

Lemma redis_get_put_ne now now' key key' v r :
  key <> key' -> redis_get now' (redis_put now key v r) key' = redis_get now' r key'.
Proof. intros Hne. unfold redis_put, redis_get. by rewrite lookup_insert_ne. Qed.

Lemma redis_get_expire_ne now now' key key' ttl r :
  key <> key' -> redis_get now' (redis_expire now key ttl r) key' = redis_get now' r key'.
Proof.
  intros Hne. unfold redis_expire. case_match; [|done]. unfold redis_get. by rewrite lookup_insert_ne.
Qed.

Lemma redis_get_set_ne now now' key key' v ttl r :
  key <> key' -> redis_get now' (redis_set now key v ttl r) key' = redis_get now' r key'.
Proof. intros Hne. unfold redis_set, redis_get. by rewrite lookup_insert_ne. Qed.
