(* ===== verification/Store.v ===== *)
(** * The database as GORM presents it

    A computation of type [M A] runs against a [World]: the tables, the auto-increment
    counters (which a rollback does not restore), Redis, the queue, the memory of the
    process, the disk, the clock, and the behaviour of the environment, an arbitrary stream of
    faults and of time steps. Every call to the database ([call]) may fail with a driver error; [transaction] restores the tables
    when its body or its COMMIT fails. All theorems quantify over the streams, so they
    hold whatever calls fail and however time passes.

    [wp m Q E w]: run from [w], [m] either returns a value and a world in [Q] or fails
    with an error and a world in [E]. *)
From S2P Require Import Prelude.
From S2P Require Import GoStd.
From S2P Require Import GoHash.
From S2P Require Import Errors.
From S2P Require Import Files.
From S2P Require Import Models.
From S2P Require Import Redis.
From S2P Require Resilience.

(** The environment: what the remaining database calls do ([None]: succeed, [Some t]:
    fail with text [t]; the empty stream succeeds), how many nanoseconds pass before
    each reading of the clock, and the random bytes still to be drawn. *)
Record Env := mkEnv {
  faults : list (option string);
  ticks : list N;
  clock : Time;
  entropy : list string;
}.

(** The memory of the process ([appRuntime] of [resilience.go]): the circuit breaker in front
    of Redis, the local copies of videos, the local rate limits. *)
Record Process := mkProcess {
  breaker : Resilience.Breaker.circuitBreaker;
  local_videos : Resilience.Memory.videoMemory (V := videoEnvelope);
  limiter : gmap string Resilience.Limiter.localLimit;
}.

Definition new_process : Process :=
  mkProcess Resilience.Breaker.new Resilience.Memory.new ∅.

Record World := mkWorld {
  db : Tables;
  auto_inc : gmap string Z;
  redis : Redis;
  queue : list Event;
  env : Env;
  process : Process;
  disk : Disk;
}.

Definition M (A : Type) := World -> (error + A) * World.

#[export] Instance M_ret : MRet M := fun A a w => (inr a, w).
#[export] Instance M_bind : MBind M := fun A B f m w =>
  match m w with
  | (inl e, w') => (inl e, w')
  | (inr a, w') => f a w'
  end.

Definition throw {A} (e : error) : M A := fun w => (inl e, w).

(** Run [m] and look at its error: Go's [x, err := m()]. *)
Definition attempt {A} (m : M A) : M (error + A) := fun w =>
  match m w with (r, w') => (inr r, w') end.

Definition with_env (w : World) (e : Env) : World :=
  mkWorld (db w) (auto_inc w) (redis w) (queue w) e (process w) (disk w).
Definition with_db (w : World) (d : Tables) : World :=
  mkWorld d (auto_inc w) (redis w) (queue w) (env w) (process w) (disk w).
Definition with_redis (w : World) (r : Redis) : World :=
  mkWorld (db w) (auto_inc w) r (queue w) (env w) (process w) (disk w).
Definition with_queue (w : World) (q : list Event) : World :=
  mkWorld (db w) (auto_inc w) (redis w) q (env w) (process w) (disk w).
Definition with_process (w : World) (p : Process) : World :=
  mkWorld (db w) (auto_inc w) (redis w) (queue w) (env w) p (disk w).

Definition with_disk (w : World) (d : Disk) : World :=
  mkWorld (db w) (auto_inc w) (redis w) (queue w) (env w) (process w) d.

(** The world after a write to the database. *)
Definition with_write (w : World) (d : Tables) (a : gmap string Z) (e : Env) : World :=
  mkWorld d a (redis w) (queue w) e (process w) (disk w).

(** One round trip to the database. *)
Definition call : M unit := fun w =>
  let e := env w in
  let w' := with_env w (mkEnv (tail (faults e)) (ticks e) (clock e) (entropy e)) in
  match faults e with
  | Some text :: _ => (inl (EDriver text), w')
  | _ => (inr tt, w')
  end.

(** [time.Now()]: the clock never goes back. *)
Definition time_now : M Time := fun w =>
  let e := env w in
  let t := clock e + Z.of_N (default 0%N (head (ticks e))) in
  (inr t, with_env w (mkEnv (faults e) (tail (ticks e)) t (entropy e))).

(** [rand.Read] of [n] bytes. *)
Definition random_bytes (n : nat) : M bytes := fun w =>
  let e := env w in
  (inr (take n (string_bytes (default ""%string (head (entropy e))) ++ replicate n 0)),
   with_env w (mkEnv (faults e) (ticks e) (clock e) (tail (entropy e)))).

(** [newEventID]: 12 random bytes in hexadecimal. *)
Definition new_event_id : M string := b ← random_bytes 12; mret (hex_EncodeToString b).

(** A version 4 UUID of 16 random bytes, as text. *)
Definition uuid_text (b : bytes) : string :=
  let b := alter (fun x => Z.lor (Z.land x 0x3f) 0x80) 8%nat (alter (fun x => Z.lor (Z.land x 0x0f) 0x40) 6%nat b) in
  let h := hex_EncodeToString b in
  (String.substring 0 8 h +:+ "-" +:+ String.substring 8 4 h +:+ "-" +:+ String.substring 12 4 h +:+ "-" +:+
   String.substring 16 4 h +:+ "-" +:+ String.substring 20 12 h)%string.

(** [uuid.NewString()] *)
Definition uuid_NewString : M string := b ← random_bytes 16; mret (uuid_text b).

(** [time.Sleep(d)] *)
Definition sleep (d : Z) : M unit := fun w =>
  let e := env w in
  (inr tt, with_env w (mkEnv (faults e) (ticks e) (clock e + Z.max 0 d) (entropy e))).

(** Publish an event to the message queue. *)
Definition push_event (ev : Event) : M unit := fun w => (inr tt, with_queue w (queue w ++ [ev])).

Definition publish (ev : Event) : M unit := _ ← call; push_event ev.

(** [SELECT]: a query is a function of the tables. *)
Definition read_db {A} (f : Tables -> A) : M A := fun w => (inr (f (db w)), w).

Definition query {A} (f : Tables -> A) : M A := _ ← call; read_db f.

(** [Take] and [First]: the query must find a row. *)
Definition take_row {A} (f : Tables -> option A) : M A :=
  r ← query f;
  match r with Some a => mret a | None => throw ERecordNotFound end.

(** [UPDATE] or [INSERT] of rows whose uniqueness is known. *)
Definition write_db (f : Tables -> Tables) : M unit := fun w => (inr tt, with_db w (f (db w))).

Definition update (f : Tables -> Tables) : M unit := _ ← call; write_db f.

(** An [UPDATE] that reports how many rows it changed. *)
Definition update_count (count : Tables -> Z) (f : Tables -> Tables) : M Z :=
  _ ← call;
  n ← read_db count;
  _ ← write_db f;
  mret n.

(** [INSERT] into the auto-increment table [name]: the row is built from the id and the
    time of insertion; [dup] tells whether a unique index refuses it. The counter
    advances even then, and is not rolled back. *)
Definition next_id (name : string) (w : World) : Z := default 1 (auto_inc w !! name).

Definition write_row {A} (name : string) (mk : Z -> A) (dup : A -> Tables -> bool)
    (put : A -> Tables -> Tables) : M A := fun w =>
  let id := next_id name w in
  let row := mk id in
  let w' := with_write w (db w) (<[name := id + 1]> (auto_inc w)) (env w) in
  if dup row (db w) then (inl EDuplicatedKey, w')
  else (inr row, with_db w' (put row (db w))).

Definition insert_row {A} (name : string) (mk : Z -> Time -> A)
    (dup : A -> Tables -> bool) (put : A -> Tables -> Tables) : M A :=
  now ← time_now;
  _ ← call;
  write_row name (fun id => mk id now) dup put.

(** [INSERT] into a table whose primary key the caller chooses. *)
Definition write_keyed {A} (row : A) (dup : A -> Tables -> bool) (put : A -> Tables -> Tables)
    : M A := fun w =>
  if dup row (db w) then (inl EDuplicatedKey, w) else (inr row, with_db w (put row (db w))).

Definition insert_keyed {A} (mk : Time -> A) (dup : A -> Tables -> bool)
    (put : A -> Tables -> Tables) : M A :=
  now ← time_now;
  _ ← call;
  write_keyed (mk now) dup put.

(** An [UPDATE] that a unique index may refuse. *)
Definition update_unless (dup : Tables -> bool) (f : Tables -> Tables) : M unit :=
  _ ← call;
  refused ← read_db dup;
  if refused : bool then throw EDuplicatedKey else write_db f.

(** [INSERT … ON DUPLICATE KEY UPDATE]: [put] inserts or updates; an id is used up. *)
Definition write_upsert (name : string) (put : Z -> Tables -> Tables) : M unit := fun w =>
  let id := next_id name w in
  (inr tt, with_write w (put id (db w)) (<[name := id + 1]> (auto_inc w)) (env w)).

Definition upsert_row (name : string) (put : Z -> Time -> Tables -> Tables) : M unit :=
  now ← time_now;
  _ ← call;
  write_upsert name (fun id => put id now).

(** [db.Transaction(body)]: BEGIN, the body, and COMMIT, or ROLLBACK of the tables. *)
Definition transaction {A} (body : M A) : M A := fun w0 =>
  match call w0 with
  | (inl e, w) => (inl e, w)
  | (inr _, w) =>
      match body w with
      | (inl e, w') => (inl e, with_db w' (db w0))
      | (inr a, w') =>
          match call w' with
          | (inl e, w'') => (inl e, with_db w'' (db w0))
          | (inr _, w'') => (inr a, w'')
          end
      end
  end.

(** Map the error of a computation ([return mapVideoError(err)]). *)
Definition map_error {A} (f : error -> error) (m : M A) : M A := fun w =>
  match m w with
  | (inl e, w') => (inl (f e), w')
  | (inr a, w') => (inr a, w')
  end.

(** Some row of a table that satisfies a condition, if there is one. *)
Definition find_row `{Countable K} {A} (P : A -> bool) (t : gmap K A) : option A :=
  head (snd <$> map_to_list (filter (fun kv => P (kv.2) = true) t)).

(** The rows that satisfy a condition, in no particular order. *)
Definition select_rows `{Countable K} {A} (P : A -> bool) (t : gmap K A) : list A :=
  snd <$> map_to_list (filter (fun kv => P (kv.2) = true) t).

(** ** Program logic *)

Definition wp {A} (m : M A) (Q : A -> World -> Prop) (E : error -> World -> Prop) (w : World)
    : Prop :=
  match m w with
  | (inl e, w') => E e w'
  | (inr a, w') => Q a w'
  end.

Lemma wp_mono {A} (m : M A) (Q Q' : A -> World -> Prop) (E E' : error -> World -> Prop) w :
  wp m Q E w -> (forall a w', Q a w' -> Q' a w') -> (forall e w', E e w' -> E' e w') -> wp m Q' E' w.
Proof. unfold wp. destruct (m w) as [[e|a] w']; eauto. Qed.

Lemma wp_both {A} (m : M A) Q1 Q2 E1 E2 w :
  wp m Q1 E1 w -> wp m Q2 E2 w -> wp m (fun a w' => Q1 a w' /\ Q2 a w') (fun e w' => E1 e w' /\ E2 e w') w.
Proof. unfold wp. destruct (m w) as [[e|a] w']; done. Qed.

Lemma wp_ret {A} (a : A) Q E w : Q a w -> wp (mret a) Q E w.
Proof. done. Qed.

Lemma wp_throw {A} e (Q : A -> World -> Prop) E w : E e w -> wp (throw e) Q E w.
Proof. done. Qed.

Lemma wp_bind {A B} (m : M A) (f : A -> M B) Q E w :
  wp m (fun a w' => wp (f a) Q E w') E w -> wp (m ≫= f) Q E w.
Proof.
  unfold wp, mbind, M_bind. destruct (m w) as [[e|a] w']; done.
Qed.

Lemma wp_attempt {A} (m : M A) Q E w :
  wp m (fun a w' => Q (inr a) w') (fun e w' => Q (inl e) w') w -> wp (attempt m) Q E w.
Proof. unfold wp, attempt. destruct (m w) as [[e|a] w']; done. Qed.

Lemma wp_map_error {A} f (m : M A) Q E w :
  wp m Q (fun e w' => E (f e) w') w -> wp (map_error f m) Q E w.
Proof. unfold wp, map_error. destruct (m w) as [[e|a] w']; done. Qed.

(** ** Invariants of computations *)

(** [m] keeps [I], on success and on failure, and its results satisfy [Q]. *)
Definition maintains (I : World -> Prop) {A} (Q : A -> Prop) (m : M A) : Prop :=
  forall w, I w -> wp m (fun a w' => I w' /\ Q a) (fun _ w' => I w') w.

Section maintains.
Variable I : World -> Prop.

Lemma maintains_ret {A} (Q : A -> Prop) a : Q a -> maintains I Q (mret a).
Proof. intros Ha w Hw. by apply wp_ret. Qed.

Lemma maintains_throw {A} (Q : A -> Prop) e : maintains I Q (throw e).
Proof. intros w Hw. by apply wp_throw. Qed.

Lemma maintains_bind {A B} (P : A -> Prop) (Q : B -> Prop) (m : M A) (f : A -> M B) :
  maintains I P m -> (forall a, P a -> maintains I Q (f a)) -> maintains I Q (m ≫= f).
Proof.
  intros Hm Hf w Hw. apply wp_bind. eapply wp_mono; [by apply Hm| |done].
  intros a w' [Hw' Ha]. by apply Hf.
Qed.

Lemma maintains_attempt {A} (Q : A -> Prop) (m : M A) :
  maintains I Q m -> maintains I (fun r => match r with inl _ => True | inr a => Q a end) (attempt m).
Proof. intros Hm w Hw. apply wp_attempt. eapply wp_mono; [by apply Hm|done|done]. Qed.

Lemma maintains_map_error {A} (Q : A -> Prop) f (m : M A) : maintains I Q m -> maintains I Q (map_error f m).
Proof. intros Hm w Hw. apply wp_map_error. by apply Hm. Qed.

Lemma maintains_weaken {A} (P Q : A -> Prop) (m : M A) :
  maintains I P m -> (forall a, P a -> Q a) -> maintains I Q m.
Proof. intros Hm HPQ w Hw. eapply wp_mono; [by apply Hm| |done]. intros a w' [? ?]. auto. Qed.

(** The result of an [attempt] does not matter. *)
Lemma maintains_try {A} (m : M A) : maintains I (fun _ => True) m -> maintains I (fun _ => True) (attempt m).
Proof. intros Hm. eapply maintains_weaken; [by apply maintains_attempt|done]. Qed.
End maintains.

Lemma wp_call Q E w :
  (forall e, Q tt (with_env w e)) -> (forall t e, E (EDriver t) (with_env w e)) ->
  wp call Q E w.
Proof.
  intros HQ HE. unfold wp, call. destruct (faults (env w)) as [|[t|] fs]; simpl; eauto.
Qed.

Lemma wp_time_now Q E w :
  (forall t e, clock (env w) <= t -> clock e = t -> Q t (with_env w e)) -> wp time_now Q E w.
Proof. intros HQ. unfold wp, time_now. apply HQ; simpl; lia. Qed.

Lemma wp_random_bytes n Q E w : (forall b e, Q b (with_env w e)) -> wp (random_bytes n) Q E w.
Proof. intros HQ. apply HQ. Qed.

Lemma wp_new_event_id Q E w : (forall id e, Q id (with_env w e)) -> wp new_event_id Q E w.
Proof. intros HQ. apply HQ. Qed.

Lemma wp_uuid Q E w :
  (forall b e, clock e = clock (env w) -> Q (uuid_text b) (with_env w e)) -> wp uuid_NewString Q E w.
Proof. intros HQ. by apply HQ. Qed.

Lemma wp_publish ev Q E w :
  (forall e, Q tt (with_queue (with_env w e) (queue w ++ [ev]))) ->
  (forall t e, E (EDriver t) (with_env w e)) -> wp (publish ev) Q E w.
Proof. intros HQ HE. unfold publish. apply wp_bind, wp_call; [|done]. intros e. apply HQ. Qed.

Lemma wp_query {A} (f : Tables -> A) Q E w :
  (forall e, Q (f (db w)) (with_env w e)) -> (forall t e, E (EDriver t) (with_env w e)) ->
  wp (query f) Q E w.
Proof. intros HQ HE. unfold query. apply wp_bind, wp_call; [|done]. intros e. apply HQ. Qed.

Lemma wp_take_row {A} (f : Tables -> option A) Q E w :
  (forall a e, f (db w) = Some a -> Q a (with_env w e)) ->
  (forall e, f (db w) = None -> E ERecordNotFound (with_env w e)) ->
  (forall t e, E (EDriver t) (with_env w e)) ->
  wp (take_row f) Q E w.
Proof.
  intros HQ HN HE. unfold take_row. apply wp_bind, wp_query; [|done]. intros e.
  destruct (f (db w)) eqn:Hf; [apply wp_ret, HQ; done | apply wp_throw, HN; done].
Qed.

Lemma wp_update f Q E w :
  (forall e, Q tt (with_db (with_env w e) (f (db w)))) ->
  (forall t e, E (EDriver t) (with_env w e)) -> wp (update f) Q E w.
Proof. intros HQ HE. unfold update. apply wp_bind, wp_call; [|done]. intros e. apply HQ. Qed.

Lemma wp_update_count count f Q E w :
  (forall e, Q (count (db w)) (with_db (with_env w e) (f (db w)))) ->
  (forall t e, E (EDriver t) (with_env w e)) -> wp (update_count count f) Q E w.
Proof. intros HQ HE. unfold update_count. apply wp_bind, wp_call; [|done]. intros e. apply HQ. Qed.

Lemma wp_insert_row {A} name (mk : Z -> Time -> A) dup put Q E w :
  (forall t e, clock (env w) <= t ->
     let row := mk (next_id name w) t in
     let a := <[name := next_id name w + 1]> (auto_inc w) in
     dup row (db w) = false -> Q row (with_write w (put row (db w)) a e)) ->
  (forall t e, let row := mk (next_id name w) t in
     let a := <[name := next_id name w + 1]> (auto_inc w) in
     dup row (db w) = true -> E EDuplicatedKey (with_write w (db w) a e)) ->
  (forall t e, E (EDriver t) (with_env w e)) ->
  wp (insert_row name mk dup put) Q E w.
Proof.
  intros HQ HD HE. unfold insert_row. apply wp_bind, wp_time_now. intros t e Ht Hc.
  apply wp_bind, wp_call; [|intros; apply HE]. intros e'.
  unfold wp, write_row.
  change (next_id name (with_env (with_env w e) e')) with (next_id name w).
  simpl. destruct (dup _ _) eqn:Hd; [by eapply HD | by eapply HQ].
Qed.

Lemma wp_insert_keyed {A} (mk : Time -> A) dup put Q E w :
  (forall t e, clock (env w) <= t -> dup (mk t) (db w) = false ->
     Q (mk t) (with_db (with_env w e) (put (mk t) (db w)))) ->
  (forall t e, dup (mk t) (db w) = true -> E EDuplicatedKey (with_env w e)) ->
  (forall t e, E (EDriver t) (with_env w e)) ->
  wp (insert_keyed mk dup put) Q E w.
Proof.
  intros HQ HD HE. unfold insert_keyed. apply wp_bind, wp_time_now. intros t e Ht _.
  apply wp_bind, wp_call; [|intros; apply HE]. intros e'. unfold wp, write_keyed. simpl.
  destruct (dup _ _) eqn:Hd; [by eapply HD|by eapply HQ].
Qed.

Lemma wp_update_unless dup f Q E w :
  (forall e, dup (db w) = false -> Q tt (with_db (with_env w e) (f (db w)))) ->
  (forall e, dup (db w) = true -> E EDuplicatedKey (with_env w e)) ->
  (forall t e, E (EDriver t) (with_env w e)) -> wp (update_unless dup f) Q E w.
Proof.
  intros HQ HD HE. unfold update_unless. apply wp_bind, wp_call; [|done]. intros e.
  unfold wp, mbind, M_bind, read_db. simpl. destruct (dup _) eqn:Hd; [by apply HD|by apply HQ].
Qed.

Lemma wp_sleep d (Q : unit -> World -> Prop) E w : (forall e, clock e = clock (env w) + Z.max 0 d -> Q tt (with_env w e)) -> wp (sleep d) Q E w.
Proof. intros HQ. by apply HQ. Qed.

Lemma wp_upsert_row name put Q E w :
  (forall t e, clock (env w) <= t ->
     Q tt (with_write w (put (next_id name w) t (db w)) (<[name := next_id name w + 1]> (auto_inc w)) e)) ->
  (forall t e, E (EDriver t) (with_env w e)) -> wp (upsert_row name put) Q E w.
Proof.
  intros HQ HE. unfold upsert_row. apply wp_bind, wp_time_now. intros t e Ht Hc.
  apply wp_bind, wp_call; [|intros; apply HE]. intros e'. by apply HQ.
Qed.

Lemma wp_transaction {A} (body : M A) Q E w :
  (forall t e, E (EDriver t) (with_env w e)) ->
  (forall e, wp body
     (fun a w' => (forall e', Q a (with_env w' e')) /\
                  (forall t e', E (EDriver t) (with_db (with_env w' e') (db w))))
     (fun err w' => E err (with_db w' (db w))) (with_env w e)) ->
  wp (transaction body) Q E w.
Proof.
  intros HE HB. unfold wp, transaction.
  assert (wp call (fun _ w' => exists e, w' = with_env w e)
                  (fun err w' => exists t e, err = EDriver t /\ w' = with_env w e) w) as Hc.
  { apply wp_call; eauto. }
  unfold wp in Hc. destruct (call w) as [[err|[]] w1].
  { destruct Hc as (t & e & -> & ->). apply HE. }
  destruct Hc as [e ->]. specialize (HB e). unfold wp in HB.
  destruct (body (with_env w e)) as [[err|a] w2]; [done|].
  destruct HB as [HQ HC].
  assert (wp call (fun _ w' => exists e, w' = with_env w2 e)
                  (fun err w' => exists t e, err = EDriver t /\ w' = with_env w2 e) w2) as Hc.
  { apply wp_call; eauto. }
  unfold wp in Hc. destruct (call w2) as [[err|[]] w3].
  - destruct Hc as (t & e' & -> & ->). apply HC.
  - destruct Hc as [e' ->]. apply HQ.
Qed.

Create HintDb store.

(** Auto-increment counters only grow. *)
Definition grows (w w' : World) : Prop := forall name, next_id name w <= next_id name w'.

#[export] Instance grows_preorder : PreOrder grows.
Proof.
  split; [intros w name; lia|]. intros w1 w2 w3 H12 H23 name.
  specialize (H12 name). specialize (H23 name). lia.
Qed.

Lemma next_id_insert name name' w d e :
  next_id name (with_write w d (<[name' := next_id name' w + 1]> (auto_inc w)) e)
  = if decide (name = name') then next_id name w + 1 else next_id name w.
Proof.
  unfold next_id. simpl. case_decide as Hn; [subst; by rewrite lookup_insert_eq|].
  by rewrite lookup_insert_ne.
Qed.

Lemma grows_insert w d e name :
  grows w (with_write w d (<[name := next_id name w + 1]> (auto_inc w)) e).
Proof. intros name'. rewrite next_id_insert. case_decide; lia. Qed.

Lemma grows_same w d e : grows w (with_write w d (auto_inc w) e).
Proof. intros name. unfold next_id. simpl. lia. Qed.

Lemma grows_env w w' e : grows w w' -> grows w (with_env w' e).
Proof. done. Qed.

Lemma grows_db w w' d : grows w w' -> grows w (with_db w' d).
Proof. done. Qed.

Lemma grows_db_env w w' d e : grows w w' -> grows w (with_db (with_env w' e) d).
Proof. done. Qed.

Lemma grows_auto_inc w w' : auto_inc w' = auto_inc w -> grows w w'.
Proof. intros E name. unfold next_id. by rewrite E. Qed.

Lemma grows_refl w : grows w w.
Proof. reflexivity. Qed.

Lemma grows_insert_trans w w' d e name :
  grows w w' -> grows w (with_write w' d (<[name := next_id name w' + 1]> (auto_inc w')) e).
Proof. intros Hg. etrans; [exact Hg|apply grows_insert]. Qed.

#[export] Hint Resolve grows_env grows_db grows_db_env grows_refl grows_insert_trans : store.

(** A transaction whose postcondition does not speak of the environment. *)
Lemma wp_transaction_stable {A} (body : M A) (Q : A -> World -> Prop) (F : error -> Prop) w :
  (forall a w' e, Q a w' -> Q a (with_env w' e)) ->
  (forall a w', Q a w' -> grows w w') ->
  (forall t, F (EDriver t)) ->
  (forall w1, db w1 = db w -> auto_inc w1 = auto_inc w ->
     wp body Q (fun err w' => F err /\ grows w w') w1) ->
  wp (transaction body) Q (fun err w' => (db w' = db w /\ F err) /\ grows w w') w.
Proof.
  intros Hst Hgr HF HB. apply wp_transaction; [auto with store|].
  intros e. eapply wp_mono; [apply HB; auto with store| |]; simpl.
  - intros a w' HQ. split; [by eauto|]. intros t e'. apply Hgr in HQ. auto with store.
  - intros err w' [He Hg]. auto with store.
Qed.

(** A transaction seen through the tables: a failure restores them. *)
Lemma wp_transaction_tables {A} (body : M A) (Q : A -> Tables -> Prop) (F : error -> Prop) w :
  (forall t, F (EDriver t)) ->
  (forall w1, db w1 = db w -> grows w w1 ->
     wp body (fun a w' => Q a (db w') /\ grows w w') (fun err w' => F err /\ grows w w') w1) ->
  wp (transaction body) (fun a w' => Q a (db w') /\ grows w w')
     (fun err w' => (db w' = db w /\ F err) /\ grows w w') w.
Proof.
  intros HF HB. apply wp_transaction; [auto with store|].
  intros e. eapply wp_mono; [apply HB; auto with store| |]; simpl.
  - intros a w' [HQ Hg]. auto 10 with store.
  - intros err w' [He Hg]. auto with store.
Qed.

(** ** Rules that follow the clock *)

Lemma wp_call_clock Q E w :
  (forall e, clock e = clock (env w) -> Q tt (with_env w e)) ->
  (forall t e, clock e = clock (env w) -> E (EDriver t) (with_env w e)) -> wp call Q E w.
Proof.
  intros HQ HE. unfold wp, call. destruct (faults (env w)) as [|[t|] fs]; simpl; [by apply HQ|by apply HE|by apply HQ].
Qed.

Lemma wp_take_row_clock {A} (f : Tables -> option A) Q E w :
  (forall a e, clock e = clock (env w) -> f (db w) = Some a -> Q a (with_env w e)) ->
  (forall e, clock e = clock (env w) -> f (db w) = None -> E ERecordNotFound (with_env w e)) ->
  (forall t e, clock e = clock (env w) -> E (EDriver t) (with_env w e)) ->
  wp (take_row f) Q E w.
Proof.
  intros HQ HN HE. unfold take_row, query. apply wp_bind, wp_bind, wp_call_clock; [|done].
  intros e He. unfold wp, read_db. simpl. destruct (f (db w)) eqn:Hf; [by apply HQ|by apply HN].
Qed.

(** A transaction from the time it begins. *)
Lemma wp_transaction_clock {A} (body : M A) (Q : A -> World -> Prop) (F : error -> Prop) w :
  (forall a w' e, Q a w' -> Q a (with_env w' e)) ->
  (forall a w', Q a w' -> grows w w') ->
  (forall t, F (EDriver t)) ->
  (forall w1, db w1 = db w -> auto_inc w1 = auto_inc w -> clock (env w1) = clock (env w) ->
     wp body Q (fun err w' => F err /\ grows w w') w1) ->
  wp (transaction body) Q (fun err w' => (db w' = db w /\ F err) /\ grows w w') w.
Proof.
  intros Hst Hgr HF HB. unfold wp, transaction.
  assert (wp call (fun _ w' => exists e, w' = with_env w e /\ clock e = clock (env w))
            (fun err w' => exists t e, err = EDriver t /\ w' = with_env w e) w) as Hc.
  { apply wp_call_clock; eauto. }
  unfold wp in Hc. destruct (call w) as [[err|[]] w1].
  { destruct Hc as (t & e & -> & ->). auto with store. }
  destruct Hc as (e & -> & He). specialize (HB (with_env w e) eq_refl eq_refl He). unfold wp in HB.
  destruct (body (with_env w e)) as [[err|a] w2]; [destruct HB; auto with store|].
  assert (wp call (fun _ w' => exists e, w' = with_env w2 e)
            (fun err w' => exists t e, err = EDriver t /\ w' = with_env w2 e) w2) as Hc.
  { apply wp_call; eauto. }
  unfold wp in Hc. destruct (call w2) as [[err|[]] w3].
  - destruct Hc as (t & e' & -> & ->). apply Hgr in HB. auto with store.
  - destruct Hc as [e' ->]. by apply Hst.
Qed.

(** The same, seen through the tables. *)
Lemma wp_tables {A} (body : M A) (Q : A -> Tables -> Prop) (F : error -> Prop) w :
  (forall t, F (EDriver t)) ->
  (forall w1, db w1 = db w -> auto_inc w1 = auto_inc w -> clock (env w1) = clock (env w) ->
     wp body (fun a w' => Q a (db w') /\ grows w w') (fun err w' => F err /\ grows w w') w1) ->
  wp (transaction body) (fun a w' => Q a (db w') /\ grows w w')
     (fun err w' => (db w' = db w /\ F err) /\ grows w w') w.
Proof. apply (wp_transaction_clock body (fun a w' => Q a (db w') /\ grows w w')); [done|tauto]. Qed.

(** A failed transaction leaves the tables as they were. *)
Lemma transaction_rollback {A} (body : M A) w e w' :
  transaction body w = (inl e, w') -> db w' = db w.
Proof.
  unfold transaction. destruct (call w) as [[e1|[]] w1] eqn:Hc.
  - intros [= <- <-]. revert Hc. unfold call. destruct (faults _) as [|[?|] ?]; intros; by simplify_eq.
  - destruct (body w1) as [[e2|a] w2]; [by intros [= <- <-]|].
    destruct (call w2) as [[e3|[]] w3]; [by intros [= <- <-]|done].
Qed.

Section find_row.
Context `{Countable K} {A : Type}.
Implicit Types (P : A -> bool) (t : gmap K A).

Lemma elem_of_select_rows P t row :
  row ∈ select_rows P t <-> exists k, t !! k = Some row /\ P row = true.
Proof.
  unfold select_rows. rewrite list_elem_of_fmap. split.
  - intros ([k r] & -> & Hin). apply elem_of_map_to_list in Hin.
    apply map_lookup_filter_Some in Hin as [? ?]. by exists k.
  - intros (k & Hk & HP). exists (k, row). split; [done|].
    by apply elem_of_map_to_list, map_lookup_filter_Some.
Qed.

Lemma find_row_Some P t row :
  find_row P t = Some row -> exists k, t !! k = Some row /\ P row = true.
Proof.
  intros Hf. apply elem_of_select_rows. unfold find_row in Hf. unfold select_rows.
  apply head_Some_elem_of in Hf. done.
Qed.

Lemma find_row_None P t k row : find_row P t = None -> t !! k = Some row -> P row = false.
Proof.
  intros Hf Hk. destruct (P row) eqn:HP; [|done].
  assert (row ∈ select_rows P t) as Hin by (apply elem_of_select_rows; eauto).
  unfold find_row in Hf. unfold select_rows in Hin. apply head_None in Hf.
  rewrite Hf in Hin. by apply elem_of_nil in Hin.
Qed.
Lemma select_rows_NoDup {B} (f : A -> B) P t :
  (forall i j a b, t !! i = Some a -> t !! j = Some b -> f a = f b -> i = j) ->
  NoDup (f <$> select_rows P t).
Proof.
  intros Hinj. unfold select_rows. rewrite <-list_fmap_compose.
  apply NoDup_fmap_2_strong; [|apply NoDup_map_to_list].
  intros [i a] [j b] Ha%elem_of_map_to_list Hb%elem_of_map_to_list Heq. simpl in Heq.
  apply map_lookup_filter_Some in Ha as [Ha _], Hb as [Hb _].
  pose proof (Hinj _ _ _ _ Ha Hb Heq) as ->. congruence.
Qed.
End find_row.

(** [wp_steps] applies the rules of the program logic to the first instruction. *)
Ltac wp_step :=
  lazymatch goal with
  | |- wp (mret _) _ _ _ => apply wp_ret
  | |- wp (throw _) _ _ _ => apply wp_throw
  | |- wp (_ ≫= _) _ _ _ => apply wp_bind
  | |- wp (attempt _) _ _ _ => apply wp_attempt
  | |- wp (map_error _ _) _ _ _ => apply wp_map_error
  | |- wp call _ _ _ => apply wp_call
  | |- wp time_now _ _ _ => apply wp_time_now
  | |- wp (query _) _ _ _ => apply wp_query
  | |- wp (take_row _) _ _ _ => apply wp_take_row
  | |- wp (update _) _ _ _ => apply wp_update
  | |- wp (insert_row _ _ _ _) _ _ _ => apply wp_insert_row
  | |- wp (insert_keyed _ _ _) _ _ _ => apply wp_insert_keyed
  | |- wp (update_unless _ _) _ _ _ => apply wp_update_unless
  | |- wp (transaction _) _ _ _ => apply wp_transaction
  end.
