(* ===== verification/FileOps.v ===== *)
(** * The calls of [os] that the main package makes

    Each call may fail. A write that fails has written some part of the data, a removal of a
    tree that fails has removed some of its files; how much is drawn from the text of the
    fault, which is arbitrary. A path that the system refuses (too long, with a NUL) is a
    fault. *)
From S2P Require Import Prelude.
From S2P Require Import GoStd.
From S2P Require Import GoHash.
From S2P Require Import Errors.
From S2P Require Import Files.
From S2P Require Import Models.
From S2P Require Import Redis.
From S2P Require Import Store.

Definition file_error : error := EMain "file error".

(** The empty name names nothing. *)
Definition resolve (name : string) : option Path :=
  if String.eqb name "" then None else Some (path_of name).

Definition disk_step (f : Disk -> option Disk) : M unit := fun w =>
  match f (disk w) with Some d => (inr tt, with_disk w d) | None => (inl file_error, w) end.

Definition file_call (f : Disk -> option Disk) : M unit := _ ← call; disk_step f.

Definition read_disk {A} (f : Disk -> option A) : M A := fun w =>
  match f (disk w) with Some a => (inr a, w) | None => (inl file_error, w) end.

Definition look_disk {A} (f : Disk -> option A) : M A := _ ← call; read_disk f.

Definition os_Stat (name : string) : M unit :=
  look_disk (fun d => p ← resolve name; if exists_at d p then Some tt else None).

Definition os_Chmod (name : string) : M unit := os_Stat name.

Definition os_Rename (old new : string) : M unit :=
  file_call (fun d => p ← resolve old; q ← resolve new; rename p q d).

Definition os_Remove (name : string) : M unit := file_call (fun d => p ← resolve name; remove p d).

(** One directory of [os.MkdirAll]: it may be there. *)
Definition mkdir1 (p : Path) (d : Disk) : option Disk :=
  if is_dir d p then Some d else match d !! p with Some _ => None | None => Some (<[p := Dir]> d) end.

Fixpoint mkdir_each (p : Path) (names : list string) : M unit :=
  match names with
  | [] => mret tt
  | name :: names =>
      let p := child p [name] in
      _ ← file_call (mkdir1 p);
      mkdir_each p names
  end.

Definition os_MkdirAll (name : string) : M unit :=
  match resolve name with
  | Some p => mkdir_each (p.1, []) p.2
  | None => throw file_error
  end.

(** The files of the tree at [p] that are gone when its removal failed. *)
Definition removed_of (p : Path) (t : string) (kn : Path * node) : bool :=
  under p (kn.1) && match kn.2 with File _ => String.leb (default ""%string (last (kn.1).2)) t | Dir => false end.

Definition os_RemoveAll (name : string) : M unit :=
  match resolve name with
  | None => mret tt
  | Some p =>
      r ← attempt call;
      match r with
      | inl (EDriver t) =>
          _ ← disk_step (fun d => Some (filter (fun kn => removed_of p t kn = false) d));
          throw file_error
      | inl err => throw err
      | inr _ => disk_step (fun d => Some (filter (fun kn => under p (kn.1) = false) d))
      end
  end.

(** Add to the file at a path, which is open; if it is gone, nobody sees the data. *)
Definition append_at (p : Path) (data : string) (d : Disk) : option Disk :=
  Some (match d !! p with Some (File c) => <[p := File (c +:+ data)]> d | _ => d end).

Definition path_Write (p : Path) (data : string) : M unit :=
  r ← attempt call;
  match r with
  | inl (EDriver t) =>
      _ ← disk_step (append_at p (String.substring 0 (String.length t) data));
      throw file_error
  | inl err => throw err
  | inr _ => disk_step (append_at p data)
  end.

Definition file_Write (name : string) (data : string) : M unit := path_Write (path_of name) data.

(** [f.Close()] *)
Definition file_Close : M unit := call.

(** [os.WriteFile]: the file is emptied, then written. *)
Definition create_at (p : Path) (d : Disk) : option Disk :=
  if is_dir d (parent p) && negb (is_dir d p) then Some (<[p := File ""]> d) else None.

Definition os_WriteFile (name : string) (data : string) : M unit :=
  _ ← file_call (fun d => p ← resolve name; create_at p d);
  file_Write name data.

(** [os.Open] and reading to the end. *)
Definition file_open (name : string) : M unit :=
  look_disk (fun d => p ← resolve name; if exists_at d p then Some tt else None).

Definition file_read (name : string) : M string :=
  look_disk (fun d => p ← resolve name; file_at d p).

(** The random number in the name of a temporary file: 32 bits in decimal. *)
Definition temp_number : M string := b ← random_bytes 4; mret (fmt_d (word_of b)).

(** [os.CreateTemp(dir, prefix)]: another number is tried if the file is there. *)
Fixpoint create_temp (fuel : nat) (dir prefix : string) : M string :=
  match fuel with
  | O => throw file_error
  | S fuel =>
      r ← temp_number;
      let name := (dir +:+ "/" +:+ prefix +:+ r)%string in
      taken ← look_disk (fun d => Some (exists_at d (path_of name)));
      if taken : bool then create_temp fuel dir prefix else
      _ ← disk_step (create_at (path_of name));
      mret name
  end.

Definition os_CreateTemp : string -> string -> M string := create_temp (N.to_nat 10000).
