(* ===== verification/RedisClient.v ===== *)
(** * The Redis client

    A command runs at the time of the clock and may fail before it runs (it has no effect)
    or after (its effect stays, the answer is lost). A pipeline runs its commands one after
    the other and fails if one of them does; [redis_watch_exec] is the EXEC of a transaction
    that watches a hash. *)
From S2P Require Import Prelude.
From S2P Require Import GoStd.
From S2P Require Import GoConv.
From S2P Require Import Errors.
From S2P Require Import Models.
From S2P Require Import Redis.
From S2P Require Import Store.

Definition wrong_type : error := EDriver "WRONGTYPE Operation against a key holding the wrong kind of value".
Definition tx_failed : error := EDriver "redis: transaction failed".

(** What Redis does with a request: an answer or an error, and the store it leaves. *)
Definition redis_step {A} (f : Redis -> (error + A) * Redis) : M A := fun w =>
  let '(r, s) := f (redis w) in (r, with_redis w s).

Definition redis_request {A} (f : Time -> Redis -> (error + A) * Redis) : M A :=
  now ← time_now;
  _ ← call;
  a ← redis_step (f now);
  _ ← call;
  mret a.

(** A command that reads; [None] is the error of a wrong type. *)
Definition redis_read {A} (f : Time -> Redis -> option A) : M A :=
  redis_request (fun now r => (match f now r with Some a => inr a | None => inl wrong_type end, r)).

(** A command that writes. *)
Definition redis_write (f : Time -> Redis -> option Redis) : M unit :=
  redis_request (fun now r => match f now r with
                              | Some r => (inr tt, r) | None => (inl wrong_type, r) end).

(** The commands of a pipeline: each runs, whatever becomes of the others. *)
Definition pipe_command : Type := Time -> Redis -> option Redis.

Fixpoint run_pipe (now : Time) (cmds : list pipe_command) (r : Redis) : bool * Redis :=
  match cmds with
  | [] => (true, r)
  | cmd :: cmds =>
      match cmd now r with
      | Some r => run_pipe now cmds r
      | None => let '(_, r) := run_pipe now cmds r in (false, r)
      end
  end.

Definition pipe_answer (result : bool * Redis) : (error + unit) * Redis :=
  (if result.1 then inr tt else inl wrong_type, result.2).

(** [pipe.Exec]; an empty pipeline is not sent. *)
Definition redis_pipe (cmds : list pipe_command) : M unit :=
  match cmds with
  | [] => mret tt
  | _ => redis_request (fun now r => pipe_answer (run_pipe now cmds r))
  end.

(** EXEC after [WATCH key] and a reading [seen] of the hash at [key]. *)
Definition redis_watch_exec (key : string) (seen : gmap string string) (cmds : list pipe_command) : M unit :=
  redis_request (fun now r =>
    if decide (hash_at now r key = Some seen) then pipe_answer (run_pipe now cmds r)
    else (inl tx_failed, r)).

(** [EXPIRE] in a pipeline. *)
Definition pipe_expire (key : string) (ttl : Z) : pipe_command :=
  fun now r => Some (redis_expire now key ttl r).

Definition pipe_set (key : string) (v : json_value) (ttl : Z) : pipe_command :=
  fun now r => Some (redis_set now key v ttl r).

(** ** Rules *)

(** The clock of a world; it never goes back. *)
Definition clock_of (w : World) : Time := clock (env w).

(** Only Redis and the environment changed, and the clock did not go back. *)
Definition outside (w w' : World) : Prop :=
  db w' = db w /\ auto_inc w' = auto_inc w /\ queue w' = queue w /\ clock_of w <= clock_of w' /\
  disk w' = disk w.

#[export] Instance outside_preorder : PreOrder outside.
Proof.
  split; [by intros w|]. intros w1 w2 w3 (H1 & H2 & H3 & H4 & H5) (H1' & H2' & H3' & H4' & H5').
  split_and!; [congruence..|lia|congruence].
Qed.

Lemma outside_clock w w' : outside w w' -> clock_of w <= clock_of w'.
Proof. by intros (_ & _ & _ & Hc & _). Qed.

Lemma outside_disk w w' : outside w w' -> disk w' = disk w.
Proof. by intros (_ & _ & _ & _ & Hd). Qed.

Lemma call_outside w : outside w (call w).2 /\ redis (call w).2 = redis w /\
  clock_of (call w).2 = clock_of w.
Proof. unfold call. by destruct (faults (env w)) as [|[t|] fs]. Qed.

(** The request runs at some time that is not before now. *)
Lemma wp_redis_request {A} (f : Time -> Redis -> (error + A) * Redis) Q E w :
  (forall now w', clock_of w <= now -> now <= clock_of w' -> outside w w' ->
     forall a, (f now (redis w)).1 = inr a -> redis w' = (f now (redis w)).2 -> Q a w') ->
  (forall now w' e, clock_of w <= now -> now <= clock_of w' -> outside w w' ->
     redis w' = redis w \/ redis w' = (f now (redis w)).2 -> E e w') ->
  wp (redis_request f) Q E w.
Proof.
  intros HQ HE. unfold redis_request. apply wp_bind, wp_time_now. intros now e Hnow Hc.
  assert (clock_of w <= now) as Hle by exact Hnow.
  assert (outside w (with_env w e) /\ clock_of (with_env w e) = now) as [Ho Hcl].
  { unfold outside, clock_of. simpl. rewrite Hc. repeat split; done. }
  apply wp_bind. unfold wp at 1. pose proof (call_outside (with_env w e)) as (Ho1 & Hr1 & Hc1).
  destruct (call (with_env w e)) as [[err|[]] w1]; simpl in Ho1, Hr1, Hc1.
  { apply (HE now); [done|lia|by etrans|by left]. }
  apply wp_bind. unfold wp at 1, redis_step. rewrite Hr1. change (redis (with_env w e)) with (redis w).
  destruct (f now (redis w)) as [[err|a] s] eqn:Hf.
  - apply (HE now); [done|simpl; unfold clock_of in *; simpl in *; lia| |right; by rewrite Hf].
    etrans; [exact Ho|]. etrans; [exact Ho1|]. done.
  - apply wp_bind. unfold wp at 1. pose proof (call_outside (with_redis w1 s)) as (Ho2 & Hr2 & Hc2).
    assert (outside w (call (with_redis w1 s)).2) as Hout.
    { etrans; [exact Ho|]. etrans; [exact Ho1|]. exact Ho2. }
    assert (now <= clock_of (call (with_redis w1 s)).2) as Hcl2.
    { rewrite Hc2. change (clock_of (with_redis w1 s)) with (clock_of w1). lia. }
    destruct (call (with_redis w1 s)) as [[err|[]] w2]; simpl in *.
    + apply (HE now); [done|done|done|right; by rewrite Hf].
    + apply wp_ret, (HQ now); [done|done|done|by rewrite Hf|by rewrite Hf].
Qed.

Lemma wp_redis_read {A} (f : Time -> Redis -> option A) Q E w :
  (forall now w' a, clock_of w <= now -> now <= clock_of w' -> outside w w' ->
     f now (redis w) = Some a -> redis w' = redis w -> Q a w') ->
  (forall w' e, outside w w' -> redis w' = redis w -> E e w') ->
  wp (redis_read f) Q E w.
Proof.
  intros HQ HE. apply wp_redis_request.
  - intros now w' Hle Hle' Ho a. destruct (f now (redis w)) eqn:Hf; intros [= <-] Hr. by eapply HQ.
  - intros now w' e _ _ Ho [Hr|Hr]; by apply HE.
Qed.

Lemma wp_redis_pipe cmds Q E w :
  (forall now w', clock_of w <= now -> now <= clock_of w' -> outside w w' ->
     run_pipe now cmds (redis w) = (true, redis w') -> Q tt w') ->
  (forall now w' e, clock_of w <= now -> now <= clock_of w' -> outside w w' ->
     redis w' = redis w \/ redis w' = (run_pipe now cmds (redis w)).2 -> E e w') ->
  wp (redis_pipe cmds) Q E w.
Proof.
  intros HQ HE. destruct cmds as [|cmd cmds]; [apply wp_ret, (HQ (clock_of w)); done|].
  apply wp_redis_request.
  - intros now w' Hle Hle' Ho [] Ha Hr. apply (HQ now); [done..|]. rewrite Hr. unfold pipe_answer in *.
    by destruct (run_pipe now (cmd :: cmds) (redis w)) as [[] r].
  - intros now w' e Hle Hle' Ho Hr. by apply (HE now).
Qed.

(** ** Hashes in a pipeline *)

(** Only the entry at [key] changed. *)
Definition only (key : string) (r r' : Redis) : Prop :=
  forall now k, k <> key -> redis_get now r' k = redis_get now r k.

#[export] Instance only_preorder key : PreOrder (only key).
Proof.
  split; [by intros r now k _|]. intros r1 r2 r3 H1 H2 now k Hk. rewrite H2, H1; done.
Qed.

Lemma only_hash key r r' now k : only key r r' -> k <> key -> hash_at now r' k = hash_at now r k.
Proof. intros Ho Hk. unfold hash_at. by rewrite Ho. Qed.

(** From [t] on, until [until], the hash at [key] is [h]. *)
Definition holds (t until : Time) (r : Redis) (key : string) (h : gmap string string) : Prop :=
  forall now, t <= now < until -> hash_at now r key = Some h.

Lemma holds_weaken t until t' until' r key h :
  t <= t' -> until' <= until -> holds t until r key h -> holds t' until' r key h.
Proof. intros Ht Hu Hh now Hnow. apply Hh. lia. Qed.

Lemma holds_only t until r r' key k h :
  only key r r' -> k <> key -> holds t until r k h -> holds t until r' k h.
Proof. intros Ho Hk Hh now Hnow. rewrite (only_hash key r r') by done. by apply Hh. Qed.

Lemma put_only now key v r : only key r (redis_put now key v r).
Proof. intros now' k Hk. by apply redis_get_put_ne. Qed.

Lemma set_only now key v ttl r : only key r (redis_set now key v ttl r).
Proof. intros now' k Hk. by apply redis_get_set_ne. Qed.

Lemma expire_only now key ttl r : only key r (redis_expire now key ttl r).
Proof. intros now' k Hk. by apply redis_get_expire_ne. Qed.

Lemma hash_at_put now key h r : hash_at now (redis_put now key (RHash h) r) key = Some h.
Proof. unfold hash_at. by rewrite redis_get_put. Qed.

Lemma expire_holds now key ttl r h :
  hash_at now r key = Some h -> holds now (now + ttl) (redis_expire now key ttl r) key h.
Proof.
  unfold holds, hash_at, redis_expire. intros Hh now' Hnow. destruct (redis_get now r key) as [e|] eqn:He.
  - unfold redis_get. rewrite lookup_insert_eq. simpl. unfold live_entry. simpl.
    destruct (Z.ltb_spec now' (now + ttl)); [|lia]. exact Hh.
  - assert (redis_get now' r key = None) as ->; [|exact Hh].
    unfold redis_get in *. destruct (r !! key) as [e|]; [|done]. simpl in *. unfold live_entry in *.
    destruct (e_deadline e) as [d|]; [|done]. destruct (Z.ltb_spec now d); [done|].
    destruct (Z.ltb_spec now' d); [lia|done].
Qed.

(** The commands turn the hash [h] at [key] into [h'], and touch no other key. *)
Definition on_hash (now : Time) (key : string) (cmds : list pipe_command) (h h' : gmap string string) : Prop :=
  forall rest r, hash_at now r key = Some h -> exists r',
    run_pipe now (cmds ++ rest) r = run_pipe now rest r' /\ hash_at now r' key = Some h' /\ only key r r'.

Lemma on_hash_nil now key h : on_hash now key [] h h.
Proof. intros rest r Hh. by exists r. Qed.

Lemma on_hash_cons now key (cmd : pipe_command) cmds h1 h2 h3 :
  (forall r, hash_at now r key = Some h1 ->
     exists r', cmd now r = Some r' /\ hash_at now r' key = Some h2 /\ only key r r') ->
  on_hash now key cmds h2 h3 -> on_hash now key (cmd :: cmds) h1 h3.
Proof.
  intros Hcmd Hrest rest r (r1 & Hr1 & Hh1 & Ho1)%Hcmd.
  destruct (Hrest rest r1 Hh1) as (r2 & Hr2 & Hh2 & Ho2). exists r2. simpl. rewrite Hr1.
  split_and!; [done..|by etrans].
Qed.

Lemma hsetnx_hash now key field value h r :
  hash_at now r key = Some h -> exists r', redis_hsetnx now key field value r = Some r' /\
    hash_at now r' key = Some (<[field := default value (h !! field)]> h) /\ only key r r'.
Proof.
  intros Hh. unfold redis_hsetnx. rewrite Hh. simpl. destruct (h !! field) as [s|] eqn:Hs; simpl.
  - exists r. by rewrite insert_id.
  - eexists. split; [done|]. split; [apply hash_at_put|apply put_only].
Qed.

Lemma hincrby_hash now key field n delta h r :
  hash_at now r key = Some h -> match h !! field with Some s => ParseInt s | None => (0, true) end = (n, true) ->
  - 2 ^ 63 <= n + delta < 2 ^ 63 ->
  exists r', redis_hincrby now key field delta r = Some r' /\
    hash_at now r' key = Some (<[field := fmt_d (n + delta)]> h) /\ only key r r'.
Proof.
  intros Hh Hn Hd. unfold redis_hincrby. rewrite Hh. simpl. rewrite Hn. rewrite bool_decide_true by done.
  eexists. split; [done|]. split; [apply hash_at_put|apply put_only].
Qed.

(** After an EXPIRE the hash stays until the deadline. *)
Lemma on_hash_expire now key cmds ttl h h' rest r :
  on_hash now key cmds h h' -> hash_at now r key = Some h -> exists r',
    run_pipe now (cmds ++ pipe_expire key ttl :: rest) r = run_pipe now rest r' /\
    holds now (now + ttl) r' key h' /\ only key r r'.
Proof.
  intros Hc Hh. destruct (Hc (pipe_expire key ttl :: rest) r Hh) as (r1 & -> & Hh1 & Ho1).
  exists (redis_expire now key ttl r1). split; [done|]. split; [by apply expire_holds|].
  etrans; [exact Ho1|apply expire_only].
Qed.

(** Three hashes, one after the other. *)
Lemma three_hashes now r k1 k2 k3 c1 c2 c3 t1 t2 t3 h1 h2 h3 h1' h2' h3' :
  k1 <> k2 -> k1 <> k3 -> k2 <> k3 ->
  hash_at now r k1 = Some h1 -> hash_at now r k2 = Some h2 -> hash_at now r k3 = Some h3 ->
  on_hash now k1 c1 h1 h1' -> on_hash now k2 c2 h2 h2' -> on_hash now k3 c3 h3 h3' ->
  exists r', run_pipe now (c1 ++ pipe_expire k1 t1 :: c2 ++ pipe_expire k2 t2 :: c3 ++ [pipe_expire k3 t3]) r
             = (true, r') /\
    holds now (now + t1) r' k1 h1' /\ holds now (now + t2) r' k2 h2' /\ holds now (now + t3) r' k3 h3' /\
    forall t until k h, k <> k1 -> k <> k2 -> k <> k3 -> holds t until r k h -> holds t until r' k h.
Proof.
  intros H12 H13 H23 Hh1 Hh2 Hh3 Hc1 Hc2 Hc3.
  destruct (on_hash_expire _ _ _ t1 _ _ (c2 ++ pipe_expire k2 t2 :: c3 ++ [pipe_expire k3 t3]) _ Hc1 Hh1)
    as (r1 & -> & Hd1 & Ho1).
  rewrite <-(only_hash _ _ _ _ _ Ho1 (not_eq_sym H12)) in Hh2.
  destruct (on_hash_expire _ _ _ t2 _ _ (c3 ++ [pipe_expire k3 t3]) _ Hc2 Hh2) as (r2 & -> & Hd2 & Ho2).
  rewrite <-(only_hash _ _ _ _ _ Ho1 (not_eq_sym H13)), <-(only_hash _ _ _ _ _ Ho2 (not_eq_sym H23)) in Hh3.
  destruct (on_hash_expire _ _ _ t3 _ _ [] _ Hc3 Hh3) as (r3 & -> & Hd3 & Ho3).
  exists r3. split; [done|]. split_and!; [| |done|].
  - eapply holds_only; [exact Ho3|done|]. by eapply holds_only; [exact Ho2| |].
  - by eapply holds_only; [exact Ho3| |].
  - intros t until k h N1 N2 N3 Hk. eapply holds_only; [exact Ho3|done|].
    eapply holds_only; [exact Ho2|done|]. by eapply holds_only; [exact Ho1| |].
Qed.

(** ** Up to a moment

    What a computation that only talks to Redis does, as long as it ends before [until]. *)

Definition external {A} (m : M A) : Prop :=
  forall w, wp m (fun _ w' => outside w w') (fun _ w' => outside w w') w.

Definition before {A} (until : Time) (m : M A) (Q : A -> World -> Prop) (E : error -> World -> Prop)
    (w : World) : Prop :=
  wp m (fun a w' => outside w w' /\ (clock_of w' < until -> Q a w'))
       (fun e w' => outside w w' /\ (clock_of w' < until -> E e w')) w.

Lemma external_ret {A} (a : A) : external (mret a).
Proof. intros w. by apply wp_ret. Qed.

Lemma external_throw {A} e : external (throw e : M A).
Proof. intros w. by apply wp_throw. Qed.

Lemma external_time_now : external time_now.
Proof. intros w. apply wp_time_now. intros t e Ht Hc. split_and!; [done..| |done]. unfold clock_of in *. simpl. lia. Qed.

Lemma external_request {A} (f : Time -> Redis -> (error + A) * Redis) : external (redis_request f).
Proof. intros w. by apply wp_redis_request. Qed.

Lemma external_bind {A B} (m : M A) (f : A -> M B) :
  external m -> (forall a, external (f a)) -> external (m ≫= f).
Proof.
  intros Hm Hf w. apply wp_bind. eapply wp_mono; [apply Hm| |done]. intros a w1 Ho.
  eapply wp_mono; [apply Hf|..]; intros x w2 Ho2; exact (transitivity Ho Ho2).
Qed.

Lemma external_attempt {A} (m : M A) : external m -> external (attempt m).
Proof. intros Hm w. apply wp_attempt, Hm. Qed.

(** Composed computations, by their structure. *)
Ltac external_solve :=
  repeat first
    [ apply external_ret | apply external_throw | apply external_time_now | apply external_request
    | apply external_attempt | assumption | apply external_bind; [|intros ?] | case_match ].

Lemma before_ret {A} until (a : A) Q E w : (clock_of w < until -> Q a w) -> before until (mret a) Q E w.
Proof. intros HQ. by apply wp_ret. Qed.

Lemma before_bind {A B} until (m : M A) (f : A -> M B) Q E w :
  (forall a, external (f a)) -> before until m (fun a w1 => before until (f a) Q E w1) E w ->
  before until (m ≫= f) Q E w.
Proof.
  intros Hf Hm. apply wp_bind. eapply wp_mono; [exact Hm| |by intros e w' [? ?]]. intros a w1 [Ho Hw].
  destruct (decide (clock_of w1 < until)) as [Hlt|Hge].
  - eapply wp_mono; [exact (Hw Hlt)|..]; intros x w2 [Ho2 Hx]; (split; [by etrans|exact Hx]).
  - eapply wp_mono; [apply (Hf a)|..]; intros x w2 Ho2; (split; [by etrans|]);
      pose proof (outside_clock _ _ Ho2); lia.
Qed.

Lemma before_time_now until (Q : Time -> World -> Prop) E w :
  (forall now w', outside w w' -> redis w' = redis w -> Q now w') -> before until time_now Q E w.
Proof.
  intros HQ. apply wp_time_now. intros t e Ht Hc.
  assert (outside w (with_env w e)) as Ho by (split_and!; [done..|unfold clock_of in *; simpl; lia|done]).
  split; [exact Ho|]. intros _. by apply HQ.
Qed.

Lemma before_request {A} until (f : Time -> Redis -> (error + A) * Redis) Q E w :
  (forall now w', clock_of w <= now < until -> now <= clock_of w' -> outside w w' ->
     match (f now (redis w)).1 with
     | inr a => redis w' = (f now (redis w)).2 -> Q a w'
     | inl _ => True
     end /\ forall e, redis w' = redis w \/ redis w' = (f now (redis w)).2 -> E e w') ->
  before until (redis_request f) Q E w.
Proof.
  intros H. apply wp_redis_request.
  - intros now w' Hle Hle' Ho a Ha Hr. split; [done|]. intros Hu.
    destruct (H now w') as [HQ _]; [lia|done..|]. rewrite Ha in HQ. by apply HQ.
  - intros now w' e Hle Hle' Ho Hr. split; [done|]. intros Hu.
    destruct (H now w') as [_ HE]; [lia|done..|]. by apply HE.
Qed.

Lemma before_read {A} until (f : Time -> Redis -> option A) Q E w :
  (forall now w' a, clock_of w <= now < until -> outside w w' -> redis w' = redis w ->
     f now (redis w) = Some a -> Q a w') ->
  (forall e w', outside w w' -> redis w' = redis w -> E e w') ->
  before until (redis_read f) Q E w.
Proof.
  intros HQ HE. apply before_request. intros now w' Hnow Hle Ho. split.
  - simpl. destruct (f now (redis w)) eqn:Hf; [|done]. intros Hr. by eapply HQ.
  - intros e [Hr|Hr]; by apply HE.
Qed.

Lemma before_attempt {A} until (m : M A) Q E w :
  before until m (fun a w' => Q (inr a) w') (fun e w' => Q (inl e) w') w -> before until (attempt m) Q E w.
Proof. intros Hm. by apply wp_attempt. Qed.
