(* ===== verification/SessionCache.v ===== *)
(** * Cached sessions and their revocation ([session_cache.go])

    One session, any number of concurrent [loadSession]s, the row in MySQL, the cached copy
    in Redis, and one revocation ([revokeSessions] or [logout], then [retireSessions]). The
    components share nothing but the row and the Redis key, and their steps interleave
    freely. A Redis command travels on the [wire]: the client may give up on it at any
    moment ([withRedis] times out) and it may still take effect later. *)
From S2P Require Import Prelude.
From S2P Require Import GoStd.

Definition sessionLease : Z := 5 * second.
Definition accessTTL : Z := 15 * minute.
Definition refreshTTL : Z := 7 * 24 * hour.

(** The row of [auth_sessions]; only the columns the protocol reads. *)
Record Session := mkSession { RevokedAt : option Time; ExpiresAt : Time }.

(** What the key of the session holds: the marker ["revoked"], or a [cachedSession]. *)
Inductive cached := Revoked | Cached (s : Session) (Until : Time).

(** Why [loadSession] fails: [errInvalidSession], or the database is away. *)
Inductive load_error := ErrInvalidSession | ErrDatabase.

(** A command on its way to Redis: [SETNX key entry ttl] or [SET key "revoked" ttl]. *)
Inductive command := SetNX (s : Session) (until : Time) (ttl : Z) | SetRevoked.

(** Where a [loadSession] stands. *)
Inductive load :=
  | LGet                                          (* about to GET the key *)
  | LCheck (s : Session) (until : Time)           (* found an entry *)
  | LLease                                        (* about to take the lease *)
  | LRead (until : Time)                          (* about to read the row *)
  | LVerify (s : Session) (until : Time)          (* has the row *)
  | LStore (s : Session) (until : Time)           (* about to cache it *)
  | LDone (r : load_error + Session).

(** Where the revocation stands: the row is not revoked yet; it is committed;
    [retireSessions] has its deadline; its SET is on the wire ([applied]: Redis has
    executed it); the SET was reported as failed; the caller has its success. *)
Inductive retire :=
  | RIdle
  | RCommitted
  | RStarted (deadline : Time)
  | RSent (deadline : Time) (applied : bool)
  | RFailed (deadline : Time)
  | RDone.

(** [fenced] marks the loads that begin after the revocation was reported, or a lease
    after it was committed. *)
Record loader := mkLoader { pc : load; fenced : bool }.

Record State := mkState {
  now : Time;
  row : Session;
  cell : option (cached * Time);     (* the value and its expiry *)
  wire : list command;
  loads : list loader;
  stage : retire;
}.

Definition init (t : Time) (s : Session) : State := mkState t s None [] [] RIdle.

(** What Redis answers at [now]. *)
Definition live (s : State) : option cached :=
  '(v, expiry) ← cell s; if decide (now s < expiry) then Some v else None.

(** Redis executes a command. *)
Definition execute (s : State) (c : command) : option (cached * Time) :=
  match c with
  | SetRevoked => Some (Revoked, now s + (refreshTTL + accessTTL))
  | SetNX se until ttl =>
      match live s with Some _ => cell s | None => Some (Cached se until, now s + ttl) end
  end.

(** The lease of a revocation committed at [t] is over. *)
Definition lease_over (s : State) : bool :=
  match RevokedAt (row s) with Some t => t + sessionLease <=? now s | None => false end.

Definition is_done (r : retire) : bool := match r with RDone => true | _ => false end.

(** One step of a load; [fails] says that the call it makes fails. *)
Definition load_step (s : State) (fails : bool) (l : load) : load * list command :=
  match l with
  | LGet =>
      if fails then (LLease, []) else
      match live s with
      | Some Revoked => (LDone (inl ErrInvalidSession), [])
      | Some (Cached se until) => (LCheck se until, [])
      | None => (LLease, [])
      end
  | LCheck se until => (if time_Before (now s) until then LDone (inr se) else LLease, [])
  | LLease => (LRead (now s + sessionLease), [])
  | LRead until => (if fails then LDone (inl ErrDatabase) else LVerify (row s) until, [])
  | LVerify se until =>
      (if bool_decide (RevokedAt se <> None) || negb (time_Before (now s) (ExpiresAt se))
       then LDone (inl ErrInvalidSession) else LStore se until, [])
  | LStore se until =>
      let ttl := until - now s in
      (LDone (inr se), if 0 <? ttl then [SetNX se until ttl] else [])
  | LDone r => (LDone r, [])
  end.

(** One step of [retireSessions]; [fails] says that the client gives up on the SET. *)
Definition retire_step (s : State) (fails : bool) : option (retire * list command) :=
  match stage s with
  | RIdle => None
  | RCommitted => Some (RStarted (now s + sessionLease), [])
  | RStarted deadline => Some (RSent deadline false, [SetRevoked])
  | RSent deadline applied =>
      if fails then Some (RFailed deadline, [])
      else if applied then Some (RDone, []) else None
  | RFailed deadline => if decide (deadline <= now s) then Some (RDone, []) else None
  | RDone => None
  end.

Inductive action :=
  | Tick (d : N)                    (* time passes *)
  | Spawn                           (* a request calls [loadSession] *)
  | Load (i : nat) (fails : bool)
  | Extend (expires : Time)         (* [refresh] pushes the expiry of an unrevoked session *)
  | Revoke                          (* the transaction sets [revoked_at] *)
  | Retire (fails : bool)
  | Deliver (j : nat).              (* Redis executes the command at [j] *)

Definition exec (a : action) (s : State) : option State :=
  match a with
  | Tick d => Some (mkState (now s + Z.of_N d) (row s) (cell s) (wire s) (loads s) (stage s))
  | Spawn =>
      let l := mkLoader LGet (is_done (stage s) || lease_over s) in
      Some (mkState (now s) (row s) (cell s) (wire s) (loads s ++ [l]) (stage s))
  | Load i fails =>
      l ← loads s !! i;
      let '(pc', sent) := load_step s fails (pc l) in
      Some (mkState (now s) (row s) (cell s) (wire s ++ sent)
              (<[i := mkLoader pc' (fenced l)]> (loads s)) (stage s))
  | Extend expires =>
      match RevokedAt (row s) with
      | Some _ => None
      | None => Some (mkState (now s) (mkSession None expires) (cell s) (wire s) (loads s) (stage s))
      end
  | Revoke =>
      match stage s with
      | RIdle =>
          Some (mkState (now s) (mkSession (Some (now s)) (ExpiresAt (row s))) (cell s) (wire s)
                  (loads s) RCommitted)
      | _ => None
      end
  | Retire fails =>
      '(r, sent) ← retire_step s fails;
      Some (mkState (now s) (row s) (cell s) (wire s ++ sent) (loads s) r)
  | Deliver j =>
      c ← wire s !! j;
      let applied := match c, stage s with
                     | SetRevoked, RSent deadline _ => RSent deadline true
                     | _, r => r
                     end in
      Some (mkState (now s) (row s) (execute s c) (delete j (wire s)) (loads s) applied)
  end.

Fixpoint exec_all (acts : list action) (s : State) : option State :=
  match acts with
  | [] => Some s
  | a :: acts => s' ← exec a s; exec_all acts s'
  end.

(** ** The invariant *)

(** No copy of the unrevoked row is good for longer than this. *)
Definition bound (s : State) : Time :=
  match RevokedAt (row s) with Some t => t + sessionLease | None => now s + sessionLease end.

Definition load_ok (s : State) (l : loader) : Prop :=
  match pc l with
  | LGet | LLease => True
  | LCheck se until => until <= bound s /\ (fenced l = true -> until <= now s)
  | LRead until => until <= now s + sessionLease
  | LVerify se until =>
      until <= now s + sessionLease
      /\ (RevokedAt se = None -> until <= bound s /\ fenced l = false)
  | LStore se until => until <= bound s /\ fenced l = false
  | LDone (inr se) => fenced l = false
  | LDone (inl _) => True
  end.

Definition command_ok (s : State) (c : command) : Prop :=
  match c with
  | SetNX _ until _ => until <= bound s
  | SetRevoked => is_Some (RevokedAt (row s))
  end.

Definition cell_ok (s : State) : Prop :=
  match cell s with
  | None => True
  | Some (Revoked, expiry) => bound s <= expiry /\ is_Some (RevokedAt (row s))
  | Some (Cached _ until, _) => until <= bound s
  end.

(** The marker is there, until after the lease. *)
Definition marked (s : State) : Prop :=
  exists expiry, cell s = Some (Revoked, expiry) /\ bound s <= expiry.

(** Nothing that Redis may serve from now on is a usable copy of the session. *)
Definition fence (s : State) : Prop := marked s \/ bound s <= now s.

Definition stage_ok (s : State) : Prop :=
  match stage s with
  | RIdle => RevokedAt (row s) = None
  | RCommitted => is_Some (RevokedAt (row s))
  | RStarted deadline | RFailed deadline => is_Some (RevokedAt (row s)) /\ bound s <= deadline
  | RSent deadline applied =>
      is_Some (RevokedAt (row s)) /\ bound s <= deadline
      /\ (applied = true -> fence s)
  | RDone => is_Some (RevokedAt (row s)) /\ fence s
  end.

Record state_ok (s : State) : Prop := {
  so_revoked : forall t, RevokedAt (row s) = Some t -> t <= now s;
  so_cell : cell_ok s;
  so_wire : Forall (command_ok s) (wire s);
  so_loads : Forall (load_ok s) (loads s);
  so_fenced : forall l, l ∈ loads s -> fenced l = true ->
    is_Some (RevokedAt (row s)) /\ fence s;
  so_stage : stage_ok s;
}.

Lemma init_ok t expires : state_ok (init t (mkSession None expires)).
Proof. split; simpl; try done; intros l Hl; by apply elem_of_nil in Hl. Qed.

(** *** What a step may change without harm *)

Record later (s s' : State) : Prop := {
  lt_now : now s <= now s';
  lt_bound : bound s <= bound s';
  lt_revoked : is_Some (RevokedAt (row s)) -> bound s' = bound s /\ is_Some (RevokedAt (row s'));
}.

Lemma command_ok_later s s' c : later s s' -> command_ok s c -> command_ok s' c.
Proof. intros [Hn Hb Hr]. destruct c; simpl; [lia|]. intros H. by apply Hr. Qed.

Lemma load_ok_later s s' l : later s s' -> load_ok s l -> load_ok s' l.
Proof.
  intros [Hn Hb Hr]. unfold load_ok. destruct (pc l); simpl; try done; try lia.
  - intros [? Hf]. split; [lia|]. intros Hl. specialize (Hf Hl). lia.
  - intros [? Hf]. split; [lia|]. intros Hl. destruct (Hf Hl). split; [lia|done].
  - intros [? ?]. split; [lia|done].
Qed.

Lemma fence_later s s' :
  later s s' -> is_Some (RevokedAt (row s)) -> cell s' = cell s -> fence s -> fence s'.
Proof.
  intros [Hn Hb Hr] Hs Hc. destruct (Hr Hs) as [Hb' _]. unfold fence, marked.
  rewrite Hb', Hc. intros [?|?]; [by left|right; lia].
Qed.

Lemma cell_ok_later s s' : later s s' -> cell s' = cell s -> cell_ok s -> cell_ok s'.
Proof.
  intros [Hn Hb Hr] Hc. unfold cell_ok. rewrite Hc. destruct (cell s) as [[[|se until] expiry]|]; try done.
  - intros [? Hs]. destruct (Hr Hs) as [-> ?]. done.
  - lia.
Qed.

Lemma bound_revoked s t : RevokedAt (row s) = Some t -> bound s = t + sessionLease.
Proof. unfold bound. by intros ->. Qed.

Lemma bound_le s : state_ok s -> bound s <= now s + sessionLease.
Proof.
  intros Hok. unfold bound. destruct (RevokedAt (row s)) as [t|] eqn:Ht; [|lia].
  apply (so_revoked s Hok) in Ht. lia.
Qed.

Lemma lease_over_fence s : lease_over s = true -> is_Some (RevokedAt (row s)) /\ fence s.
Proof.
  unfold lease_over, fence, bound. destruct (RevokedAt (row s)) as [t|]; [|done].
  intros Ht%Z.leb_le. split; [done|]. by right.
Qed.

(** A step that leaves the cell, the wire and the stage alone and does not touch the loads. *)
Lemma later_ok s s' :
  state_ok s -> later s s' -> (forall t, RevokedAt (row s') = Some t -> t <= now s') ->
  cell s' = cell s -> wire s' = wire s -> loads s' = loads s -> stage s' = stage s ->
  (stage s = RIdle -> RevokedAt (row s') = None) -> state_ok s'.
Proof.
  intros [Hrev Hcell Hwire Hloads Hfen Hst] Hl Hrev' Hc Hw Hld Hs Hidle. pose proof Hl as [Hn Hb Hr].
  split; [done|by eapply cell_ok_later|..].
  - rewrite Hw. eapply Forall_impl; [exact Hwire|]. intros c. by apply command_ok_later.
  - rewrite Hld. eapply Forall_impl; [exact Hloads|]. intros l. by apply load_ok_later.
  - rewrite Hld. intros l Hin Hf. destruct (Hfen l Hin Hf) as [Hs' Hfe].
    split; [by apply Hr|by eapply fence_later].
  - unfold stage_ok in *. rewrite Hs. destruct (stage s); auto.
    + by apply Hr.
    + destruct Hst as [Hs' Hd]. destruct (Hr Hs') as [-> ?]. done.
    + destruct Hst as (Hs' & Hd & Ha). destruct (Hr Hs') as [-> ?].
      split; [done|]. split; [done|]. intros Hap. eapply fence_later; eauto.
    + destruct Hst as [Hs' Hd]. destruct (Hr Hs') as [-> ?]. done.
    + destruct Hst as [Hs' Hf]. split; [by apply Hr|by eapply fence_later].
Qed.

Lemma tick_ok s d s' : state_ok s -> exec (Tick d) s = Some s' -> state_ok s'.
Proof.
  intros Hok [= <-]. eapply later_ok; [exact Hok|..]; try done; simpl.
  - split; unfold bound; simpl; [lia|destruct (RevokedAt (row s)); lia|].
    intros [t Ht]. by rewrite Ht.
  - intros t Ht%(so_revoked s Hok). lia.
  - intros Hst. pose proof (so_stage s Hok) as H. unfold stage_ok in H. by rewrite Hst in H.
Qed.

Lemma extend_ok s expires s' : state_ok s -> exec (Extend expires) s = Some s' -> state_ok s'.
Proof.
  intros Hok. simpl. destruct (RevokedAt (row s)) eqn:Ht; [done|]. intros [= <-].
  eapply later_ok; [exact Hok|..]; try done; simpl.
  split; unfold bound; simpl; rewrite ?Ht; [lia|lia|]. by intros [? ?].
Qed.

Lemma revoke_ok s s' : state_ok s -> exec Revoke s = Some s' -> state_ok s'.
Proof.
  intros Hok. simpl. destruct (stage s) eqn:Hst; try done. intros [= <-].
  pose proof (so_stage s Hok) as Hnone. unfold stage_ok in Hnone. rewrite Hst in Hnone.
  assert (later s (mkState (now s) (mkSession (Some (now s)) (ExpiresAt (row s))) (cell s) (wire s)
                  (loads s) RCommitted)) as Hl.
  { split; unfold bound; simpl; rewrite ?Hnone; [lia|lia|]. by intros [? ?]. }
  destruct Hok as [Hrev Hcell Hwire Hloads Hfen _]. split; simpl.
  - intros t [= <-]. lia.
  - by eapply cell_ok_later.
  - eapply Forall_impl; [exact Hwire|]. intros c. by apply command_ok_later.
  - eapply Forall_impl; [exact Hloads|]. intros l. by apply load_ok_later.
  - intros l Hin Hf. destruct (Hfen l Hin Hf) as [[t Ht] _]. congruence.
  - by eexists.
Qed.

Lemma spawn_ok s s' : state_ok s -> exec Spawn s = Some s' -> state_ok s'.
Proof.
  intros [Hrev Hcell Hwire Hloads Hfen Hst] [= <-]. split; simpl; try done.
  - apply Forall_app. by split; [|apply Forall_singleton].
  - intros l [Hin|[= ->]%list_elem_of_singleton]%elem_of_app Hf; [by apply (Hfen l)|].
    simpl in Hf. apply orb_true_iff in Hf as [Hd|Ho]; [|by apply (lease_over_fence s)].
    unfold stage_ok in Hst. destruct (stage s); try done.
Qed.

(** *** Redis *)

Lemma execute_cell_ok s c : state_ok s -> command_ok s c -> cell_ok
  (mkState (now s) (row s) (execute s c) (wire s) (loads s) (stage s)).
Proof.
  intros Hok Hc. pose proof (bound_le s Hok) as Hb. unfold cell_ok. destruct c as [se until ttl|]; simpl.
  - pose proof (so_cell s Hok) as Hcell. unfold cell_ok in Hcell. unfold live.
    destruct (cell s) as [[v expiry]|]; simpl; [|done]. by case_decide; [|].
  - split; [|done]. change (bound _) with (bound s).
    unfold refreshTTL, accessTTL, sessionLease, hour, minute, second in *. lia.
Qed.

Lemma execute_fence s c : fence s -> fence
  (mkState (now s) (row s) (execute s c) (wire s) (loads s) (stage s)) \/ c = SetRevoked.
Proof.
  destruct c as [se until ttl|]; [left|by right]. destruct H as [(expiry & Hc & He)|?]; [|by right].
  destruct (decide (now s < expiry)); [left|right; simpl; unfold bound in *; simpl; lia].
  exists expiry. simpl. unfold live. rewrite Hc. simpl. by rewrite decide_True.
Qed.

Lemma execute_marked s : state_ok s -> marked
  (mkState (now s) (row s) (execute s SetRevoked) (wire s) (loads s) (stage s)).
Proof.
  intros Hok. pose proof (bound_le s Hok). eexists. split; [done|]. simpl.
  change (bound _) with (bound s).
  unfold refreshTTL, accessTTL, sessionLease, hour, minute, second in *. lia.
Qed.

Lemma deliver_ok s j s' : state_ok s -> exec (Deliver j) s = Some s' -> state_ok s'.
Proof.
  intros Hok. simpl. destruct (wire s !! j) as [c|] eqn:Hj; [|done]. intros [= <-].
  assert (command_ok s c) as Hc.
  { eapply Forall_lookup_1; [apply (so_wire s Hok)|done]. }
  pose proof (execute_cell_ok s c Hok Hc) as Hcell'.
  assert (forall r w l, fence s ->
            fence (mkState (now s) (row s) (execute s c) w l r)) as Hfence.
  { intros r w l Hf. destruct (execute_fence s c Hf) as [?| ->]; [done|].
    left. by apply execute_marked. }
  destruct Hok as [Hrev Hcell Hwire Hloads Hfen Hst] eqn:Heq. clear Heq. split; simpl; try done.
  - by apply Forall_delete.
  - intros l Hin Hf. destruct (Hfen l Hin Hf). split; [done|by apply Hfence].
  - unfold stage_ok in *. destruct c, (stage s); simpl; try done.
    + destruct Hst as (? & ? & Ha). split; [done|]. split; [done|]. intros Hap. by apply Hfence, Ha.
    + destruct Hst as (? & ?). split; [done|by apply Hfence].
    + destruct Hst as (? & ? & Ha). split; [done|]. split; [done|]. intros _.
      left. by apply execute_marked.
    + destruct Hst as (? & ?). split; [done|by apply Hfence].
Qed.

(** *** Loads *)

Lemma load_step_ok s fails l :
  state_ok s -> load_ok s l ->
  (fenced l = true -> is_Some (RevokedAt (row s)) /\ fence s) ->
  load_ok s (mkLoader (load_step s fails (pc l)).1 (fenced l))
  /\ Forall (command_ok s) (load_step s fails (pc l)).2.
Proof.
  intros Hok Hl Hfen. pose proof (bound_le s Hok) as Hb.
  pose proof (so_cell s Hok) as Hcell. unfold load_ok in *.
  destruct (pc l) as [|se until| |until|se until|se until|[e|se]]; simpl in *.
  - destruct fails; [done|]. unfold live, cell_ok in *.
    destruct (cell s) as [[[|se until] expiry]|] eqn:Hc; simpl; try done; case_decide; try done.
    simpl. split; [|done]. split; [done|]. intros Hf.
    destruct (Hfen Hf) as [_ [(? & Hm & _)|?]]; [congruence|lia].
  - destruct Hl as [Hu Hf]. unfold time_Before. destruct (Z.ltb_spec (now s) until); [|done].
    simpl. split; [|done]. destruct (fenced l); [|done]. specialize (Hf eq_refl). lia.
  - split; [lia|done].
  - destruct fails; [done|]. simpl. split; [|done]. split; [done|]. intros Hn.
    split; [unfold bound; by rewrite Hn|]. destruct (fenced l); [|done].
    destruct (Hfen eq_refl) as [[t Ht] _]. congruence.
  - destruct Hl as [Hu Hn]. split; [|done]. case_bool_decide as Hs; simpl; [done|].
    assert (RevokedAt se = None) as He by (destruct (RevokedAt se); [by destruct Hs|done]).
    by destruct (time_Before _ _); simpl; [apply Hn|].
  - destruct Hl as [Hu Hf]. split; [done|]. case_match; [|done]. by apply Forall_singleton.
  - done.
  - done.
Qed.

Lemma load_action_ok s i fails s' : state_ok s -> exec (Load i fails) s = Some s' -> state_ok s'.
Proof.
  intros Hok. simpl. destruct (loads s !! i) as [l|] eqn:Hi; [|done]. simpl.
  pose proof (load_step_ok s fails l Hok) as Hstep.
  destruct (load_step s fails (pc l)) as [pc' sent] eqn:Hld. intros [= <-].
  assert (l ∈ loads s) as Hin by (by eapply list_elem_of_lookup_2).
  destruct Hstep as [Hl' Hsent].
  { eapply Forall_lookup_1; [apply (so_loads s Hok)|done]. }
  { by apply (so_fenced s Hok). }
  destruct Hok as [Hrev Hcell Hwire Hloads Hfen Hst]. split; simpl; try done.
  - by apply Forall_app.
  - by apply Forall_insert.
  - intros l' [j Hj]%list_elem_of_lookup_1 Hf. apply list_lookup_insert_Some in Hj.
    destruct Hj as [(_ & <- & _)|[_ Hj]]; [by apply (Hfen l)|].
    apply (Hfen l'); [by eapply list_elem_of_lookup_2|done].
Qed.

(** *** The revocation *)

Lemma retire_ok s fails s' : state_ok s -> exec (Retire fails) s = Some s' -> state_ok s'.
Proof.
  intros Hok. pose proof (bound_le s Hok) as Hb.
  pose proof (so_stage s Hok) as Hst. simpl. unfold retire_step, stage_ok in *.
  destruct Hok as [Hrev Hcell Hwire Hloads Hfen _].
  destruct (stage s) as [| |deadline|deadline applied|deadline|]; simpl; try done.
  - intros [= <-]. split; simpl; rewrite ?app_nil_r; done.
  - intros [= <-]. destruct Hst. split; simpl; try done.
    apply Forall_app. by split; [|apply Forall_singleton].
  - destruct Hst as (? & ? & Ha). destruct fails; [|destruct applied; [|done]]; simpl; intros [= <-].
    + split; simpl; rewrite ?app_nil_r; done.
    + split; simpl; rewrite ?app_nil_r; try done. split; [done|]. by apply Ha.
  - destruct Hst. case_decide; [|done]. simpl. intros [= <-].
    split; simpl; rewrite ?app_nil_r; try done. split; [done|]. right.
    unfold bound in *. simpl. lia.
Qed.

Lemma exec_ok a s s' : state_ok s -> exec a s = Some s' -> state_ok s'.
Proof.
  destruct a.
  - apply tick_ok.
  - apply spawn_ok.
  - apply load_action_ok.
  - apply extend_ok.
  - apply revoke_ok.
  - apply retire_ok.
  - apply deliver_ok.
Qed.

Lemma exec_all_ok acts s s' : state_ok s -> exec_all acts s = Some s' -> state_ok s'.
Proof.
  revert s. induction acts as [|a acts IH]; intros s Hok; simpl; [by intros [= <-]|].
  destruct (exec a s) as [s1|] eqn:Ha; [|done]. simpl. apply IH. by eapply exec_ok.
Qed.
