(* ===== verification/Paging.v ===== *)
(** * Keyset pagination

    The lists of the back end are read page by page: rows sorted by what their position in
    the list is ([Position]: a time and an id, or a score, a time and an id), the last first,
    those strictly after a cursor, at most [limit]. *)
From S2P Require Import Prelude.
From S2P Require Import GoStd.

(** [LIMIT n]; GORM leaves a negative limit out of the statement. *)
Definition sql_limit {A} (limit : Z) (l : list A) : list A :=
  if limit <? 0 then l else take (Z.to_nat limit) l.

(** What the rows of a list are sorted by, in descending order: [after p q] tells that
    position [q] comes strictly after [p]. *)
Class Position (K : Type) := { after : K -> K -> bool }.

Class PositionLaws (K : Type) `{Position K} := {
  after_irrefl : forall p : K, after p p = false;
  after_trans : forall p q r : K, after p q = true -> after q r = true -> after p r = true;
  after_total : forall p q : K, after p q = false -> after q p = false -> p = q;
}.

(** [ORDER BY time DESC, id DESC]. *)
#[export] Instance pair_position : Position (Time * Z) :=
  {| after p q := (q.1 <? p.1) || ((q.1 =? p.1) && (q.2 <? p.2)) |}.

#[export] Instance pair_position_laws : PositionLaws (Time * Z).
Proof.
  split; simpl.
  - intros []. simpl. lia.
  - intros [] [] []. simpl. lia.
  - intros [] [] ? ?. simpl in *. f_equal; lia.
Qed.

(** [ORDER BY score DESC, time DESC, id DESC]. *)
#[export] Instance triple_position : Position (Z * (Time * Z)) :=
  {| after p q := (q.1 <? p.1) || ((q.1 =? p.1) && after p.2 q.2) |}.

#[export] Instance triple_position_laws : PositionLaws (Z * (Time * Z)).
Proof.
  split; simpl.
  - intros (? & ? & ?). simpl. lia.
  - intros (? & ? & ?) (? & ? & ?) (? & ? & ?). simpl. lia.
  - intros (? & ? & ?) (? & ? & ?) ? ?. simpl in *. repeat f_equal; lia.
Qed.

Section position.
Context {K : Type} `{PositionLaws K}.
Implicit Types p q r : K.

Definition not_after p q : Prop := after q p = false.

#[export] Instance not_after_dec p q : Decision (not_after p q).
Proof. unfold not_after. apply _. Defined.

Lemma not_after_trans p q r : not_after p q -> not_after q r -> not_after p r.
Proof.
  unfold not_after. intros Hpq Hqr. destruct (after r p) eqn:Hrp; [|done].
  destruct (after p q) eqn:Hp; [|rewrite (after_total p q) in Hrp by done; congruence].
  by rewrite (after_trans r p q Hrp Hp) in Hqr.
Qed.

Lemma not_after_total p q : not_after p q \/ not_after q p.
Proof.
  unfold not_after. destruct (after q p) eqn:Hqp; [|by left]. destruct (after p q) eqn:Hpq; [|by right].
  pose proof (after_trans _ _ _ Hqp Hpq). by rewrite after_irrefl in *.
Qed.

Lemma not_after_strict p q : not_after p q -> p <> q -> after p q = true.
Proof.
  unfold not_after. intros Hqp Hne. destruct (after p q) eqn:Hpq; [done|]. destruct Hne. by apply after_total.
Qed.
End position.

Section page.
Context {A K : Type} `{Hlaws : PositionLaws K} (pos : A -> K).

Definition newest_first (x y : A) : Prop := not_after (pos x) (pos y).

#[export] Instance newest_first_dec x y : Decision (newest_first x y).
Proof. unfold newest_first. apply _. Defined.

(** Is a row past the cursor? *)
Definition past (cursor : option K) (x : A) : bool :=
  match cursor with Some p => after p (pos x) | None => true end.

Definition sql_page (cursor : option K) (limit : Z) (rows : list A) : list A :=
  sql_limit limit (merge_sort newest_first (filter (fun x => past cursor x = true) rows)).

(** *** What a page holds *)

#[local] Instance newest_first_trans : Transitive newest_first.
Proof. intros x y z. apply not_after_trans. Qed.

#[local] Instance newest_first_total : Total newest_first.
Proof. intros x y. apply not_after_total. Qed.

Lemma sql_limit_prefix n (l : list A) : sql_limit n l `prefix_of` l.
Proof.
  unfold sql_limit. case_match; [done|]. exists (drop (Z.to_nat n) l).
  by rewrite take_drop.
Qed.

Lemma sql_page_length c n rows : 0 <= n -> Z.of_nat (length (sql_page c n rows)) <= n.
Proof.
  intros Hn. unfold sql_page, sql_limit. destruct (n <? 0) eqn:E; [lia|].
  rewrite length_take. lia.
Qed.

Lemma elem_of_sql_page c n rows x :
  x ∈ sql_page c n rows -> x ∈ rows /\ past c x = true.
Proof.
  intros Hx. unfold sql_page in Hx.
  pose proof (sql_limit_prefix n (merge_sort newest_first
    (filter (fun x => past c x = true) rows))) as [l' Hl].
  assert (x ∈ merge_sort newest_first (filter (fun x => past c x = true) rows)) as Hin.
  { rewrite Hl. apply elem_of_app. by left. }
  rewrite merge_sort_Permutation, list_elem_of_filter in Hin. tauto.
Qed.

Lemma StronglySorted_prefix (R : A -> A -> Prop) l l' :
  l `prefix_of` l' -> StronglySorted R l' -> StronglySorted R l.
Proof. intros [k ->]. apply StronglySorted_app_1_l. Qed.

Lemma sql_page_sorted c n rows : StronglySorted newest_first (sql_page c n rows).
Proof.
  eapply StronglySorted_prefix; [apply sql_limit_prefix|].
  apply StronglySorted_merge_sort; apply _.
Qed.

(** *** Pages fit together *)

Lemma filter_after_sorted l k x :
  StronglySorted newest_first (l ++ x :: k) -> NoDup (pos <$> l ++ x :: k) ->
  filter (fun y => after (pos x) (pos y) = true) (l ++ x :: k) = k.
Proof.
  intros Hs Hnd. rewrite filter_app, filter_cons_False.
  2: { by rewrite after_irrefl. }
  rewrite fmap_app, fmap_cons in Hnd.
  apply NoDup_app in Hnd as (Hl & Hdisj & Hxk). apply NoDup_cons in Hxk as [Hx Hk].
  assert (filter (fun y => after (pos x) (pos y) = true) l = []) as ->.
  { clear Hl Hdisj Hx Hk. induction l as [|y l IH]; [done|].
    inversion Hs as [|? ? Hs' Hall]; subst. rewrite filter_cons_False; [by apply IH|].
    apply Forall_app in Hall as [_ Hall]. inversion Hall as [|? ? Hyx _]; subst.
    unfold newest_first, not_after in Hyx. by rewrite Hyx. }
  simpl. assert (Forall (newest_first x) k) as Hall.
  { clear -Hs. induction l; inversion Hs; subst; [done|]. by apply IHl. }
  clear -Hall Hx Hlaws. induction k as [|y k IH]; [done|].
  inversion Hall as [|? ? Hxy Hall']; subst. rewrite fmap_cons, not_elem_of_cons in Hx.
  destruct Hx as [Hne Hx]. rewrite filter_cons_True; [by rewrite IH|].
  by apply not_after_strict.
Qed.

Lemma past_trans c x y : past c x = true -> after (pos x) (pos y) = true -> past c y = true.
Proof.
  unfold past. destruct c; [|done]. apply after_trans.
Qed.

(** Rows with different positions are told apart by the order. *)
Lemma newest_first_antisymm rows x y :
  NoDup (pos <$> rows) -> x ∈ rows -> y ∈ rows ->
  newest_first x y -> newest_first y x -> x = y.
Proof.
  intros Hnd Hx Hy Hxy Hyx.
  assert (pos x = pos y) as Heq.
  { by apply after_total. }
  apply list_elem_of_lookup in Hx as [i Hi], Hy as [j Hj].
  assert (i = j) as ->; [|congruence].
  eapply (NoDup_lookup _ _ _ (pos x) Hnd); rewrite list_lookup_fmap;
    [by rewrite Hi|by rewrite Hj, Heq].
Qed.

Lemma NoDup_pos_filter (P : A -> Prop) `{!forall x, Decision (P x)} rows :
  NoDup (pos <$> rows) -> NoDup (pos <$> filter P rows).
Proof.
  intros Hnd. eapply sublist_NoDup; [exact Hnd|]. apply fmap_sublist.
  induction rows as [|y rows IH]; [constructor|].
  inversion Hnd; subst. destruct (decide (P y)).
  - rewrite filter_cons_True by done. by constructor; apply IH.
  - rewrite filter_cons_False by done. by constructor; apply IH.
Qed.

(** Reading on from the last row of a page gives exactly the rows that follow it: no
    row is shown twice and none is skipped. *)
Lemma sql_page_app c n m rows x :
  0 <= n -> 0 <= m -> NoDup (pos <$> rows) -> last (sql_page c n rows) = Some x ->
  sql_page c n rows ++ sql_page (Some (pos x)) m rows = sql_page c (n + m) rows.
Proof.
  intros Hn Hm Hnd Hlast.
  set (L := merge_sort newest_first (filter (fun x => past c x = true) rows)).
  assert (StronglySorted newest_first L) as HsL by (apply StronglySorted_merge_sort; apply _).
  assert (L ≡ₚ filter (fun x => past c x = true) rows) as HpL by apply merge_sort_Permutation.
  assert (NoDup (pos <$> L)) as HndL by (rewrite HpL; by apply NoDup_pos_filter).
  assert (sql_page c n rows = take (Z.to_nat n) L) as Hp.
  { unfold sql_page, sql_limit. destruct (n <? 0) eqn:E; [lia|done]. }
  rewrite Hp in *. apply last_Some in Hlast as [l Hl].
  assert (L = l ++ x :: drop (Z.to_nat n) L) as HL.
  { rewrite <-(take_drop (Z.to_nat n) L) at 1. by rewrite Hl, <-app_assoc. }
  assert (past c x = true) as Hpx.
  { assert (x ∈ L) as Hx by (rewrite HL, elem_of_app, elem_of_cons; auto).
    rewrite HpL, list_elem_of_filter in Hx. tauto. }
  assert (filter (fun y => after (pos x) (pos y) = true) L = drop (Z.to_nat n) L) as Hf.
  { rewrite HL at 1. apply filter_after_sorted; by rewrite <-HL. }
  assert (merge_sort newest_first (filter (fun y => past (Some (pos x)) y = true) rows)
          ≡ₚ drop (Z.to_nat n) L) as Hperm.
  { rewrite merge_sort_Permutation, <-Hf, HpL. rewrite list_filter_filter_l; [done|].
    intros y Hy. by eapply past_trans. }
  assert (merge_sort newest_first (filter (fun y => past (Some (pos x)) y = true) rows)
          = drop (Z.to_nat n) L) as Hrest.
  { apply (StronglySorted_unique_strong newest_first); [| | |done].
    - intros y z. rewrite !merge_sort_Permutation. intros [_ Hy]%list_elem_of_filter Hz.
      eapply newest_first_antisymm; [exact Hnd|done|].
      assert (z ∈ L) as HzL by (rewrite HL, elem_of_app, elem_of_cons; auto).
      rewrite HpL, list_elem_of_filter in HzL. tauto.
    - apply StronglySorted_merge_sort; apply _.
    - rewrite <-(take_drop (Z.to_nat n) L) in HsL. by eapply StronglySorted_app_1_r. }
  unfold sql_page, sql_limit. rewrite Hrest. fold L.
  destruct (m <? 0) eqn:E1, (n + m <? 0) eqn:E2; try lia.
  rewrite take_take_drop. f_equal. lia.
Qed.
Lemma sql_page_NoDup c n rows : NoDup (pos <$> rows) -> NoDup (sql_page c n rows).
Proof.
  intros Hnd. apply NoDup_fmap_1 in Hnd. unfold sql_page.
  destruct (sql_limit_prefix n (merge_sort newest_first (filter (fun x => past c x = true) rows)))
    as [l Hl].
  assert (NoDup (merge_sort newest_first (filter (fun x => past c x = true) rows))) as Hs.
  { rewrite merge_sort_Permutation. by apply NoDup_filter. }
  rewrite Hl in Hs. by apply NoDup_app in Hs as [? _].
Qed.


Lemma sql_page_take c n k rows :
  0 <= n <= k -> take (Z.to_nat n) (sql_page c k rows) = sql_page c n rows.
Proof.
  intros Hn. unfold sql_page, sql_limit. destruct (k <? 0) eqn:?, (n <? 0) eqn:?; try lia.
  rewrite take_take. f_equal. lia.
Qed.

(** A page that is not full is the last one. *)
Lemma sql_page_all c n rows :
  Z.of_nat (length (sql_page c n rows)) < n -> sql_page c n rows = sql_page c (-1) rows.
Proof.
  unfold sql_page, sql_limit. destruct (n <? 0) eqn:?; [lia|]. simpl.
  rewrite length_take. intros Hl. apply take_ge. lia.
Qed.

End page.
