(* ===== verification/Codec.v ===== *)
(** * Cursors: base64, JSON and RFC 3339 times

    The list endpoints hand out opaque cursors. [Codec] holds the functions of
    [encoding/base64], [encoding/json] and [time] the code calls, [CodecLaws] what it relies
    on: decoding gives back what was encoded. A JSON object is the list of its fields. [parse_cursor] and [encode_cursor] are the
    common shape of the [parse…Cursor] and [encode…Cursor] functions of the services, which
    differ in the names of the two JSON fields only. *)
From S2P Require Import Prelude.
From S2P Require Import GoStd.
From S2P Require Import Paging.

(** The fields of the JSON objects the code writes and reads. *)
Inductive json_kind := KInt | KText | KFloat.

Inductive json_field := JInt (n : Z) | JText (s : string) | JFloat (f : float64).

#[export] Instance json_kind_eq_dec : EqDecision json_kind.
Proof. solve_decision. Defined.
#[export] Instance json_field_eq_dec : EqDecision json_field.
Proof. solve_decision. Defined.

(** The value of a field of a Go struct that the JSON text does not mention. *)
Definition json_zero (k : json_kind) : json_field :=
  match k with KInt => JInt 0 | KText => JText "" | KFloat => JFloat (S754_zero false) end.

Class Codec := {
  RawURL_EncodeToString : string -> string;
  RawURL_DecodeString : string -> option string;
  Std_DecodeString : string -> option string;
  (** [json.Marshal] of a struct, from the fields that are not omitted *)
  json_Marshal : list (string * json_field) -> string;
  (** [json.Unmarshal] into a struct with fields of these names and types *)
  json_Unmarshal : list (string * json_kind) -> string -> option (list json_field);
  (** [json.Marshal] and [json.Unmarshal] of a [[]float64]; no text for NaN and infinity *)
  json_MarshalFloats : list float64 -> option string;
  json_UnmarshalFloats : string -> option (list float64);
  FormatRFC3339Nano : Time -> string;
  ParseRFC3339Nano : string -> option Time;
}.

(** The times of the years 1 to 9999, which RFC 3339 can write. *)
Definition rfc3339_range (t : Time) : Prop := 0 <= t < 315537897600 * second.

(** Values that JSON keeps as they are: integers of 64 bits, texts of printable characters,
    finite floats. *)
Definition json_fits (k : json_kind) (v : json_field) : Prop :=
  match k, v with
  | KInt, JInt n => - 2 ^ 63 <= n < 2 ^ 63
  | KText, JText s => visible s
  | KFloat, JFloat f => float_finite f = true
  | _, _ => False
  end.

Definition json_lookup (fields : list (string * json_field)) (name : string) : option json_field :=
  snd <$> head (filter (fun f => f.1 = name) fields).

Lemma json_lookup_here n v l : json_lookup ((n, v) :: l) n = Some v.
Proof. unfold json_lookup. by rewrite filter_cons_True. Qed.

Lemma json_lookup_next n m v l : m <> n -> json_lookup ((m, v) :: l) n = json_lookup l n.
Proof. intros Hmn. unfold json_lookup. by rewrite filter_cons_False. Qed.

(** The struct that was written is read back, omitted fields as zero. *)
Definition json_read (shape : list (string * json_kind)) (fields : list (string * json_field))
    : list json_field :=
  (fun nk => default (json_zero nk.2) (json_lookup fields nk.1)) <$> shape.

Class CodecLaws `{Codec} := {
  base64_roundtrip : forall s, RawURL_DecodeString (RawURL_EncodeToString s) = Some s;
  base64_visible : forall s, visible (RawURL_EncodeToString s);
  base64_nonempty : forall s, s <> ""%string -> RawURL_EncodeToString s <> ""%string;
  json_nonempty : forall fields, json_Marshal fields <> ""%string;
  json_roundtrip : forall shape fields, NoDup (shape.*1) -> NoDup (fields.*1) ->
    Forall (fun f => exists k, (f.1, k) ∈ shape /\ json_fits k f.2) fields ->
    json_Unmarshal shape (json_Marshal fields) = Some (json_read shape fields);
  json_floats : forall l s, json_MarshalFloats l = Some s -> json_UnmarshalFloats s = Some l /\ visible s;
  rfc3339_visible : forall t, rfc3339_range t -> visible (FormatRFC3339Nano t);
  rfc3339_nonempty : forall t, FormatRFC3339Nano t <> ""%string;
  rfc3339_roundtrip : forall t, rfc3339_range t -> ParseRFC3339Nano (FormatRFC3339Nano t) = Some t;
}.

Section cursor.
Context `{Codec}.

(** A client may send either alphabet. *)
Definition decode_base64 (raw : string) : option string :=
  match RawURL_DecodeString raw with
  | Some content => Some content
  | None => Std_DecodeString raw
  end.

(** [inr None] for the empty cursor, [inl tt] for an invalid one. *)
Definition parse_cursor (timeField idField raw : string) : unit + option (Time * Z) :=
  let raw := TrimSpace raw in
  if String.eqb raw "" then inr None else
  match decode_base64 raw with
  | None => inl tt
  | Some content =>
      match json_Unmarshal [(timeField, KText); (idField, KInt)] content with
      | Some [JText text; JInt id] =>
          match ParseRFC3339Nano (TrimSpace text) with
          | None => inl tt
          | Some t => if id <=? 0 then inl tt else inr (Some (t, id))
          end
      | _ => inl tt
      end
  end.

Definition encode_cursor (timeField idField : string) (cursor : option (Time * Z)) : string :=
  match cursor with
  | None => ""
  | Some (t, id) =>
      if (id <=? 0) || time_IsZero t then ""
      else RawURL_EncodeToString (json_Marshal
             [(timeField, JText (FormatRFC3339Nano t)); (idField, JInt id)])
  end.

(** What was encoded is decoded, and not mistaken for an empty cursor. *)
Lemma cursor_decoded `{!CodecLaws} shape fields :
  NoDup (shape.*1) -> NoDup (fields.*1) ->
  Forall (fun f => exists k, (f.1, k) ∈ shape /\ json_fits k f.2) fields ->
  let raw := RawURL_EncodeToString (json_Marshal fields) in
  TrimSpace raw = raw /\ String.eqb raw "" = false /\
  (content ← decode_base64 raw; json_Unmarshal shape content) = Some (json_read shape fields).
Proof.
  intros Hs Hf Hfits raw. split; [apply visible_trimmed, base64_visible|]. split.
  - destruct (String.eqb_spec raw "") as [He|]; [|done]. by destruct (base64_nonempty _ (json_nonempty fields)).
  - unfold decode_base64, raw. rewrite base64_roundtrip. simpl. by apply json_roundtrip.
Qed.

(** A cursor the server hands out is read back as the position it was made of. *)
Lemma parse_encode_cursor `{!CodecLaws} a b t id :
  a <> b -> 0 < id < 2 ^ 63 -> 0 < t -> rfc3339_range t ->
  parse_cursor a b (encode_cursor a b (Some (t, id))) = inr (Some (t, id)).
Proof.
  intros Hab Hid Ht Hr. unfold encode_cursor.
  assert ((id <=? 0) || time_IsZero t = false) as -> by (unfold time_IsZero; lia).
  destruct (cursor_decoded [(a, KText); (b, KInt)] [(a, JText (FormatRFC3339Nano t)); (b, JInt id)])
    as (Htrim & Hne & Hdec).
  - simpl. rewrite NoDup_cons, list_elem_of_singleton. split; [done|apply NoDup_singleton].
  - simpl. rewrite NoDup_cons, list_elem_of_singleton. split; [done|apply NoDup_singleton].
  - repeat constructor; simpl.
    + exists KText. split; [by left|by apply rfc3339_visible].
    + exists KInt. split; [by right; left|]. unfold json_fits. simpl. lia.
  - unfold parse_cursor. cbv zeta. rewrite Htrim, Hne. apply bind_Some in Hdec as (content & -> & ->).
    unfold json_read. cbn [fmap list_fmap fst snd].
    rewrite json_lookup_here, json_lookup_next, json_lookup_here by done. simpl.
    rewrite (visible_trimmed (FormatRFC3339Nano t)) by by apply rfc3339_visible.
    rewrite rfc3339_roundtrip by done. by destruct (Z.leb_spec id 0); [lia|].
Qed.
End cursor.

(** ** Pages *)

(** The services read [limit + 1] rows to know whether there is another page, show [limit]
    of them and hand out a cursor for the last one. *)
Definition page_of {A} (limit : Z) (items : list A) : list A * bool :=
  let hasMore := limit <? Z.of_nat (length items) in
  (if hasMore then take (Z.to_nat limit) items else items, hasMore).

Definition normalize_limit (default_ max limit : Z) : Z :=
  if limit <=? 0 then default_ else if max <? limit then max else limit.

Lemma normalize_limit_bounds d m l : 0 < d <= m -> 0 < normalize_limit d m l <= m.
Proof. unfold normalize_limit. repeat case_match; lia. Qed.

(** What a service shows of a query for one row more than it needs. *)
Lemma page_of_query {A B K} `{PositionLaws K} (pos : A -> K) (f : A -> B) c n rows :
  0 < n ->
  let '(items, more) := page_of n (f <$> sql_page pos c (n + 1) rows) in
  items = f <$> sql_page pos c n rows /\
  (more = true -> sql_page pos c n rows <> []) /\
  (more = false -> items = f <$> sql_page pos c (-1) rows).
Proof.
  intros Hn. unfold page_of. rewrite length_fmap.
  destruct (Z.ltb_spec n (Z.of_nat (length (sql_page pos c (n + 1) rows)))) as [Hlt|Hle].
  - rewrite <-fmap_take, sql_page_take by lia. split; [done|]. split; [|done].
    intros _ Hnil. rewrite <-(sql_page_take pos c n (n + 1) rows) in Hnil by lia.
    apply (f_equal length) in Hnil. rewrite length_take in Hnil. simpl in Hnil. lia.
  - assert (sql_page pos c (n + 1) rows = sql_page pos c (-1) rows) as Hall
      by (apply sql_page_all; lia).
    split; [|split; [done|by rewrite Hall]].
    rewrite <-(sql_page_take pos c n (n + 1) rows), take_ge by lia. done.
Qed.
