(* ===== verification/InteractionRepo.v ===== *)
(** * Interaction repository ([internal/infra/persistence/interaction/gorm.go])

    The writes of likes, favourites and comments, each in a transaction that also
    maintains the counters of [video_stat]. [counters_ok] says that the counters are the
    numbers of rows they stand for; every operation preserves it, whatever calls fail. *)
From S2P Require Import Prelude.
From S2P Require Import GoStd.
From S2P Require Import InteractionDomain.
From S2P Require VideoDomain.
From S2P Require AccountDomain.
From S2P Require Import Errors.
From S2P Require Import Models.
From S2P Require Import Store.
From S2P Require Import Paging.

Section InteractionRepo.
Context `{Collation}.

Record commentWithUserModel := mkCommentWithUser {
  cw_comment : CommentModel;
  cw_UserNickname : string;
  cw_UserAvatarURL : string;
}.

Definition idempotencyKeyPtr (value : string) : option string :=
  let value := TrimSpace value in
  if String.eqb value "" then None else Some value.

Definition idempotencyKeyValue (value : option string) : string := default ""%string value.

Definition mapVideoError (err : error) : error :=
  if errors_Is err ERecordNotFound then EInteraction ErrVideoNotFound else err.

Definition mapUserError (err : error) : error :=
  if errors_Is err ERecordNotFound then EInteraction ErrInvalidUserID else err.

Definition isDuplicateKeyError (err : error) : bool := errors_Is err EDuplicatedKey.

Definition clampCount (value : Z) : Z := if value <? 0 then 0 else value.

Definition statCounter (stat : VideoStatModel) (field : string) : Z :=
  if String.eqb field "like_count" then sm_LikeCount stat else
  if String.eqb field "favorite_count" then sm_FavoriteCount stat else
  if String.eqb field "comment_count" then sm_CommentCount stat else 0.

Definition restoreAction (model : ActionModel) : Action :=
  RestoreAction (im_ID model) (im_UserID model) (im_VideoID model) (im_ActionType model)
    (im_Status model) (idempotencyKeyValue (im_IdempotencyKey model)) (im_CreatedAt model)
    (im_UpdatedAt model).

Definition restoreComment (model : commentWithUserModel) : Comment :=
  let c := cw_comment model in
  RestoreComment (cm_ID c) (cm_VideoID c) (cm_UserID c) (cw_UserNickname model)
    (cw_UserAvatarURL model) (cm_Content c) (cm_Status c)
    (idempotencyKeyValue (cm_IdempotencyKey c)) (cm_CreatedAt c) (cm_UpdatedAt c).

Definition actionStatusFromActive (active : bool) : Z :=
  if active then ActionStatusActive else ActionStatusCanceled.

(** ** Reads *)

(** [WHERE id = ? AND status = published]. *)
Definition published_video (videoID : Z) (d : Tables) : option VideoModel :=
  v ← video d !! videoID;
  if vm_Status v =? VideoDomain.StatusPublished then Some v else None.

Definition GetVideoStat (videoID : Z) : M VideoStat :=
  map_error mapVideoError (
    stat ← take_row (fun d => s ← video_stat d !! videoID;
                              _ ← published_video (sm_VideoID s) d; Some s);
    mret {| vs_VideoID := sm_VideoID stat; vs_LikeCount := sm_LikeCount stat;
            vs_CommentCount := sm_CommentCount stat;
            vs_FavoriteCount := sm_FavoriteCount stat |}).

Definition GetVideoAuthorID (videoID : Z) : M Z :=
  map_error mapVideoError (v ← take_row (published_video videoID); mret (vm_AuthorID v)).

Definition GetUserProfile (userID : Z) : M UserProfile :=
  map_error mapUserError (
    model ← take_row (fun d => u ← account d !! userID;
                       if am_Status u =? AccountDomain.StatusNormal then Some u else None);
    mret {| up_ID := am_ID model; up_Nickname := TrimSpace (am_Nickname model);
            up_AvatarURL := TrimSpace (am_AvatarURL model) |}).

(** A comment joined with its author's account ([LEFT JOIN]: the columns of a missing
    account are empty). *)
Definition commentWithUserSelect (d : Tables) (c : CommentModel) : commentWithUserModel :=
  match account d !! cm_UserID c with
  | Some u => mkCommentWithUser c (am_Nickname u) (am_AvatarURL u)
  | None => mkCommentWithUser c "" ""
  end.

Definition commentCount (videoID : Z) : M Z :=
  map_error mapVideoError (stat ← take_row (fun d => video_stat d !! videoID);
                           mret (sm_CommentCount stat)).

(** The rows [WHERE user_id = ? AND idempotency_key = ?] selects. *)
Definition comment_key_is (userID : Z) (key : string) (c : CommentModel) : bool :=
  (cm_UserID c =? userID) &&
  match cm_IdempotencyKey c with Some k => String.eqb (collate k) (collate key) | None => false end.

Definition FindCommentByUserAndIdempotencyKey (userID : Z) (idempotencyKey : string)
    : M (Comment * Z) :=
  let idempotencyKey := TrimSpace idempotencyKey in
  if String.eqb idempotencyKey "" then throw (EInteraction ErrCommentNotFound) else
  found ← query (fun d => commentWithUserSelect d <$>
                   find_row (comment_key_is userID idempotencyKey) (interaction_comment d));
  match found with
  | None => throw (EInteraction ErrCommentNotFound)
  | Some model =>
      count ← commentCount (cm_VideoID (cw_comment model));
      mret (restoreComment model, count)
  end.

Definition FindCommentByID (commentID : Z) : M Comment :=
  map_error (fun err => if errors_Is err ERecordNotFound
                        then EInteraction ErrCommentNotFound else err)
    (model ← take_row (fun d => commentWithUserSelect d <$> interaction_comment d !! commentID);
     mret (restoreComment model)).

Definition comment_pos (c : CommentModel) : Time * Z := (cm_CreatedAt c, cm_ID c).

(** The comments a page shows: the normal ones of the video, after the cursor, newest
    first. *)
Definition comment_page (videoID : Z) (cursor : option CommentCursor) (limit : Z) (d : Tables)
    : list CommentModel :=
  sql_page comment_pos ((fun c => (cc_CreatedAt c, cc_CommentID c)) <$> cursor) limit
    (select_rows (fun c => (cm_VideoID c =? videoID) && (cm_Status c =? CommentStatusNormal))
       (interaction_comment d)).

Definition ListComments (videoID : Z) (cursor : option CommentCursor) (limit : Z)
    : M (list Comment) :=
  models ← query (fun d => commentWithUserSelect d <$> comment_page videoID cursor limit d);
  mret (restoreComment <$> models).

(** ** Writes *)

Definition lockPublishedVideo (videoID : Z) : M unit :=
  map_error mapVideoError (_ ← take_row (published_video videoID); mret tt).

(** [tx.Save(&stat)]: the row is written with a new [updated_at]. *)
Definition save_stat (stat : VideoStatModel) : M VideoStatModel :=
  now ← time_now;
  let stat := mkVideoStatModel (sm_VideoID stat) (sm_LikeCount stat) (sm_CommentCount stat)
                (sm_FavoriteCount stat) (sm_CreatedAt stat) now in
  _ ← update (set_video_stat <[sm_VideoID stat := stat]>);
  mret stat.

(** The [switch] of [updateVideoStatCounter]. *)
Definition bump_counter (stat : VideoStatModel) (field : string) (delta : Z)
    : option VideoStatModel :=
  let '(mkVideoStatModel v l c f cr up) := stat in
  if String.eqb field "like_count" then
    Some (mkVideoStatModel v (clampCount (l + delta)) c f cr up) else
  if String.eqb field "favorite_count" then
    Some (mkVideoStatModel v l c (clampCount (f + delta)) cr up) else
  if String.eqb field "comment_count" then
    Some (mkVideoStatModel v l (clampCount (c + delta)) f cr up) else None.

Definition updateVideoStatCounter (videoID : Z) (field : string) (delta : Z) : M Z :=
  stat ← map_error mapVideoError (take_row (fun d => video_stat d !! videoID));
  match bump_counter stat field delta with
  | None => throw (EInteraction ErrInvalidActionType)
  | Some stat => stat ← save_stat stat; mret (statCounter stat field)
  end.

Definition currentVideoStatCounter (videoID : Z) (field : string) : M Z :=
  stat ← map_error mapVideoError (take_row (fun d => video_stat d !! videoID));
  mret (statCounter stat field).

Definition action_field (actionType : string) : string :=
  if String.eqb actionType ActionTypeLike then "like_count" else "favorite_count".

Definition updateActionStat (videoID : Z) (actionType : string) (delta : Z) : M Z :=
  updateVideoStatCounter videoID (action_field actionType) delta.

Definition currentActionCount (videoID : Z) (actionType : string) : M Z :=
  currentVideoStatCounter videoID (action_field actionType).

Definition action_key (a : ActionModel) : Z * Z * string :=
  (im_UserID a, im_VideoID a, collate (im_ActionType a)).

(** [tx.Create(&action)], refused when the unique index has the row already. *)
Definition create_action (userID videoID : Z) (actionType : string) (status : Z)
    (key : option string) : M ActionModel :=
  insert_row "interaction_action"
    (fun id now => mkActionModel id userID videoID actionType status key now now)
    (fun a d => bool_decide (is_Some (interaction_action d !! action_key a)))
    (fun a => set_interaction_action <[action_key a := a]>).

(** [tx.Save(&action)]. *)
Definition save_action (a : ActionModel) : M ActionModel :=
  now ← time_now;
  let a := mkActionModel (im_ID a) (im_UserID a) (im_VideoID a) (im_ActionType a)
             (im_Status a) (im_IdempotencyKey a) (im_CreatedAt a) now in
  _ ← update (set_interaction_action <[action_key a := a]>);
  mret a.

(** The end of the transaction of [SetAction]: the new count and the change. *)
Definition finish_action (videoID : Z) (actionType : string) (action : ActionModel) (delta : Z)
    : M (ActionModel * Z * Z) :=
  if delta =? 0 then
    count ← currentActionCount videoID actionType; mret (action, count, 0)
  else
    count ← updateActionStat videoID actionType delta; mret (action, count, delta).

Definition SetAction (userID videoID : Z) (actionType : string) (active : bool)
    (idempotencyKey : string) : M (Action * Z * Z) :=
  match NormalizeActionType actionType with
  | inl e => throw (EInteraction e)
  | inr actionType =>
      let idempotencyKey := TrimSpace idempotencyKey in
      let nextStatus := actionStatusFromActive active in
      '(action, count, statDelta) ← map_error mapVideoError (transaction (
        _ ← lockPublishedVideo videoID;
        found ← query (fun d => interaction_action d !! (userID, videoID, collate actionType));
        match found with
        | None =>
            action ← create_action userID videoID actionType nextStatus
                       (idempotencyKeyPtr idempotencyKey);
            finish_action videoID actionType action (if active then 1 else 0)
        | Some action =>
            let previousIdempotencyKey := idempotencyKeyValue (im_IdempotencyKey action) in
            if negb (String.eqb idempotencyKey "")
               && String.eqb previousIdempotencyKey idempotencyKey then
              count ← currentActionCount videoID actionType; mret (action, count, 0)
            else
              let previousStatus := im_Status action in
              let delta := if im_Status action =? nextStatus then 0
                           else if active then 1 else -1 in
              let action := mkActionModel (im_ID action) (im_UserID action) (im_VideoID action)
                (im_ActionType action) nextStatus (idempotencyKeyPtr idempotencyKey)
                (im_CreatedAt action) (im_UpdatedAt action) in
              action ← (if negb (previousStatus =? nextStatus)
                           || negb (String.eqb previousIdempotencyKey idempotencyKey)
                        then save_action action else mret action);
              finish_action videoID actionType action delta
        end));
      mret (restoreAction action, count, statDelta)
  end.

(** [tx.Create(&model)] for a comment, refused by the primary key or by [uk_user_idempotency]. *)
Definition create_comment (comment : Comment) : M CommentModel :=
  insert_row "interaction_comment"
    (fun id now => mkCommentModel id (c_VideoID comment) (c_UserID comment) (c_Content comment)
                     (c_Status comment) (idempotencyKeyPtr (c_IdempotencyKey comment)) now now)
    (fun c d => match cm_IdempotencyKey c with
                | Some k => match find_row (comment_key_is (cm_UserID c) k) (interaction_comment d) with
                            | Some _ => true | None => false end
                | None => false
                end)
    (fun c => set_interaction_comment <[cm_ID c := c]>).

Definition CreateComment (comment : Comment) : M (Comment * Z * Z) :=
  r ← attempt (transaction (
        _ ← lockPublishedVideo (c_VideoID comment);
        model ← map_error (fun err =>
                   if isDuplicateKeyError err && negb (String.eqb (c_IdempotencyKey comment) "")
                   then EInteraction ErrCommentNotFound else err)
                 (create_comment comment);
        nextCount ← updateVideoStatCounter (cm_VideoID model) "comment_count" 1;
        mret (model, nextCount)));
  match r with
  | inl err =>
      if errors_Is err (EInteraction ErrCommentNotFound)
         && negb (String.eqb (c_IdempotencyKey comment) "") then
        existing ← attempt (FindCommentByUserAndIdempotencyKey (c_UserID comment)
                              (c_IdempotencyKey comment));
        match existing with
        | inr (existing, existingCount) => mret (existing, existingCount, 0)
        | inl _ => throw (mapVideoError err)
        end
      else throw (mapVideoError err)
  | inr (model, count) =>
      created ← FindCommentByID (cm_ID model);
      mret (created, count, 1)
  end.

(** [tx.Save(&model)] for a comment. *)
Definition save_comment (c : CommentModel) : M CommentModel :=
  now ← time_now;
  let c := mkCommentModel (cm_ID c) (cm_VideoID c) (cm_UserID c) (cm_Content c) (cm_Status c)
             (cm_IdempotencyKey c) (cm_CreatedAt c) now in
  _ ← update (set_interaction_comment <[cm_ID c := c]>);
  mret c.

Definition DeleteComment (commentID userID : Z) (role : string) : M (Comment * Z * Z) :=
  let role := TrimSpace role in
  '(model, count, statDelta) ← transaction (
    model ← map_error (fun err => if errors_Is err ERecordNotFound
                                  then EInteraction ErrCommentNotFound else err)
              (take_row (fun d => interaction_comment d !! commentID));
    video ← map_error mapVideoError (take_row (fun d => video d !! cm_VideoID model));
    if negb (cm_UserID model =? userID) && negb (vm_AuthorID video =? userID)
       && negb (String.eqb role AccountDomain.RoleAdmin)
    then throw (EInteraction ErrCommentPermissionDenied)
    else if cm_Status model =? CommentStatusDeleted then
      count ← currentVideoStatCounter (cm_VideoID model) "comment_count";
      mret (model, count, 0)
    else
      model ← save_comment (mkCommentModel (cm_ID model) (cm_VideoID model) (cm_UserID model)
                (cm_Content model) CommentStatusDeleted (cm_IdempotencyKey model)
                (cm_CreatedAt model) (cm_UpdatedAt model));
      nextCount ← updateVideoStatCounter (cm_VideoID model) "comment_count" (-1);
      mret (model, nextCount, -1));
  comment ← FindCommentByID (cm_ID model);
  mret (comment, count, statDelta).

(** ** The invariant of the tables *)

(** Two comments the unique index [uk_user_idempotency] does not let stand together. *)
Definition comment_clash (a b : CommentModel) : bool :=
  match cm_IdempotencyKey a with Some k => comment_key_is (cm_UserID a) k b | None => false end.

(** The rows a counter of video [v] stands for. *)
Definition active_action (v : Z) (actionType : string) (a : ActionModel) : bool :=
  (im_VideoID a =? v) && String.eqb (collate (im_ActionType a)) (collate actionType)
  && (im_Status a =? ActionStatusActive).

Definition normal_comment (v : Z) (c : CommentModel) : bool :=
  (cm_VideoID c =? v) && (cm_Status c =? CommentStatusNormal).

Definition stat_ok (d : Tables) (s : VideoStatModel) : Prop :=
  sm_LikeCount s = map_count (active_action (sm_VideoID s) ActionTypeLike) (interaction_action d) /\
  sm_FavoriteCount s
  = map_count (active_action (sm_VideoID s) ActionTypeFavorite) (interaction_action d) /\
  sm_CommentCount s = map_count (normal_comment (sm_VideoID s)) (interaction_comment d).

Definition action_type_ok (t : string) : Prop := t = ActionTypeLike \/ t = ActionTypeFavorite.
Definition action_status_ok (st : Z) : Prop := st = ActionStatusActive \/ st = ActionStatusCanceled.
Definition comment_status_ok (st : Z) : Prop := st = CommentStatusNormal \/ st = CommentStatusDeleted.

(** Every row is stored under its key, refers to a stored video that has counters, and has a
    known status; the next ids are free; every counter is the number of rows it stands for. *)
Record counters_ok (w : World) : Prop := {
  ck_action : forall k a, interaction_action (db w) !! k = Some a ->
    k = action_key a /\ action_status_ok (im_Status a) /\
    im_IdempotencyKey a <> Some ""%string /\ is_Some (video (db w) !! im_VideoID a);
  ck_comment : forall id c, interaction_comment (db w) !! id = Some c ->
    id = cm_ID c /\ comment_status_ok (cm_Status c) /\ is_Some (video (db w) !! cm_VideoID c);
  ck_comment_unique : forall i j a b, interaction_comment (db w) !! i = Some a ->
    interaction_comment (db w) !! j = Some b -> comment_clash a b = true -> i = j;
  ck_stat_key : forall v s, video_stat (db w) !! v = Some s -> v = sm_VideoID s;
  ck_comment_fresh : ids_below (next_id "interaction_comment" w) (interaction_comment (db w));
  ck_video_fresh : ids_below (next_id "video" w) (video (db w));
  ck_stat : forall v s, video_stat (db w) !! v = Some s -> stat_ok (db w) s;
  ck_action_stat : forall k a, interaction_action (db w) !! k = Some a ->
    is_Some (video_stat (db w) !! im_VideoID a);
  ck_comment_stat : forall k c, interaction_comment (db w) !! k = Some c ->
    is_Some (video_stat (db w) !! cm_VideoID c);
  ck_action_type : forall k a, interaction_action (db w) !! k = Some a -> action_type_ok (im_ActionType a);
}.

(** ** Rules for the helpers *)

Definition repo_failure (err : error) : Prop :=
  err = EInteraction ErrVideoNotFound \/ exists t, err = EDriver t.

Lemma repo_failure_driver t : repo_failure (EDriver t).
Proof. right. by exists t. Qed.

Lemma repo_failure_not_found : repo_failure (mapVideoError ERecordNotFound).
Proof. by left. Qed.

Lemma mapVideoError_failure err : repo_failure err -> mapVideoError err = err.
Proof. by intros [-> | [t ->]]. Qed.

Definition stat_at (s : VideoStatModel) (now : Time) : VideoStatModel :=
  mkVideoStatModel (sm_VideoID s) (sm_LikeCount s) (sm_CommentCount s) (sm_FavoriteCount s)
    (sm_CreatedAt s) now.

Lemma wp_lockPublishedVideo v Q E w :
  (forall x e, published_video v (db w) = Some x -> Q tt (with_env w e)) ->
  (forall err e, repo_failure err -> E err (with_env w e)) ->
  wp (lockPublishedVideo v) Q E w.
Proof.
  intros HQ HE. unfold lockPublishedVideo.
  apply wp_map_error, wp_bind, wp_take_row; intros.
  - apply wp_ret. by eapply HQ.
  - apply HE, repo_failure_not_found.
  - apply HE, repo_failure_driver.
Qed.

Lemma wp_stat_row v Q E w :
  (forall s e, video_stat (db w) !! v = Some s -> Q s (with_env w e)) ->
  (forall err e, repo_failure err -> E err (with_env w e)) ->
  wp (map_error mapVideoError (take_row (fun d => video_stat d !! v))) Q E w.
Proof.
  intros HQ HE. apply wp_map_error, wp_take_row; intros.
  - by apply HQ.
  - apply HE, repo_failure_not_found.
  - apply HE, repo_failure_driver.
Qed.

Lemma bump_counter_id s field delta s' :
  bump_counter s field delta = Some s' -> sm_VideoID s' = sm_VideoID s.
Proof. destruct s. unfold bump_counter. repeat case_match; intros; by simplify_eq. Qed.

Lemma wp_updateVideoStatCounter v field delta Q E w :
  field ∈ ["like_count"; "favorite_count"; "comment_count"]%string ->
  (forall s s' now e, video_stat (db w) !! v = Some s -> bump_counter s field delta = Some s' ->
     Q (statCounter s' field)
       (with_db (with_env w e) (set_video_stat <[sm_VideoID s := stat_at s' now]> (db w)))) ->
  (forall err e, repo_failure err -> E err (with_env w e)) ->
  wp (updateVideoStatCounter v field delta) Q E w.
Proof.
  intros Hfield HQ HE. unfold updateVideoStatCounter.
  apply wp_bind, wp_stat_row; [|done]. intros s e Hs.
  destruct (bump_counter s field delta) as [s'|] eqn:Hb.
  - unfold save_stat. apply wp_bind, wp_bind, wp_time_now. intros now e' _ _.
    apply wp_bind, wp_update; [|intros; apply (HE _ _ (repo_failure_driver _))].
    intros e''. apply wp_ret, wp_ret.
    pose proof (bump_counter_id _ _ _ _ Hb) as Hid.
    specialize (HQ s s' now e'' Hs Hb). simpl. rewrite Hid.
    by unfold stat_at in HQ; rewrite Hid in HQ.
  - exfalso. destruct s. rewrite !elem_of_cons in Hfield. unfold bump_counter in Hb.
    by destruct Hfield as [-> | [-> | [-> | []%elem_of_nil]]].
Qed.

Lemma wp_currentVideoStatCounter v field Q E w :
  (forall s e, video_stat (db w) !! v = Some s -> Q (statCounter s field) (with_env w e)) ->
  (forall err e, repo_failure err -> E err (with_env w e)) ->
  wp (currentVideoStatCounter v field) Q E w.
Proof.
  intros HQ HE. unfold currentVideoStatCounter.
  apply wp_bind, wp_stat_row; [|done]. intros s e Hs. by apply wp_ret, HQ.
Qed.

Lemma action_field_known t :
  action_field t ∈ ["like_count"; "favorite_count"; "comment_count"]%string.
Proof. unfold action_field. rewrite !elem_of_cons. case_match; auto. Qed.

Lemma wp_finish_action v t a delta Q E w :
  (forall s e, delta = 0 -> video_stat (db w) !! v = Some s ->
     Q (a, statCounter s (action_field t), delta) (with_env w e)) ->
  (forall s s' now e, delta <> 0 -> video_stat (db w) !! v = Some s ->
     bump_counter s (action_field t) delta = Some s' ->
     Q (a, statCounter s' (action_field t), delta)
       (with_db (with_env w e) (set_video_stat <[sm_VideoID s := stat_at s' now]> (db w)))) ->
  (forall err e, repo_failure err -> E err (with_env w e)) ->
  wp (finish_action v t a delta) Q E w.
Proof.
  intros H0 H1 HE. unfold finish_action. destruct (Z.eqb_spec delta 0) as [->|Hd].
  - apply wp_bind, wp_currentVideoStatCounter; [|done]. intros. by apply wp_ret, H0.
  - apply wp_bind, wp_updateVideoStatCounter; [apply action_field_known| |done].
    intros. by apply wp_ret, H1.
Qed.

(** ** [SetAction] *)

(** The row with one counter set. *)
Definition set_counter (s : VideoStatModel) (field : string) (n : Z) (now : Time)
    : VideoStatModel :=
  mkVideoStatModel (sm_VideoID s)
    (if String.eqb field "like_count" then n else sm_LikeCount s)
    (if String.eqb field "comment_count" then n else sm_CommentCount s)
    (if String.eqb field "favorite_count" then n else sm_FavoriteCount s)
    (sm_CreatedAt s) now.

(** Is the action at [k] active? *)
Definition was_active (d : Tables) (k : Z * Z * string) : bool :=
  match interaction_action d !! k with Some a => im_Status a =? ActionStatusActive | None => false end.

(** The request was seen before: its key is the one the row at [k] stored last. *)
Definition action_replayed (d : Tables) (k : Z * Z * string) (key : string) : Prop :=
  exists a, interaction_action d !! k = Some a /\ key <> ""%string /\
    idempotencyKeyValue (im_IdempotencyKey a) = key.

(** What a successful [SetAction] does: nothing when the key was seen last; otherwise it
    stores the row and moves the counter by the change of activity. *)
Inductive set_action_spec (d : Tables) (userID videoID : Z) (t : string) (active : bool)
    (key : string) : Action -> Z -> Z -> Tables -> Prop :=
  | set_replay a s d' :
      interaction_action d !! (userID, videoID, collate t) = Some a ->
      key <> ""%string -> idempotencyKeyValue (im_IdempotencyKey a) = key ->
      video_stat d !! videoID = Some s -> d' = d ->
      set_action_spec d userID videoID t active key
        (restoreAction a) (statCounter s (action_field t)) 0 d'
  | set_write a s s' now d' :
      ~ action_replayed d (userID, videoID, collate t) key ->
      action_key a = (userID, videoID, collate t) ->
      action_type_ok (im_ActionType a) ->
      im_Status a = actionStatusFromActive active ->
      im_IdempotencyKey a = idempotencyKeyPtr key ->
      is_Some (published_video videoID d) ->
      video_stat d !! videoID = Some s ->
      let delta := b2z active - b2z (was_active d (userID, videoID, collate t)) in
      s' = set_counter s (action_field t) (statCounter s (action_field t) + delta) now ->
      d' = set_video_stat <[videoID := s']>
                (set_interaction_action <[action_key a := a]> d) ->
      set_action_spec d userID videoID t active key
        (restoreAction a) (statCounter s' (action_field t)) delta d'.

Lemma bump_counter_spec s field delta s' :
  bump_counter s field delta = Some s' -> 0 <= statCounter s field + delta ->
  forall now, stat_at s' now = set_counter s field (statCounter s field + delta) now.
Proof.
  destruct s as [v l c f cr up]. unfold bump_counter, statCounter, set_counter, stat_at.
  destruct (String.eqb_spec field "like_count") as [->|];
    [|destruct (String.eqb_spec field "favorite_count") as [->|];
      [|destruct (String.eqb_spec field "comment_count") as [->|]; [|done]]];
    intros [= <-] Hn now; simpl in *; unfold clampCount; case_match; try done; lia.
Qed.

Lemma set_counter_same s field : set_counter s field (statCounter s field) (sm_UpdatedAt s) = s.
Proof.
  destruct s as [v l c f cr up]. unfold statCounter, set_counter.
  destruct (String.eqb_spec field "like_count") as [->|]; [done|].
  destruct (String.eqb_spec field "favorite_count") as [->|]; [done|].
  destruct (String.eqb_spec field "comment_count") as [->|]; done.
Qed.

Lemma statCounter_set_counter s field n now :
  field ∈ ["like_count"; "favorite_count"; "comment_count"]%string ->
  statCounter (set_counter s field n now) field = n.
Proof.
  rewrite !elem_of_cons. intros [-> | [-> | [-> | []%elem_of_nil]]]; done.
Qed.

Lemma set_action_frame d u v t active key a c delta d' :
  set_action_spec d u v t active key a c delta d' ->
  exists s acts, d' = set_video_stat s (set_interaction_action acts d).
Proof. destruct 1 as [? ? ? _ _ _ _ ->|]; [exists id, id; by destruct d|by eexists _, _]. Qed.

(** A counter counts at least the active action the user has. *)
Lemma was_active_counted w u v t s :
  counters_ok w -> t = ActionTypeLike \/ t = ActionTypeFavorite ->
  video_stat (db w) !! v = Some s -> was_active (db w) (u, v, collate t) = true ->
  1 <= statCounter s (action_field t).
Proof.
  intros Hok Ht Hs Hact. unfold was_active in Hact. case_match eqn:Ha; [|done].
  pose proof (ck_action w Hok _ _ Ha) as ([= Hu Hv Htt] & _).
  pose proof (ck_stat_key w Hok _ _ Hs) as ->.
  assert (1 <= map_count (active_action (sm_VideoID s) t) (interaction_action (db w))) as Hc.
  { eapply map_count_insert_pos; [exact Ha|]. unfold active_action.
    rewrite <-Hv, <-Htt, Z.eqb_refl, String.eqb_refl. done. }
  destruct (ck_stat w Hok _ _ Hs) as (Hl & Hf & _).
  destruct Ht as [-> | ->]; unfold statCounter, action_field; simpl; lia.
Qed.

Lemma counter_nonneg w v t s :
  counters_ok w -> t = ActionTypeLike \/ t = ActionTypeFavorite ->
  video_stat (db w) !! v = Some s -> 0 <= statCounter s (action_field t).
Proof.
  intros Hok Ht Hs. destruct (ck_stat w Hok _ _ Hs) as (Hl & Hf & _).
  destruct Ht as [-> | ->]; unfold statCounter, action_field; simpl;
    rewrite ?Hl, ?Hf; apply map_count_nonneg.
Qed.

(** Both outcomes of the count, once the row is written (or stored already as it is). *)
Lemma wp_finish_write w w1 u v t active key a :
  counters_ok w -> t = ActionTypeLike \/ t = ActionTypeFavorite ->
  ~ action_replayed (db w) (u, v, collate t) key ->
  action_key a = (u, v, collate t) -> action_type_ok (im_ActionType a) ->
  im_Status a = actionStatusFromActive active ->
  im_IdempotencyKey a = idempotencyKeyPtr key -> is_Some (published_video v (db w)) ->
  db w1 = set_interaction_action <[action_key a := a]> (db w) -> grows w w1 ->
  wp (finish_action v t a (b2z active - b2z (was_active (db w) (u, v, collate t))))
    (fun r w' => set_action_spec (db w) u v t active key (restoreAction r.1.1) r.1.2 r.2 (db w')
                 /\ grows w w')
    (fun err w' => repo_failure err /\ grows w w') w1.
Proof.
  intros Hok Ht Hnr Hk Hty Hst Hkey Hpub Hdb Hg.
  assert (forall s, video_stat (db w1) !! v = Some s -> video_stat (db w) !! v = Some s) as Hstat.
  { by rewrite Hdb. }
  assert (forall s, video_stat (db w) !! v = Some s ->
    0 <= statCounter s (action_field t) + (b2z active - b2z (was_active (db w) (u, v, collate t))))
    as Hnn.
  { intros s Hs. pose proof (counter_nonneg w v t s Hok Ht Hs).
    destruct (was_active (db w) (u, v, collate t)) eqn:Hwas; [|destruct active; simpl; lia].
    pose proof (was_active_counted w u v t s Hok Ht Hs Hwas).
    destruct active; simpl; lia. }
  apply wp_finish_action.
  - intros s e Hd Hs%Hstat. split; [|auto with store].
    eapply set_write with (s' := s) (now := sm_UpdatedAt s); try done.
    + by rewrite Hd, Z.add_0_r, set_counter_same.
    + simpl. rewrite Hdb. symmetry. by apply set_video_stat_id.
  - intros s s' now e Hd Hs%Hstat Hb. split; [|auto with store].
    pose proof (ck_stat_key w Hok _ _ Hs) as Hv.
    pose proof (bump_counter_spec _ _ _ _ Hb (Hnn _ Hs)) as Hset.
    simpl. replace (statCounter s' (action_field t)) with
      (statCounter (stat_at s' now) (action_field t)) by by destruct s'.
    eapply set_write with (now := now); try done.
    simpl. by rewrite Hdb, <-Hv.
  - intros err e He. split; [done|]. auto with store.
Qed.

Lemma idempotencyKeyPtr_trimmed key :
  idempotencyKeyPtr (TrimSpace key) = idempotencyKeyPtr key.
Proof. unfold idempotencyKeyPtr. by rewrite TrimSpace_idemp. Qed.

Lemma idempotencyKeyPtr_value k :
  k <> Some ""%string -> trimmed (idempotencyKeyValue k) -> idempotencyKeyPtr (idempotencyKeyValue k) = k.
Proof.
  intros Hne Htr. unfold idempotencyKeyPtr. rewrite Htr. destruct k as [k|]; [|done]. simpl.
  destruct (String.eqb_spec k ""); congruence.
Qed.

Lemma unchanged_action a key st :
  im_IdempotencyKey a <> Some ""%string -> idempotencyKeyValue (im_IdempotencyKey a) = TrimSpace key ->
  im_Status a = st ->
  mkActionModel (im_ID a) (im_UserID a) (im_VideoID a) (im_ActionType a) st
    (idempotencyKeyPtr (TrimSpace key)) (im_CreatedAt a) (im_UpdatedAt a) = a.
Proof.
  intros Hne Hkey <-. destruct a. simpl in *. f_equal. rewrite <-Hkey.
  apply idempotencyKeyPtr_value; [done|]. rewrite Hkey. apply TrimSpace_trimmed.
Qed.

Lemma wp_SetAction w u v T t active key :
  counters_ok w -> NormalizeActionType T = inr t ->
  wp (SetAction u v T active key)
    (fun r w' => set_action_spec (db w) u v t active (TrimSpace key) r.1.1 r.1.2 r.2 (db w')
                 /\ grows w w')
    (fun err w' => (db w' = db w /\ repo_failure err) /\ grows w w') w.
Proof.
  intros Hok HT. unfold SetAction. rewrite HT.
  pose proof (NormalizeActionType_cases _ _ HT) as Ht.
  apply wp_bind, wp_map_error. eapply wp_mono; [apply (wp_transaction_tables _
    (fun r d' => set_action_spec (db w) u v t active (TrimSpace key) (restoreAction r.1.1) r.1.2 r.2 d')
    repo_failure)| |].
  - apply repo_failure_driver.
  - intros w1 Hdb1 Hg1. apply wp_bind, wp_lockPublishedVideo.
    2: { intros err e He. split; [done|]. auto with store. }
    intros x e Hpub%mk_is_Some. rewrite Hdb1 in Hpub. apply wp_bind, wp_query.
    2: { intros; split; [apply repo_failure_driver|]. auto with store. }
    intros e'. simpl. rewrite Hdb1.
    destruct (interaction_action (db w) !! (u, v, collate t)) as [a|] eqn:Ha.
    + destruct (negb (String.eqb (TrimSpace key) "") &&
                String.eqb (idempotencyKeyValue (im_IdempotencyKey a)) (TrimSpace key)) eqn:Hrep.
      * apply andb_prop in Hrep as [Hne%negb_true_iff%String.eqb_neq Heq%String.eqb_eq].
        apply wp_bind, wp_currentVideoStatCounter.
        2: { intros err e2 He. auto 10 with store. }
        intros s e2 Hs. simpl in Hs. rewrite Hdb1 in Hs. apply wp_ret. split; [|auto with store].
        by apply set_replay.
      * destruct (ck_action w Hok _ _ Ha) as (Hk & Hst & Hne & _).
        pose proof (ck_action_type w Hok _ _ Ha) as Hty.
        assert (~ action_replayed (db w) (u, v, collate t) (TrimSpace key)) as Hnr.
        { intros (o & Ho & Hkn & Hkk). assert (o = a) as -> by congruence.
          apply String.eqb_neq in Hkn. apply String.eqb_eq in Hkk. by rewrite Hkn, Hkk in Hrep. }
        replace (if im_Status a =? actionStatusFromActive active then 0
                 else if active then 1 else -1) with
          (b2z active - b2z (was_active (db w) (u, v, collate t))).
        2: { unfold was_active. rewrite Ha. by destruct Hst as [-> | ->], active. }
        apply wp_bind. case_match eqn:Hsave.
        -- unfold save_action. apply wp_bind, wp_time_now. intros now e2 _ _. cbn zeta.
           apply wp_bind, wp_update; [|auto 10 using repo_failure_driver with store].
           intros e3. apply wp_ret.
           eapply wp_mono; [apply (wp_finish_write w _ u v t active (TrimSpace key))| |]; try done.
           simpl. by rewrite Hdb1.
        -- apply wp_ret. apply orb_false_iff in Hsave as [Hs1%negb_false_iff%Z.eqb_eq
             Hs2%negb_false_iff%String.eqb_eq].
           eapply wp_mono; [apply (wp_finish_write w _ u v t active (TrimSpace key))| |]; try done.
           simpl. rewrite Hdb1. symmetry. apply set_interaction_action_id.
              rewrite (unchanged_action a key) by done. by rewrite <-Hk.
    + unfold create_action. apply wp_bind, wp_insert_row.
      * intros now e2 _ row ai _.
        assert (action_key row = (u, v, collate t)) as Hk by done.
        assert (~ action_replayed (db w) (u, v, collate t) (TrimSpace key)) as Hnr.
        { intros (o & Ho & _). congruence. }
        replace (if active then 1 else 0) with
          (b2z active - b2z (was_active (db w) (u, v, collate t))).
        2: { unfold was_active. rewrite Ha. by destruct active. }
        eapply wp_mono; [apply (wp_finish_write w _ u v t active (TrimSpace key)); try done| |].
        -- simpl. by rewrite Hdb1.
        -- apply grows_insert_trans. auto with store.
        -- done.
        -- done.
      * intros now e2 row ai. simpl. rewrite Hdb1. unfold row, action_key. simpl.
        rewrite Ha. by rewrite bool_decide_eq_true, is_Some_alt.
      * auto 10 using repo_failure_driver with store.
  - intros [[a c] delta] w' HQ. by apply wp_ret.
  - intros err w' [[Hdb He] Hg]. by rewrite mapVideoError_failure.
Qed.

Lemma counter_is_count w v t s :
  counters_ok w -> t = ActionTypeLike \/ t = ActionTypeFavorite ->
  video_stat (db w) !! v = Some s ->
  statCounter s (action_field t) = map_count (active_action v t) (interaction_action (db w)).
Proof.
  intros Hok Ht Hs. destruct (ck_stat w Hok _ _ Hs) as (Hl & Hf & _).
  pose proof (ck_stat_key w Hok _ _ Hs) as ->.
  by destruct Ht as [-> | ->]; unfold statCounter, action_field; simpl; rewrite ?Hl, ?Hf.
Qed.

(** The same in the words of the application. *)
Lemma set_action_effect w w' u v t active key a n delta :
  counters_ok w -> counters_ok w' -> t = ActionTypeLike \/ t = ActionTypeFavorite ->
  set_action_spec (db w) u v t active key a n delta (db w') ->
  let k := (u, v, collate t) in
  let count d := map_count (active_action v t) (interaction_action d) in
  n = count (db w') /\ delta = count (db w') - count (db w) /\
  (action_replayed (db w) k key /\ db w' = db w \/ was_active (db w') k = active) /\
  (exists row, interaction_action (db w') !! k = Some row /\ a = restoreAction row) /\
  forall k', k' <> k -> interaction_action (db w') !! k' = interaction_action (db w) !! k'.
Proof.
  intros Hok Hok' Ht Hspec k count.
  inversion Hspec as [r s d' Hr Hne Hk Hs Hd'|r s s' now d' Hnr Hk Hty Hst Hkey Hpub Hs dl Hs' Hd']; subst.
  - rewrite Hd'. rewrite (counter_is_count w v t s) by done.
    split_and!; [done|lia| |by exists r|done]. left. split; [by exists r|done].
  - assert (interaction_action (db w') = <[k := r]> (interaction_action (db w))) as Ha.
    { rewrite Hd'. simpl. by rewrite Hk. }
    assert (statCounter s (action_field t) + dl = count (db w')) as Hn.
    { unfold count. rewrite <-(counter_is_count w' v t
        (set_counter s (action_field t) (statCounter s (action_field t) + dl) now)).
      - by rewrite statCounter_set_counter by apply action_field_known.
      - done.
      - done.
      - rewrite Hd'. simpl. apply lookup_insert_eq. }
    rewrite statCounter_set_counter by apply action_field_known.
    rewrite (counter_is_count w v t s) in Hn |- * by done.
    split_and!; [done|unfold count in *; lia| | |].
    + right. unfold was_active. rewrite Ha, lookup_insert_eq, Hst. by destruct active.
    + exists r. by rewrite Ha, lookup_insert_eq.
    + intros k' Hne. by rewrite Ha, lookup_insert_ne.
Qed.

Lemma idempotencyKeyPtr_some key :
  key <> ""%string -> trimmed key -> idempotencyKeyPtr key = Some key.
Proof.
  intros Hne Htr. unfold idempotencyKeyPtr. rewrite Htr.
  by destruct (String.eqb_spec key "").
Qed.

(** A repeated request finds its key stored. *)
Lemma set_action_again d u v t active active' key a n delta d' a' n' delta' d'' :
  key <> ""%string -> trimmed key ->
  set_action_spec d u v t active key a n delta d' ->
  set_action_spec d' u v t active' key a' n' delta' d'' ->
  a' = a /\ n' = n /\ delta' = 0 /\ d'' = d'.
Proof.
  intros Hne Htr H1 H2.
  assert (exists row s, interaction_action d' !! (u, v, collate t) = Some row /\
            idempotencyKeyValue (im_IdempotencyKey row) = key /\ a = restoreAction row /\
            video_stat d' !! v = Some s /\ n = statCounter s (action_field t))
    as (row & s & Hrow & Hkey & -> & Hs & ->).
  { inversion H1 as [r s d1 Hr _ Hk Hs Hd'|r s s' now d1 _ Hk _ _ Hkey _ Hs dl Hs' Hd']; subst.
    - by exists r, s.
    - eexists r, _. rewrite Hkey, idempotencyKeyPtr_some by done. simpl.
      rewrite Hk, !lookup_insert_eq. done. }
  inversion H2 as [r2 s2 d2 Hr2 _ _ Hs2 Hd2|r2 s2 s2' now d2 Hnr _ _ _ _ _ _ dl _ _]; subst.
  - rewrite Hr2 in Hrow. rewrite Hs2 in Hs. by simplify_eq.
  - destruct Hnr. by exists row.
Qed.

(** Without a key, asking again for the state a row has changes nobody's activity. *)
Lemma set_action_redo w w1 w2 u v t active a n delta a' n' delta' :
  counters_ok w -> counters_ok w1 -> counters_ok w2 -> t = ActionTypeLike \/ t = ActionTypeFavorite ->
  set_action_spec (db w) u v t active "" a n delta (db w1) ->
  set_action_spec (db w1) u v t active "" a' n' delta' (db w2) ->
  (forall k, was_active (db w2) k = was_active (db w1) k) /\
  map_count (active_action v t) (interaction_action (db w2))
  = map_count (active_action v t) (interaction_action (db w1)).
Proof.
  intros Hok Hok1 Hok2 Ht H1 H2.
  assert (forall d k, ~ action_replayed d k "") as Hno by by intros d k (r & _ & [] & _).
  destruct (set_action_effect _ _ _ _ _ _ _ _ _ _ Hok Hok1 Ht H1) as (_ & _ & [[Hr _]|Hact1] & _);
    [by apply Hno in Hr|].
  destruct (set_action_effect _ _ _ _ _ _ _ _ _ _ Hok1 Hok2 Ht H2)
    as (_ & Hd2 & [[Hr _]|Hact2] & _ & Hoth); [by apply Hno in Hr|].
  split.
  - intros k. destruct (decide (k = (u, v, collate t))) as [->|Hne]; [congruence|].
    unfold was_active. by rewrite Hoth.
  - inversion H2 as [r s d' _ Hne|r s s' now d' _ _ _ _ _ _ _ dl _ _]; subst; [done|].
    unfold dl in Hd2. lia.
Qed.

(** ** The operations preserve the invariant *)

Lemma comment_clash_sym a b : comment_clash a b = comment_clash b a.
Proof.
  unfold comment_clash, comment_key_is.
  destruct (cm_IdempotencyKey a), (cm_IdempotencyKey b); rewrite ?andb_false_r; [|done..].
  by rewrite Z.eqb_sym, String.eqb_sym.
Qed.

Lemma counters_ok_mono w w' : counters_ok w -> db w' = db w -> grows w w' -> counters_ok w'.
Proof.
  intros [] Hdb Hg. split; rewrite ?Hdb; try done.
  - eapply ids_below_mono; [done|apply Hg].
  - eapply ids_below_mono; [done|apply Hg].
Qed.

(** How writing an action moves the numbers of active rows. *)
Lemma count_set_action d a v t :
  (forall k b, interaction_action d !! k = Some b -> k = action_key b) ->
  map_count (active_action v t) (<[action_key a := a]> (interaction_action d))
  = map_count (active_action v t) (interaction_action d)
    + (if (im_VideoID a =? v) && String.eqb (collate (im_ActionType a)) (collate t)
       then b2z (im_Status a =? ActionStatusActive) - b2z (was_active d (action_key a)) else 0).
Proof.
  intros Hkeys. unfold was_active.
  destruct (interaction_action d !! action_key a) as [o|] eqn:Ho.
  - rewrite (map_count_insert _ _ _ _ o Ho). unfold active_action.
    pose proof (Hkeys _ _ Ho) as [= Hu Hv Ht]. rewrite <-Hv, <-Ht.
    destruct (im_VideoID a =? v), (String.eqb _ _); simpl; lia.
  - rewrite map_count_insert_new by done. unfold active_action.
    destruct (im_VideoID a =? v), (String.eqb _ _); simpl; lia.
Qed.

Lemma statCounter_set_other s field field' n now :
  field' <> field -> statCounter (set_counter s field n now) field' = statCounter s field'.
Proof.
  intros Hne. unfold statCounter, set_counter. simpl.
  repeat match goal with |- context [String.eqb ?x ?y] =>
    destruct (String.eqb_spec x y); subst; simplify_eq end; done.
Qed.

(** [stat_ok] by the names of the counters. *)
Lemma stat_ok_counters d s :
  stat_ok d s <->
  statCounter s "like_count" = map_count (active_action (sm_VideoID s) ActionTypeLike) (interaction_action d) /\
  statCounter s "favorite_count" = map_count (active_action (sm_VideoID s) ActionTypeFavorite) (interaction_action d) /\
  statCounter s "comment_count" = map_count (normal_comment (sm_VideoID s)) (interaction_comment d).
Proof. done. Qed.

Lemma published_video_Some v d : is_Some (published_video v d) -> is_Some (video d !! v).
Proof. unfold published_video. destruct (video d !! v); simpl; [eauto|intros [? [=]]]. Qed.

Lemma active_status active : (actionStatusFromActive active =? ActionStatusActive) = active.
Proof. by destruct active. Qed.

Lemma actionStatusFromActive_ok active : action_status_ok (actionStatusFromActive active).
Proof. destruct active; [by left|by right]. Qed.

Lemma idempotencyKeyPtr_ne key : idempotencyKeyPtr key <> Some ""%string.
Proof. unfold idempotencyKeyPtr. destruct (String.eqb_spec (TrimSpace key) ""); congruence. Qed.

Lemma set_action_counters `{!CollationLaws} w w' u v t active key a c delta :
  counters_ok w -> t = ActionTypeLike \/ t = ActionTypeFavorite ->
  set_action_spec (db w) u v t active key a c delta (db w') -> grows w w' -> counters_ok w'.
Proof.
  intros Hok Ht Hspec Hg. inversion Hspec as [|r s s' now d' Hnr Hk Hty Hst Hkey Hpub Hs dl Hs' Hd']; subst.
  { by eapply counters_ok_mono. }
  assert (forall k b, interaction_action (db w) !! k = Some b -> k = action_key b) as Hkeys.
  { intros k b Hb. by apply (ck_action w Hok) in Hb as [-> _]. }
  pose proof (ck_stat_key w Hok _ _ Hs) as Hv.
  assert (im_VideoID r = v /\ collate (im_ActionType r) = collate t) as [Hrv Hrt].
  { unfold action_key in Hk. by simplify_eq. }
  split; rewrite Hd'; simpl.
  - intros k b. destruct (decide (k = action_key r)) as [->|Hne].
    + rewrite lookup_insert_eq. intros [= <-]. split; [done|]. rewrite Hst, Hkey, Hrv.
      auto using actionStatusFromActive_ok, idempotencyKeyPtr_ne, published_video_Some.
    + rewrite lookup_insert_ne by done. apply Hok.
  - apply Hok.
  - apply Hok.
  - intros v0 s0. destruct (decide (v0 = v)) as [->|Hne].
    + rewrite lookup_insert_eq. by intros [= <-].
    + rewrite lookup_insert_ne by done. apply Hok.
  - eapply ids_below_mono; [apply Hok|apply Hg].
  - eapply ids_below_mono; [apply Hok|apply Hg].
  - intros v0 s0. destruct (decide (v0 = v)) as [->|Hne].
    + rewrite lookup_insert_eq. intros [= <-]. apply stat_ok_counters.
      pose proof (proj1 (stat_ok_counters _ _) (ck_stat w Hok _ _ Hs)) as (Hl & Hf & Hc).
      simpl. rewrite !count_set_action by done. rewrite Hk, Hst, active_status, Hrv, Hrt, <-Hv, Z.eqb_refl.
      pose proof collate_like_favorite as Hlf.
      destruct Ht as [-> | ->]; unfold action_field in *; simpl in *;
        rewrite ?String.eqb_refl; rewrite ?statCounter_set_counter by set_solver.
      * rewrite !statCounter_set_other by done.
        destruct (String.eqb_spec (collate ActionTypeLike) (collate ActionTypeFavorite)); [done|].
        rewrite Hv. subst dl. rewrite Hv in *. repeat split; lia.
      * rewrite !statCounter_set_other by done.
        destruct (String.eqb_spec (collate ActionTypeFavorite) (collate ActionTypeLike)); [by symmetry in e|].
        rewrite Hv. subst dl. rewrite Hv in *. repeat split; lia.
    + rewrite lookup_insert_ne by done. intros Hs0.
      pose proof (ck_stat w Hok _ _ Hs0) as (Hl & Hf & Hc).
      pose proof (ck_stat_key w Hok _ _ Hs0) as ->.
      unfold stat_ok. simpl. rewrite !count_set_action by done.
      destruct (Z.eqb_spec (im_VideoID r) (sm_VideoID s0)); [congruence|]. simpl. lia.
  - intros k b. destruct (decide (k = action_key r)) as [->|Hne].
    + rewrite lookup_insert_eq. intros [= <-]. rewrite Hrv, lookup_insert_eq. by eexists.
    + rewrite lookup_insert_ne by done. intros Hb. by apply lookup_insert_is_Some', or_intror, (ck_action_stat w Hok k).
  - intros k b Hb. by apply lookup_insert_is_Some', or_intror, (ck_comment_stat w Hok k).
  - intros k b. destruct (decide (k = action_key r)) as [->|Hne].
    + rewrite lookup_insert_eq. by intros [= <-].
    + rewrite lookup_insert_ne by done. apply (ck_action_type w Hok).
Qed.

(** ** [CreateComment] *)

(** The tables after comment [row] is stored and counted. *)
Definition comment_counted (d : Tables) (row : CommentModel) (delta : Z) (count : Z) (d' : Tables)
    : Prop :=
  exists s now, video_stat d !! cm_VideoID row = Some s /\
    count = statCounter s "comment_count" + delta /\
    d' = set_video_stat <[cm_VideoID row := set_counter s "comment_count" count now]>
           (set_interaction_comment <[cm_ID row := row]> d).

(** [row] is the row of [comment], stored for the first time. *)
Record comment_row (w w' : World) (comment : Comment) (row : CommentModel) : Prop := {
  cr_new : interaction_comment (db w) !! cm_ID row = None;
  cr_id : cm_ID row < next_id "interaction_comment" w';
  cr_video : cm_VideoID row = c_VideoID comment;
  cr_user : cm_UserID row = c_UserID comment;
  cr_content : cm_Content row = c_Content comment;
  cr_status : cm_Status row = c_Status comment;
  cr_key : cm_IdempotencyKey row = idempotencyKeyPtr (c_IdempotencyKey comment);
  cr_unclaimed : forall i o, interaction_comment (db w) !! i = Some o -> comment_clash row o = false;
  cr_published : is_Some (published_video (c_VideoID comment) (db w));
}.

Definition comment_created (w w' : World) (comment : Comment) (row : CommentModel) (count : Z)
    : Prop :=
  comment_row w w' comment row /\ comment_counted (db w) row 1 count (db w') /\ grows w w'.

(** A comment stored before under the same user and key. *)
Definition comment_replayed (d : Tables) (comment : Comment) (row : CommentModel) : Prop :=
  interaction_comment d !! cm_ID row = Some row /\
  comment_key_is (c_UserID comment) (TrimSpace (c_IdempotencyKey comment)) row = true.

Lemma comment_count_nonneg w v s :
  counters_ok w -> video_stat (db w) !! v = Some s -> 0 <= statCounter s "comment_count".
Proof.
  intros Hok Hs. destruct (ck_stat w Hok _ _ Hs) as (_ & _ & Hc).
  unfold statCounter. simpl. rewrite Hc. apply map_count_nonneg.
Qed.

Lemma wp_bump_comments v delta Q E w :
  (forall s, video_stat (db w) !! v = Some s -> v = sm_VideoID s /\ 0 <= statCounter s "comment_count" + delta) ->
  (forall s now e, video_stat (db w) !! v = Some s ->
     let n := statCounter s "comment_count" + delta in
     Q n (with_db (with_env w e)
            (set_video_stat <[v := set_counter s "comment_count" n now]> (db w)))) ->
  (forall err e, repo_failure err -> E err (with_env w e)) ->
  wp (updateVideoStatCounter v "comment_count" delta) Q E w.
Proof.
  intros Hn HQ HE. apply wp_updateVideoStatCounter; [set_solver| |done].
  intros s s' now e Hs Hb. destruct (Hn s Hs) as [Hv Hn'].
  pose proof (bump_counter_spec _ _ _ _ Hb Hn' now) as Heq.
  specialize (HQ s now e Hs). simpl in HQ. rewrite <-Heq, Hv in HQ.
  replace (statCounter s' "comment_count") with (statCounter s "comment_count" + delta); [done|].
  destruct s, s'. unfold set_counter, stat_at in Heq. simpl in *. by simplify_eq.
Qed.

Lemma wp_create_comment_tx w comment :
  counters_ok w ->
  wp (transaction (
        _ ← lockPublishedVideo (c_VideoID comment);
        model ← map_error (fun err =>
                   if isDuplicateKeyError err && negb (String.eqb (c_IdempotencyKey comment) "")
                   then EInteraction ErrCommentNotFound else err)
                 (create_comment comment);
        nextCount ← updateVideoStatCounter (cm_VideoID model) "comment_count" 1;
        mret (model, nextCount)))
    (fun r w' => comment_created w w' comment r.1 r.2)
    (fun err w' => (db w' = db w /\
       (repo_failure err \/ err = EDuplicatedKey \/ err = EInteraction ErrCommentNotFound)) /\ grows w w') w.
Proof.
  intros Hok. apply wp_transaction_stable.
  - intros [row n] w' e (Hr & Hc & Hg). split_and!; [by destruct Hr|done|by auto with store].
  - intros [row n] w' (_ & _ & Hg). done.
  - intros t. left. apply repo_failure_driver.
  - intros w1 Hdb Hai.
    assert (grows w w1) as Hg1 by (intros n; unfold next_id; rewrite Hai; lia).
    apply wp_bind, wp_lockPublishedVideo; [|by auto 10 with store].
    intros x e Hpub%mk_is_Some. apply wp_bind, wp_map_error. unfold create_comment.
    apply wp_insert_row.
    + intros now e1 _ row ai Hdup. change (db (with_env w1 e)) with (db w1) in Hdup.
      rewrite Hdb in Hdup.
      assert (forall i o, interaction_comment (db w) !! i = Some o -> comment_clash row o = false) as Hun.
      { intros i o Ho. unfold comment_clash. destruct (cm_IdempotencyKey row) as [k|]; [|done].
        destruct (find_row (comment_key_is _ _) _) eqn:Hf in Hdup; [done|].
        by apply (find_row_None _ _ i o Hf). }
      apply wp_bind.
      change (cm_VideoID row) with (c_VideoID comment). apply wp_bump_comments.
      * intros s Hs. simpl in Hs. rewrite Hdb in Hs. split; [by eapply ck_stat_key|].
        pose proof (comment_count_nonneg w _ _ Hok Hs). lia.
      * intros s now' e2 Hs n. apply wp_ret. split; [|split].
        -- split; try done.
           ++ eapply ids_below_fresh; [apply (ck_comment_fresh w Hok)|].
              simpl. unfold next_id. simpl. rewrite Hai. lia.
           ++ unfold next_id. simpl. unfold ai. rewrite lookup_insert_eq. simpl. unfold next_id. simpl. lia.
           ++ by rewrite <-Hdb.
        -- exists s, now'. simpl in *. rewrite Hdb in *. done.
        -- etrans; [exact Hg1|]. apply grows_db_env, grows_insert_trans. auto with store.
      * intros err e2 He. split; [by left|]. apply grows_env, grows_insert_trans. auto with store.
    + intros now e1 row ai _. split; [|apply grows_insert_trans; auto with store].
      destruct (_ && _); auto.
    + intros t e1. split; [|auto with store]. left. apply repo_failure_driver.
Qed.

Lemma wp_FindCommentByID id Q E w :
  (forall c e, interaction_comment (db w) !! id = Some c ->
     Q (restoreComment (commentWithUserSelect (db w) c)) (with_env w e)) ->
  (forall e, interaction_comment (db w) !! id = None ->
     E (EInteraction ErrCommentNotFound) (with_env w e)) ->
  (forall t e, E (EDriver t) (with_env w e)) ->
  wp (FindCommentByID id) Q E w.
Proof.
  intros HQ HN HE. unfold FindCommentByID. apply wp_map_error, wp_bind, wp_take_row.
  - intros m e Hm. apply fmap_Some in Hm as (c & Hc & ->). by apply wp_ret, HQ.
  - intros e Hm. apply fmap_None in Hm. by apply HN.
  - intros. apply HE.
Qed.

Lemma wp_FindCommentByKey u key Q E w :
  (forall id c s e, interaction_comment (db w) !! id = Some c ->
     comment_key_is u (TrimSpace key) c = true -> video_stat (db w) !! cm_VideoID c = Some s ->
     Q (restoreComment (commentWithUserSelect (db w) c), sm_CommentCount s) (with_env w e)) ->
  (forall err e, E err (with_env w e)) ->
  wp (FindCommentByUserAndIdempotencyKey u key) Q E w.
Proof.
  intros HQ HE. unfold FindCommentByUserAndIdempotencyKey. case_match.
  { apply wp_throw. specialize (HE (EInteraction ErrCommentNotFound) (env w)). by destruct w. }
  apply wp_bind, wp_query; [|intros; apply HE]. intros e.
  destruct (find_row _ _) as [c|] eqn:Hf; simpl; [|apply wp_throw, HE].
  apply find_row_Some in Hf as (id & Hid & Hkey).
  assert (cm_VideoID (cw_comment (commentWithUserSelect (db w) c)) = cm_VideoID c) as ->.
  { unfold commentWithUserSelect. by case_match. }
  apply wp_bind. unfold commentCount. apply wp_map_error, wp_bind, wp_take_row.
  - intros s e' Hs. apply wp_ret, wp_ret. by eapply HQ.
  - intros. apply HE.
  - intros. apply HE.
Qed.

(** The outcomes of [CreateComment]. *)
Inductive create_comment_spec (w : World) (comment : Comment) : Comment -> Z -> Z -> World -> Prop :=
  | create_new row count w' :
      comment_created w w' comment row count ->
      create_comment_spec w comment (restoreComment (commentWithUserSelect (db w') row)) count 1 w'
  | create_again row s w' :
      comment_replayed (db w) comment row -> video_stat (db w) !! cm_VideoID row = Some s ->
      db w' = db w -> grows w w' ->
      create_comment_spec w comment (restoreComment (commentWithUserSelect (db w) row))
        (statCounter s "comment_count") 0 w'.

(** A failure after the COMMIT is reported although the comment is stored. *)
Definition create_comment_failed (w : World) (comment : Comment) (w' : World) : Prop :=
  (db w' = db w /\ grows w w') \/ (exists row count, comment_created w w' comment row count).

Lemma wp_CreateComment w comment :
  counters_ok w ->
  wp (CreateComment comment)
    (fun r w' => create_comment_spec w comment r.1.1 r.1.2 r.2 w')
    (fun _ w' => create_comment_failed w comment w') w.
Proof.
  intros Hok. unfold CreateComment. apply wp_bind, wp_attempt.
  eapply wp_mono; [by apply wp_create_comment_tx| |].
  - intros [row count] w' Hcr. simpl in *. apply wp_bind, wp_FindCommentByID.
    + intros c e Hc. apply wp_ret.
      destruct Hcr as (Hr & Hcnt & Hg).
      assert (c = row) as ->.
      { destruct Hcnt as (s & now & _ & _ & Hdb). rewrite Hdb in Hc. simpl in Hc.
        rewrite lookup_insert_eq in Hc. by simplify_eq. }
      apply (create_new w comment row count (with_env w' e)).
      split_and!; [by destruct Hr|done|by auto with store].
    + intros e Hn. destruct Hcr as (_ & (s & now & _ & _ & Hdb) & _).
      rewrite Hdb in Hn. simpl in Hn. by rewrite lookup_insert_eq in Hn.
    + intros t e. right. exists row, count. destruct Hcr as (Hr & Hcnt & Hg).
      split_and!; [by destruct Hr|done|by auto with store].
  - intros err w' [[Hdb _] Hg]. case_match.
    + apply wp_bind, wp_attempt, wp_FindCommentByKey.
      * intros id c s e Hc Hkey Hs. apply wp_ret. rewrite Hdb in *.
        pose proof (ck_comment w Hok _ _ Hc) as [-> _].
        apply (create_again w comment c s); [by split|done|done|by auto with store].
      * intros. apply wp_throw. left. auto with store.
    + apply wp_throw. left. auto with store.
Qed.

Lemma count_set_comment d c v :
  (forall k b, interaction_comment d !! k = Some b -> k = cm_ID b) ->
  map_count (normal_comment v) (<[cm_ID c := c]> (interaction_comment d))
  = map_count (normal_comment v) (interaction_comment d) + b2z (normal_comment v c)
    - match interaction_comment d !! cm_ID c with Some o => b2z (normal_comment v o) | None => 0 end.
Proof.
  intros Hkeys. destruct (interaction_comment d !! cm_ID c) as [o|] eqn:Ho.
  - rewrite (map_count_insert _ _ _ _ o Ho). lia.
  - rewrite map_count_insert_new by done. lia.
Qed.

(** Storing a comment with its count keeps the invariant. *)
Lemma comment_counted_ok w w' row delta count :
  counters_ok w -> comment_counted (db w) row delta count (db w') -> grows w w' ->
  comment_status_ok (cm_Status row) -> is_Some (video (db w) !! cm_VideoID row) ->
  cm_ID row < next_id "interaction_comment" w' ->
  (forall o, interaction_comment (db w) !! cm_ID row = Some o -> cm_VideoID o = cm_VideoID row) ->
  (forall i o, interaction_comment (db w) !! i = Some o -> i <> cm_ID row ->
     comment_clash row o = false) ->
  delta = b2z (normal_comment (cm_VideoID row) row)
          - match interaction_comment (db w) !! cm_ID row with
            | Some o => b2z (normal_comment (cm_VideoID row) o) | None => 0 end ->
  counters_ok w'.
Proof.
  intros Hok (s & now & Hs & Hcount & Hd') Hg Hst Hv Hid Hsame Huniq Hdelta.
  assert (forall k b, interaction_comment (db w) !! k = Some b -> k = cm_ID b) as Hkeys.
  { intros k b Hb. by apply (ck_comment w Hok) in Hb as [-> _]. }
  pose proof (ck_stat_key w Hok _ _ Hs) as Hsv.
  assert (forall v, v <> cm_VideoID row ->
    map_count (normal_comment v) (<[cm_ID row := row]> (interaction_comment (db w)))
    = map_count (normal_comment v) (interaction_comment (db w))) as Hother.
  { intros v Hne. rewrite count_set_comment by done. unfold normal_comment at 2 3.
    destruct (Z.eqb_spec (cm_VideoID row) v); [done|].
    destruct (interaction_comment (db w) !! cm_ID row) as [o|] eqn:Ho; [|simpl; lia].
    rewrite (Hsame o eq_refl). destruct (Z.eqb_spec (cm_VideoID row) v); [done|]. simpl. lia. }
  split; rewrite Hd'; simpl.
  - apply Hok.
  - intros id c. destruct (decide (id = cm_ID row)) as [->|Hne].
    + rewrite lookup_insert_eq. by intros [= <-].
    + rewrite lookup_insert_ne by done. apply Hok.
  - intros i j a b Ha Hb Hab. apply lookup_insert_Some in Ha as [[<- <-]|[Hi Ha]],
      Hb as [[<- <-]|[Hj Hb]]; [done|..].
    + rewrite (Huniq j b) in Hab; [done|done|congruence].
    + rewrite comment_clash_sym, (Huniq i a) in Hab; [done|done|congruence].
    + by eapply (ck_comment_unique w Hok).
  - intros v0 s0. destruct (decide (v0 = cm_VideoID row)) as [->|Hne].
    + rewrite lookup_insert_eq. by intros [= <-].
    + rewrite lookup_insert_ne by done. apply Hok.
  - apply ids_below_insert; [|done]. eapply ids_below_mono; [apply Hok|apply Hg].
  - eapply ids_below_mono; [apply Hok|apply Hg].
  - intros v0 s0. destruct (decide (v0 = cm_VideoID row)) as [->|Hne].
    + rewrite lookup_insert_eq. intros [= <-]. apply stat_ok_counters.
      pose proof (proj1 (stat_ok_counters _ _) (ck_stat w Hok _ _ Hs)) as (Hl & Hf & Hc).
      rewrite !statCounter_set_other, statCounter_set_counter by (done || set_solver).
      simpl. rewrite count_set_comment by done. rewrite <-Hsv in *. repeat split; lia.
    + rewrite lookup_insert_ne by done. intros Hs0.
      pose proof (ck_stat_key w Hok _ _ Hs0) as Hv0.
      pose proof (ck_stat w Hok _ _ Hs0) as (Hl & Hf & Hc).
      unfold stat_ok. simpl. rewrite Hother by congruence. done.
  - intros k b Hb. by apply lookup_insert_is_Some', or_intror, (ck_action_stat w Hok k).
  - intros k b. destruct (decide (k = cm_ID row)) as [->|Hne].
    + rewrite lookup_insert_eq. intros [= <-]. rewrite lookup_insert_eq. by eexists.
    + rewrite lookup_insert_ne by done. intros Hb. by apply lookup_insert_is_Some', or_intror, (ck_comment_stat w Hok k).
  - apply Hok.
Qed.

Lemma comment_created_counters w w' comment row count :
  counters_ok w -> c_Status comment = CommentStatusNormal ->
  comment_created w w' comment row count -> counters_ok w'.
Proof.
  intros Hok Hst ([] & Hc & Hg).
  eapply comment_counted_ok; try done.
  - left. congruence.
  - apply published_video_Some. congruence.
  - intros o. by rewrite cr_new0.
  - intros i o Ho _. by eapply cr_unclaimed0.
  - rewrite cr_new0. unfold normal_comment. by rewrite Z.eqb_refl, cr_status0, Hst.
Qed.

Lemma comment_count_is w v s :
  counters_ok w -> video_stat (db w) !! v = Some s ->
  statCounter s "comment_count" = map_count (normal_comment v) (interaction_comment (db w)).
Proof.
  intros Hok Hs. destruct (ck_stat w Hok _ _ Hs) as (_ & _ & Hc).
  by pose proof (ck_stat_key w Hok _ _ Hs) as ->.
Qed.

(** A stored comment, with the count the application shows next to it. *)
Definition comment_stored (d : Tables) (row : CommentModel) (created : Comment) (n : Z) : Prop :=
  interaction_comment d !! cm_ID row = Some row /\
  created = restoreComment (commentWithUserSelect d row) /\
  n = map_count (normal_comment (cm_VideoID row)) (interaction_comment d).

(** [row] is what [comment] asks to store. *)
Definition comment_matches (comment : Comment) (row : CommentModel) : Prop :=
  cm_VideoID row = c_VideoID comment /\ cm_UserID row = c_UserID comment /\
  cm_Content row = c_Content comment /\ cm_Status row = c_Status comment /\
  cm_IdempotencyKey row = idempotencyKeyPtr (c_IdempotencyKey comment).

Lemma comment_counted_stored w w' row delta n :
  counters_ok w' -> comment_counted (db w) row delta n (db w') ->
  interaction_comment (db w') = <[cm_ID row := row]> (interaction_comment (db w)) /\
  comment_stored (db w') row (restoreComment (commentWithUserSelect (db w') row)) n.
Proof.
  intros Hok' (s & now & Hs & Hn & Hd). split; [by rewrite Hd|]. split_and!.
  - rewrite Hd. apply lookup_insert_eq.
  - done.
  - rewrite <-(comment_count_is w' _ (set_counter s "comment_count" n now)).
    + by rewrite statCounter_set_counter by set_solver.
    + done.
    + rewrite Hd. apply lookup_insert_eq.
Qed.

Lemma create_comment_effect w w' comment created n delta :
  counters_ok w -> counters_ok w' -> create_comment_spec w comment created n delta w' ->
  exists row, comment_stored (db w') row created n /\
    ((delta = 1 /\ comment_matches comment row /\ interaction_comment (db w) !! cm_ID row = None /\
      interaction_comment (db w') = <[cm_ID row := row]> (interaction_comment (db w))) \/
     (delta = 0 /\ db w' = db w /\
      comment_key_is (c_UserID comment) (TrimSpace (c_IdempotencyKey comment)) row = true)).
Proof.
  intros Hok Hok' Hspec.
  destruct Hspec as [row count w1 ([] & Hc & Hg)|row s w1 [Hrow Hkey] Hs Hdb Hg]; exists row.
  - apply comment_counted_stored in Hc as [Hins Hst]; [|done].
    split; [done|]. left. by split_and!.
  - split; [|by right]. rewrite Hdb. split_and!; [done|done|].
    by apply comment_count_is.
Qed.

(** Once a request with a key succeeded, a row claims the key. *)
Lemma comment_key_stored w w' comment a n delta :
  counters_ok w -> counters_ok w' -> c_IdempotencyKey comment <> ""%string ->
  trimmed (c_IdempotencyKey comment) -> create_comment_spec w comment a n delta w' ->
  exists row, comment_stored (db w') row a n /\
    comment_key_is (c_UserID comment) (c_IdempotencyKey comment) row = true.
Proof.
  intros Hok Hok' Hne Htr H1.
  apply create_comment_effect in H1 as (row & Hst & Hcase); [|done..].
  exists row. split; [done|].
  destruct Hcase as [(_ & (_ & Hu & _ & _ & Hk) & _)|(_ & _ & Hk)]; [|by rewrite Htr in Hk].
  unfold comment_key_is. rewrite Hk, Hu, idempotencyKeyPtr_some by done.
  by rewrite Z.eqb_refl, String.eqb_refl.
Qed.

Lemma comment_claimed w w' comment row row' n :
  c_IdempotencyKey comment <> ""%string -> trimmed (c_IdempotencyKey comment) ->
  interaction_comment (db w) !! cm_ID row = Some row ->
  comment_key_is (c_UserID comment) (c_IdempotencyKey comment) row = true ->
  ~ comment_created w w' comment row' n.
Proof.
  intros Hne Htr Hrow Hkey (Hr & _ & _).
  pose proof (cr_unclaimed _ _ _ _ Hr _ _ Hrow) as Hno. unfold comment_clash in Hno.
  rewrite (cr_key _ _ _ _ Hr), (cr_user _ _ _ _ Hr), idempotencyKeyPtr_some in Hno by done. congruence.
Qed.

Lemma same_key_clash u key a b :
  comment_key_is u key a = true -> comment_key_is u key b = true -> comment_clash a b = true.
Proof.
  unfold comment_clash, comment_key_is.
  destruct (cm_IdempotencyKey a), (cm_IdempotencyKey b); rewrite ?andb_false_r; try done.
  intros [->%Z.eqb_eq Ha%String.eqb_eq]%andb_prop [->%Z.eqb_eq Hb%String.eqb_eq]%andb_prop.
  by rewrite Ha, Hb, Z.eqb_refl, String.eqb_refl.
Qed.

Lemma create_comment_again w w' w'' comment a n delta a' n' delta' :
  counters_ok w -> counters_ok w' -> c_IdempotencyKey comment <> ""%string ->
  trimmed (c_IdempotencyKey comment) ->
  create_comment_spec w comment a n delta w' ->
  create_comment_spec w' comment a' n' delta' w'' ->
  a' = a /\ n' = n /\ delta' = 0 /\ db w'' = db w'.
Proof.
  intros Hok Hok' Hne Htr H1 H2.
  apply comment_key_stored in H1 as (row & (Hrow & -> & ->) & Hkey); [|done..].
  destruct H2 as [row2 c2 w2 Hr2|row2 s2 w2 [Hrow2 Hkey2] Hs2 Hdb _].
  - by apply (comment_claimed _ _ _ row) in Hr2.
  - rewrite Htr in Hkey2. assert (row2 = row) as ->.
    { pose proof (same_key_clash _ _ _ _ Hkey Hkey2) as Hcl.
      pose proof (ck_comment_unique _ Hok' _ _ _ _ Hrow Hrow2 Hcl) as Hid. rewrite Hid in Hrow. congruence. }
    split_and!; try done. by apply comment_count_is.
Qed.

(** ** [DeleteComment] *)

(** Who may delete a comment: its author, the author of the video and an administrator. *)
Definition may_delete (d : Tables) (c : CommentModel) (userID : Z) (role : string) : Prop :=
  exists v, video d !! cm_VideoID c = Some v /\
    (cm_UserID c = userID \/ vm_AuthorID v = userID \/ TrimSpace role = AccountDomain.RoleAdmin).

Definition deleted_row (c : CommentModel) (now : Time) : CommentModel :=
  mkCommentModel (cm_ID c) (cm_VideoID c) (cm_UserID c) (cm_Content c) CommentStatusDeleted
    (cm_IdempotencyKey c) (cm_CreatedAt c) now.

(** The change of the tables and of the counter. *)
Inductive delete_comment_tx (d : Tables) (c : CommentModel) : CommentModel -> Z -> Z -> Tables -> Prop :=
  | delete_again s d' :
      cm_Status c = CommentStatusDeleted -> video_stat d !! cm_VideoID c = Some s -> d' = d ->
      delete_comment_tx d c c (statCounter s "comment_count") 0 d'
  | delete_now now count d' :
      cm_Status c <> CommentStatusDeleted -> comment_counted d (deleted_row c now) (-1) count d' ->
      delete_comment_tx d c (deleted_row c now) count (-1) d'.

Definition delete_comment_done (w w' : World) (commentID userID : Z) (role : string)
    (row : CommentModel) (count delta : Z) : Prop :=
  exists c, interaction_comment (db w) !! commentID = Some c /\ may_delete (db w) c userID role /\
    delete_comment_tx (db w) c row count delta (db w') /\ grows w w'.

Lemma normal_counted w c s :
  counters_ok w -> interaction_comment (db w) !! cm_ID c = Some c ->
  cm_Status c = CommentStatusNormal -> video_stat (db w) !! cm_VideoID c = Some s ->
  1 <= statCounter s "comment_count".
Proof.
  intros Hok Hc Hst Hs. destruct (ck_stat w Hok _ _ Hs) as (_ & _ & Hcnt).
  unfold statCounter. simpl. rewrite Hcnt. eapply map_count_insert_pos; [exact Hc|].
  unfold normal_comment. rewrite Hst, (ck_stat_key w Hok _ _ Hs), !Z.eqb_refl. done.
Qed.

Definition delete_failure (d : Tables) (commentID userID : Z) (role : string) (err : error) : Prop :=
  repo_failure err \/
  (err = EInteraction ErrCommentNotFound /\ interaction_comment d !! commentID = None) \/
  (err = EInteraction ErrCommentPermissionDenied /\
   exists c, interaction_comment d !! commentID = Some c /\ ~ may_delete d c userID role).

Lemma may_delete_check w c v userID role :
  video (db w) !! cm_VideoID c = Some v ->
  negb (cm_UserID c =? userID) && negb (vm_AuthorID v =? userID)
    && negb (String.eqb (TrimSpace role) AccountDomain.RoleAdmin) = false <->
  may_delete (db w) c userID role.
Proof.
  intros Hv. unfold may_delete. rewrite Hv.
  destruct (Z.eqb_spec (cm_UserID c) userID), (Z.eqb_spec (vm_AuthorID v) userID),
    (String.eqb_spec (TrimSpace role) AccountDomain.RoleAdmin); simpl; naive_solver.
Qed.

Lemma wp_DeleteComment w commentID userID role :
  counters_ok w ->
  wp (DeleteComment commentID userID role)
    (fun r w' => exists row, delete_comment_done w w' commentID userID role row r.1.2 r.2 /\
                   r.1.1 = restoreComment (commentWithUserSelect (db w') row))
    (fun err w' => (db w' = db w /\ grows w w' /\ delete_failure (db w) commentID userID role err) \/
                   ((exists t, err = EDriver t) /\
                    exists row count delta, delete_comment_done w w' commentID userID role row count delta)) w.
Proof.
  intros Hok. unfold DeleteComment. apply wp_bind.
  eapply wp_mono; [apply (wp_transaction_stable _
    (fun r w' => delete_comment_done w w' commentID userID role r.1.1 r.1.2 r.2)
    (delete_failure (db w) commentID userID role))| |].
  - intros r w' e (c & Hc & Hm & Htx & Hg). exists c. auto with store.
  - by intros r w' (c & _ & _ & _ & Hg).
  - intros t. left. apply repo_failure_driver.
  - intros w1 Hdb Hai.
    assert (grows w w1) as Hg1 by (intros n; unfold next_id; rewrite Hai; lia).
    apply wp_bind, wp_map_error, wp_take_row.
    2: { intros e Hn. rewrite Hdb in Hn. split; [|auto with store]. right. left. done. }
    2: { intros t e. split; [left; apply repo_failure_driver|auto with store]. }
    intros c e Hc. rewrite Hdb in Hc.
    pose proof (ck_comment w Hok _ _ Hc) as (Hid & Hst & _). subst commentID.
    apply wp_bind, wp_map_error, wp_take_row.
    2: { intros e1 _. split; [left; apply repo_failure_not_found|auto with store]. }
    2: { intros t e1. split; [left; apply repo_failure_driver|auto with store]. }
    intros v e1 Hv. simpl in Hv. rewrite Hdb in Hv.
    pose proof (may_delete_check w c v userID role Hv) as Hmay.
    destruct (negb (cm_UserID c =? userID) && _ && _) eqn:Hperm.
    { apply wp_throw. split; [|auto with store]. right. right. split; [done|].
      exists c. split; [done|]. by intros Hm%Hmay. }
    apply proj1 in Hmay. specialize (Hmay eq_refl).
    destruct (Z.eqb_spec (cm_Status c) CommentStatusDeleted) as [Hdel|Hdel].
    + apply wp_bind, wp_currentVideoStatCounter.
      * intros s e2 Hs. simpl in Hs. rewrite Hdb in Hs. apply wp_ret. exists c.
        split_and!; [done|done| |by auto with store]. by apply delete_again.
      * intros err e2 He. split; [by left|auto with store].
    + unfold save_comment. apply wp_bind, wp_bind, wp_time_now. intros now e2 _ _. cbn zeta.
      apply wp_bind, wp_update.
      2: { intros t e3. split; [left; apply repo_failure_driver|auto with store]. }
      intros e3. apply wp_ret, wp_bind. apply wp_bump_comments.
      * intros s Hs. simpl in Hs. rewrite Hdb in Hs. split; [by eapply ck_stat_key|].
        assert (cm_Status c = CommentStatusNormal) by (by destruct Hst).
        pose proof (normal_counted w c s Hok Hc ltac:(done) Hs). lia.
      * intros s now' e4 Hs n. simpl in *. rewrite Hdb in Hs. apply wp_ret. exists c.
        split_and!; [done|done| |by auto with store]. simpl.
        apply delete_now; [done|]. exists s, now'. rewrite Hdb. done.
      * intros err e4 He. split; [by left|auto with store].
  - intros [[row count] delta] w' (c & Hc & Hm & Htx & Hg). simpl in *.
    assert (interaction_comment (db w') !! cm_ID row = Some row) as Hrow.
    { inversion Htx as [s d' Hst Hs Hd'|now n d' Hst (s & now' & Hs & Hn & Hd')]; subst.
      - rewrite Hd'. by pose proof (ck_comment w Hok _ _ Hc) as [<- _].
      - rewrite Hd'. simpl. apply lookup_insert_eq. }
    apply wp_bind, wp_FindCommentByID.
    + intros c' e Hc'. apply wp_ret. exists row. split; [exists c; auto with store|]. simpl. congruence.
    + intros e Hn. congruence.
    + intros t e. right. split; [by exists t|]. exists row, count, delta. exists c. auto with store.
  - intros err w' [[Hdb He] Hg]. left. auto.
Qed.

Lemma delete_comment_counters w w' commentID userID role row count delta :
  counters_ok w -> delete_comment_done w w' commentID userID role row count delta -> counters_ok w'.
Proof.
  intros Hok (c & Hc & _ & Htx & Hg).
  inversion Htx as [s d' Hst Hs Hd'|now n d' Hst Hcnt]; subst; [by eapply counters_ok_mono|].
  pose proof (ck_comment w Hok _ _ Hc) as (-> & Hstc & Hv).
  eapply comment_counted_ok; [exact Hok|exact Hcnt|done|by right|done| | | |]; simpl.
  - pose proof (ck_comment_fresh w Hok _ _ Hc). specialize (Hg "interaction_comment"%string). lia.
  - intros o Ho. congruence.
  - intros i o Ho Hi. destruct (comment_clash c o) eqn:Hco; [|exact Hco].
    by destruct Hi; eapply (ck_comment_unique w Hok i (cm_ID c)); [| |rewrite comment_clash_sym].
  - rewrite Hc. unfold normal_comment. simpl. rewrite Z.eqb_refl.
    destruct Hstc as [-> | ?]; [done|congruence].
Qed.

(** The same in the words of the application: the comment and no other is marked deleted. *)
Lemma delete_comment_effect w w' commentID userID role row n delta :
  counters_ok w -> counters_ok w' ->
  delete_comment_done w w' commentID userID role row n delta ->
  exists c, interaction_comment (db w) !! commentID = Some c /\ may_delete (db w) c userID role /\
    cm_Status row = CommentStatusDeleted /\ row = deleted_row c (cm_UpdatedAt row) /\
    interaction_comment (db w') = <[commentID := row]> (interaction_comment (db w)) /\
    let count d := map_count (normal_comment (cm_VideoID c)) (interaction_comment d) in
    n = count (db w') /\ delta = count (db w') - count (db w).
Proof.
  intros Hok Hok' (c & Hc & Hm & Htx & Hg). pose proof (ck_comment w Hok _ _ Hc) as (Hid & _ & _).
  exists c. split; [done|]. split; [done|].
  inversion Htx as [s d' Hst Hs Hd'|now n' d' Hst Hcnt]; subst.
  - rewrite Hd'. rewrite insert_id by done. rewrite (comment_count_is w _ s) by done.
    cbv zeta. split_and!; [done| |done|done|lia]. unfold deleted_row. destruct row. simpl in *. by subst.
  - pose proof (comment_counted_stored w w' _ _ _ Hok' Hcnt) as [Hins (_ & _ & Hn)].
    destruct Hcnt as (s & now' & Hs & Hns & _). simpl in *.
    rewrite (comment_count_is w _ s) in Hns by done.
    cbv zeta. split_and!; [done|done|done|done|lia].
Qed.

(** No two comments of a video stand at the same position. *)
Lemma comment_positions w v :
  counters_ok w ->
  NoDup (comment_pos <$> select_rows
    (fun c => (cm_VideoID c =? v) && (cm_Status c =? CommentStatusNormal)) (interaction_comment (db w))).
Proof.
  intros Hok. apply select_rows_NoDup. intros i j a b Ha Hb Heq.
  apply (ck_comment w Hok) in Ha as [-> _]. apply (ck_comment w Hok) in Hb as [-> _].
  unfold comment_pos in Heq. congruence.
Qed.

(** A video without counters has no actions and no comments. *)
Lemma no_stat_counts w v :
  counters_ok w -> video_stat (db w) !! v = None ->
  (forall t, map_count (active_action v t) (interaction_action (db w)) = 0) /\
  map_count (normal_comment v) (interaction_comment (db w)) = 0.
Proof.
  intros Hok Hn. split; [intros t|]; apply map_count_zero; intros k r Hr.
  - unfold active_action. destruct (Z.eqb_spec (im_VideoID r) v) as [<-|]; [|done].
    apply (ck_action_stat w Hok) in Hr as [s Hs]. congruence.
  - unfold normal_comment. destruct (Z.eqb_spec (cm_VideoID r) v) as [<-|]; [|done].
    apply (ck_comment_stat w Hok) in Hr as [s Hs]. congruence.
Qed.

End InteractionRepo.
