(* ===== verification/RelationRepo.v ===== *)
(** * Relation repository ([internal/infra/persistence/relation/gorm.go])

    [SetFollow] writes a follow and the two counters it touches in one transaction.
    [relation_ok] says that the counters of every user are the numbers of follows. *)
From S2P Require Import Prelude.
From S2P Require Import GoStd.
From S2P Require Import RelationDomain.
From S2P Require AccountDomain.
From S2P Require Import Errors.
From S2P Require Import Models.
From S2P Require Import Store.
From S2P Require Import Paging.

Record relationUserModel := mkRelationUser {
  ru_UserID : Z;
  ru_Nickname : string;
  ru_AvatarURL : string;
  ru_Bio : string;
  ru_FollowedAt : Time;
}.

Definition idempotencyKeyPtr (value : string) : option string :=
  let value := TrimSpace value in
  if String.eqb value "" then None else Some value.

Definition idempotencyKeyValue (value : option string) : string := default ""%string value.

Definition mapUserError (err : error) : error :=
  if errors_Is err ERecordNotFound then ERelation ErrTargetUserNotFound else err.

Definition statusFromActive (active : bool) : Z :=
  if active then FollowStatusActive else FollowStatusCanceled.

Definition restoreFollow (model : FollowModel) : Follow :=
  RestoreFollow (fm_ID model) (fm_UserID model) (fm_TargetUserID model) (fm_Status model)
    (idempotencyKeyValue (fm_IdempotencyKey model)) (fm_CreatedAt model) (fm_UpdatedAt model).

Definition restoreStat (model : RelationStatModel) : RelationStat :=
  RestoreRelationStat (rm_UserID model) (rm_FollowingCount model) (rm_FollowerCount model)
    (rm_CreatedAt model) (rm_UpdatedAt model).

(** ** Locks and counters *)

Definition normal_user (userID : Z) (d : Tables) : option UserModel :=
  u ← account d !! userID;
  if am_Status u =? AccountDomain.StatusNormal then Some u else None.

Definition lockNormalUser (userID : Z) : M unit :=
  map_error mapUserError (_ ← take_row (normal_user userID); mret tt).

(** [INSERT … ON DUPLICATE KEY] do nothing. *)
Definition ensureStat (userID : Z) : M unit :=
  now ← time_now;
  update (set_user_relation_stat (fun t =>
    match t !! userID with
    | Some _ => t
    | None => <[userID := mkRelationStatModel userID 0 0 now now]> t
    end)).

Definition currentStat (userID : Z) : M RelationStatModel :=
  take_row (fun d => user_relation_stat d !! userID).

Definition save_stat (stat : RelationStatModel) : M RelationStatModel :=
  now ← time_now;
  let stat := mkRelationStatModel (rm_UserID stat) (rm_FollowingCount stat)
                (rm_FollowerCount stat) (rm_CreatedAt stat) now in
  _ ← update (set_user_relation_stat <[rm_UserID stat := stat]>);
  mret stat.

Definition updateStat (userID followingDelta followerDelta : Z) : M RelationStatModel :=
  stat ← currentStat userID;
  save_stat (mkRelationStatModel (rm_UserID stat)
    (clampCount (rm_FollowingCount stat + followingDelta))
    (clampCount (rm_FollowerCount stat + followerDelta))
    (rm_CreatedAt stat) (rm_UpdatedAt stat)).

(** ** [SetFollow] *)

Definition create_follow (userID targetUserID status : Z) (key : option string) : M FollowModel :=
  insert_row "user_follow"
    (fun id now => mkFollowModel id userID targetUserID status key now now)
    (fun f d => bool_decide (is_Some (user_follow d !! (fm_UserID f, fm_TargetUserID f))))
    (fun f => set_user_follow <[(fm_UserID f, fm_TargetUserID f) := f]>).

Definition save_follow (f : FollowModel) : M FollowModel :=
  now ← time_now;
  let f := mkFollowModel (fm_ID f) (fm_UserID f) (fm_TargetUserID f) (fm_Status f)
             (fm_IdempotencyKey f) (fm_CreatedAt f) now in
  _ ← update (set_user_follow <[(fm_UserID f, fm_TargetUserID f) := f]>);
  mret f.

(** Reading both counters, in the order of the code. *)
Definition current_stats (userID targetUserID : Z) : M (RelationStatModel * RelationStatModel) :=
  userStat ← currentStat userID;
  targetStat ← currentStat targetUserID;
  mret (userStat, targetStat).

Definition finish_follow (userID targetUserID : Z) (follow : FollowModel) (delta : Z)
    : M (FollowModel * (RelationStatModel * RelationStatModel)) :=
  if negb (delta =? 0) then
    userStat ← updateStat userID delta 0;
    targetStat ← updateStat targetUserID 0 delta;
    mret (follow, (userStat, targetStat))
  else
    stats ← current_stats userID targetUserID;
    mret (follow, stats).

Definition SetFollow (userID targetUserID : Z) (active : bool) (idempotencyKey : string)
    : M (Follow * RelationStat * RelationStat) :=
  let idempotencyKey := TrimSpace idempotencyKey in
  '(follow, (userStat, targetStat)) ← map_error mapUserError (transaction (
    _ ← lockNormalUser userID;
    _ ← lockNormalUser targetUserID;
    _ ← ensureStat userID;
    _ ← ensureStat targetUserID;
    found ← query (fun d => user_follow d !! (userID, targetUserID));
    let nextStatus := statusFromActive active in
    match found with
    | None =>
        follow ← create_follow userID targetUserID nextStatus (idempotencyKeyPtr idempotencyKey);
        finish_follow userID targetUserID follow (if active then 1 else 0)
    | Some follow =>
        let previousIdempotencyKey := idempotencyKeyValue (fm_IdempotencyKey follow) in
        if negb (String.eqb idempotencyKey "")
           && String.eqb previousIdempotencyKey idempotencyKey then
          stats ← current_stats userID targetUserID;
          mret (follow, stats)
        else
          let previousStatus := fm_Status follow in
          let delta := if fm_Status follow =? nextStatus then 0 else if active then 1 else -1 in
          let follow := mkFollowModel (fm_ID follow) (fm_UserID follow) (fm_TargetUserID follow)
            nextStatus (idempotencyKeyPtr idempotencyKey) (fm_CreatedAt follow)
            (fm_UpdatedAt follow) in
          follow ← (if negb (previousStatus =? nextStatus)
                       || negb (String.eqb previousIdempotencyKey idempotencyKey)
                    then save_follow follow else mret follow);
          finish_follow userID targetUserID follow delta
    end));
  mret (restoreFollow follow, restoreStat userStat, restoreStat targetStat).

(** ** Reads *)

(** A follow joined with the account of the other user, [WHERE a.status = normal]. *)
Definition join_account (other : FollowModel -> Z) (d : Tables) (f : FollowModel)
    : option relationUserModel :=
  a ← normal_user (other f) d;
  Some (mkRelationUser (am_ID a) (am_Nickname a) (am_AvatarURL a) (am_Bio a) (fm_UpdatedAt f)).

Definition scanUserItems (models : list relationUserModel) : list UserItem :=
  (fun m => RestoreUserItem (ru_UserID m) (ru_Nickname m) (ru_AvatarURL m) (ru_Bio m)
              (ru_FollowedAt m)) <$> models.

Definition follow_pos (other : FollowModel -> Z) (f : FollowModel) : Time * Z :=
  (fm_UpdatedAt f, other f).

(** The page of active follows [own f = userID] whose other side is a normal account. *)
Definition follow_page (own other : FollowModel -> Z) (userID : Z) (cursor : option ListCursor)
    (limit : Z) (d : Tables) : list FollowModel :=
  sql_page (follow_pos other) ((fun c => (lc_FollowedAt c, lc_UserID c)) <$> cursor) limit
    (select_rows (fun f => (own f =? userID) && (fm_Status f =? FollowStatusActive)
                           && bool_decide (is_Some (normal_user (other f) d))) (user_follow d)).

Definition ListFollowing (userID : Z) (cursor : option ListCursor) (limit : Z) : M (list UserItem) :=
  models ← query (fun d => omap (join_account fm_TargetUserID d)
             (follow_page fm_UserID fm_TargetUserID userID cursor limit d));
  mret (scanUserItems models).

Definition ListFollowers (userID : Z) (cursor : option ListCursor) (limit : Z) : M (list UserItem) :=
  models ← query (fun d => omap (join_account fm_UserID d)
             (follow_page fm_TargetUserID fm_UserID userID cursor limit d));
  mret (scanUserItems models).

Definition GetUserProfile (userID : Z) : M RelationProfile :=
  map_error mapUserError (
    a ← take_row (normal_user userID);
    mret (RestoreUserProfile (am_ID a) (am_Nickname a) (am_AvatarURL a) (am_Bio a))).

(** ** The invariant *)

Definition follows (u : Z) (f : FollowModel) : bool :=
  (fm_UserID f =? u) && (fm_Status f =? FollowStatusActive).

Definition followed (u : Z) (f : FollowModel) : bool :=
  (fm_TargetUserID f =? u) && (fm_Status f =? FollowStatusActive).

(** The counters of a user; a user without a row has not followed nor been followed. *)
Definition counts_of (m : gmap Z RelationStatModel) (u : Z) : Z * Z :=
  match m !! u with Some s => (rm_FollowingCount s, rm_FollowerCount s) | None => (0, 0) end.

Definition keyed (m : gmap Z RelationStatModel) : Prop :=
  forall u s, m !! u = Some s -> u = rm_UserID s.

Definition follow_row_ok (k : Z * Z) (f : FollowModel) : Prop :=
  k = (fm_UserID f, fm_TargetUserID f) /\
  (fm_Status f = FollowStatusActive \/ fm_Status f = FollowStatusCanceled) /\
  fm_IdempotencyKey f <> Some ""%string.

Record relation_ok (d : Tables) : Prop := {
  rk_follow : forall k f, user_follow d !! k = Some f -> follow_row_ok k f;
  rk_keyed : keyed (user_relation_stat d);
  rk_counts : forall u, counts_of (user_relation_stat d) u
                        = (map_count (follows u) (user_follow d), map_count (followed u) (user_follow d));
}.

(** Does [u] follow [t]? *)
Definition is_following (fs : gmap (Z * Z) FollowModel) (u t : Z) : bool :=
  match fs !! (u, t) with Some f => fm_Status f =? FollowStatusActive | None => false end.

(** ** Rules for the helpers *)

Definition relation_failure (err : error) : Prop :=
  err = ERelation ErrTargetUserNotFound \/ err = ERecordNotFound \/ exists t, err = EDriver t.

Lemma relation_failure_driver t : relation_failure (EDriver t).
Proof. right. right. by exists t. Qed.

Lemma relation_failure_not_found : relation_failure ERecordNotFound.
Proof. right. by left. Qed.

Lemma relation_failure_target : relation_failure (ERelation ErrTargetUserNotFound).
Proof. by left. Qed.

#[local] Hint Resolve relation_failure_driver relation_failure_not_found relation_failure_target : store.

(** The tables with another counter table. *)
Notation with_stats m d := (set_user_relation_stat (fun _ => m) d).

Lemma wp_lockNormalUser u Q E w :
  (forall x e, normal_user u (db w) = Some x -> Q tt (with_env w e)) ->
  (forall err e, relation_failure err -> E err (with_env w e)) ->
  wp (lockNormalUser u) Q E w.
Proof.
  intros HQ HE. unfold lockNormalUser. apply wp_map_error, wp_bind, wp_take_row; intros.
  - apply wp_ret. by eapply HQ.
  - apply HE. by left.
  - apply HE. apply relation_failure_driver.
Qed.

Lemma wp_ensureStat u Q E w :
  keyed (user_relation_stat (db w)) ->
  (forall m e, keyed m -> is_Some (m !! u) ->
     (forall x, counts_of m x = counts_of (user_relation_stat (db w)) x) ->
     (forall x, is_Some (user_relation_stat (db w) !! x) -> is_Some (m !! x)) ->
     Q tt (with_db (with_env w e) (with_stats m (db w)))) ->
  (forall err e, relation_failure err -> E err (with_env w e)) ->
  wp (ensureStat u) Q E w.
Proof.
  intros Hk HQ HE. unfold ensureStat. apply wp_bind, wp_time_now. intros now e _ _.
  apply wp_update; [|intros; apply (HE _ _ (relation_failure_driver _))].
  intros e'. set (m0 := user_relation_stat (db w)) in *.
  assert (forall f, (forall m, f m0 = m -> Q tt (with_db (with_env w e') (with_stats m (db w)))) ->
    Q tt (with_db (with_env w e') (set_user_relation_stat f (db w)))) as Hstep.
  { intros f Hf. by apply (Hf (f m0)). }
  apply Hstep. intros m <-. destruct (m0 !! u) as [s|] eqn:Hs.
  - apply HQ; auto.
  - apply HQ.
    + intros x s. destruct (decide (x = u)) as [->|Hne].
      * rewrite lookup_insert_eq. by intros [= <-].
      * rewrite lookup_insert_ne by done. apply Hk.
    + rewrite lookup_insert_eq. by eexists.
    + intros x. unfold counts_of. destruct (decide (x = u)) as [->|Hne].
      * by rewrite lookup_insert_eq, Hs.
      * by rewrite lookup_insert_ne.
    + intros x Hx. destruct (decide (x = u)) as [->|Hne]; [by rewrite lookup_insert_eq; eexists|].
      by rewrite lookup_insert_ne.
Qed.

Lemma wp_currentStat u Q E w :
  (forall s e, user_relation_stat (db w) !! u = Some s -> Q s (with_env w e)) ->
  (forall err e, relation_failure err -> E err (with_env w e)) ->
  wp (currentStat u) Q E w.
Proof. intros HQ HE. apply wp_take_row; intros; auto with store. Qed.

(** [updateStat] adds to the counters of one user. *)
Lemma wp_updateStat u a b Q E w :
  keyed (user_relation_stat (db w)) ->
  0 <= (counts_of (user_relation_stat (db w)) u).1 + a ->
  0 <= (counts_of (user_relation_stat (db w)) u).2 + b ->
  (forall s m e, keyed m -> m !! u = Some s ->
     counts_of m u = ((counts_of (user_relation_stat (db w)) u).1 + a,
                      (counts_of (user_relation_stat (db w)) u).2 + b) ->
     (forall x, x <> u -> m !! x = user_relation_stat (db w) !! x) ->
     Q s (with_db (with_env w e) (with_stats m (db w)))) ->
  (forall err e, relation_failure err -> E err (with_env w e)) ->
  wp (updateStat u a b) Q E w.
Proof.
  intros Hk Ha Hb HQ HE. unfold updateStat. apply wp_bind, wp_currentStat; [|done].
  intros s e Hs. pose proof (Hk u s Hs) as Hid. unfold counts_of in Ha, Hb. rewrite Hs in Ha, Hb.
  simpl in Ha, Hb. unfold save_stat. apply wp_bind, wp_time_now. intros now e1 _ _. cbn zeta.
  apply wp_bind, wp_update; [|intros; apply (HE _ _ (relation_failure_driver _))].
  intros e2. apply wp_ret. simpl. rewrite <-Hid, !clampCount_id by done.
  set (row := mkRelationStatModel u _ _ _ now).
  apply (HQ row (<[u := row]> (user_relation_stat (db w)))).
  - intros x r. destruct (decide (x = u)) as [->|Hne].
    + rewrite lookup_insert_eq. by intros [= <-].
    + rewrite lookup_insert_ne by done. apply Hk.
  - apply lookup_insert_eq.
  - unfold counts_of. by rewrite lookup_insert_eq, Hs.
  - intros x Hne. by rewrite lookup_insert_ne.
Qed.

(** How writing a follow moves the numbers of active follows. *)
Lemma count_set_follow fs f x :
  (forall k g, fs !! k = Some g -> follow_row_ok k g) ->
  let u := fm_UserID f in let t := fm_TargetUserID f in
  let delta := b2z (fm_Status f =? FollowStatusActive) - b2z (is_following fs u t) in
  map_count (follows x) (<[(u, t) := f]> fs)
    = map_count (follows x) fs + (if u =? x then delta else 0) /\
  map_count (followed x) (<[(u, t) := f]> fs)
    = map_count (followed x) fs + (if t =? x then delta else 0).
Proof.
  intros Hok u t delta. subst delta. unfold is_following.
  destruct (fs !! (u, t)) as [o|] eqn:Ho.
  - rewrite !(map_count_insert _ _ _ _ o Ho). unfold follows, followed.
    destruct (Hok _ _ Ho) as ([= Hu Ht] & _). subst u t. rewrite <-Hu, <-Ht.
    split; [destruct (fm_UserID f =? x)|destruct (fm_TargetUserID f =? x)]; simpl; lia.
  - rewrite !map_count_insert_new by done. unfold follows, followed. subst u t.
    split; [destruct (fm_UserID f =? x)|destruct (fm_TargetUserID f =? x)]; simpl; lia.
Qed.

Lemma is_following_counted fs u t :
  (forall k g, fs !! k = Some g -> follow_row_ok k g) -> is_following fs u t = true ->
  1 <= map_count (follows u) fs /\ 1 <= map_count (followed t) fs.
Proof.
  intros Hok Hf. unfold is_following in Hf. destruct (fs !! (u, t)) as [f|] eqn:Hk; [|done].
  destruct (Hok _ _ Hk) as ([= -> ->] & _).
  split; (eapply map_count_insert_pos; [exact Hk|]); unfold follows, followed; by rewrite Z.eqb_refl, Hf.
Qed.

(** ** What [SetFollow] does *)

(** The request was seen before: its key is the one stored last. *)
Definition replayed (d : Tables) (u t : Z) (key : string) (f : FollowModel) : Prop :=
  user_follow d !! (u, t) = Some f /\ key <> ""%string /\
  idempotencyKeyValue (fm_IdempotencyKey f) = key.

Record follow_set (d : Tables) (u t : Z) (active : bool) (key : string)
    (f : FollowModel) (us ts : RelationStatModel) (d' : Tables) : Prop := {
  fs_frame : exists fs m, d' = with_stats m (set_user_follow (fun _ => fs) d);
  fs_row : user_follow d' !! (u, t) = Some f;
  fs_others : forall k, k <> (u, t) -> user_follow d' !! k = user_follow d !! k;
  fs_effect : replayed d u t key f /\ user_follow d' = user_follow d \/
              (forall o, ~ replayed d u t key o) /\ fm_Status f = statusFromActive active /\ fm_IdempotencyKey f = idempotencyKeyPtr key;
  fs_user : u <> t -> user_relation_stat d' !! u = Some us;
  fs_target : user_relation_stat d' !! t = Some ts;
}.

Lemma wp_current_stats u t Q E w :
  (forall us ts e, user_relation_stat (db w) !! u = Some us ->
     user_relation_stat (db w) !! t = Some ts -> Q (us, ts) (with_env w e)) ->
  (forall err e, relation_failure err -> E err (with_env w e)) ->
  wp (current_stats u t) Q E w.
Proof.
  intros HQ HE. unfold current_stats. apply wp_bind, wp_currentStat; [|done]. intros us e Hu.
  apply wp_bind, wp_currentStat; [|intros err e' He; by apply (HE err e')].
  intros ts e' Ht. by apply wp_ret, HQ.
Qed.

(** The invariant after a follow is written and both counters are moved. *)
Lemma relation_ok_moved d d' f fs' :
  relation_ok d -> let k := (fm_UserID f, fm_TargetUserID f) in follow_row_ok k f ->
  user_follow d' = fs' -> fs' = <[k := f]> (user_follow d) -> keyed (user_relation_stat d') ->
  let delta := b2z (fm_Status f =? FollowStatusActive)
               - b2z (is_following (user_follow d) (fm_UserID f) (fm_TargetUserID f)) in
  (forall x, counts_of (user_relation_stat d') x =
     ((counts_of (user_relation_stat d) x).1 + (if fm_UserID f =? x then delta else 0),
      (counts_of (user_relation_stat d) x).2 + (if fm_TargetUserID f =? x then delta else 0))) ->
  relation_ok d'.
Proof.
  intros [Hf Hk Hc] k Hrow Hfs -> Hk' delta Hc'. split; [|done|].
  - intros k' g. rewrite Hfs. destruct (decide (k' = k)) as [->|Hne].
    + rewrite lookup_insert_eq. by intros [= <-].
    + rewrite lookup_insert_ne by done. apply Hf.
  - intros x. rewrite Hc', Hfs, Hc. simpl.
    destruct (count_set_follow (user_follow d) f x Hf) as [H1 H2]. fold k in H1, H2.
    by rewrite H1, H2.
Qed.

Lemma status_active active : (statusFromActive active =? FollowStatusActive) = active.
Proof. by destruct active. Qed.

Lemma follow_key u t f : (u, t) = (fm_UserID f, fm_TargetUserID f) ->
  fm_UserID f = u /\ fm_TargetUserID f = t.
Proof. intros [= <- <-]. done. Qed.

(** The tables when the follow is written: the counters of [d] in a table [m] that has a
    row for both users. *)
Record ready (d : Tables) (u t : Z) (m : gmap Z RelationStatModel) : Prop := {
  rd_keyed : keyed m;
  rd_counts : forall x, counts_of m x = counts_of (user_relation_stat d) x;
}.

Lemma wp_finish_follow w w1 m u t active key f :
  relation_ok (db w) -> ready (db w) u t m -> (forall o, ~ replayed (db w) u t key o) ->
  follow_row_ok (u, t) f -> fm_Status f = statusFromActive active ->
  fm_IdempotencyKey f = idempotencyKeyPtr key ->
  db w1 = with_stats m (set_user_follow <[(u, t) := f]> (db w)) -> grows w w1 ->
  wp (finish_follow u t f (b2z active - b2z (is_following (user_follow (db w)) u t)))
    (fun r w' => (follow_set (db w) u t active key r.1 r.2.1 r.2.2 (db w') /\ relation_ok (db w'))
                 /\ grows w w')
    (fun err w' => relation_failure err /\ grows w w') w1.
Proof.
  intros Hok [Hkm Hcm] Hnr Hrow Hst Hkey Hdb Hg.
  set (delta := b2z active - b2z (is_following (user_follow (db w)) u t)).
  pose proof (follow_key _ _ _ (proj1 Hrow)) as [Hu Ht].
  assert (forall k, k <> (u, t) ->
    <[(u, t) := f]> (user_follow (db w)) !! k = user_follow (db w) !! k) as Hoth.
  { intros k Hne. by rewrite lookup_insert_ne. }
  assert (forall m' us ts e, keyed m' -> (u <> t -> m' !! u = Some us) -> m' !! t = Some ts ->
    (forall x, counts_of m' x = ((counts_of m x).1 + (if u =? x then delta else 0),
                                 (counts_of m x).2 + (if t =? x then delta else 0))) ->
    (follow_set (db w) u t active key f us ts
       (with_stats m' (db w1)) /\ relation_ok (with_stats m' (db w1)))
    /\ grows w (with_db (with_env w1 e) (with_stats m' (db w1)))) as Hdone.
  { intros m' us ts e Hk' Hus Hts Hc'. split; [|auto with store]. rewrite Hdb. split.
    - split; simpl; auto. + by eexists _, m'. + apply lookup_insert_eq.
    - eapply (relation_ok_moved (db w) _ f); rewrite ?Hu, ?Ht; [done|done|done|done|done|].
      intros x. simpl. rewrite Hc', Hcm, Hst, status_active. done. }
  unfold finish_follow. destruct (Z.eqb_spec delta 0) as [Hz|Hnz]; simpl.
  - apply wp_bind, wp_current_stats; [|intros; auto with store].
    intros us ts e Hus Hts. apply wp_ret.
    assert (with_stats m (db w1) = db w1) as Hsame by (by rewrite Hdb).
    destruct (Hdone m us ts e) as [[Hfs Hr] Hg']; auto.
    + by rewrite Hdb in Hus.
    + by rewrite Hdb in Hts.
    + intros x. rewrite Hz. destruct (counts_of m x). simpl. by do 2 case_match; rewrite !Z.add_0_r.
    + rewrite Hsame in Hfs, Hr. auto with store.
  - assert (user_relation_stat (db w1) = m) as Hm by (by rewrite Hdb).
    assert (0 <= (counts_of m u).1 + delta /\ 0 <= (counts_of m t).2 + delta) as [Hnu Hnt].
    { destruct Hok as [Hf _ Hc]. rewrite !Hcm, !Hc. simpl.
      pose proof (map_count_nonneg (follows u) (user_follow (db w))).
      pose proof (map_count_nonneg (followed t) (user_follow (db w))).
      pose proof (is_following_counted (user_follow (db w)) u t Hf).
      subst delta. destruct (is_following _ u t), active; simpl in *; naive_solver lia. }
    assert (forall x, 0 <= (counts_of m x).1 /\ 0 <= (counts_of m x).2) as Hnn.
    { intros x. rewrite Hcm, (rk_counts _ Hok). split; apply map_count_nonneg. }
    apply wp_bind, wp_updateStat; rewrite ?Hm; [done|done| | |by intros; auto with store].
    { rewrite Z.add_0_r. apply Hnn. }
    intros us m1 e1 Hk1 Hus Hcu Ho1.
    assert (forall x, counts_of m1 x = ((counts_of m x).1 + (if u =? x then delta else 0),
                                        (counts_of m x).2)) as Hc1.
    { intros x. destruct (Z.eqb_spec u x) as [<-|Hne].
      - by rewrite Hcu, Z.add_0_r.
      - unfold counts_of at 1. rewrite Ho1 by done. rewrite Z.add_0_r. by destruct (counts_of m x) eqn:E. }
    apply wp_bind, wp_updateStat; simpl; [done| | | |by intros; auto with store].
    { rewrite Hc1. simpl. pose proof (Hnn t). destruct (Z.eqb_spec u t) as [Heq|]; [rewrite <-Heq in *|]; lia. }
    { by rewrite Hc1. }
    intros ts m2 e2 Hk2 Hts Hct Ho2. apply wp_ret.
    destruct (Hdone m2 us ts e2) as [[Hfs Hr] Hg']; auto.
    + intros Hne. by rewrite Ho2.
    + intros x. destruct (Z.eqb_spec t x) as [<-|Hne].
      * rewrite Hct, Hc1. simpl. by rewrite Z.add_0_r.
      * unfold counts_of at 1. rewrite Ho2 by done. fold (counts_of m1 x). rewrite Hc1. simpl.
        by rewrite Z.add_0_r.
Qed.

Lemma relation_ok_ready d u t m :
  relation_ok d -> ready d u t m -> relation_ok (with_stats m d).
Proof. intros [Hf Hk Hc] [Hk' Hc']. split; [done|done|]. intros x. simpl. by rewrite Hc', Hc. Qed.

Lemma follow_key_ptr_value k :
  k <> Some ""%string -> trimmed (idempotencyKeyValue k) -> idempotencyKeyPtr (idempotencyKeyValue k) = k.
Proof.
  intros Hne Htr. unfold idempotencyKeyPtr. rewrite Htr. destruct k as [k|]; [|done]. simpl.
  destruct (String.eqb_spec k ""); congruence.
Qed.

Lemma unchanged_follow f key st :
  fm_IdempotencyKey f <> Some ""%string -> idempotencyKeyValue (fm_IdempotencyKey f) = TrimSpace key ->
  fm_Status f = st ->
  mkFollowModel (fm_ID f) (fm_UserID f) (fm_TargetUserID f) st
    (idempotencyKeyPtr (TrimSpace key)) (fm_CreatedAt f) (fm_UpdatedAt f) = f.
Proof.
  intros Hne Hkey <-. destruct f. simpl in *. f_equal. rewrite <-Hkey.
  apply follow_key_ptr_value; [done|]. rewrite Hkey. apply TrimSpace_trimmed.
Qed.

Lemma follow_key_ptr_ne key : idempotencyKeyPtr key <> Some ""%string.
Proof. unfold idempotencyKeyPtr. destruct (String.eqb_spec (TrimSpace key) ""); congruence. Qed.

Lemma statusFromActive_ok active :
  statusFromActive active = FollowStatusActive \/ statusFromActive active = FollowStatusCanceled.
Proof. destruct active; auto. Qed.

(** The transaction once the users are locked and have their counters. *)
Lemma wp_SetFollow_locked w w1 m u t active key :
  relation_ok (db w) -> ready (db w) u t m -> db w1 = with_stats m (db w) -> grows w w1 ->
  wp (found ← query (fun d => user_follow d !! (u, t));
      match found with
      | None =>
          follow ← create_follow u t (statusFromActive active) (idempotencyKeyPtr (TrimSpace key));
          finish_follow u t follow (if active then 1 else 0)
      | Some follow =>
          if negb (String.eqb (TrimSpace key) "")
             && String.eqb (idempotencyKeyValue (fm_IdempotencyKey follow)) (TrimSpace key) then
            stats ← current_stats u t; mret (follow, stats)
          else
            let f := mkFollowModel (fm_ID follow) (fm_UserID follow) (fm_TargetUserID follow)
              (statusFromActive active) (idempotencyKeyPtr (TrimSpace key)) (fm_CreatedAt follow)
              (fm_UpdatedAt follow) in
            f ← (if negb (fm_Status follow =? statusFromActive active)
                    || negb (String.eqb (idempotencyKeyValue (fm_IdempotencyKey follow)) (TrimSpace key))
                 then save_follow f else mret f);
            finish_follow u t f (if fm_Status follow =? statusFromActive active then 0
                                 else if active then 1 else -1)
      end)
    (fun r w' => (follow_set (db w) u t active (TrimSpace key) r.1 r.2.1 r.2.2 (db w') /\ relation_ok (db w'))
                 /\ grows w w')
    (fun err w' => relation_failure err /\ grows w w') w1.
Proof.
  intros Hok Hrd Hdb Hg.
  apply wp_bind, wp_query; [|intros; auto with store]. intros e.
  replace (user_follow (db w1)) with (user_follow (db w)) by by rewrite Hdb.
  destruct (user_follow (db w) !! (u, t)) as [f|] eqn:Hf.
  - destruct (rk_follow _ Hok _ _ Hf) as (Hk & Hst & Hne).
    destruct (negb _ && _) eqn:Hrep.
    + apply andb_prop in Hrep as [Hk0%negb_true_iff%String.eqb_neq Heq%String.eqb_eq].
      apply wp_bind, wp_current_stats; [|intros; auto with store].
      intros us ts e1 Hus Hts. apply wp_ret. simpl in *. rewrite Hdb in *.
      split; [|auto with store]. split; [|by eapply relation_ok_ready].
      split; simpl; auto; [by exists (user_follow (db w)), m|].
      left. by split_and!.
    + assert (forall o, ~ replayed (db w) u t (TrimSpace key) o) as Hnr.
      { intros o (Ho & Hkn & Hkk). assert (o = f) as -> by congruence.
        apply String.eqb_neq in Hkn. apply String.eqb_eq in Hkk. by rewrite Hkn, Hkk in Hrep. }
      replace (if fm_Status f =? statusFromActive active then 0 else if active then 1 else -1)
        with (b2z active - b2z (is_following (user_follow (db w)) u t)).
      2: { unfold is_following. rewrite Hf. by destruct Hst as [-> | ->], active. }
      cbv zeta. apply wp_bind. destruct (negb _ || _) eqn:Hsave.
      * unfold save_follow. apply wp_bind, wp_time_now. intros now e1 _ _. cbv zeta.
        apply wp_bind, wp_update; [|intros; auto with store]. intros e2. apply wp_ret.
        apply (wp_finish_follow w _ m u t active (TrimSpace key) _ Hok Hrd Hnr); auto with store.
        -- split_and!; simpl; auto using statusFromActive_ok, follow_key_ptr_ne.
        -- simpl. by rewrite Hdb, <-Hk.
      * apply wp_ret. apply orb_false_iff in Hsave as [Hs1%negb_false_iff%Z.eqb_eq
          Hs2%negb_false_iff%String.eqb_eq].
        pose proof (unchanged_follow f key _ Hne Hs2 Hs1) as Hsame. rewrite Hsame.
        apply (wp_finish_follow w _ m u t active (TrimSpace key) _ Hok Hrd Hnr); auto with store.
        -- done.
        -- by apply (f_equal fm_IdempotencyKey) in Hsame.
        -- simpl. rewrite Hdb. destruct (db w). unfold set_user_follow. simpl in *. by rewrite insert_id.
  - unfold create_follow. apply wp_bind, wp_insert_row.
    + intros now e1 _ row ai _.
      assert (forall o, ~ replayed (db w) u t (TrimSpace key) o) as Hnr.
      { intros o (Ho & _). congruence. }
      replace (if active then 1 else 0) with (b2z active - b2z (is_following (user_follow (db w)) u t)).
      2: { unfold is_following. rewrite Hf. by destruct active. }
      apply (wp_finish_follow w _ m u t active (TrimSpace key) _ Hok Hrd Hnr); auto.
      * split_and!; simpl; auto using statusFromActive_ok, follow_key_ptr_ne.
      * simpl. by rewrite Hdb.
      * apply grows_insert_trans. auto with store.
    + intros now e1 row ai. simpl. rewrite Hdb. simpl. by rewrite Hf.
    + auto with store.
Qed.

Lemma wp_SetFollow w u t active key :
  relation_ok (db w) ->
  wp (SetFollow u t active key)
    (fun r w' => (exists f us ts, r = (restoreFollow f, restoreStat us, restoreStat ts) /\
                    follow_set (db w) u t active (TrimSpace key) f us ts (db w') /\
                    relation_ok (db w')) /\ grows w w')
    (fun err w' => (db w' = db w /\ (err = ERelation ErrTargetUserNotFound \/ exists t, err = EDriver t))
                   /\ grows w w') w.
Proof.
  intros Hok. unfold SetFollow. apply wp_bind, wp_map_error.
  eapply wp_mono; [apply (wp_transaction_tables _
    (fun r d' => follow_set (db w) u t active (TrimSpace key) r.1 r.2.1 r.2.2 d' /\ relation_ok d')
    relation_failure)| |].
  - auto with store.
  - intros w1 Hdb1 Hg1.
    apply wp_bind, wp_lockNormalUser; [|intros; auto with store]. intros xu eu _.
    apply wp_bind, wp_lockNormalUser; [|intros; auto with store]. intros xt et _.
    apply wp_bind, wp_ensureStat; simpl; rewrite ?Hdb1; [apply Hok| |intros; auto with store].
    intros m1 e1 Hk1 Hu1 Hc1 _.
    apply wp_bind, wp_ensureStat; simpl; [done| |intros; auto with store].
    intros m2 e2 Hk2 Ht2 Hc2 _.
    apply (wp_SetFollow_locked w _ m2); [done| |done|by auto with store].
    split; [done|]. intros x. by rewrite Hc2, Hc1.
  - intros [f [us ts]] w' [[Hfs Hr] Hg]. apply wp_ret. split; [|done]. by exists f, us, ts.
  - intros err w' [[Hdb He] Hg]. split; [|done]. split; [done|].
    destruct He as [-> | [-> | [x ->]]]; unfold mapUserError; simpl; eauto.
Qed.

(** ** What [SetFollow] means to the application *)

Lemma restoreStat_counts d u s :
  relation_ok d -> user_relation_stat d !! u = Some s ->
  rs_FollowingCount (restoreStat s) = map_count (follows u) (user_follow d) /\
  rs_FollowerCount (restoreStat s) = map_count (followed u) (user_follow d).
Proof.
  intros Hok Hs. pose proof (rk_counts _ Hok u) as Hc. unfold counts_of in Hc. rewrite Hs in Hc.
  simplify_eq Hc. intros H1 H2. simpl. rewrite H1, H2, !clampCount_id by apply map_count_nonneg. done.
Qed.

(** A repeated request finds its key stored. *)
Lemma follow_set_again d u t active active' key f us ts d' f' us' ts' d'' :
  u <> t -> key <> ""%string -> trimmed key ->
  follow_set d u t active key f us ts d' -> follow_set d' u t active' key f' us' ts' d'' ->
  relation_ok d' -> relation_ok d'' ->
  restoreFollow f' = restoreFollow f /\
  rs_FollowingCount (restoreStat us') = rs_FollowingCount (restoreStat us) /\
  rs_FollowerCount (restoreStat ts') = rs_FollowerCount (restoreStat ts) /\
  user_follow d'' = user_follow d'.
Proof.
  intros Hne Hk Htr [_ Hrow _ Heff Hu Ht] [_ Hrow' _ Heff' Hu' Ht'] Hok Hok'.
  assert (replayed d' u t key f) as Hrep.
  { split; [done|]. split; [done|]. destruct Heff as [[(_ & _ & Hkey) _]|(_ & _ & Hkey)]; [done|].
    rewrite Hkey. unfold idempotencyKeyPtr. rewrite Htr. by destruct (String.eqb_spec key ""). }
  destruct Heff' as [[(Hf' & _) Hsame]|(Hno & _)]; [|by destruct (Hno f)].
  assert (f' = f) as -> by congruence.
  destruct (restoreStat_counts _ _ _ Hok (Hu Hne)) as [-> _].
  destruct (restoreStat_counts _ _ _ Hok Ht) as [_ ->].
  destruct (restoreStat_counts _ _ _ Hok' (Hu' Hne)) as [-> _].
  destruct (restoreStat_counts _ _ _ Hok' Ht') as [_ ->]. by rewrite Hsame.
Qed.
