(* ===== verification/MessageRepo.v ===== *)
(** * Message repository ([internal/infra/persistence/message/gorm.go])

    Notifications are written at most once per event and per idempotency key of a user;
    [MarkRead] moves messages from unread to read. *)
From S2P Require Import Prelude.
From S2P Require Import GoStd.
From S2P Require Import MessageDomain.
From S2P Require Import Errors.
From S2P Require Import Models.
From S2P Require Import Store.
From S2P Require Import Paging.

Section MessageRepo.
Context `{Collation}.

Definition optionalString (value : string) : option string :=
  let value := TrimSpace value in
  if String.eqb value "" then None else Some value.

Definition stringValue (value : option string) : string :=
  match value with None => ""%string | Some v => TrimSpace v end.

Definition restore (model : MessageModel) : Message :=
  RestoreWithActor (mm_ID model) (mm_UserID model) (mm_Type model) (mm_Title model)
    (mm_Content model) (stringValue (mm_EventID model)) (mm_ActorID model)
    (mm_ActorNickname model) (mm_ActorAvatarURL model) (mm_IsRead model) (mm_CreatedAt model)
    (mm_ReadAt model).

Definition isDuplicateKeyError (err : error) : bool :=
  errors_Is err EDuplicatedKey || contains (ToLower (error_text err)) "duplicate".

(** [column = value] in SQL, for a nullable column. *)
Definition column_is (column : option string) (value : string) : bool :=
  match column with Some c => String.eqb (collate c) (collate value) | None => false end.

(** Two non-NULL values a unique index takes for the same. *)
Definition same_key (a b : option string) : bool :=
  match a with Some v => column_is b v | None => false end.

(** Does [uk_user_event] or [uk_user_idempotency] refuse row [b] next to row [a]? *)
Definition clashes (a b : MessageModel) : bool :=
  (mm_UserID a =? mm_UserID b) &&
  (same_key (mm_EventID a) (mm_EventID b) || same_key (mm_IdempotencyKey a) (mm_IdempotencyKey b)).

Definition message_row (message : Message) (idempotencyKey : string) (id : Z) (now : Time)
    : MessageModel :=
  {| mm_ID := id; mm_UserID := m_UserID message; mm_Type := m_Type message;
     mm_Title := m_Title message; mm_Content := m_Content message;
     mm_ActorID := m_ActorID message; mm_ActorNickname := m_ActorNickname message;
     mm_ActorAvatarURL := m_ActorAvatarURL message;
     mm_EventID := optionalString (m_EventID message);
     mm_IdempotencyKey := optionalString idempotencyKey; mm_IsRead := false;
     mm_CreatedAt := now; mm_ReadAt := None; mm_VideoID := None |}.

Definition insert_message (message : Message) (idempotencyKey : string) : M MessageModel :=
  insert_row "user_message" (message_row message idempotencyKey)
    (fun m d => match find_row (fun o => clashes m o) (user_message d) with
                | Some _ => true | None => false end)
    (fun m => set_user_message <[mm_ID m := m]>).

(** The row of largest id that satisfies a condition ([ORDER BY id DESC LIMIT 1]). *)
Definition id_pos (m : MessageModel) : Time * Z := (0, mm_ID m).

Definition last_message (P : MessageModel -> bool) (d : Tables) : option MessageModel :=
  head (sql_page id_pos None 1 (select_rows P (user_message d))).

Definition existing_matches (userID : Z) (eventID idempotencyKey : string) (m : MessageModel) : bool :=
  let by_event := column_is (mm_EventID m) eventID in
  let by_key := column_is (mm_IdempotencyKey m) idempotencyKey in
  (mm_UserID m =? userID) &&
  (if negb (String.eqb eventID "") && negb (String.eqb idempotencyKey "") then by_event || by_key
   else if negb (String.eqb eventID "") then by_event else by_key).

Definition findExisting (userID : Z) (eventID idempotencyKey : string) : M MessageModel :=
  let eventID := TrimSpace eventID in
  let idempotencyKey := TrimSpace idempotencyKey in
  if String.eqb eventID "" && String.eqb idempotencyKey "" then throw (EMessage ErrMessageNotFound)
  else map_error (fun err => if errors_Is err ERecordNotFound
                             then EMessage ErrMessageNotFound else err)
         (take_row (last_message (existing_matches userID eventID idempotencyKey))).

Definition Create (message : Message) (idempotencyKey : string) : M (Message * bool) :=
  let idempotencyKey := TrimSpace idempotencyKey in
  r ← attempt (transaction (insert_message message idempotencyKey));
  match r with
  | inr model => mret (restore model, true)
  | inl err =>
      if negb (isDuplicateKeyError err) then throw err
      else
        existing ← findExisting (m_UserID message) (m_EventID message) idempotencyKey;
        mret (restore existing, false)
  end.

Definition message_pos (m : MessageModel) : Time * Z := (mm_CreatedAt m, mm_ID m).

Definition message_page (userID : Z) (cursor : option MessageCursor) (limit : Z) (d : Tables)
    : list MessageModel :=
  sql_page message_pos ((fun c => (mc_CreatedAt c, mc_MessageID c)) <$> cursor) limit
    (select_rows (fun m => mm_UserID m =? userID) (user_message d)).

Definition ListByUser (userID : Z) (cursor : option MessageCursor) (limit : Z) : M (list Message) :=
  models ← query (message_page userID cursor limit);
  mret (restore <$> models).

Definition unread (userID : Z) (m : MessageModel) : bool :=
  (mm_UserID m =? userID) && negb (mm_IsRead m).

Definition CountUnread (userID : Z) : M Z :=
  query (fun d => map_count (unread userID) (user_message d)).

(** The rows [MarkRead] changes. *)
Definition to_mark (userID : Z) (messageIDs : list Z) (m : MessageModel) : bool :=
  unread userID m && (match messageIDs with [] => true | _ => bool_decide (mm_ID m ∈ messageIDs) end).

Definition mark_row (now : Time) (m : MessageModel) : MessageModel :=
  {| mm_ID := mm_ID m; mm_UserID := mm_UserID m; mm_Type := mm_Type m; mm_Title := mm_Title m;
     mm_Content := mm_Content m; mm_ActorID := mm_ActorID m;
     mm_ActorNickname := mm_ActorNickname m; mm_ActorAvatarURL := mm_ActorAvatarURL m;
     mm_EventID := mm_EventID m; mm_IdempotencyKey := mm_IdempotencyKey m; mm_IsRead := true;
     mm_CreatedAt := mm_CreatedAt m; mm_ReadAt := Some now; mm_VideoID := mm_VideoID m |}.

Definition MarkRead (userID : Z) (messageIDs : list Z) : M Z :=
  now ← time_now;
  update_count (fun d => map_count (to_mark userID messageIDs) (user_message d))
    (set_user_message (fmap (fun m => if to_mark userID messageIDs m then mark_row now m else m))).

(** ** The invariant: rows under their ids, unique events and keys, free ids *)

Record messages_ok (w : World) : Prop := {
  mk_id : forall id m, user_message (db w) !! id = Some m -> id = mm_ID m;
  mk_unique : forall i j a b, user_message (db w) !! i = Some a -> user_message (db w) !! j = Some b ->
    clashes a b = true -> i = j;
  mk_fresh : ids_below (next_id "user_message" w) (user_message (db w));
}.

Lemma messages_ok_mono w w' :
  messages_ok w -> user_message (db w') = user_message (db w) -> grows w w' -> messages_ok w'.
Proof.
  intros [Hi Hu Hf] Hdb Hg. split; rewrite Hdb; [done|done|].
  eapply ids_below_mono; [exact Hf|apply Hg].
Qed.

Lemma same_key_sym a b : same_key a b = same_key b a.
Proof. destruct a, b; simpl; try done. apply String.eqb_sym. Qed.

Lemma clashes_sym a b : clashes a b = clashes b a.
Proof. unfold clashes. by rewrite Z.eqb_sym, (same_key_sym (mm_EventID a)), (same_key_sym (mm_IdempotencyKey a)). Qed.

(** ** What [Create] does *)

Record message_created (w : World) (message : Message) (key : string) (m : MessageModel) (w' : World)
    : Prop := {
  mc_row : exists now, m = message_row message key (next_id "user_message" w) now;
  mc_db : db w' = set_user_message <[mm_ID m := m]> (db w);
  mc_fresh : forall i o, user_message (db w) !! i = Some o -> clashes m o = false;
  mc_next : mm_ID m < next_id "user_message" w';
  mc_grows : grows w w';
}.

Lemma message_added_ok w m w' :
  messages_ok w -> db w' = set_user_message <[mm_ID m := m]> (db w) ->
  (forall i o, user_message (db w) !! i = Some o -> clashes m o = false) ->
  mm_ID m < next_id "user_message" w' -> grows w w' -> messages_ok w'.
Proof.
  intros [Hi Hu Hf] Hdb Hnew Hnext Hg. split; rewrite Hdb; simpl.
  - intros i o. destruct (decide (i = mm_ID m)) as [->|Hne].
    + rewrite lookup_insert_eq. by intros [= <-].
    + rewrite lookup_insert_ne by done. apply Hi.
  - intros i j a b. destruct (decide (i = mm_ID m)) as [->|Hni], (decide (j = mm_ID m)) as [->|Hnj];
      rewrite ?lookup_insert_eq, ?lookup_insert_ne by done; try done.
    + intros [= <-] Hb Hc. by rewrite (Hnew _ _ Hb) in Hc.
    + intros Ha [= <-] Hc. rewrite clashes_sym in Hc. by rewrite (Hnew _ _ Ha) in Hc.
    + apply Hu.
  - apply ids_below_insert; [|done]. eapply ids_below_mono; [exact Hf|apply Hg].
Qed.

Lemma message_created_ok w message key m w' :
  messages_ok w -> message_created w message key m w' -> messages_ok w'.
Proof. intros Hok [_ Hdb Hnew Hnext Hg]. by eapply message_added_ok. Qed.

(** The row [findExisting] returns. *)
Lemma last_message_Some P d m :
  last_message P d = Some m -> exists id, user_message d !! id = Some m /\ P m = true.
Proof.
  unfold last_message. intros Hh.
  assert (m ∈ sql_page id_pos None 1 (select_rows P (user_message d))) as Hin.
  { by apply head_Some_elem_of. }
  apply elem_of_sql_page in Hin as [Hin _]. by apply elem_of_select_rows in Hin.
Qed.

(** The row a refused [Create] hands back. *)
Definition message_found (d : Tables) (message : Message) (key : string) (m : MessageModel) : Prop :=
  (TrimSpace (m_EventID message) <> ""%string \/ key <> ""%string) /\
  last_message (existing_matches (m_UserID message) (TrimSpace (m_EventID message)) key) d = Some m.

Lemma wp_findExisting u ev key Q E w :
  (forall m e, TrimSpace ev <> ""%string \/ TrimSpace key <> ""%string ->
     last_message (existing_matches u (TrimSpace ev) (TrimSpace key)) (db w) = Some m ->
     Q m (with_env w e)) ->
  (forall err e, E err (with_env w e)) ->
  wp (findExisting u ev key) Q E w.
Proof.
  intros HQ HE. unfold findExisting.
  destruct (String.eqb_spec (TrimSpace ev) ""), (String.eqb_spec (TrimSpace key) ""); simpl.
  { apply wp_throw. specialize (HE (EMessage ErrMessageNotFound) (env w)). by destruct w. }
  all: apply wp_map_error, wp_take_row; [|intros; apply HE..]; intros m e' Hm; apply HQ; auto.
Qed.

Lemma wp_Create w message key :
  wp (Create message key)
    (fun r w' => (exists m, message_created w message (TrimSpace key) m w' /\ r = (restore m, true)) \/
                 (exists m, message_found (db w) message (TrimSpace key) m /\
                    r = (restore m, false) /\ db w' = db w /\ grows w w'))
    (fun _ w' => db w' = db w /\ grows w w') w.
Proof.
  unfold Create. apply wp_bind, wp_attempt.
  eapply wp_mono; [apply (wp_transaction_stable _
    (fun m w' => message_created w message (TrimSpace key) m w') (fun _ => True))| |].
  - intros m w' e [Hr Hdb Hc Hn Hg]. by split.
  - by intros m w' [].
  - done.
  - intros w1 Hdb Hai.
    assert (next_id "user_message" w1 = next_id "user_message" w) as Hid by (unfold next_id; by rewrite Hai).
    assert (grows w w1) as Hg1 by (intros n; unfold next_id; rewrite Hai; lia).
    unfold insert_message. apply wp_insert_row.
    + intros now e _ row ai Hdup. split.
      * exists now. unfold row. by rewrite Hid.
      * simpl. by rewrite Hdb.
      * intros i o Ho. rewrite Hdb in Hdup. destruct (find_row _ _) eqn:Hf; [done|].
        by apply (find_row_None _ _ i o Hf).
      * unfold row, ai. rewrite next_id_insert. simpl. rewrite Hid. lia.
      * by apply grows_insert_trans.
    + intros now e row ai _. split; [done|]. by apply grows_insert_trans.
    + auto with store.
  - intros m w' Hm. apply wp_ret. left. by exists m.
  - intros err w' [[Hdb _] Hg]. destruct (negb (isDuplicateKeyError err)).
    + by apply wp_throw.
    + apply wp_bind, wp_findExisting; [|auto with store].
      intros m e Hne Hm. rewrite Hdb in Hm. rewrite TrimSpace_idemp in *.
      apply wp_ret. right. exists m. split; [by split|]. auto with store.
Qed.

(** A row found by event or key stands in the way of storing the message. *)
Lemma existing_clashes message key o id now :
  trimmed key -> TrimSpace (m_EventID message) <> ""%string \/ key <> ""%string ->
  existing_matches (m_UserID message) (TrimSpace (m_EventID message)) key o = true ->
  clashes (message_row message key id now) o = true.
Proof.
  intros Htr Hne. unfold existing_matches, clashes. simpl. unfold optionalString. rewrite Htr.
  rewrite (Z.eqb_sym (m_UserID message)).
  destruct (String.eqb_spec (TrimSpace (m_EventID message)) "") as [E1|E1],
    (String.eqb_spec key "") as [E2|E2]; simpl; rewrite ?orb_false_r; try done.
  by destruct Hne.
Qed.

Lemma created_matches w w' message key m :
  trimmed key -> TrimSpace (m_EventID message) <> ""%string \/ key <> ""%string ->
  message_created w message key m w' ->
  existing_matches (m_UserID message) (TrimSpace (m_EventID message)) key m = true.
Proof.
  intros Htr Hne [[now ->] _ _ _ _]. unfold existing_matches, optionalString. simpl.
  unfold optionalString. rewrite Htr, Z.eqb_refl.
  destruct (String.eqb_spec (TrimSpace (m_EventID message)) "") as [E1|E1],
    (String.eqb_spec key "") as [E2|E2]; simpl; rewrite ?String.eqb_refl; try done.
  by destruct Hne.
Qed.

Lemma last_message_None P d i m :
  user_message d !! i = Some m -> P m = true -> is_Some (last_message P d).
Proof.
  intros Hm HP. unfold last_message, sql_page, sql_limit. simpl.
  assert (m ∈ select_rows P (user_message d)) as Hin by (apply elem_of_select_rows; eauto).
  destruct (merge_sort _ _) as [|x l] eqn:Hs; [|by eexists].
  assert (filter (fun x => past id_pos None x = true) (select_rows P (user_message d)) ≡ₚ []) as Hp.
  { rewrite <-Hs. symmetry. apply merge_sort_Permutation. }
  apply Permutation_nil_r in Hp.
  assert (m ∈ (filter (fun x => past id_pos None x = true) (select_rows P (user_message d)))) as Hf.
  { by apply list_elem_of_filter. }
  rewrite Hp in Hf. by apply elem_of_nil in Hf.
Qed.

(** A repeated [Create] does not store the message again. *)
Lemma create_again w w' w'' message key m m' :
  messages_ok w' -> trimmed key -> TrimSpace (m_EventID message) <> ""%string \/ key <> ""%string ->
  (message_created w message key m w' \/ message_found (db w') message key m) ->
  (message_created w' message key m' w'' -> False) /\ (message_found (db w') message key m' -> m' = m).
Proof.
  intros Hok Htr Hne Hfirst.
  assert (exists i, user_message (db w') !! i = Some m /\
    existing_matches (m_UserID message) (TrimSpace (m_EventID message)) key m = true) as (i & Hm & Hmatch).
  { destruct Hfirst as [Hc|[_ Hf]]; [|by apply last_message_Some in Hf].
    pose proof (created_matches _ _ _ _ _ Htr Hne Hc). destruct Hc as [_ Hdb _ _ _].
    exists (mm_ID m). split; [|done]. rewrite Hdb. simpl. apply lookup_insert_eq. }
  split.
  - intros [[now Hr] _ Hfresh _ _]. pose proof (Hfresh _ _ Hm) as Hno.
    rewrite Hr, existing_clashes in Hno by done. done.
  - intros [_ Hf]. destruct Hfirst as [[[now Hr] _ _ _ _]|[_ Hf1]]; [|congruence].
    apply last_message_Some in Hf as (j & Hj & Hmatch').
    assert (clashes m m' = true) as Hc by (rewrite Hr; by apply existing_clashes).
    pose proof (mk_unique _ Hok _ _ _ _ Hm Hj Hc). congruence.
Qed.

Lemma wp_MarkRead w u ids :
  wp (MarkRead u ids)
    (fun n w' => n = map_count (to_mark u ids) (user_message (db w)) /\ grows w w' /\
       exists now, clock (env w) <= now /\
         db w' = set_user_message (fmap (fun m => if to_mark u ids m then mark_row now m else m)) (db w))
    (fun _ w' => db w' = db w /\ grows w w') w.
Proof.
  unfold MarkRead. apply wp_bind, wp_time_now. intros now e Hnow _.
  apply wp_update_count; [|auto with store]. intros e'. simpl.
  split_and!; [done|by auto with store|]. by exists now.
Qed.

Lemma unread_after_mark u v ids now (t : gmap Z MessageModel) :
  map_count (unread v) ((fun m => if to_mark u ids m then mark_row now m else m) <$> t)
  = map_count (unread v) t - (if v =? u then map_count (to_mark u ids) t else 0).
Proof.
  rewrite map_count_fmap. destruct (Z.eqb_spec v u) as [->|Hne].
  - assert (map_count (unread u) t = map_count (fun m => unread u (if to_mark u ids m then mark_row now m else m)) t
            + map_count (to_mark u ids) t); [|lia].
    apply map_count_add. intros m. destruct (to_mark u ids m) eqn:Hm; simpl.
    + unfold to_mark in Hm. apply andb_prop in Hm as [-> _]. unfold unread. simpl.
      by rewrite andb_false_r.
    + lia.
  - rewrite Z.sub_0_r. apply map_count_ext. intros k m _. destruct (to_mark u ids m) eqn:Hm; [|done].
    unfold to_mark, unread in *. simpl.
    destruct (Z.eqb_spec (mm_UserID m) u); [|done]. by destruct (Z.eqb_spec (mm_UserID m) v); [congruence|].
Qed.

(** Nothing is left to mark. *)
Lemma marked_none u ids now (t : gmap Z MessageModel) :
  map_count (to_mark u ids) ((fun m => if to_mark u ids m then mark_row now m else m) <$> t) = 0.
Proof.
  rewrite map_count_fmap. apply map_count_zero. intros k m _.
  destruct (to_mark u ids m) eqn:Hm; [|done].
  unfold to_mark, unread. simpl. by rewrite andb_false_r.
Qed.

Lemma mark_row_clashes u ids now a b :
  let f := fun m => if to_mark u ids m then mark_row now m else m in
  clashes (f a) (f b) = clashes a b.
Proof. unfold clashes. simpl. by destruct (to_mark u ids a), (to_mark u ids b). Qed.

Lemma marked_ok w w' u ids now :
  messages_ok w -> grows w w' ->
  db w' = set_user_message (fmap (fun m => if to_mark u ids m then mark_row now m else m)) (db w) ->
  messages_ok w'.
Proof.
  intros [Hi Hu Hf] Hg Hdb. split; rewrite Hdb; simpl.
  - intros id m. rewrite lookup_fmap. intros (o & Ho & ->)%fmap_Some.
    pose proof (Hi _ _ Ho). by case_match.
  - intros i j a b. rewrite !lookup_fmap. intros (x & Hx & ->)%fmap_Some (y & Hy & ->)%fmap_Some.
    rewrite mark_row_clashes. by apply Hu.
  - intros id m. rewrite lookup_fmap. intros (o & Ho & _)%fmap_Some. apply Hf in Ho.
    specialize (Hg "user_message"%string). lia.
Qed.

End MessageRepo.
