(* ===== verification/VideoRepo.v ===== *)
(** * Video repository ([internal/infra/persistence/video/gorm.go])

    A video is stored with its row of counters in one transaction; an idempotency key of
    an author is used for one video only. *)
From S2P Require Import Prelude.
From S2P Require Import GoStd.
From S2P Require Import VideoDomain.
From S2P Require Import Errors.
From S2P Require Import Models.
From S2P Require Import Store.
From S2P Require Import Paging.

Section VideoRepo.
Context `{Collation}.

Definition idempotencyKeyPtr (value : string) : option string :=
  if String.eqb value "" then None else Some value.

Definition idempotencyKeyValue (value : option string) : string := default ""%string value.

Definition isDuplicateKeyError (err : error) : bool := errors_Is err EDuplicatedKey.

(** A video with its counters; a video without a row of counters shows zeros. *)
Record videoWithStatModel := mkVideoWithStat {
  vw_video : VideoModel;
  vw_LikeCount : Z;
  vw_CommentCount : Z;
  vw_FavoriteCount : Z;
}.

Definition videoWithStatSelect (d : Tables) (v : VideoModel) : videoWithStatModel :=
  match video_stat d !! vm_ID v with
  | Some s => mkVideoWithStat v (sm_LikeCount s) (sm_CommentCount s) (sm_FavoriteCount s)
  | None => mkVideoWithStat v 0 0 0
  end.

Definition restoreVideo (model : videoWithStatModel) : Video :=
  let v := vw_video model in
  RestoreVideo (vm_ID v) (vm_AuthorID v) (vm_Title v) (vm_Description v) (vm_MediaURL v)
    (vm_CoverURL v) (vm_Status v) (vw_LikeCount model) (vw_CommentCount model)
    (vw_FavoriteCount model) (vm_PublishedAt v) (vm_CreatedAt v) (vm_UpdatedAt v)
    (idempotencyKeyValue (vm_IdempotencyKey v)).

(** Rows [WHERE v.author_id = ? AND v.idempotency_key = ?] selects. *)
Definition video_key_is (authorID : Z) (key : string) (v : VideoModel) : bool :=
  (vm_AuthorID v =? authorID) &&
  match vm_IdempotencyKey v with Some k => String.eqb (collate k) (collate key) | None => false end.

Definition video_row (video : Video) (id : Z) (now : Time) : VideoModel :=
  {| vm_ID := id; vm_AuthorID := v_AuthorID video; vm_Title := v_Title video;
     vm_Description := v_Description video; vm_MediaURL := v_MediaURL video;
     vm_CoverURL := v_CoverURL video; vm_Status := v_Status video;
     vm_PublishedAt := v_PublishedAt video;
     vm_IdempotencyKey := idempotencyKeyPtr (v_IdempotencyKey video);
     vm_CreatedAt := now; vm_UpdatedAt := now; vm_FilePath := ""; vm_CoverPath := "";
     vm_Size := 0 |}.

Definition insert_video (v : Video) : M VideoModel :=
  insert_row "video" (video_row v)
    (fun r d => match vm_IdempotencyKey r with
                | Some k => match find_row (video_key_is (vm_AuthorID r) k) (video d) with
                            | Some _ => true | None => false end
                | None => false
                end)
    (fun r => set_video <[vm_ID r := r]>).

(** [tx.Create(&stat)]: the primary key refuses a second row. *)
Definition insert_stat (id : Z) (v : Video) : M unit :=
  now ← time_now;
  taken ← query (fun d => bool_decide (is_Some (video_stat d !! id)));
  if (taken : bool) then throw EDuplicatedKey
  else write_db (set_video_stat <[id :=
         mkVideoStatModel id (v_LikeCount v) (v_CommentCount v) (v_FavoriteCount v) now now]>).

(** [Save]; the result is the video the caller holds afterwards. *)
Definition Save (v : Video) : M Video :=
  model ← transaction (
    model ← map_error (fun err => if isDuplicateKeyError err
                                  then EVideo ErrDuplicateIdempotencyKey else err)
            (insert_video v);
    _ ← insert_stat (vm_ID model) v;
    mret model);
  mret {| v_ID := vm_ID model; v_AuthorID := v_AuthorID v; v_Title := v_Title v;
          v_Description := v_Description v; v_MediaURL := v_MediaURL v;
          v_CoverURL := v_CoverURL v; v_Status := v_Status v; v_LikeCount := v_LikeCount v;
          v_CommentCount := v_CommentCount v; v_FavoriteCount := v_FavoriteCount v;
          v_PublishedAt := v_PublishedAt v; v_CreatedAt := vm_CreatedAt model;
          v_UpdatedAt := vm_UpdatedAt model; v_IdempotencyKey := v_IdempotencyKey v |}.

Definition not_found (err : error) : error :=
  if errors_Is err ERecordNotFound then EVideo ErrVideoNotFound else err.

Definition FindByID (id : Z) : M Video :=
  map_error not_found (
    model ← take_row (fun d => v ← video d !! id;
              if vm_Status v =? StatusPublished then Some (videoWithStatSelect d v) else None);
    mret (restoreVideo model)).

Definition FindByIDAnyStatus (id : Z) : M Video :=
  map_error not_found (
    model ← take_row (fun d => videoWithStatSelect d <$> video d !! id);
    mret (restoreVideo model)).

Definition FindByAuthorAndIdempotencyKey (authorID : Z) (key : string) : M Video :=
  if String.eqb key "" then throw (EVideo ErrVideoNotFound) else
  map_error not_found (
    model ← take_row (fun d => videoWithStatSelect d <$> find_row (video_key_is authorID key) (video d));
    mret (restoreVideo model)).

(** [ORDER BY published_at DESC, id DESC]; a NULL time comes last. *)
Definition video_pos (v : VideoModel) : Time * Z := (default (-1) (vm_PublishedAt v), vm_ID v).

Definition author_videos (authorID limit offset : Z) (d : Tables) : list VideoModel :=
  sql_limit limit (drop (Z.to_nat offset)
    (sql_page video_pos None (-1)
       (select_rows (fun v => (vm_AuthorID v =? authorID) && (vm_Status v =? StatusPublished))
          (video d)))).

Definition ListByAuthor (authorID limit offset : Z) : M (list Video) :=
  models ← query (fun d => videoWithStatSelect d <$> author_videos authorID limit offset d);
  mret (restoreVideo <$> models).

Definition set_status (status : Z) (now : Time) (v : VideoModel) : VideoModel :=
  {| vm_ID := vm_ID v; vm_AuthorID := vm_AuthorID v; vm_Title := vm_Title v;
     vm_Description := vm_Description v; vm_MediaURL := vm_MediaURL v;
     vm_CoverURL := vm_CoverURL v; vm_Status := status; vm_PublishedAt := vm_PublishedAt v;
     vm_IdempotencyKey := vm_IdempotencyKey v; vm_CreatedAt := vm_CreatedAt v;
     vm_UpdatedAt := now; vm_FilePath := vm_FilePath v; vm_CoverPath := vm_CoverPath v;
     vm_Size := vm_Size v |}.

(** The row counts as changed: its [updated_at] is new. *)
Definition UpdateStatus (v : Video) : M unit :=
  now ← time_now;
  rows ← update_count (fun d => b2z (bool_decide (is_Some (video d !! v_ID v))))
           (set_video (alter (set_status (v_Status v) now) (v_ID v)));
  if rows =? 0 then throw (EVideo ErrVideoNotFound) else mret tt.

(** [EnsureStats]: a row of zeros for every video without counters. *)
Definition zero_stat (now : Time) (id : Z) : VideoStatModel := mkVideoStatModel id 0 0 0 now now.

Definition EnsureStats : M unit :=
  now ← time_now;
  update (fun d => set_video_stat (fun s => s ∪ map_imap (fun id _ => Some (zero_stat now id)) (video d)) d).

(** ** Rules *)

Record video_saved (w : World) (v : Video) (row : VideoModel) (w' : World) : Prop := {
  vs_row : exists now, row = video_row v (next_id "video" w) now;
  vs_db : exists now, db w' = set_video_stat <[vm_ID row :=
            mkVideoStatModel (vm_ID row) (v_LikeCount v) (v_CommentCount v) (v_FavoriteCount v) now now]>
            (set_video <[vm_ID row := row]> (db w));
  vs_key : forall k id o, vm_IdempotencyKey row = Some k -> video (db w) !! id = Some o ->
    video_key_is (v_AuthorID v) k o = false;
  vs_stat_new : video_stat (db w) !! vm_ID row = None;
  vs_next : vm_ID row < next_id "video" w';
  vs_grows : grows w w';
}.

Definition save_failure (err : error) : Prop :=
  err = EVideo ErrDuplicateIdempotencyKey \/ err = EDuplicatedKey \/ exists t, err = EDriver t.

Lemma save_failure_driver t : save_failure (EDriver t).
Proof. right. right. by exists t. Qed.

#[local] Hint Resolve save_failure_driver : store.

(** The video [Save] hands back. *)
Definition saved_video (v : Video) (row : VideoModel) : Video :=
  mkVideo (vm_ID row) (v_AuthorID v) (v_Title v) (v_Description v) (v_MediaURL v) (v_CoverURL v)
    (v_Status v) (v_LikeCount v) (v_CommentCount v) (v_FavoriteCount v) (v_PublishedAt v)
    (vm_CreatedAt row) (vm_UpdatedAt row) (v_IdempotencyKey v).

Lemma wp_SaveVideo w v :
  wp (Save v)
    (fun r w' => exists row, video_saved w v row w' /\ r = saved_video v row)
    (fun err w' => (db w' = db w /\ save_failure err) /\ grows w w') w.
Proof.
  unfold Save. apply wp_bind. eapply wp_mono; [apply (wp_transaction_stable _
    (fun row w' => video_saved w v row w') save_failure)| |].
  - intros row w' e []. by split.
  - by intros row w' [].
  - auto with store.
  - intros w1 Hdb Hai.
    assert (next_id "video" w1 = next_id "video" w) as Hid by (unfold next_id; by rewrite Hai).
    assert (grows w w1) as Hg1 by (intros n; unfold next_id; rewrite Hai; lia).
    apply wp_bind, wp_map_error. unfold insert_video. apply wp_insert_row.
    + intros now e _ row ai Hdup. rewrite Hdb in Hdup.
      apply wp_bind. unfold insert_stat. apply wp_bind, wp_time_now. intros now' e1 _ _.
      apply wp_bind, wp_query; [|split; [auto with store|]; by apply grows_env, grows_env, grows_insert_trans].
      intros e2. simpl. rewrite Hdb. case_bool_decide as Hst; simpl.
      * split; [by right; left|]. by apply grows_env, grows_env, grows_insert_trans.
      * split.
        -- exists now. unfold row. by rewrite Hid.
        -- by exists now'.
        -- intros k i o Hk Ho. rewrite Hk in Hdup. destruct (find_row _ _) eqn:Hf; [done|].
           by apply (find_row_None _ _ i o Hf).
        -- by apply eq_None_not_Some.
        -- unfold row, ai. unfold next_id. simpl. rewrite lookup_insert_eq. unfold next_id. simpl. lia.
        -- by apply grows_db, grows_env, grows_env, grows_insert_trans.
    + intros now e row ai _. split; [by left|]. by apply grows_insert_trans.
    + intros t e. split; [apply save_failure_driver|auto with store].
  - intros row w' Hs. apply wp_ret. by exists row.
  - done.
Qed.

Lemma wp_UpdateStatus w v :
  wp (UpdateStatus v)
    (fun _ w' => (exists now row, video (db w) !! v_ID v = Some row /\
        db w' = set_video <[v_ID v := set_status (v_Status v) now row]> (db w)) /\ grows w w')
    (fun err w' => (db w' = db w /\
       ((err = EVideo ErrVideoNotFound /\ video (db w) !! v_ID v = None) \/ exists t, err = EDriver t))
       /\ grows w w') w.
Proof.
  unfold UpdateStatus. apply wp_bind, wp_time_now. intros now e _ _.
  apply wp_bind, wp_update_count; [|intros; split; [|by auto with store]; split; eauto].
  intros e'. simpl. destruct (video (db w) !! v_ID v) as [row|] eqn:Hv; simpl.
  - split; [|auto with store]. exists now, row. split; [done|]. simpl.
    destruct (db w). unfold set_video. simpl in *. f_equal.
    apply map_eq. intros i. destruct (decide (i = v_ID v)) as [->|Hne].
    + by rewrite lookup_alter_eq, lookup_insert_eq, Hv.
    + by rewrite lookup_alter_ne, lookup_insert_ne by done.
  - split; [|auto with store]. split; [|by left]. simpl.
    destruct (db w). unfold set_video. simpl in *. f_equal.
    apply map_eq. intros i. destruct (decide (i = v_ID v)) as [->|Hne].
    + by rewrite lookup_alter_eq, Hv.
    + by rewrite lookup_alter_ne by done.
Qed.

(** Reads say what the tables hold, or that the database failed. *)
Lemma wp_FindByAuthorAndIdempotencyKey w a key :
  key <> ""%string ->
  wp (FindByAuthorAndIdempotencyKey a key)
    (fun v w' => db w' = db w /\ exists row, find_row (video_key_is a key) (video (db w)) = Some row /\
                   v = restoreVideo (videoWithStatSelect (db w) row))
    (fun err w' => db w' = db w /\
       (err = EVideo ErrVideoNotFound /\ find_row (video_key_is a key) (video (db w)) = None
        \/ exists t, err = EDriver t)) w.
Proof.
  intros Hk. unfold FindByAuthorAndIdempotencyKey. destruct (String.eqb_spec key ""); [done|].
  apply wp_map_error, wp_bind, wp_take_row.
  - intros m e Hm. apply fmap_Some in Hm as (row & Hrow & ->). apply wp_ret. split; [done|]. by exists row.
  - intros e Hn. split; [done|]. left. by apply fmap_None in Hn.
  - intros t e. split; [done|]. right. by exists t.
Qed.

Lemma wp_FindByIDAnyStatus w id :
  wp (FindByIDAnyStatus id)
    (fun v w' => (db w' = db w /\ grows w w') /\ exists row, video (db w) !! id = Some row /\
                   v = restoreVideo (videoWithStatSelect (db w) row))
    (fun err w' => (db w' = db w /\ grows w w') /\
       (err = EVideo ErrVideoNotFound /\ video (db w) !! id = None \/ exists t, err = EDriver t)) w.
Proof.
  apply wp_map_error, wp_bind, wp_take_row.
  - intros m e Hm. apply fmap_Some in Hm as (row & Hrow & ->). apply wp_ret.
    split; [by auto with store|]. by exists row.
  - intros e Hn. split; [by auto with store|]. left. by apply fmap_None in Hn.
  - intros t e. split; [by auto with store|]. right. by exists t.
Qed.

Lemma wp_FindByID w id :
  wp (FindByID id)
    (fun v w' => db w' = db w /\ exists row, video (db w) !! id = Some row /\
                   vm_Status row = StatusPublished /\ v = restoreVideo (videoWithStatSelect (db w) row))
    (fun err w' => db w' = db w /\ (err = EVideo ErrVideoNotFound \/ exists t, err = EDriver t)) w.
Proof.
  apply wp_map_error, wp_bind, wp_take_row.
  - intros m e Hm. apply bind_Some in Hm as (row & Hrow & Hm).
    destruct (Z.eqb_spec (vm_Status row) StatusPublished); [|done]. injection Hm as <-.
    apply wp_ret. split; [done|]. by exists row.
  - intros e Hn. split; [done|]. by left.
  - intros t e. split; [done|]. right. by exists t.
Qed.

(** The row a new video leaves reads back as the video that was saved. *)
Lemma saved_restored w now a title desc media cover key v row w' :
  NewPublished now a title desc media cover key = inr v -> video_saved w v row w' ->
  restoreVideo (videoWithStatSelect (db w') row) = saved_video v row.
Proof.
  intros Hv%NewPublished_ok [(now' & Hr) (now'' & Hdb) _ _ _ _].
  destruct Hv as (Ht & Hd & Hm & Hc & Hk & Hst & Hl & Hf & Hcc).
  unfold videoWithStatSelect. rewrite Hdb. simpl. rewrite lookup_insert_eq. simpl.
  unfold restoreVideo, RestoreVideo, saved_video. simpl. rewrite Hr. simpl.
  rewrite Hst, Ht, Hd, Hm, Hc. unfold idempotencyKeyPtr, idempotencyKeyValue.
  destruct (String.eqb_spec (v_IdempotencyKey v) "") as [->|]; simpl; [done|]. by rewrite Hk.
Qed.

(** The key of a new video finds its row. *)
Lemma saved_found w v row w' key :
  video_saved w v row w' -> v_IdempotencyKey v = key -> key <> ""%string ->
  find_row (video_key_is (v_AuthorID v) key) (video (db w')) = Some row.
Proof.
  intros [(now & Hr) (now' & Hdb) Hnew _ _ _] Hk Hne.
  assert (vm_IdempotencyKey row = Some key) as Hrk.
  { rewrite Hr. simpl. unfold idempotencyKeyPtr. rewrite Hk. by destruct (String.eqb_spec key ""). }
  assert (video_key_is (v_AuthorID v) key row = true) as Hself.
  { unfold video_key_is. rewrite Hrk, Hr. simpl. by rewrite Z.eqb_refl, String.eqb_refl. }
  rewrite Hdb. simpl. destruct (find_row _ _) as [row'|] eqn:Hf.
  - apply find_row_Some in Hf as (i & Hi & Hki). apply lookup_insert_Some in Hi as [[_ <-]|[_ Hi]]; [done|].
    by rewrite (Hnew key i row' Hrk Hi) in Hki.
  - apply (find_row_None _ _ (vm_ID row) row) in Hf; [congruence|]. by rewrite lookup_insert_eq.
Qed.

Lemma restored_fields d row :
  let v := restoreVideo (videoWithStatSelect d row) in
  v_ID v = vm_ID row /\ v_AuthorID v = vm_AuthorID row /\
  (v_Status v =? StatusDeleted) = (vm_Status row =? StatusDeleted).
Proof.
  cbv zeta. unfold videoWithStatSelect.
  assert (forall s : Z, ((if s =? 0 then StatusPublished else s) =? StatusDeleted) = (s =? StatusDeleted)) as Hs.
  { intros s. destruct (Z.eqb_spec s 0) as [->|]; done. }
  by destruct (video_stat d !! vm_ID row); simpl; rewrite Hs.
Qed.

(** Nothing but the status and the time of the change. *)
Lemma set_status_fields status now row :
  vm_Status (set_status status now row) = status /\ vm_AuthorID (set_status status now row) = vm_AuthorID row.
Proof. done. Qed.

(** A video that is not published is not found. *)
Lemma wp_FindByID_hidden w id row :
  video (db w) !! id = Some row -> vm_Status row <> StatusPublished ->
  wp (FindByID id) (fun _ _ => False)
    (fun err _ => err = EVideo ErrVideoNotFound \/ exists t, err = EDriver t) w.
Proof.
  intros Hrow Hst. eapply wp_mono; [apply wp_FindByID|..].
  - intros v w' (_ & row' & Hrow' & Hst' & _). congruence.
  - by intros err w' [_ He].
Qed.

End VideoRepo.
