(* ===== verification/FeedRepo.v ===== *)
(** * Feed repository ([internal/infra/persistence/feed/gorm.go])

    Light pages of the timeline, the hot list and the following list, each sorted by a
    position and read with a cursor; the cards, counters and viewer states a page is
    assembled from; the followers a new video is copied to. *)
From S2P Require Import Prelude.
From S2P Require Import GoStd.
From S2P Require InteractionDomain.
From S2P Require RelationDomain.
From S2P Require VideoDomain.
From S2P Require Import FeedDomain.
From S2P Require Import Models.
From S2P Require Import Errors.
From S2P Require Import Store.
From S2P Require Import Paging.
From S2P Require InteractionRepo.
From S2P Require RelationRepo.

Section FeedRepo.
Context `{Collation}.

(** [id IN ?]. *)
Definition in_ids (ids : list Z) (id : Z) : bool := bool_decide (id ∈ ids).

Definition PublishedVideoIDs (ids : list Z) : M (gmap Z bool) :=
  found ← query (fun d => vm_ID <$>
    select_rows (fun v => in_ids ids (vm_ID v) && (vm_Status v =? VideoDomain.StatusPublished)) (video d));
  mret (list_to_map ((fun id => (id, true)) <$> found)).

(** ** Pages *)

(** [WHERE v.status = ? AND v.published_at IS NOT NULL]. *)
Definition basePageQuery (v : VideoModel) : bool :=
  (vm_Status v =? VideoDomain.StatusPublished) && bool_decide (is_Some (vm_PublishedAt v)).

(** The columns of a page row; the filter leaves no row without a time. *)
Definition published_at (v : VideoModel) : Time := default 0 (vm_PublishedAt v).
Definition page_item (score : Z) (v : VideoModel) : FeedPageItem :=
  mkFeedPageItem (vm_ID v) (vm_AuthorID v) (published_at v) score.

Definition timeline_pos (v : VideoModel) : Time * Z := (published_at v, vm_ID v).
Definition timeline_cursor (c : TimelineCursor) : Time * Z := (tc_PublishedAt c, tc_VideoID c).

Definition timeline_page (cursor : option TimelineCursor) (limit : Z) (d : Tables) : list VideoModel :=
  sql_page timeline_pos (timeline_cursor <$> cursor) limit (select_rows basePageQuery (video d)).

Definition ListTimelinePage (cursor : option TimelineCursor) (limit : Z) : M (list FeedPageItem) :=
  models ← query (timeline_page cursor limit);
  mret (page_item 0 <$> models).

(** [hotScoreExpression]; a video without counters scores 0. *)
Definition hotScoreExpression (d : Tables) (v : VideoModel) : Z :=
  match video_stat d !! vm_ID v with
  | Some s => sm_LikeCount s * 3 + sm_CommentCount s * 5 + sm_FavoriteCount s * 4
  | None => 0
  end.

Definition hot_pos (d : Tables) (v : VideoModel) : Z * (Time * Z) :=
  (hotScoreExpression d v, timeline_pos v).
Definition hot_cursor (c : HotCursor) : Z * (Time * Z) :=
  (hc_HotScore c, (hc_PublishedAt c, hc_VideoID c)).

Definition hot_page (cursor : option HotCursor) (limit : Z) (d : Tables) : list VideoModel :=
  sql_page (hot_pos d) (hot_cursor <$> cursor) limit (select_rows basePageQuery (video d)).

Definition ListHotPage (cursor : option HotCursor) (limit : Z) : M (list FeedPageItem) :=
  query (fun d => (fun v => page_item (hotScoreExpression d v) v) <$> hot_page cursor limit d).

(** [JOIN user_follow AS f … WHERE f.user_id = ? AND f.status = active]: at most one row. *)
Definition viewer_follows (viewerID : Z) (d : Tables) (authorID : Z) : bool :=
  match user_follow d !! (viewerID, authorID) with
  | Some f => fm_Status f =? RelationDomain.FollowStatusActive
  | None => false
  end.

Definition following_page (viewerID : Z) (cursor : option TimelineCursor) (limit : Z) (d : Tables)
    : list VideoModel :=
  sql_page timeline_pos (timeline_cursor <$> cursor) limit
    (select_rows (fun v => basePageQuery v && viewer_follows viewerID d (vm_AuthorID v)) (video d)).

Definition ListFollowingPage (viewerID : Z) (cursor : option TimelineCursor) (limit : Z)
    : M (list FeedPageItem) :=
  models ← query (following_page viewerID cursor limit);
  mret (page_item 0 <$> models).

Definition ListAuthorRecentVideos (authorID limit : Z) : M (list FeedPageItem) :=
  if (authorID <=? 0) || (limit <=? 0) then mret [] else
  models ← query (fun d => sql_page timeline_pos None limit
    (select_rows (fun v => (vm_AuthorID v =? authorID) && basePageQuery v) (video d)));
  mret (page_item 0 <$> models).

(** ** Followers *)

(** [ORDER BY … ASC]. *)
Definition ascending (ids : list Z) : list Z := merge_sort Z.le ids.

Definition pull_authors (viewerID : Z) (d : Tables) : list Z :=
  ascending (fm_TargetUserID <$> select_rows (fun f => (fm_UserID f =? viewerID)
    && (fm_Status f =? RelationDomain.FollowStatusActive)
    && match user_relation_stat d !! fm_TargetUserID f with
       | Some rs => BigCreatorFollowerThreshold <=? rm_FollowerCount rs
       | None => false
       end) (user_follow d)).

Definition ListFollowingPullAuthorIDs (viewerID : Z) : M (list Z) := query (pull_authors viewerID).

Definition CountFollowers (authorID : Z) : M Z :=
  r ← attempt (take_row (fun d => user_relation_stat d !! authorID));
  match r with
  | inr rs => mret (rm_FollowerCount rs)
  | inl err => if errors_Is err ERecordNotFound then mret 0 else throw err
  end.

Definition followers (authorID : Z) (d : Tables) : list Z :=
  ascending (fm_UserID <$> select_rows (fun f => (fm_TargetUserID f =? authorID)
    && (fm_Status f =? RelationDomain.FollowStatusActive)) (user_follow d)).

(** [WHERE user_id > ?], if the cursor is positive. *)
Definition beyond (cursor id : Z) : bool := if 0 <? cursor then cursor <? id else true.

Definition ListFollowerIDs (authorID cursor limit : Z) : M (list Z) :=
  query (fun d => sql_limit limit (filter (fun id => beyond cursor id = true) (followers authorID d))).

(** ** The parts of an item *)

(** A video joined with its author's account ([LEFT JOIN]). *)
Definition feed_card (d : Tables) (v : VideoModel) : FeedCard :=
  let a := account d !! vm_AuthorID v in
  {| fc_VideoID := vm_ID v; fc_AuthorID := vm_AuthorID v;
     fc_AuthorNickname := match a with Some a => am_Nickname a | None => "" end;
     fc_AuthorAvatarURL := match a with Some a => am_AvatarURL a | None => "" end;
     fc_Title := vm_Title v; fc_Description := vm_Description v; fc_MediaURL := vm_MediaURL v;
     fc_CoverURL := vm_CoverURL v; fc_PublishedAt := published_at v |}.

Definition BatchGetFeedCards (videoIDs : list Z) : M (gmap Z FeedCard) :=
  match videoIDs with
  | [] => mret ∅
  | _ =>
      models ← query (fun d => feed_card d <$>
        select_rows (fun v => in_ids videoIDs (vm_ID v) && basePageQuery v) (video d));
      mret (list_to_map ((fun c => (fc_VideoID c, c)) <$> models))
  end.

Definition feed_stat (s : VideoStatModel) : FeedStat :=
  mkFeedStat (sm_VideoID s) (sm_LikeCount s) (sm_CommentCount s) (sm_FavoriteCount s).

Definition BatchGetFeedStats (videoIDs : list Z) : M (gmap Z FeedStat) :=
  match videoIDs with
  | [] => mret ∅
  | _ =>
      models ← query (fun d => feed_stat <$>
        select_rows (fun s => in_ids videoIDs (sm_VideoID s)) (video_stat d));
      mret (foldl (fun stats s => <[fs_VideoID s := s]> stats)
              (list_to_map ((fun id => (id, mkFeedStat id 0 0 0)) <$> videoIDs)) models)
  end.

(** The rows of the viewer: [user_id = ? AND video_id IN ? AND status = active AND
    action_type IN ('LIKE', 'FAVORITE')]. The database compares under its collation. *)
Definition viewer_action (viewerID : Z) (videoIDs : list Z) (a : ActionModel) : bool :=
  (im_UserID a =? viewerID) && in_ids videoIDs (im_VideoID a)
  && (im_Status a =? InteractionDomain.ActionStatusActive)
  && (String.eqb (collate (im_ActionType a)) (collate InteractionDomain.ActionTypeLike)
      || String.eqb (collate (im_ActionType a)) (collate InteractionDomain.ActionTypeFavorite)).

(** The body of the loop over the rows; Go's [switch] compares bytes. *)
Definition add_action (states : gmap Z ViewerActionState) (a : ActionModel) : gmap Z ViewerActionState :=
  let state := default (mkViewerActionState (im_VideoID a) false false) (states !! im_VideoID a) in
  let state :=
    if String.eqb (im_ActionType a) InteractionDomain.ActionTypeLike
    then mkViewerActionState (va_VideoID state) true (va_Favorited state)
    else if String.eqb (im_ActionType a) InteractionDomain.ActionTypeFavorite
    then mkViewerActionState (va_VideoID state) (va_Liked state) true
    else state in
  <[im_VideoID a := state]> states.

Definition BatchGetViewerActionStates (viewerID : Z) (videoIDs : list Z) : M (gmap Z ViewerActionState) :=
  if (viewerID <=? 0) || bool_decide (videoIDs = []) then mret ∅ else
  models ← query (fun d => select_rows (viewer_action viewerID videoIDs) (interaction_action d));
  mret (foldl add_action (list_to_map ((fun id => (id, mkViewerActionState id false false)) <$> videoIDs))
          models).

(** ** What the queries return *)

Lemma in_ids_spec ids id : in_ids ids id = true <-> id ∈ ids.
Proof. apply bool_decide_eq_true. Qed.

(** A video is liked by the rows [l] if one of them says so. *)
Definition has_action (t : string) (id : Z) (l : list ActionModel) : bool :=
  existsb (fun a => (im_VideoID a =? id) && String.eqb (im_ActionType a) t) l.

Lemma foldl_add_action l states id liked favorited :
  states !! id = Some (mkViewerActionState id liked favorited) ->
  foldl add_action states l !! id = Some (mkViewerActionState id
    (liked || has_action InteractionDomain.ActionTypeLike id l)
    (favorited || has_action InteractionDomain.ActionTypeFavorite id l)).
Proof.
  revert states liked favorited. induction l as [|a l IH]; intros states liked favorited Hst; simpl.
  { by rewrite !orb_false_r. }
  destruct (Z.eqb_spec (im_VideoID a) id) as [Hid|Hid]; simpl.
  - unfold add_action at 2. rewrite Hid, Hst. simpl.
    destruct (String.eqb_spec (im_ActionType a) InteractionDomain.ActionTypeLike) as [->|]; simpl.
    + rewrite (IH _ true favorited) by apply lookup_insert_eq. by rewrite orb_true_r.
    + destruct (String.eqb_spec (im_ActionType a) InteractionDomain.ActionTypeFavorite); simpl.
      * rewrite (IH _ liked true) by apply lookup_insert_eq. by rewrite orb_true_r.
      * by apply IH, lookup_insert_eq.
  - apply IH. unfold add_action. by rewrite lookup_insert_ne.
Qed.

Lemma lookup_list_to_map_ids {B} (f : Z -> B) ids id :
  id ∈ ids -> (list_to_map ((fun i => (i, f i)) <$> ids) : gmap Z B) !! id = Some (f id).
Proof.
  induction ids as [|i ids IH]; [by intros ?%elem_of_nil|]. intros Hin. simpl.
  destruct (decide (id = i)) as [->|Hne]; [apply lookup_insert_eq|].
  rewrite lookup_insert_ne by done. apply IH. by apply elem_of_cons in Hin as [|].
Qed.

(** The viewer's active action of type [t] on a video, found by the query or by its key. *)
Lemma viewer_action_found `{!CollationLaws} w viewer ids id t :
  InteractionRepo.counters_ok w -> InteractionRepo.action_type_ok t -> id ∈ ids ->
  has_action t id (select_rows (viewer_action viewer ids) (interaction_action (db w)))
  = InteractionRepo.was_active (db w) (viewer, id, collate t).
Proof.
  intros Hok Ht Hid. apply eq_iff_eq_true. unfold has_action. rewrite existsb_exists. split.
  - intros (a & Ha & [Hv%Z.eqb_eq Hty%String.eqb_eq]%andb_true_iff).
    apply list_elem_of_In, elem_of_select_rows in Ha as (k & Hk & Hact).
    pose proof (InteractionRepo.ck_action w Hok _ _ Hk) as [Hkey _].
    unfold viewer_action in Hact. rewrite !andb_true_iff in Hact.
    destruct Hact as [[[Hu%Z.eqb_eq _] Hst] _].
    unfold InteractionRepo.action_key in Hkey. rewrite Hu, Hv, Hty in Hkey. subst k.
    unfold InteractionRepo.was_active. by rewrite Hk.
  - unfold InteractionRepo.was_active. destruct (interaction_action (db w) !! _) as [a|] eqn:Ha; [|done].
    intros Hst. pose proof (InteractionRepo.ck_action w Hok _ _ Ha) as [[= Hu Hv Hty] _].
    pose proof (InteractionRepo.ck_action_type w Hok _ _ Ha) as Hat.
    assert (im_ActionType a = t) as Hat'.
    { unfold InteractionRepo.action_type_ok in *.
      destruct Ht as [-> | ->], Hat as [Hat|Hat]; try done; rewrite Hat in Hty; by destruct collate_like_favorite. }
    exists a. split.
    + apply list_elem_of_In, elem_of_select_rows. eexists. split; [exact Ha|]. unfold viewer_action.
      rewrite <-Hu, <-Hv, Z.eqb_refl, Hst, Hat'. simpl. rewrite (proj2 (in_ids_spec ids id) Hid). simpl.
      destruct Ht as [-> | ->]; rewrite String.eqb_refl; [done|apply orb_true_r].
    + by rewrite <-Hv, Z.eqb_refl, Hat', String.eqb_refl.
Qed.

Lemma wp_BatchGetViewerActionStates `{!CollationLaws} w0 w viewer ids :
  InteractionRepo.counters_ok w0 -> db w = db w0 -> 0 < viewer ->
  wp (BatchGetViewerActionStates viewer ids)
    (fun states w' => db w' = db w /\ forall id, id ∈ ids ->
       states !! id = Some (mkViewerActionState id
         (InteractionRepo.was_active (db w0) (viewer, id, collate InteractionDomain.ActionTypeLike))
         (InteractionRepo.was_active (db w0) (viewer, id, collate InteractionDomain.ActionTypeFavorite))))
    (fun err w' => db w' = db w) w.
Proof.
  intros Hok Hdb Hv. unfold BatchGetViewerActionStates. destruct (Z.leb_spec viewer 0); [lia|]. simpl.
  case_bool_decide as Hnil; [apply wp_ret; split; [done|]; subst; by intros id ?%elem_of_nil|].
  apply wp_bind, wp_query; [|done]. intros e. apply wp_ret. split; [done|]. intros id Hid. simpl. rewrite Hdb.
  rewrite (foldl_add_action _ _ id false false); [|by apply (lookup_list_to_map_ids (fun id => mkViewerActionState id false false))].
  assert (InteractionRepo.action_type_ok InteractionDomain.ActionTypeLike) as Hl by by left.
  assert (InteractionRepo.action_type_ok InteractionDomain.ActionTypeFavorite) as Hf by by right.
  by rewrite !viewer_action_found.
Qed.

(** *** Counters *)

(** The loop over the rows leaves a video's last row, or what was there before. *)
Lemma foldl_stats (models : list FeedStat) (stats : gmap Z FeedStat) id x :
  (forall s, s ∈ models -> fs_VideoID s = id -> s = x) ->
  (stats !! id = Some x \/ x ∈ models /\ fs_VideoID x = id) ->
  foldl (fun stats s => <[fs_VideoID s := s]> stats) stats models !! id = Some x.
Proof.
  revert stats. induction models as [|s models IH]; intros stats Hall Hx; simpl.
  { destruct Hx as [|[[]%elem_of_nil _]]; done. }
  apply IH; [intros s' Hs'; apply Hall; by apply elem_of_cons, or_intror|].
  destruct (decide (fs_VideoID s = id)) as [Hs|Hs].
  - left. rewrite Hs, lookup_insert_eq. f_equal. apply Hall; [apply elem_of_cons; by left|done].
  - rewrite lookup_insert_ne by done. destruct Hx as [|[[<-|]%elem_of_cons ?]]; auto. done.
Qed.

(** The counters a card shows. *)
Definition true_stat (d : Tables) (id : Z) : FeedStat :=
  mkFeedStat id (map_count (InteractionRepo.active_action id InteractionDomain.ActionTypeLike) (interaction_action d))
    (map_count (InteractionRepo.normal_comment id) (interaction_comment d))
    (map_count (InteractionRepo.active_action id InteractionDomain.ActionTypeFavorite) (interaction_action d)).

Lemma feed_stat_true w v s :
  InteractionRepo.counters_ok w -> video_stat (db w) !! v = Some s -> feed_stat s = true_stat (db w) v.
Proof.
  intros Hok Hs. destruct (InteractionRepo.ck_stat w Hok _ _ Hs) as (Hl & Hf & Hc).
  rewrite (InteractionRepo.ck_stat_key w Hok _ _ Hs). unfold feed_stat, true_stat. by rewrite Hl, Hf, Hc.
Qed.

Lemma no_stat_true w v :
  InteractionRepo.counters_ok w -> video_stat (db w) !! v = None -> mkFeedStat v 0 0 0 = true_stat (db w) v.
Proof.
  intros Hok Hn. destruct (InteractionRepo.no_stat_counts w v Hok Hn) as [Ha Hc].
  unfold true_stat. by rewrite !Ha, Hc.
Qed.

Lemma wp_BatchGetFeedStats w0 w ids :
  InteractionRepo.counters_ok w0 -> db w = db w0 ->
  wp (BatchGetFeedStats ids)
    (fun stats w' => db w' = db w /\ forall id, id ∈ ids -> stats !! id = Some (true_stat (db w) id))
    (fun err w' => db w' = db w) w.
Proof.
  intros Hok Hdb. unfold BatchGetFeedStats. destruct ids as [|i ids].
  { apply wp_ret. split; [done|]. by intros id ?%elem_of_nil. }
  apply wp_bind, wp_query; [|done]. intros e. apply wp_ret. split; [done|]. intros id Hid. rewrite Hdb.
  set (all := i :: ids) in *. apply foldl_stats.
  - intros s (m & -> & (k & Hk & _)%elem_of_select_rows)%list_elem_of_fmap Hm.
    rewrite (feed_stat_true w0 k m Hok Hk). unfold true_stat at 1.
    pose proof (InteractionRepo.ck_stat_key w0 Hok _ _ Hk) as ->. simpl in Hm. by rewrite Hm.
  - destruct (video_stat (db w0) !! id) as [m|] eqn:Hm.
    + right. split; [|done]. rewrite <-(feed_stat_true w0 id m Hok Hm). apply list_elem_of_fmap. exists m.
      split; [done|]. apply elem_of_select_rows. exists id. split; [done|].
      rewrite <-(InteractionRepo.ck_stat_key w0 Hok _ _ Hm). by apply in_ids_spec.
    + left. rewrite <-(no_stat_true w0 id Hok Hm).
      by apply (lookup_list_to_map_ids (fun id => mkFeedStat id 0 0 0)).
Qed.

(** *** Followers *)

#[local] Instance Zle_trans : Transitive Z.le.
Proof. intros x y z. lia. Qed.
#[local] Instance Zle_total : Total Z.le.
Proof. intros x y. lia. Qed.

Lemma elem_of_followers d a u :
  RelationRepo.relation_ok d ->
  u ∈ followers a d <-> RelationRepo.is_following (user_follow d) u a = true.
Proof.
  intros Hok. unfold followers, ascending, RelationRepo.is_following.
  rewrite merge_sort_Permutation, list_elem_of_fmap. split.
  - intros (f & -> & (k & Hk & [Ht%Z.eqb_eq Hs]%andb_true_iff)%elem_of_select_rows).
    destruct (RelationRepo.rk_follow _ Hok _ _ Hk) as [-> _]. by rewrite <-Ht, Hk.
  - destruct (user_follow d !! (u, a)) as [f|] eqn:Hf; [|done]. intros Hs.
    destruct (RelationRepo.rk_follow _ Hok _ _ Hf) as [[= Hu Ha] _]. exists f. split; [done|].
    apply elem_of_select_rows. exists (u, a). split; [done|]. by rewrite <-Ha, Z.eqb_refl.
Qed.

(** Each follower once, in ascending order. *)
Lemma followers_sorted d a : RelationRepo.relation_ok d -> StronglySorted Z.lt (followers a d).
Proof.
  intros Hok.
  assert (NoDup (followers a d)) as Hnd.
  { unfold followers, ascending. rewrite merge_sort_Permutation.
    assert (forall f, f ∈ select_rows (fun f => (fm_TargetUserID f =? a)
      && (fm_Status f =? RelationDomain.FollowStatusActive)) (user_follow d) ->
      user_follow d !! (fm_UserID f, a) = Some f) as Hkey.
    { intros f (k & Hk & [Ht%Z.eqb_eq _]%andb_true_iff)%elem_of_select_rows.
      destruct (RelationRepo.rk_follow _ Hok _ _ Hk) as [-> _]. by rewrite Ht in Hk. }
    apply NoDup_fmap_2_strong.
    - intros f g Hf%Hkey Hg%Hkey Heq. rewrite Heq in Hf. congruence.
    - eapply NoDup_fmap_1, (select_rows_NoDup (fun f => (fm_UserID f, fm_TargetUserID f))).
      intros i j f g Hf Hg Heq. apply (RelationRepo.rk_follow _ Hok) in Hf as [-> _], Hg as [-> _]. done. }
  assert (StronglySorted Z.le (followers a d)) as Hs by (apply StronglySorted_merge_sort; apply _).
  induction Hs as [|x l Hs IH Hall]; [constructor|]. apply NoDup_cons in Hnd as [Hx Hnd].
  constructor; [by apply IH|]. rewrite Forall_forall in *. intros y Hy. specialize (Hall y Hy).
  assert (x <> y) by congruence. lia.
Qed.

(** Going on from the last of a batch gives the followers after it. *)
Lemma filter_beyond fs cursor rest n last_ :
  StronglySorted Z.lt fs -> Forall (fun id => 0 < id) fs ->
  filter (fun id => beyond cursor id = true) fs = rest ->
  last (take n rest) = Some last_ ->
  filter (fun id => beyond last_ id = true) fs = drop n rest.
Proof.
  intros Hs Hpos Hrest Hlast.
  assert (last_ ∈ take n rest) as Hin by by apply last_Some_elem_of.
  assert (last_ ∈ rest) as Hin' by by eapply elem_of_take in Hin as (? & ? & _); eapply list_elem_of_lookup_2.
  pose proof Hin' as Hfs. rewrite <-Hrest in Hfs. apply list_elem_of_filter in Hfs as [Hc Hfs].
  pose proof (proj1 (Forall_forall _ _) Hpos _ Hfs) as H0. simpl in H0.
  transitivity (filter (fun id => beyond last_ id = true) rest).
  { rewrite <-Hrest. rewrite list_filter_filter_l; [done|]. intros id. unfold beyond in *.
    destruct (0 <? cursor), (0 <? last_) eqn:?; lia || done. }
  assert (StronglySorted Z.lt rest) as Hsr.
  { rewrite <-Hrest. by apply StronglySorted_filter. }
  clear Hrest Hc Hfs Hs Hpos Hin'.
  apply last_Some in Hlast as [l Hl].
  assert (rest = (l ++ [last_]) ++ drop n rest) as Hsplit by by rewrite <-Hl, take_drop.
  rewrite Hsplit in Hsr |- * at 1. rewrite filter_app, filter_none, filter_all; [done|..].
  - intros id Hid. pose proof (StronglySorted_app_1_elem_of _ _ _ last_ id Hsr) as Hlt.
    unfold beyond. destruct (0 <? last_); [|done]. rewrite elem_of_app, list_elem_of_singleton in Hlt.
    specialize (Hlt (or_intror eq_refl) Hid). lia.
  - apply StronglySorted_app_1_l in Hsr. intros id [Hid| ->%list_elem_of_singleton]%elem_of_app;
      unfold beyond; (destruct (Z.ltb_spec 0 last_); [|lia]); [|lia].
    pose proof (StronglySorted_app_1_elem_of _ _ _ id last_ Hsr Hid) as Hlt.
    rewrite list_elem_of_singleton in Hlt. specialize (Hlt eq_refl). lia.
Qed.

(** The number of followers is true, with or without a row of counters. *)
Lemma wp_CountFollowers w a :
  RelationRepo.relation_ok (db w) ->
  wp (CountFollowers a)
    (fun n w' => db w' = db w /\ (exists e, w' = with_env w e) /\
       n = map_count (RelationRepo.followed a) (user_follow (db w)))
    (fun err w' => db w' = db w) w.
Proof.
  intros Hok. unfold CountFollowers. pose proof (RelationRepo.rk_counts _ Hok a) as Hc.
  unfold RelationRepo.counts_of in Hc. apply wp_bind, wp_attempt, wp_take_row.
  - intros rs e Hrs. rewrite Hrs in Hc. injection Hc as _ Hc. apply wp_ret. split_and!; [done|by exists e|done].
  - intros e Hn. rewrite Hn in Hc. injection Hc as _ Hc. apply wp_ret. split_and!; [done|by exists e|done].
  - intros t e. by apply wp_throw.
Qed.

End FeedRepo.
