(* ===== verification/RecommendationRepo.v ===== *)
(** * Recommendation and embedding repositories
    ([internal/infra/persistence/recommendation/gorm.go],
    [internal/infra/persistence/embedding/gorm.go])

    The candidates of a user, the vectors of the videos and of the user's interest, and the
    upsert of a vector. The exposures are in [ExposureRepo.v]. *)
From S2P Require Import Prelude.
From S2P Require Import GoStd.
From S2P Require VideoDomain.
From S2P Require ExposureDomain.
From S2P Require Import EmbeddingDomain.
From S2P Require Import RecommendationDomain.
From S2P Require Import Errors.
From S2P Require Import Models.
From S2P Require Import Store.
From S2P Require Import Paging.
From S2P Require Import Codec.
From S2P Require FeedRepo.

Definition positiveEventWindow : Z := 30 * 24 * hour.

Section RecommendationRepo.
Context `{Collation} `{Codec}.

(** ** Candidates *)

(** [LEFT JOIN exposures AS e ON … WHERE e.video_id IS NULL]. *)
Definition recently_exposed (userID : Z) (since : Time) (d : Tables) (videoID : Z) : bool :=
  match exposures d !! (userID, videoID) with
  | Some x => since <=? xm_LastExposedAt x
  | None => false
  end.

(** [hotScoreExpression] is the feed's; so is the order. *)
Definition candidate_page (userID : Z) (since : Time) (limit : Z) (d : Tables) : list VideoModel :=
  sql_page (FeedRepo.hot_pos d) None limit
    (select_rows (fun v => FeedRepo.basePageQuery v
       && negb (recently_exposed userID since d (vm_ID v))) (video d)).

Definition restore_candidate (d : Tables) (v : VideoModel) : Candidate :=
  RestoreCandidate (vm_ID v) (vm_AuthorID v) float_zero float_zero
    (FeedRepo.hotScoreExpression d v) float_zero "" (FeedRepo.published_at v).

Definition ListCandidatePool (userID limit : Z) : M (list Candidate) :=
  if limit <=? 0 then mret [] else
  now ← time_now;
  query (fun d => restore_candidate d <$>
    candidate_page userID (now - RecentExposureWindow) limit d).

(** ** Vectors *)

Definition decodeVector (content : string) : option (list float64) := json_UnmarshalFloats content.

Definition positiveEventTypes : list string :=
  [ExposureDomain.EventTypePlay; ExposureDomain.EventTypeComplete].

Definition eventWeight (eventType : string) (watchMs : Z) (completed : bool) : float64 :=
  if String.eqb eventType ExposureDomain.EventTypeComplete then float_of_int 3
  else if String.eqb eventType ExposureDomain.EventTypePlay then
    let weight := float_add (float_of_int 1) (float_div (float_of_int watchMs) (float_of_int 30000)) in
    let weight := if float_ltb (float_of_int 2) weight then float_of_int 2 else weight in
    if completed then float_add weight (float_of_int 1) else weight
  else float_of_int 1.

(** The vector of a video under the model of this code. *)
Definition embedding_of (d : Tables) (videoID : Z) : option VideoEmbeddingModel :=
  video_embedding d !! (videoID, collate HashNgramModel).

(** [ORDER BY ev.created_at DESC]; among events of the same time, the newest id first. *)
Definition event_pos (e : ViewEventModel) : Time * Z := (em_CreatedAt e, em_ID e).

Definition interest_events (userID : Z) (since : Time) (d : Tables) : list (string * ViewEventModel) :=
  omap (fun e => (fun b => (bm_EmbeddingJSON b, e)) <$> embedding_of d (em_VideoID e))
    (sql_page event_pos None 200 (select_rows (fun e => (em_UserID e =? userID)
       && (since <=? em_CreatedAt e)
       && existsb (fun t => String.eqb (collate (em_EventType e)) (collate t)) positiveEventTypes
       && bool_decide (is_Some (embedding_of d (em_VideoID e)))) (video_view_events d))).

(** The body of the loop over the rows: the weighted sum and the total weight. *)
Definition add_interest (acc : list float64 * float64) (row : string * ViewEventModel)
    : list float64 * float64 :=
  let '(sum, totalWeight) := acc in
  let '(embeddingJSON, e) := row in
  match decodeVector embeddingJSON with
  | None | Some [] => acc
  | Some vector =>
      let sum := match sum with [] => (fun _ => float_zero) <$> vector | _ => sum end in
      if negb (Nat.eqb (length vector) (length sum)) then (sum, totalWeight)
      else
        let weight := eventWeight (em_EventType e) (em_WatchMs e) (em_Completed e) in
        (zip_with (fun s x => float_add s (float_mul x weight)) sum vector,
         float_add totalWeight weight)
  end.

Definition LoadUserInterestVector (userID : Z) : M (option (list float64)) :=
  now ← time_now;
  rows ← query (interest_events userID (now - positiveEventWindow));
  let '(sum, totalWeight) := foldl add_interest ([], float_zero) rows in
  if bool_decide (sum = []) || float_eqb totalWeight float_zero then mret None
  else mret (Some ((fun s => float_div s totalWeight) <$> sum)).

Definition LoadVideoVectors (videoIDs : list Z) : M (gmap Z (list float64)) :=
  match videoIDs with
  | [] => mret ∅
  | _ =>
      models ← query (fun d => select_rows (fun b => FeedRepo.in_ids videoIDs (bm_VideoID b)
        && String.eqb (collate (bm_Model b)) (collate HashNgramModel)) (video_embedding d));
      mret (foldl (fun vectors b => match decodeVector (bm_EmbeddingJSON b) with
              | Some vector => <[bm_VideoID b := vector]> vectors
              | None => vectors
              end) ∅ models)
  end.

(** [INSERT … ON DUPLICATE KEY UPDATE]: the key is the pair of video and model. *)
Definition merge_embedding (e : VideoEmbedding) (now : Time) (old : option VideoEmbeddingModel)
    : VideoEmbeddingModel :=
  match old with
  | None => mkVideoEmbeddingModel (ve_VideoID e) (ve_Model e) (ve_Dimension e)
              (ve_EmbeddingJSON e) (ve_TextHash e) now now
  | Some b => mkVideoEmbeddingModel (bm_VideoID b) (bm_Model b) (ve_Dimension e)
                (ve_EmbeddingJSON e) (ve_TextHash e) (bm_CreatedAt b) now
  end.

Definition SaveVideoEmbedding (e : VideoEmbedding) : M unit :=
  now ← time_now;
  update (fun d =>
    let key := (ve_VideoID e, collate (ve_Model e)) in
    set_video_embedding <[key := merge_embedding e now (video_embedding d !! key)]> d).

Definition FindVideoEmbedding (videoID : Z) (model : string) : M (option VideoEmbedding) :=
  found ← query (fun d => video_embedding d !! (videoID, collate model));
  mret ((fun b => RestoreVideoEmbedding (bm_VideoID b) (bm_Model b) (bm_Dimension b)
    (bm_EmbeddingJSON b) (bm_TextHash b) (bm_CreatedAt b) (bm_UpdatedAt b)) <$> found).

(** ** Every vector is stored under its key *)

Definition embeddings_ok (d : Tables) : Prop :=
  map_Forall (fun k b => k = (bm_VideoID b, collate (bm_Model b))) (video_embedding d).

(** The row is the vector's, everything else stays; a call that fails changes nothing. *)
Definition embedding_saved (e : VideoEmbedding) (d d' : Tables) : Prop :=
  exists now, d' = set_video_embedding <[(ve_VideoID e, collate (ve_Model e)) :=
    merge_embedding e now (video_embedding d !! (ve_VideoID e, collate (ve_Model e)))]> d.

Lemma wp_SaveVideoEmbedding e w :
  wp (SaveVideoEmbedding e) (fun _ w' => embedding_saved e (db w) (db w') /\ grows w w')
    (fun _ w' => db w' = db w /\ grows w w') w.
Proof.
  apply wp_bind, wp_time_now. intros now env _ _. apply wp_update.
  - intros env'. split; [|auto with store]. by exists now.
  - intros t env'. simpl. auto with store.
Qed.

Lemma embedding_saved_ok e d d' : embeddings_ok d -> embedding_saved e d d' -> embeddings_ok d'.
Proof.
  intros Hd [now ->]. unfold embeddings_ok. simpl. apply map_Forall_insert_2; [|done].
  unfold merge_embedding. destruct (video_embedding d !! _) as [b|] eqn:Hb; [|done].
  exact (Hd _ _ Hb).
Qed.

(** The loop of [LoadVideoVectors] over rows that agree on each video. *)
Lemma foldl_vectors (f : VideoEmbeddingModel -> option (list float64)) l (acc : gmap Z (list float64)) v x :
  (forall a b, a ∈ l -> b ∈ l -> bm_VideoID a = bm_VideoID b -> f a = f b) ->
  foldl (fun vectors b => match f b with Some y => <[bm_VideoID b := y]> vectors | None => vectors end) acc l !! v
    = Some x <->
  (exists b, b ∈ l /\ bm_VideoID b = v /\ f b = Some x) \/
  (acc !! v = Some x /\ forall b, b ∈ l -> bm_VideoID b = v -> f b = None).
Proof.
  revert acc. induction l as [|b l IH]; intros acc Hu; simpl; [set_solver|].
  setoid_rewrite elem_of_cons in Hu. rewrite IH by eauto. setoid_rewrite elem_of_cons.
  destruct (f b) as [y|] eqn:Hy; [|naive_solver].
  destruct (decide (bm_VideoID b = v)) as [<-|Hv].
  - rewrite lookup_insert_eq. split.
    + intros [(o & Ho & E & Hx)|[[= ->] Hn]]; left; [by exists o; auto|by exists b; auto].
    + intros [(o & Ho & E & Hx)|[_ Hn]]; [|by rewrite Hn in Hy; auto].
      destruct (decide (Exists (fun o => bm_VideoID o = bm_VideoID b) l)) as [(a & Ha & E')%Exists_exists|Hno].
      * left. exists a. split_and!; [done|done|]. rewrite <-Hx. apply Hu; [by right|done|congruence].
      * right. assert (o = b) as ->.
        { destruct Ho as [|Ho]; [done|]. destruct Hno. apply Exists_exists. eauto. }
        split; [congruence|]. intros a Ha E'. destruct Hno. apply Exists_exists. eauto.
  - rewrite lookup_insert_ne by done. naive_solver.
Qed.

Definition vector_of (d : Tables) (videoID : Z) : option (list float64) :=
  embedding_of d videoID ≫= fun b => decodeVector (bm_EmbeddingJSON b).

(** The vectors that are loaded are those of the rows of the videos. *)
Lemma wp_LoadVideoVectors ids w :
  embeddings_ok (db w) ->
  wp (LoadVideoVectors ids)
    (fun vectors w' => db w' = db w /\ forall v, vectors !! v = if FeedRepo.in_ids ids v then vector_of (db w) v else None)
    (fun _ w' => db w' = db w) w.
Proof.
  intros Hok. unfold LoadVideoVectors. destruct ids as [|i ids].
  { apply wp_ret. split; [done|]. intros v. by rewrite lookup_empty. }
  apply wp_bind, wp_query; [|done]. intros e. apply wp_ret. split; [done|]. intros v.
  set (rows := select_rows _ _).
  assert (forall b, b ∈ rows <-> FeedRepo.in_ids (i :: ids) (bm_VideoID b) = true /\ embedding_of (db w) (bm_VideoID b) = Some b) as Hrows.
  { intros b. unfold rows, embedding_of. rewrite elem_of_select_rows. split.
    - intros (k & Hk & [Hin Hm%String.eqb_eq]%andb_true_iff). split; [done|].
      pose proof (Hok _ _ Hk) as E. simpl in E. by rewrite <-Hm, <-E.
    - intros [Hin Hb]. eexists. split; [exact Hb|]. rewrite Hin. apply Hok in Hb as [= <-].
      exact (String.eqb_refl _). }
  apply option_eq. intros x. rewrite foldl_vectors, lookup_empty.
  2: { intros a b [_ Ha]%Hrows [_ Hb]%Hrows E. congruence. }
  unfold vector_of. split.
  - intros [(b & [Hin Hb]%Hrows & <- & Hx)|[[=] _]]. by rewrite Hin, Hb.
  - destruct (FeedRepo.in_ids (i :: ids) v) eqn:Hin; [|done]. intros (b & Hb & Hx)%bind_Some. left. exists b.
    pose proof (Hok _ _ Hb) as [= E _]. subst v. split_and!; [by apply Hrows|done|done].
Qed.

(** ** What the queries return *)

(** A candidate is a published video the user has not been shown since. *)
Lemma elem_of_candidate_page u since limit d v :
  v ∈ candidate_page u since limit d ->
  (exists k, video d !! k = Some v) /\ FeedRepo.basePageQuery v = true /\
  recently_exposed u since d (vm_ID v) = false.
Proof.
  intros (Hv & _)%elem_of_sql_page. apply elem_of_select_rows in Hv as (k & Hk & [Hb Hr]%andb_true_iff).
  apply negb_true_iff in Hr. split_and!; [by exists k|done|done].
Qed.

End RecommendationRepo.
