(* ===== verification/ExposureRepo.v ===== *)
(** * Exposure repository ([internal/infra/persistence/exposure/gorm.go]) and the writes of
    the recommendation repository ([internal/infra/persistence/recommendation/gorm.go])

    Both log the event and upsert the aggregate of the user and the video in the same
    transaction; [exposures_ok] says that an aggregate counts the logged events. *)
From S2P Require Import Prelude.
From S2P Require Import GoStd.
From S2P Require VideoDomain.
From S2P Require Import ExposureDomain.
From S2P Require RecommendationDomain.
From S2P Require Import Errors.
From S2P Require Import Models.
From S2P Require Import Store.

Definition stringPtr (value : string) : option string :=
  if String.eqb value "" then None else Some value.

Definition stringValue (value : option string) : string := default ""%string value.

Definition restoreViewEvent (model : ViewEventModel) : ViewEvent :=
  RestoreViewEvent (em_ID model) (em_UserID model) (em_VideoID model) (em_Scene model)
    (stringValue (em_RequestID model)) (em_EventType model) (em_WatchMs model)
    (em_Completed model) (em_CreatedAt model).

Definition restoreExposure (model : ExposureModel) : Exposure :=
  RestoreExposure (xm_ID model) (xm_UserID model) (xm_VideoID model) (xm_FirstExposedAt model)
    (xm_LastExposedAt model) (xm_ExposureCount model) (xm_LastScene model) (xm_CreatedAt model)
    (xm_UpdatedAt model).

Definition mapExposureError (err : error) : error := err.

(** [WHERE id = ? AND status = published]; [missing] is the error of the calling package. *)
Definition published (videoID : Z) (d : Tables) : option VideoModel :=
  v ← video d !! videoID;
  if vm_Status v =? VideoDomain.StatusPublished then Some v else None.

Definition ensurePublished (missing : error) (videoID : Z) : M unit :=
  map_error (fun err => if errors_Is err ERecordNotFound then missing else err)
    (_ ← take_row (published videoID); mret tt).

Definition ensurePublishedVideo (videoID : Z) : M unit :=
  ensurePublished (EExposure ErrVideoNotFound) videoID.

Definition create_view_event (u v : Z) (scene : string) (rid : option string) (t : string)
    (watchMs : Z) (completed : bool) : M ViewEventModel :=
  insert_row "video_view_events"
    (fun id now => mkViewEventModel id u v scene rid t watchMs completed now)
    (fun _ _ => false)
    (fun e => set_video_view_events <[em_ID e := e]>).

(** [INSERT … ON DUPLICATE KEY UPDATE last_exposed_at = VALUES(…), exposure_count =
    exposure_count + 1, last_scene = VALUES(…), updated_at = VALUES(…)]. *)
Definition merge_exposure (u v : Z) (scene : string) (at_ : Time) (id now : Z)
    (old : option ExposureModel) : ExposureModel :=
  match old with
  | None => mkExposureModel id u v at_ at_ 1 scene now now
  | Some x => mkExposureModel (xm_ID x) (xm_UserID x) (xm_VideoID x) (xm_FirstExposedAt x) at_
                (xm_ExposureCount x + 1) scene (xm_CreatedAt x) now
  end.

Definition upsert_exposure (u v : Z) (scene : string) (at_ : Time) : M unit :=
  upsert_row "exposures" (fun id now d =>
    set_exposures <[(u, v) := merge_exposure u v scene at_ id now (exposures d !! (u, v))]> d).

Definition SaveViewEvent (event : ViewEvent) : M (ViewEvent * option Exposure) :=
  '(eventModel, exposureModel) ← map_error mapExposureError (transaction (
    _ ← ensurePublishedVideo (e_VideoID event);
    eventModel ← create_view_event (e_UserID event) (e_VideoID event) (e_Scene event)
                   (stringPtr (e_RequestID event)) (e_EventType event) (e_WatchMs event)
                   (e_Completed event);
    if negb (CountsAsExposure (Some event)) then mret (eventModel, None)
    else
      _ ← upsert_exposure (e_UserID event) (e_VideoID event) (e_Scene event) (em_CreatedAt eventModel);
      x ← take_row (fun d => exposures d !! (e_UserID event, e_VideoID event));
      mret (eventModel, Some x)));
  mret (restoreViewEvent eventModel, restoreExposure <$> exposureModel).

(** ** The recommendation repository *)

Definition rec_ensurePublishedVideo (videoID : Z) : M unit :=
  ensurePublished (ERecommendation RecommendationDomain.ErrVideoNotFound) videoID.

Definition restoreRecExposure (model : ExposureModel) : RecommendationDomain.RecExposure :=
  RecommendationDomain.RestoreRecExposure (xm_ID model) (xm_UserID model) (xm_VideoID model)
    (xm_FirstExposedAt model) (xm_LastExposedAt model) (xm_ExposureCount model) (xm_LastScene model).

Definition ListRecentExposures (userID : Z) (videoIDs : list Z) (since : Time)
    : M (list RecommendationDomain.RecExposure) :=
  match videoIDs with
  | [] => mret []
  | _ =>
      models ← query (fun d => select_rows (fun x => (xm_UserID x =? userID)
                 && bool_decide (xm_VideoID x ∈ videoIDs) && (since <=? xm_LastExposedAt x))
                 (exposures d));
      mret (restoreRecExposure <$> models)
  end.

(** One turn of the loop of [SaveExposures]. *)
Definition save_exposure (write : RecommendationDomain.ExposureWrite)
    : M RecommendationDomain.RecExposure :=
  let u := RecommendationDomain.ew_UserID write in
  let v := RecommendationDomain.ew_VideoID write in
  _ ← rec_ensurePublishedVideo v;
  event ← create_view_event u v (RecommendationDomain.ew_Scene write)
            (stringPtr (RecommendationDomain.ew_RequestID write)) EventTypeExposed 0 false;
  _ ← upsert_exposure u v (RecommendationDomain.ew_Scene write) (em_CreatedAt event);
  saved ← take_row (fun d => exposures d !! (u, v));
  mret (restoreRecExposure saved).

Fixpoint save_exposures (writes : list (option RecommendationDomain.ExposureWrite))
    : M (list RecommendationDomain.RecExposure) :=
  match writes with
  | [] => mret []
  | None :: writes => save_exposures writes
  | Some write :: writes =>
      saved ← save_exposure write;
      rest ← save_exposures writes;
      mret (saved :: rest)
  end.

Definition SaveExposures (writes : list (option RecommendationDomain.ExposureWrite))
    : M (list RecommendationDomain.RecExposure) :=
  match writes with
  | [] => mret []
  | _ => transaction (save_exposures writes)
  end.

(** ** The invariant *)

Definition exposed (u v : Z) (e : ViewEventModel) : bool :=
  (em_UserID e =? u) && (em_VideoID e =? v) && String.eqb (em_EventType e) EventTypeExposed.

Definition exposure_count (d : Tables) (u v : Z) : Z :=
  match exposures d !! (u, v) with Some x => xm_ExposureCount x | None => 0 end.

Record exposures_ok (w : World) : Prop := {
  xk_key : forall u v x, exposures (db w) !! (u, v) = Some x -> xm_UserID x = u /\ xm_VideoID x = v;
  xk_event : forall id e, video_view_events (db w) !! id = Some e -> id = em_ID e;
  xk_fresh : ids_below (next_id "video_view_events" w) (video_view_events (db w));
  xk_count : forall u v, exposure_count (db w) u v = map_count (exposed u v) (video_view_events (db w));
}.

Lemma exposures_ok_mono w w' :
  exposures_ok w -> exposures (db w') = exposures (db w) ->
  video_view_events (db w') = video_view_events (db w) -> grows w w' -> exposures_ok w'.
Proof.
  intros [Hk He Hf Hc] Hx Hv Hg. split; unfold exposure_count; rewrite ?Hx, ?Hv; try done.
  eapply ids_below_mono; [exact Hf|apply Hg].
Qed.

(** The tables after an event is logged and, if it is an exposure, counted. *)
Definition event_logged (d : Tables) (e : ViewEventModel) (x : option ExposureModel) (d' : Tables) : Prop :=
  match x with
  | None => e.(em_EventType) <> EventTypeExposed /\ d' = set_video_view_events <[em_ID e := e]> d
  | Some x => e.(em_EventType) = EventTypeExposed /\
      (exists id now, x = merge_exposure (em_UserID e) (em_VideoID e) (em_Scene e) (em_CreatedAt e) id now
                            (exposures d !! (em_UserID e, em_VideoID e))) /\
      d' = set_exposures <[(em_UserID e, em_VideoID e) := x]> (set_video_view_events <[em_ID e := e]> d)
  end.

Lemma event_logged_ok w w' e x :
  exposures_ok w -> event_logged (db w) e x (db w') -> video_view_events (db w) !! em_ID e = None ->
  em_ID e < next_id "video_view_events" w' -> grows w w' -> exposures_ok w'.
Proof.
  intros [Hk He Hf Hc] Hlog Hnew Hid Hg.
  assert (video_view_events (db w') = <[em_ID e := e]> (video_view_events (db w))) as Hev.
  { destruct x; [destruct Hlog as (_ & _ & ->)|destruct Hlog as [_ ->]]; done. }
  assert (forall u v, map_count (exposed u v) (video_view_events (db w'))
            = map_count (exposed u v) (video_view_events (db w)) + b2z (exposed u v e)) as Hcount.
  { intros u v. by rewrite Hev, map_count_insert_new. }
  split.
  - intros u v y. destruct x as [x|]; [destruct Hlog as (_ & (id & now & Hx) & ->)|destruct Hlog as [_ ->]; apply Hk].
    simpl. destruct (decide ((u, v) = (em_UserID e, em_VideoID e))) as [[= -> ->]|Hne].
    + rewrite lookup_insert_eq. intros [= <-]. rewrite Hx. unfold merge_exposure. case_match; simpl; eauto.
    + rewrite lookup_insert_ne by done. apply Hk.
  - intros id o. rewrite Hev. destruct (decide (id = em_ID e)) as [->|Hne].
    + rewrite lookup_insert_eq. by intros [= <-].
    + rewrite lookup_insert_ne by done. apply He.
  - rewrite Hev. apply ids_below_insert; [|done]. eapply ids_below_mono; [exact Hf|apply Hg].
  - intros u v. rewrite Hcount, <-Hc. unfold exposure_count, exposed.
    destruct x as [x|]; [destruct Hlog as (Ht & (id & now & Hx) & ->)|destruct Hlog as [Ht ->]]; simpl.
    + destruct (decide ((u, v) = (em_UserID e, em_VideoID e))) as [[= -> ->]|Hne].
      * rewrite lookup_insert_eq, Hx, Ht, !Z.eqb_refl. unfold merge_exposure. by case_match.
      * rewrite lookup_insert_ne by done.
        destruct (Z.eqb_spec (em_UserID e) u), (Z.eqb_spec (em_VideoID e) v); subst; simpl; try done; lia.
    + destruct (String.eqb_spec (em_EventType e) EventTypeExposed); [done|].
      rewrite andb_false_r. simpl. lia.
Qed.

(** ** What the writes do *)

(** An event logged and counted by a write, seen from the worlds before and after. *)
Record event_saved (w : World) (e : ViewEventModel) (x : option ExposureModel) (w' : World) : Prop := {
  es_logged : event_logged (db w) e x (db w');
  es_new : video_view_events (db w) !! em_ID e = None;
  es_next : em_ID e < next_id "video_view_events" w';
  es_published : is_Some (published (em_VideoID e) (db w));
  es_grows : grows w w';
}.

Lemma wp_ensurePublished missing v Q E w :
  (is_Some (published v (db w)) -> forall e, Q tt (with_env w e)) ->
  (forall err e, (err = missing /\ published v (db w) = None) \/ (exists t, err = EDriver t) ->
     E err (with_env w e)) ->
  wp (ensurePublished missing v) Q E w.
Proof.
  intros HQ HE. unfold ensurePublished. apply wp_map_error, wp_bind, wp_take_row.
  - intros a e Ha. apply wp_ret, HQ. by eexists.
  - intros e Hn. apply HE. by left.
  - intros t e. apply HE. right. by exists t.
Qed.

(** Logging an event: the row and the world after it. *)
Lemma wp_create_view_event w w1 u v scene rid t watch c Q E :
  exposures_ok w -> db w1 = db w -> auto_inc w1 = auto_inc w ->
  (forall e w2, e = mkViewEventModel (em_ID e) u v scene rid t watch c (em_CreatedAt e) ->
     video_view_events (db w) !! em_ID e = None -> em_ID e < next_id "video_view_events" w2 ->
     db w2 = set_video_view_events <[em_ID e := e]> (db w) -> grows w w2 -> Q e w2) ->
  (forall txt e, E (EDriver txt) (with_env w1 e)) ->
  wp (create_view_event u v scene rid t watch c) Q E w1.
Proof.
  intros Hok Hdb Hai HQ HE. unfold create_view_event. apply wp_insert_row; [|done|done].
  intros now e _ row ai _. apply HQ; [done| | | |].
  - eapply ids_below_fresh; [apply (xk_fresh w Hok)|]. unfold row, next_id. simpl. rewrite Hai. lia.
  - unfold row, ai, next_id. simpl. rewrite lookup_insert_eq. simpl. unfold next_id. simpl. lia.
  - simpl. by rewrite Hdb.
  - apply grows_insert_trans. intros n. unfold next_id. rewrite Hai. lia.
Qed.

Lemma wp_upsert_exposure w e0 w2 Q E :
  db w2 = set_video_view_events <[em_ID e0 := e0]> (db w) -> grows w w2 ->
  em_EventType e0 = EventTypeExposed ->
  (forall x w3, event_logged (db w) e0 (Some x) (db w3) ->
     exposures (db w3) !! (em_UserID e0, em_VideoID e0) = Some x ->
     next_id "video_view_events" w3 = next_id "video_view_events" w2 -> grows w w3 -> Q x w3) ->
  (forall txt w3, grows w w3 -> E (EDriver txt) w3) ->
  wp (_ ← upsert_exposure (em_UserID e0) (em_VideoID e0) (em_Scene e0) (em_CreatedAt e0);
      take_row (fun d => exposures d !! (em_UserID e0, em_VideoID e0))) Q E w2.
Proof.
  intros Hdb Hg Ht HQ HE. apply wp_bind. unfold upsert_exposure. apply wp_upsert_row.
  - intros now e _. apply wp_take_row.
    + intros x e' Hx. simpl in Hx. rewrite lookup_insert_eq in Hx. injection Hx as <-. rewrite Hdb. simpl.
      apply HQ.
      * simpl. split; [done|]. split; [by eexists _, _|done].
      * simpl. by rewrite lookup_insert_eq.
      * unfold next_id. simpl. by rewrite lookup_insert_ne.
      * by apply grows_env, grows_insert_trans.
    + intros e' Hx. simpl in Hx. by rewrite lookup_insert_eq in Hx.
    + intros txt e'. apply HE. by apply grows_env, grows_insert_trans.
  - intros txt e. apply HE. auto with store.
Qed.

(** The world after an event of the given contents is saved. *)
Definition event_of (u v : Z) (scene : string) (rid : option string) (t : string) (watch : Z)
    (c : bool) (e : ViewEventModel) : Prop :=
  em_UserID e = u /\ em_VideoID e = v /\ em_Scene e = scene /\ em_RequestID e = rid /\
  em_EventType e = t /\ em_WatchMs e = watch /\ em_Completed e = c.

(** Log and count an exposure after the check of the video: the common part of both
    repositories. *)
Lemma wp_log_exposure {A} w w1 u v scene rid watch c missing (k : ViewEventModel -> ExposureModel -> M A) Q E :
  exposures_ok w -> db w1 = db w -> auto_inc w1 = auto_inc w ->
  (forall e x w', event_saved w e (Some x) w' -> event_of u v scene rid EventTypeExposed watch c e ->
     wp (k e x) Q E w') ->
  (forall err w', ((err = missing /\ published v (db w) = None) \/ (exists t, err = EDriver t)) ->
     grows w w' -> E err w') ->
  wp (_ ← ensurePublished missing v;
      e ← create_view_event u v scene rid EventTypeExposed watch c;
      _ ← upsert_exposure u v scene (em_CreatedAt e);
      x ← take_row (fun d => exposures d !! (u, v));
      k e x) Q E w1.
Proof.
  intros Hok Hdb Hai HQ HE.
  assert (grows w w1) as Hg1 by (intros n; unfold next_id; rewrite Hai; lia).
  apply wp_bind, wp_ensurePublished.
  2: { intros err e He. rewrite Hdb in He. apply HE; auto with store. }
  intros Hpub e1. rewrite Hdb in Hpub.
  apply wp_bind, (wp_create_view_event w); [done|done|done| |].
  2: { intros txt e. apply HE; [eauto|auto with store]. }
  intros e w2 He Hnew Hnext Hdb2 Hg2.
  assert (event_of u v scene rid EventTypeExposed watch c e) as Hof by (rewrite He; done).
  destruct Hof as (Hu & Hv & Hs & Hr & Ht & Hw & Hc).
  pose proof (wp_upsert_exposure w e w2 (fun x w' => wp (k e x) Q E w') E Hdb2 Hg2 Ht) as Hup.
  unfold wp in Hup |- *. unfold mbind, M_bind in *. rewrite Hu, Hv, Hs in Hup.
  destruct (upsert_exposure u v scene (em_CreatedAt e) w2) as [[err|[]] w3] eqn:Hrun.
  - apply Hup; [|intros txt w4 Hg4; by apply HE; eauto].
    intros x w4 Hlog Hx Hn Hg. apply HQ; [|by split_and!].
    split; [done|done|by rewrite Hn|by rewrite Hv|done].
  - destruct (take_row _ w3) as [[err|x] w4] eqn:Hrun2.
    + apply Hup; [|intros txt w5 Hg5; by apply HE; eauto].
      intros x w5 Hlog Hx Hn Hg. apply HQ; [|by split_and!].
      split; [done|done|by rewrite Hn|by rewrite Hv|done].
    + apply Hup; [|intros txt w5 Hg5; by apply HE; eauto].
      intros x' w5 Hlog Hx Hn Hg. apply HQ; [|by split_and!].
      split; [done|done|by rewrite Hn|by rewrite Hv|done].
Qed.

Lemma wp_SaveViewEvent w event :
  exposures_ok w ->
  wp (SaveViewEvent event)
    (fun r w' => exists e x, event_saved w e x w' /\
       event_of (e_UserID event) (e_VideoID event) (e_Scene event) (stringPtr (e_RequestID event))
         (e_EventType event) (e_WatchMs event) (e_Completed event) e /\
       r = (restoreViewEvent e, restoreExposure <$> x))
    (fun err w' => (db w' = db w /\
       ((err = EExposure ErrVideoNotFound /\ published (e_VideoID event) (db w) = None)
        \/ exists t, err = EDriver t)) /\ grows w w') w.
Proof.
  intros Hok. unfold SaveViewEvent. apply wp_bind, wp_map_error.
  eapply wp_mono; [apply (wp_transaction_stable _
    (fun r w' => event_saved w r.1 r.2 w' /\
       event_of (e_UserID event) (e_VideoID event) (e_Scene event) (stringPtr (e_RequestID event))
         (e_EventType event) (e_WatchMs event) (e_Completed event) r.1)
    (fun err => (err = EExposure ErrVideoNotFound /\ published (e_VideoID event) (db w) = None)
                \/ exists t, err = EDriver t))| |].
  - intros r w' e [[] ?]. split; [by split|done].
  - by intros r w' [[] _].
  - intros t. right. by exists t.
  - intros w1 Hdb Hai. unfold CountsAsExposure.
    destruct (String.eqb_spec (e_EventType event) EventTypeExposed) as [Heq|Hne]; simpl negb; cbv iota.
    + rewrite Heq. apply (wp_log_exposure w); [done|done|done| |].
      * intros e x w' Hs Hof. apply wp_ret. by split.
      * intros err w' He Hg. by split.
    + assert (grows w w1) as Hg1 by (intros n; unfold next_id; rewrite Hai; lia).
      apply wp_bind, wp_ensurePublished.
      2: { intros err e He. rewrite Hdb in He. auto with store. }
      intros Hpub e1. rewrite Hdb in Hpub. apply wp_bind, (wp_create_view_event w); [done|done|done| |].
      2: { intros txt e. split; [|auto with store]. right. by exists txt. }
      intros e w2 He Hnew Hnext Hdb2 Hg2. apply wp_ret. split; [|by rewrite He].
      split; simpl; try done; [|by rewrite He]. split; [by rewrite He|done].
  - intros [e x] w' [Hs Hof]. apply wp_ret. by exists e, x.
  - done.
Qed.

(** The worlds the loop of [SaveExposures] goes through. *)
Inductive exposures_saved : World -> list (option RecommendationDomain.ExposureWrite) ->
    list RecommendationDomain.RecExposure -> World -> Prop :=
  | saved_nil w w' : db w' = db w -> grows w w' -> exposures_saved w [] [] w'
  | saved_skip w writes rs w' :
      exposures_saved w writes rs w' -> exposures_saved w (None :: writes) rs w'
  | saved_cons w write e x w1 writes rs w' :
      event_saved w e (Some x) w1 ->
      event_of (RecommendationDomain.ew_UserID write) (RecommendationDomain.ew_VideoID write)
        (RecommendationDomain.ew_Scene write) (stringPtr (RecommendationDomain.ew_RequestID write))
        EventTypeExposed 0 false e ->
      exposures_saved w1 writes rs w' ->
      exposures_saved w (Some write :: writes) (restoreRecExposure x :: rs) w'.

Lemma exposures_saved_grows w writes rs w' : exposures_saved w writes rs w' -> grows w w'.
Proof. induction 1 as [| |w write e x w1 writes rs w' [] _ _ IH]; [done|done|]. by etrans. Qed.

Lemma exposures_saved_ok w writes rs w' :
  exposures_saved w writes rs w' -> exposures_ok w -> exposures_ok w'.
Proof.
  induction 1 as [w w' Hdb Hg| |w write e x w1 writes rs w' [] _ _ IH]; intros Hok; [|by auto|].
  - eapply exposures_ok_mono; [exact Hok|by rewrite Hdb|by rewrite Hdb|done].
  - apply IH. by eapply event_logged_ok.
Qed.

Lemma exposures_saved_env w writes rs w' e :
  exposures_saved w writes rs w' -> exposures_saved w writes rs (with_env w' e).
Proof. induction 1; econstructor; eauto with store. Qed.

Definition rec_failure (err : error) : Prop :=
  err = ERecommendation RecommendationDomain.ErrVideoNotFound \/ exists t, err = EDriver t.

Lemma wp_save_exposures writes w :
  exposures_ok w ->
  wp (save_exposures writes) (fun rs w' => exposures_saved w writes rs w')
     (fun err w' => rec_failure err /\ grows w w') w.
Proof.
  revert w. induction writes as [|[write|] writes IH]; intros w Hok; simpl.
  - apply wp_ret. by constructor.
  - unfold save_exposure. apply wp_bind.
    apply (wp_log_exposure w w); [done|done|done| |].
    + intros e x w1 Hs Hof. apply wp_ret, wp_bind.
      assert (exposures_ok w1) as Hok1 by (destruct Hs; by eapply event_logged_ok).
      pose proof (es_grows _ _ _ _ Hs) as Hg.
      eapply wp_mono; [by apply IH| |].
      * intros rs w' Hrs. apply wp_ret. by eapply saved_cons.
      * intros err w' [He Hg']. split; [done|]. by etrans.
    + intros err w' [[-> _]|[t ->]] Hg; (split; [|done]); [by left|right; by exists t].
  - eapply wp_mono; [by apply IH| |by auto]. intros rs w' Hrs. by apply saved_skip.
Qed.

Lemma exposures_saved_start w w1 writes rs w' :
  db w1 = db w -> auto_inc w1 = auto_inc w -> exposures_saved w1 writes rs w' ->
  exposures_saved w writes rs w'.
Proof.
  intros Hdb Hai H.
  assert (grows w w1) as Hg1 by (intros n; unfold next_id; rewrite Hai; lia).
  induction H as [w1 w' Hdb' Hg'| |w1 write e x w2 writes rs w' [Hl Hn Hx Hp Hg] Hof Hrs IH].
  - constructor; [congruence|by etrans].
  - apply saved_skip; auto.
  - eapply saved_cons; [|done|done]. rewrite Hdb in *. split; try done. by etrans.
Qed.

Lemma wp_SaveExposures writes w :
  exposures_ok w ->
  wp (SaveExposures writes) (fun rs w' => exposures_saved w writes rs w')
     (fun err w' => (db w' = db w /\ rec_failure err) /\ grows w w') w.
Proof.
  intros Hok. unfold SaveExposures.
  destruct writes as [|write writes]; [apply wp_ret; by constructor|].
  apply wp_transaction_stable.
  - intros rs w' e. apply exposures_saved_env.
  - intros rs w'. apply exposures_saved_grows.
  - intros t. right. by exists t.
  - intros w1 Hdb Hai.
    assert (grows w w1) as Hg1 by (intros n; unfold next_id; rewrite Hai; lia).
    eapply wp_mono; [apply wp_save_exposures| |].
    + eapply exposures_ok_mono; [exact Hok|by rewrite Hdb|by rewrite Hdb|done].
    + intros rs w' Hrs. by eapply exposures_saved_start.
    + intros err w' [He Hg]. split; [done|]. by etrans.
Qed.

(** What logging one event means to the aggregates. *)
Lemma event_saved_effect w e x w' :
  exposures_ok w -> event_saved w e x w' ->
  video_view_events (db w') = <[em_ID e := e]> (video_view_events (db w)) /\
  (forall u v, exposure_count (db w') u v = exposure_count (db w) u v + b2z (exposed u v e)) /\
  xm_ExposureCount <$> x
  = (if String.eqb (em_EventType e) EventTypeExposed
     then Some (exposure_count (db w') (em_UserID e) (em_VideoID e)) else None).
Proof.
  intros Hok [Hlog Hnew Hid _ Hg].
  assert (exposures_ok w') as Hok' by (by eapply event_logged_ok).
  assert (video_view_events (db w') = <[em_ID e := e]> (video_view_events (db w))) as Hev.
  { destruct x; [destruct Hlog as (_ & _ & ->)|destruct Hlog as [_ ->]]; done. }
  split; [done|]. split.
  - intros u v. by rewrite (xk_count _ Hok'), (xk_count _ Hok), Hev, map_count_insert_new.
  - destruct x as [x|]; [destruct Hlog as (-> & _ & ->)|destruct Hlog as [Ht _]]; simpl.
    + unfold exposure_count. simpl. by rewrite lookup_insert_eq.
    + by destruct (String.eqb_spec (em_EventType e) EventTypeExposed).
Qed.

(** A list of exposures: one event for each write, in one transaction. *)
Lemma exposures_saved_effect w writes rs w' :
  exposures_ok w -> exposures_saved w writes rs w' ->
  length rs = length (omap id writes) /\
  (forall u v, exposure_count (db w') u v = exposure_count (db w) u v
     + Z.of_nat (length (filter (fun x => RecommendationDomain.ew_UserID x = u /\
                                          RecommendationDomain.ew_VideoID x = v) (omap id writes)))).
Proof.
  intros Hok Hs. revert Hok.
  induction Hs as [w w' Hdb Hg|w writes rs w' _ IH|w write e x w1 writes rs w' Hsv Hof _ IH]; intros Hok.
  - split; [done|]. intros u v. unfold exposure_count. rewrite Hdb. simpl. lia.
  - by apply IH.
  - destruct (event_saved_effect _ _ _ _ Hok Hsv) as (_ & Hc & _).
    assert (exposures_ok w1) as Hok1 by (destruct Hsv; by eapply event_logged_ok).
    destruct (IH Hok1) as [Hlen Hcount]. split; [simpl; by rewrite Hlen|].
    intros u v. rewrite Hcount, Hc. destruct Hof as (Hu & Hv & _ & _ & Ht & _).
    unfold exposed. rewrite Hu, Hv, Ht, String.eqb_refl, andb_true_r.
    change (omap id (Some write :: writes)) with (write :: omap id writes).
    set (P := fun x => RecommendationDomain.ew_UserID x = u /\ RecommendationDomain.ew_VideoID x = v).
    destruct (decide (P write)) as [HP|HP].
    + rewrite filter_cons_True by done. pose proof HP as [Hu' Hv']. rewrite Hu', Hv', !Z.eqb_refl.
      rewrite length_cons. unfold b2z, andb. lia.
    + rewrite filter_cons_False by done. unfold P in HP.
      destruct (Z.eqb_spec (RecommendationDomain.ew_UserID write) u),
        (Z.eqb_spec (RecommendationDomain.ew_VideoID write) v);
        unfold b2z, andb; [by destruct HP|lia..].
Qed.
