(* ===== verification/PlaybackRepo.v ===== *)
(** * Playback repository ([internal/infra/persistence/playback/gorm.go]) *)
From S2P Require Import Prelude.
From S2P Require Import GoStd.
From S2P Require VideoDomain.
From S2P Require Import PlaybackDomain.
From S2P Require Import Errors.
From S2P Require Import Models.
From S2P Require Import Store.
From S2P Require Import Paging.

Section PlaybackRepo.
Context `{Collation}.

Definition optionalString (value : string) : option string :=
  let value := TrimSpace value in
  if String.eqb value "" then None else Some value.

Definition stringValue (value : option string) : string :=
  match value with None => ""%string | Some v => TrimSpace v end.

Definition isDuplicateKeyError (err : error) : bool :=
  errors_Is err EDuplicatedKey || contains (ToLower (error_text err)) "duplicate".

Definition restoreConfig (model : ConfigModel) : Config :=
  RestoreConfig (fgm_ID model) (fgm_Platform model) (fgm_NetworkType model)
    (fgm_PreloadCount model) (fgm_BufferMs model) (fgm_UpdatedAt model).

Definition restoreQoSReport (model : QoSLogModel) : QoSReport :=
  RestoreQoSReport (qm_ID model) (qm_UserID model) (qm_VideoID model) (qm_FirstFrameMs model)
    (qm_StutterCount model) (qm_WatchMs model) (stringValue (qm_IdempotencyKey model))
    (qm_CreatedAt model).

(** [WHERE platform = ? AND network_type = ?]. *)
Definition config_is (platform networkType : string) (c : ConfigModel) : bool :=
  String.eqb (collate (fgm_Platform c)) (collate platform)
  && String.eqb (collate (fgm_NetworkType c)) (collate networkType).

Definition FindConfig (platform networkType : string) : M (option Config) :=
  model ← query (fun d => find_row (config_is platform networkType) (playback_config d));
  mret (restoreConfig <$> model).

(** The published videos that have a publication time. *)
Definition visible (v : VideoModel) : bool :=
  (vm_Status v =? VideoDomain.StatusPublished)
  && match vm_PublishedAt v with Some _ => true | None => false end.

Definition video_pos (v : VideoModel) : Time * Z := (default 0 (vm_PublishedAt v), vm_ID v).

Definition findCurrentVideo (videoID : Z) : M (option VideoModel) :=
  query (fun d => v ← video d !! videoID; if visible v then Some v else None).

Definition preload_page (cursor : option (Time * Z)) (limit : Z) (d : Tables) : list VideoModel :=
  sql_page video_pos cursor limit (select_rows visible (video d)).

Definition ListPreloadVideos (currentVideoID limit : Z) : M (list PreloadVideo) :=
  current ← (if 0 <? currentVideoID then findCurrentVideo currentVideoID else mret None);
  models ← query (preload_page (video_pos <$> current) limit);
  mret ((fun v => RestorePreloadVideo (vm_ID v) (vm_MediaURL v) (vm_CoverURL v)) <$> models).

(** Rows [WHERE user_id = ? AND idempotency_key = ?] selects. *)
Definition qos_key_is (userID : Z) (key : string) (q : QoSLogModel) : bool :=
  (qm_UserID q =? userID) &&
  match qm_IdempotencyKey q with Some k => String.eqb (collate k) (collate key) | None => false end.

Definition qos_row (report : QoSReport) (id now : Z) : QoSLogModel :=
  {| qm_ID := id; qm_UserID := q_UserID report; qm_VideoID := q_VideoID report;
     qm_FirstFrameMs := q_FirstFrameMs report; qm_StutterCount := q_StutterCount report;
     qm_WatchMs := q_WatchMs report; qm_IdempotencyKey := optionalString (q_IdempotencyKey report);
     qm_CreatedAt := now |}.

Definition insert_qos (report : QoSReport) : M QoSLogModel :=
  insert_row "playback_qos_log" (qos_row report)
    (fun q d => match qm_IdempotencyKey q with
                | Some k => match find_row (qos_key_is (qm_UserID q) k) (playback_qos_log d) with
                            | Some _ => true | None => false end
                | None => false
                end)
    (fun q => set_playback_qos_log <[qm_ID q := q]>).

Definition findExistingQoS (userID : Z) (idempotencyKey : string) : M QoSLogModel :=
  let idempotencyKey := TrimSpace idempotencyKey in
  if String.eqb idempotencyKey "" then throw ERecordNotFound else
  take_row (fun d => head (sql_page (fun q => (0, qm_ID q)) None 1
              (select_rows (qos_key_is userID idempotencyKey) (playback_qos_log d)))).

Definition CreateQoSReport (report : QoSReport) : M (QoSReport * bool) :=
  r ← attempt (insert_qos report);
  match r with
  | inr model => mret (restoreQoSReport model, true)
  | inl err =>
      if negb (isDuplicateKeyError err) then throw err
      else
        existing ← findExistingQoS (q_UserID report) (q_IdempotencyKey report);
        mret (restoreQoSReport existing, false)
  end.

(** ** What the operations do *)

(** At most one report of a user has a given key. *)
Definition qos_unique (d : Tables) : Prop :=
  forall i j a b k, playback_qos_log d !! i = Some a -> playback_qos_log d !! j = Some b ->
    qm_IdempotencyKey a = Some k -> qos_key_is (qm_UserID a) k b = true -> i = j.

Record qos_ok (w : World) : Prop := {
  qk_id : forall id q, playback_qos_log (db w) !! id = Some q -> id = qm_ID q;
  qk_unique : qos_unique (db w);
  qk_fresh : ids_below (next_id "playback_qos_log" w) (playback_qos_log (db w));
}.

Definition qos_stored (w : World) (report : QoSReport) (q : QoSLogModel) (w' : World) : Prop :=
  (exists now, q = qos_row report (next_id "playback_qos_log" w) now) /\
  db w' = set_playback_qos_log <[qm_ID q := q]> (db w) /\
  (forall i o k, playback_qos_log (db w) !! i = Some o -> qm_IdempotencyKey q = Some k ->
     qos_key_is (qm_UserID q) k o = false) /\
  qm_ID q < next_id "playback_qos_log" w' /\ grows w w'.

Lemma wp_CreateQoSReport w report :
  wp (CreateQoSReport report)
    (fun r w' => (exists q, qos_stored w report q w' /\ r = (restoreQoSReport q, true)) \/
                 (exists id q, playback_qos_log (db w) !! id = Some q /\
                    qos_key_is (q_UserID report) (TrimSpace (q_IdempotencyKey report)) q = true /\
                    r = (restoreQoSReport q, false) /\ db w' = db w /\ grows w w'))
    (fun _ w' => db w' = db w /\ grows w w') w.
Proof.
  unfold CreateQoSReport. apply wp_bind, wp_attempt. unfold insert_qos.
  assert (forall err w1, db w1 = db w -> grows w w1 ->
    wp (if negb (isDuplicateKeyError err) then throw err
        else existing ← findExistingQoS (q_UserID report) (q_IdempotencyKey report);
             mret (restoreQoSReport existing, false))
      (fun r w' => (exists q, qos_stored w report q w' /\ r = (restoreQoSReport q, true)) \/
                 (exists id q, playback_qos_log (db w) !! id = Some q /\
                    qos_key_is (q_UserID report) (TrimSpace (q_IdempotencyKey report)) q = true /\
                    r = (restoreQoSReport q, false) /\ db w' = db w /\ grows w w'))
      (fun _ w' => db w' = db w /\ grows w w') w1) as Hfail.
  { intros err w1 Hdb Hg. destruct (negb _); [by apply wp_throw|].
    apply wp_bind. unfold findExistingQoS. destruct (String.eqb _ ""); [by apply wp_throw|].
    apply wp_take_row; [|by auto with store..].
    intros q e Hq. apply wp_ret. right. rewrite Hdb in Hq.
    apply head_Some_elem_of, elem_of_sql_page in Hq as [Hq _].
    apply elem_of_select_rows in Hq as (id & Hid & Hk). exists id, q. auto with store. }
  apply wp_insert_row.
  - intros now e _ row ai Hdup. apply wp_ret. left. exists row. split; [|done].
    split_and!.
    + by exists now.
    + done.
    + simpl. intros i o k Ho Hk. change (qm_IdempotencyKey row = Some k) in Hk. rewrite Hk in Hdup. destruct (find_row _ _) eqn:Hf; [done|].
      by apply (find_row_None _ _ i o Hf).
    + unfold row, ai, next_id. simpl. rewrite lookup_insert_eq. simpl. unfold next_id. simpl. lia.
    + apply grows_insert_trans. auto with store.
  - intros now e row ai _. apply Hfail; [done|]. apply grows_insert_trans. auto with store.
  - intros t e. apply Hfail; auto with store.
Qed.

Lemma qos_stored_ok w report q w' : qos_ok w -> qos_stored w report q w' -> qos_ok w'.
Proof.
  intros [Hi Hu Hf] (_ & Hdb & Hnew & Hnext & Hg). split; rewrite ?Hdb; simpl.
  - intros i o. destruct (decide (i = qm_ID q)) as [->|Hne].
    + rewrite lookup_insert_eq. by intros [= <-].
    + rewrite lookup_insert_ne by done. apply Hi.
  - intros i j a b k. simpl. destruct (decide (i = qm_ID q)) as [->|Hni], (decide (j = qm_ID q)) as [->|Hnj];
      rewrite ?lookup_insert_eq, ?lookup_insert_ne by done; try done.
    + intros [= <-] Hb Hk Hc. by rewrite (Hnew _ _ _ Hb Hk) in Hc.
    + intros Ha [= <-] Hk Hc. unfold qos_key_is in Hc. destruct (qm_IdempotencyKey q) as [k'|] eqn:Hk';
        [|by rewrite andb_false_r in Hc].
      apply andb_prop in Hc as [Hc1%Z.eqb_eq Hc2%String.eqb_eq].
      pose proof (Hnew _ _ _ Ha eq_refl) as Hn. unfold qos_key_is in Hn.
      by rewrite Hk, Hc1, Hc2, Z.eqb_refl, String.eqb_refl in Hn.
    + apply Hu.
  - apply ids_below_insert; [|done]. eapply ids_below_mono; [exact Hf|apply Hg].
Qed.

(** A stored report claims its key. *)
Lemma qos_stored_key w report q w' :
  TrimSpace (q_IdempotencyKey report) <> ""%string -> qos_stored w report q w' ->
  playback_qos_log (db w') !! qm_ID q = Some q /\
  qos_key_is (q_UserID report) (TrimSpace (q_IdempotencyKey report)) q = true.
Proof.
  intros Hne ((now & ->) & -> & _). split; [apply lookup_insert_eq|].
  unfold qos_key_is, qos_row, optionalString. simpl.
  destruct (String.eqb_spec (TrimSpace (q_IdempotencyKey report)) ""); [done|].
  by rewrite Z.eqb_refl, String.eqb_refl.
Qed.

Lemma qos_not_stored w report q w' i o :
  TrimSpace (q_IdempotencyKey report) <> ""%string -> playback_qos_log (db w) !! i = Some o ->
  qos_key_is (q_UserID report) (TrimSpace (q_IdempotencyKey report)) o = true ->
  ~ qos_stored w report q w'.
Proof.
  intros Hne Ho Hk ((now & ->) & _ & Hnew & _).
  specialize (Hnew i o (TrimSpace (q_IdempotencyKey report)) Ho). simpl in Hnew.
  rewrite Hnew in Hk; [done|]. unfold optionalString.
  by destruct (String.eqb_spec (TrimSpace (q_IdempotencyKey report)) "").
Qed.

Lemma qos_same w i j a b u key :
  qos_ok w -> playback_qos_log (db w) !! i = Some a -> playback_qos_log (db w) !! j = Some b ->
  qos_key_is u key a = true -> qos_key_is u key b = true -> a = b.
Proof.
  intros Hok Ha Hb Hka Hkb. unfold qos_key_is in Hka.
  destruct (qm_IdempotencyKey a) as [k|] eqn:Hk; [|by rewrite andb_false_r in Hka].
  apply andb_prop in Hka as [Hu%Z.eqb_eq Hc%String.eqb_eq].
  assert (i = j); [|congruence]. eapply (qk_unique w Hok i j a b k); [done..|].
  unfold qos_key_is in *. by rewrite Hu, Hc.
Qed.

Lemma wp_FindConfig w p n :
  wp (FindConfig p n)
    (fun c w' => db w' = db w /\ c = restoreConfig <$> find_row (config_is p n) (playback_config (db w)))
    (fun err w' => db w' = db w) w.
Proof. unfold FindConfig. apply wp_bind, wp_query; [|done]. intros e. by apply wp_ret. Qed.

End PlaybackRepo.
