(* ===== verification/AccountRepo.v ===== *)
(** * Account repository ([internal/infra/persistence/account/gorm.go]) *)
From S2P Require Import Prelude.
From S2P Require Import GoStd.
From S2P Require RelationDomain.
From S2P Require VideoDomain.
From S2P Require Import AccountDomain.
From S2P Require Import Errors.
From S2P Require Import Models.
From S2P Require Import Store.
From S2P Require RelationRepo.

Section AccountRepo.
Context `{Collation}.

Definition isDuplicateKeyError (err : error) : bool := errors_Is err EDuplicatedKey.

Definition account_is (account : string) (a : UserModel) : bool :=
  String.eqb (collate (am_Account a)) (collate account).

Definition user_row (u : User) (id now : Z) : UserModel :=
  {| am_ID := id; am_Account := u_Account u; am_Password := u_Password u;
     am_Nickname := u_Nickname u; am_AvatarURL := u_AvatarURL u; am_Bio := u_Bio u;
     am_Status := u_Status u; am_Role := u_Role u; am_CreatedAt := now; am_UpdatedAt := now |}.

Definition insert_user (u : User) : M UserModel :=
  insert_row "account" (user_row u)
    (fun r d => match find_row (account_is (am_Account r)) (account d) with
                | Some _ => true | None => false end)
    (fun r => set_account <[am_ID r := r]>).

(** [Save]; the result is the user the caller holds afterwards. *)
Definition Save (u : User) : M User :=
  model ← map_error (fun err => if isDuplicateKeyError err
                                then EAccount ErrAccountAlreadyExists else err) (insert_user u);
  mret {| u_ID := am_ID model; u_Account := u_Account u; u_Password := u_Password u;
          u_Nickname := u_Nickname u; u_AvatarURL := u_AvatarURL u; u_Bio := u_Bio u;
          u_Status := u_Status u; u_Role := u_Role u; u_FollowingCount := u_FollowingCount u;
          u_FollowerCount := u_FollowerCount u; u_WorkCount := u_WorkCount u |}.

Record userWithStatModel := mkUserWithStat {
  uw_user : UserModel;
  uw_FollowingCount : Z;
  uw_FollowerCount : Z;
  uw_WorkCount : Z;
}.

(** [COUNT( * ) … GROUP BY]: a group without rows is not there. *)
Definition group_count `{Countable K} {A} (P : A -> bool) (t : gmap K A) : option Z :=
  let n := map_count P t in if n =? 0 then None else Some n.

(** [COALESCE(a, b, 0)]. *)
Definition coalesce (a b : option Z) : Z :=
  match a, b with Some n, _ => n | None, Some n => n | None, None => 0 end.

Definition userWithStatSelect (d : Tables) (a : UserModel) : userWithStatModel :=
  let rs := user_relation_stat d !! am_ID a in
  mkUserWithStat a
    (coalesce (group_count (RelationRepo.follows (am_ID a)) (user_follow d))
              (Models.rm_FollowingCount <$> rs))
    (coalesce (group_count (RelationRepo.followed (am_ID a)) (user_follow d))
              (Models.rm_FollowerCount <$> rs))
    (coalesce (group_count (fun v => (vm_AuthorID v =? am_ID a)
                 && (vm_Status v =? VideoDomain.StatusPublished)) (video d)) None).

Definition restoreUser (user : userWithStatModel) : User :=
  let a := uw_user user in
  RestoreUserWithStats (am_ID a) (am_Account a) (am_Password a) (am_Nickname a) (am_AvatarURL a)
    (am_Bio a) (am_Status a) (am_Role a) (uw_FollowingCount user) (uw_FollowerCount user)
    (uw_WorkCount user).

Definition not_found (err : error) : error :=
  if errors_Is err ERecordNotFound then EAccount ErrUserNotFound else err.

Definition FindByAccount (acct : string) : M User :=
  map_error not_found (
    user ← take_row (fun d => userWithStatSelect d <$> find_row (account_is acct) (account d));
    mret (restoreUser user)).

Definition FindByID (id : Z) : M User :=
  map_error not_found (
    user ← take_row (fun d => userWithStatSelect d <$> account d !! id);
    mret (restoreUser user)).

Definition profile_row (u : User) (now : Time) (a : UserModel) : UserModel :=
  {| am_ID := am_ID a; am_Account := am_Account a; am_Password := am_Password a;
     am_Nickname := u_Nickname u; am_AvatarURL := u_AvatarURL u; am_Bio := u_Bio u;
     am_Status := am_Status a; am_Role := am_Role a; am_CreatedAt := am_CreatedAt a;
     am_UpdatedAt := now |}.

Definition UpdateProfile (u : User) : M unit :=
  now ← time_now;
  rows ← update_count (fun d => b2z (bool_decide (is_Some (account d !! u_ID u))))
           (set_account (alter (profile_row u now) (u_ID u)));
  if rows =? 0 then throw (EAccount ErrUserNotFound) else mret tt.

(** ** The invariant and the rules *)

Record accounts_ok (w : World) : Prop := {
  ac_id : forall id a, account (db w) !! id = Some a -> id = am_ID a;
  ac_unique : forall i j a b, account (db w) !! i = Some a -> account (db w) !! j = Some b ->
    account_is (am_Account a) b = true -> i = j;
  ac_fresh : ids_below (next_id "account" w) (account (db w));
}.

Definition user_stored (w : World) (u : User) (r : UserModel) (w' : World) : Prop :=
  (exists now, r = user_row u (next_id "account" w) now) /\
  db w' = set_account <[am_ID r := r]> (db w) /\
  (forall i o, account (db w) !! i = Some o -> account_is (u_Account u) o = false) /\
  am_ID r < next_id "account" w' /\ grows w w'.

Lemma wp_insert_user w u (Q : UserModel -> World -> Prop) E :
  (forall r w', user_stored w u r w' -> Q r w') ->
  (forall err w', db w' = db w -> grows w w' ->
     (err = EDuplicatedKey /\ exists i o, account (db w) !! i = Some o /\ account_is (u_Account u) o = true)
     \/ (exists t, err = EDriver t) -> E err w') ->
  wp (insert_user u) Q E w.
Proof.
  intros HQ HE. unfold insert_user. apply wp_insert_row.
  - intros now e _ row ai Hdup. apply HQ. split_and!.
    + by exists now.
    + done.
    + intros i o Ho. destruct (find_row _ _) eqn:Hf; [done|]. by apply (find_row_None _ _ i o Hf).
    + unfold row, ai, next_id. simpl. rewrite lookup_insert_eq. simpl. unfold next_id. simpl. lia.
    + apply grows_insert_trans. auto with store.
  - intros now e row ai Hdup. apply HE; [done|apply grows_insert_trans; auto with store|].
    left. split; [done|]. destruct (find_row _ _) as [o|] eqn:Hf; [|done].
    apply find_row_Some in Hf as (i & Ho & Hk). by exists i, o.
  - intros t e. apply HE; [done|auto with store|]. right. by exists t.
Qed.

Lemma wp_SaveAccount w u :
  wp (Save u)
    (fun u' w' => exists r, user_stored w u r w' /\ u_ID u' = am_ID r /\ u_Account u' = u_Account u)
    (fun err w' => (db w' = db w /\ grows w w') /\
       ((err = EAccount ErrAccountAlreadyExists /\
         exists i o, account (db w) !! i = Some o /\ account_is (u_Account u) o = true)
        \/ exists t, err = EDriver t)) w.
Proof.
  unfold Save. apply wp_bind, wp_map_error, wp_insert_user.
  - intros r w' Hr. apply wp_ret. by exists r.
  - intros err w' Hdb Hg [[-> Hex]|[t ->]]; (split; [done|]); [by left|right; by exists t].
Qed.

Lemma user_stored_ok w u r w' : accounts_ok w -> user_stored w u r w' -> accounts_ok w'.
Proof.
  intros [Hi Hu Hf] ((now & Hr) & Hdb & Hnew & Hnext & Hg). split; rewrite Hdb; simpl.
  - intros i o. destruct (decide (i = am_ID r)) as [->|Hne].
    + rewrite lookup_insert_eq. by intros [= <-].
    + rewrite lookup_insert_ne by done. apply Hi.
  - assert (am_Account r = u_Account u) as Hacc by (by rewrite Hr).
    intros i j a b. destruct (decide (i = am_ID r)) as [->|Hni], (decide (j = am_ID r)) as [->|Hnj];
      rewrite ?lookup_insert_eq, ?lookup_insert_ne by done; try done.
    + intros [= <-] Hb Hc. rewrite Hacc in Hc. by rewrite (Hnew _ _ Hb) in Hc.
    + intros Ha [= <-] Hc. pose proof (Hnew _ _ Ha) as Hn. unfold account_is in *.
      rewrite Hacc in Hc. by rewrite String.eqb_sym, Hc in Hn.
    + apply Hu.
  - apply ids_below_insert; [|done]. eapply ids_below_mono; [exact Hf|apply Hg].
Qed.

(** Columns of account [id] change; its name, if it changes, to one no other account has. *)
Lemma accounts_alter w w' id f :
  accounts_ok w -> grows w w' -> account (db w') = alter f id (account (db w)) ->
  (forall a, account (db w) !! id = Some a -> am_ID (f a) = am_ID a /\
     forall j b, account (db w) !! j = Some b -> j <> id -> account_is (am_Account (f a)) b = false) ->
  accounts_ok w'.
Proof.
  intros [Hi Hu Hf] Hg E Hnew. split; rewrite E.
  - intros i a. destruct (decide (i = id)) as [->|Hne].
    + rewrite lookup_alter_eq. intros (o & Ho & ->)%fmap_Some. rewrite (proj1 (Hnew _ Ho)). by apply Hi.
    + rewrite lookup_alter_ne by done. apply Hi.
  - intros i j a b. destruct (decide (i = id)) as [->|Hni], (decide (j = id)) as [->|Hnj];
      rewrite ?lookup_alter_eq, ?lookup_alter_ne by done; try done.
    + intros (o & Ho & ->)%fmap_Some Hb. by rewrite (proj2 (Hnew _ Ho) _ _ Hb).
    + intros Ha (o & Ho & ->)%fmap_Some Hc. unfold account_is in Hc. rewrite String.eqb_sym in Hc.
      pose proof (proj2 (Hnew _ Ho) _ _ Ha Hni) as Hn. unfold account_is in Hn. congruence.
    + apply Hu.
  - intros i a. destruct (decide (i = id)) as [->|Hne].
    + rewrite lookup_alter_eq. intros (o & Ho & _)%fmap_Some. apply Hf in Ho. specialize (Hg "account"%string). lia.
    + rewrite lookup_alter_ne by done. intros Ha%Hf. specialize (Hg "account"%string). lia.
Qed.

(** No other account has the name of an account. *)
Lemma account_alone w id a j b :
  accounts_ok w -> account (db w) !! id = Some a -> account (db w) !! j = Some b -> j <> id ->
  account_is (am_Account a) b = false.
Proof.
  intros Hok Ha Hb Hne. destruct (account_is _ _) eqn:Hc; [|done].
  destruct Hne. symmetry. by eapply (ac_unique _ Hok).
Qed.

Lemma alter_profile d u now row :
  account d !! u_ID u = Some row ->
  set_account (alter (profile_row u now) (u_ID u)) d = set_account <[u_ID u := profile_row u now row]> d.
Proof.
  intros Hr. destruct d. unfold set_account. simpl in *. f_equal. apply map_eq. intros i.
  destruct (decide (i = u_ID u)) as [->|Hne].
  - by rewrite lookup_alter_eq, lookup_insert_eq, Hr.
  - by rewrite lookup_alter_ne, lookup_insert_ne by done.
Qed.

Lemma wp_UpdateProfile w u :
  wp (UpdateProfile u)
    (fun _ w' => (exists now row, account (db w) !! u_ID u = Some row /\
        db w' = set_account <[u_ID u := profile_row u now row]> (db w)) /\ grows w w')
    (fun err w' => (db w' = db w /\
       ((err = EAccount ErrUserNotFound /\ account (db w) !! u_ID u = None) \/ exists t, err = EDriver t))
       /\ grows w w') w.
Proof.
  unfold UpdateProfile. apply wp_bind, wp_time_now. intros now e _ _.
  apply wp_bind, wp_update_count; [|intros; split; [|by auto with store]; split; eauto].
  intros e'. simpl. destruct (account (db w) !! u_ID u) as [row|] eqn:Hv; simpl.
  - split; [|auto with store]. exists now, row. split; [done|]. simpl. by apply alter_profile.
  - split; [|auto with store]. split; [|by left]. simpl.
    destruct (db w). unfold set_account. simpl in *. f_equal. apply map_eq. intros i.
    destruct (decide (i = u_ID u)) as [->|Hne]; [by rewrite lookup_alter_eq, Hv|by rewrite lookup_alter_ne by done].
Qed.

(** With consistent counters a profile shows the numbers of active follows. *)
Lemma select_counts d a :
  RelationRepo.relation_ok d ->
  uw_FollowingCount (userWithStatSelect d a)
    = map_count (RelationRepo.follows (am_ID a)) (user_follow d) /\
  uw_FollowerCount (userWithStatSelect d a)
    = map_count (RelationRepo.followed (am_ID a)) (user_follow d).
Proof.
  intros [_ _ Hc]. specialize (Hc (am_ID a)). unfold RelationRepo.counts_of in Hc.
  unfold userWithStatSelect, group_count, coalesce. simpl.
  destruct (Z.eqb_spec (map_count (RelationRepo.follows (am_ID a)) (user_follow d)) 0) as [H1|],
    (Z.eqb_spec (map_count (RelationRepo.followed (am_ID a)) (user_follow d)) 0) as [H2|];
    destruct (user_relation_stat d !! am_ID a); simpl; injection Hc; intros; split; congruence.
Qed.

Lemma coalesce_group `{Countable K} {A} (P : A -> bool) (t : gmap K A) :
  coalesce (group_count P t) None = map_count P t.
Proof.
  unfold coalesce, group_count. by destruct (Z.eqb_spec (map_count P t) 0) as [->|].
Qed.

Lemma restored_counts d a :
  RelationRepo.relation_ok d ->
  let u := restoreUser (userWithStatSelect d a) in
  u_ID u = am_ID a /\
  u_FollowingCount u = map_count (RelationRepo.follows (am_ID a)) (user_follow d) /\
  u_FollowerCount u = map_count (RelationRepo.followed (am_ID a)) (user_follow d) /\
  u_WorkCount u = map_count (fun v => (vm_AuthorID v =? am_ID a)
                     && (vm_Status v =? VideoDomain.StatusPublished)) (video d).
Proof.
  intros Hok. destruct (select_counts d a Hok) as [H1 H2].
  assert (uw_WorkCount (userWithStatSelect d a) = map_count (fun v => (vm_AuthorID v =? am_ID a)
            && (vm_Status v =? VideoDomain.StatusPublished)) (video d)) as H3 by apply coalesce_group.
  assert (uw_user (userWithStatSelect d a) = a) as H4 by done.
  generalize dependent (userWithStatSelect d a). intros m H1 H2 H3 H4.
  unfold restoreUser, RestoreUserWithStats. simpl.
  rewrite H1, H2, H3, H4, !AccountDomain.account_clampCount_id by apply map_count_nonneg. done.
Qed.

(** Looking an account up by a name that collates with a new account's finds it. *)
Lemma stored_found w u r w' acct :
  user_stored w u r w' -> collate acct = collate (u_Account u) ->
  find_row (account_is acct) (account (db w')) = Some r.
Proof.
  intros ((now & Hr) & Hdb & Hnew & _) Hc. rewrite Hdb. simpl.
  assert (account_is acct r = true) as Hself.
  { unfold account_is. rewrite Hr, Hc. simpl. apply String.eqb_refl. }
  destruct (find_row _ _) as [o|] eqn:Hf.
  - apply find_row_Some in Hf as (i & Hi & Ho). apply lookup_insert_Some in Hi as [[_ <-]|[_ Hi]]; [done|].
    apply Hnew in Hi. unfold account_is in *. rewrite <-Hc in Hi. congruence.
  - apply (find_row_None _ _ (am_ID r) r) in Hf; [congruence|]. by rewrite lookup_insert_eq.
Qed.

Lemma wp_FindByAccount w acct r :
  find_row (account_is acct) (account (db w)) = Some r ->
  wp (FindByAccount acct)
    (fun u w' => db w' = db w /\ u = restoreUser (userWithStatSelect (db w) r))
    (fun err w' => db w' = db w /\ exists t, err = EDriver t) w.
Proof.
  intros Hr. apply wp_map_error, wp_bind, wp_take_row.
  - intros m e Hm. rewrite Hr in Hm. injection Hm as <-. by apply wp_ret.
  - intros e Hn. by rewrite Hr in Hn.
  - intros t e. split; [done|]. by exists t.
Qed.

Lemma restored_user d u id now :
  let r := restoreUser (userWithStatSelect d (user_row u id now)) in
  u_ID r = id /\ u_Password r = TrimSpace (u_Password u) /\
  u_Role r = (if String.eqb (TrimSpace (u_Role u)) "" then RoleUser else TrimSpace (u_Role u)).
Proof. done. Qed.

End AccountRepo.
