(* ===== verification/Views.v ===== *)
(** * The views over the core tables ([coreViews] of [core_migration.go], [models.go])

    The main package reads users, videos, likes, comments, follows and notifications through
    SQL views. A view is a function of the tables; the keys of the maps are those of the
    tables behind them. A statement that changes [users] changes [account]. *)
From S2P Require Import Prelude.
From S2P Require Import GoStd.
From S2P Require Import Models.
From S2P Require Import Store.
From S2P Require Import Paging.
From S2P Require AccountRepo.

Section Views.
Context `{Collation}.

Definition user_view (a : UserModel) : UserView :=
  mkUserView (am_ID a) (am_Account a) (am_Password a) (am_Bio a) (am_AvatarURL a) (am_CreatedAt a).

Definition users (d : Tables) : gmap Z UserView := user_view <$> account d.

(** The zero value, which [Preload] leaves when there is no such user. *)
Definition no_user : UserView := mkUserView 0 "" "" "" "" 0.

Definition author_of (d : Tables) (id : Z) : UserView := default no_user (users d !! id).

(** [WHERE v.status = 2]; a NULL time is scanned as the zero time. *)
Definition video_view (d : Tables) (v : VideoModel) : option VideoView :=
  if vm_Status v =? 2 then
    let s := video_stat d !! vm_ID v in
    let likes := default 0 (sm_LikeCount <$> s) in
    let comments := default 0 (sm_CommentCount <$> s) in
    let favorites := default 0 (sm_FavoriteCount <$> s) in
    Some (mkVideoView (vm_ID v) (vm_AuthorID v) no_user (vm_Title v) (vm_Description v)
      (vm_FilePath v) (vm_Size v) (vm_CoverPath v) "" "" likes comments favorites
      (likes * 3 + comments * 5 + favorites * 4) (default 0 (vm_PublishedAt v)) (vm_CreatedAt v))
  else None.

Definition videos (d : Tables) : gmap Z VideoView := omap (video_view d) (video d).

Definition likes (d : Tables) : gmap (Z * Z * string) LikeView :=
  omap (fun a =>
    if String.eqb (collate (im_ActionType a)) (collate "like") && (im_Status a =? 1)
    then Some (mkLikeView (im_ID a) (im_UserID a) (im_VideoID a) (im_CreatedAt a)) else None)
    (interaction_action d).

Definition comments (d : Tables) : gmap Z CommentView :=
  omap (fun c =>
    if cm_Status c =? 1
    then Some (mkCommentView (cm_ID c) (cm_UserID c) no_user (cm_VideoID c) (cm_Content c) (cm_CreatedAt c))
    else None) (interaction_comment d).

Definition follows (d : Tables) : gmap (Z * Z) FollowView :=
  omap (fun f =>
    if fm_Status f =? 1
    then Some (mkFollowView (fm_ID f) (fm_UserID f) (fm_TargetUserID f) (fm_CreatedAt f)) else None)
    (user_follow d).

Definition notifications (d : Tables) : gmap Z NotificationView :=
  (fun m => mkNotificationView (mm_ID m) (mm_UserID m) (mm_ActorID m) (mm_VideoID m) (mm_Type m)
              (mm_Content m) (mm_ReadAt m) (mm_CreatedAt m)) <$> user_message d.

(** [mediaURL] of [core_migration.go]. *)
Definition mediaURL (path : string) : string :=
  if String.eqb path "" then ""%string else ("/media/" +:+ path)%string.

(** [hydrateVideo] of [video.go]. *)
Definition hydrateVideo (v : VideoView) : VideoView :=
  mkVideoView (vv_ID v) (vv_UserID v) (vv_User v) (vv_Title v) (vv_Description v) (vv_FilePath v)
    (vv_Size v) (vv_CoverPath v) ("/media/" +:+ vv_FilePath v)
    (if String.eqb (vv_CoverPath v) "" then vv_CoverURL v else ("/media/" +:+ vv_CoverPath v)%string)
    (vv_LikesCount v) (vv_CommentsCount v) (vv_FavoritesCount v) (vv_Popularity v)
    (vv_PublishedAt v) (vv_CreatedAt v).

Definition with_author (d : Tables) (v : VideoView) : VideoView :=
  mkVideoView (vv_ID v) (vv_UserID v) (author_of d (vv_UserID v)) (vv_Title v) (vv_Description v)
    (vv_FilePath v) (vv_Size v) (vv_CoverPath v) (vv_PlayURL v) (vv_CoverURL v) (vv_LikesCount v)
    (vv_CommentsCount v) (vv_FavoritesCount v) (vv_Popularity v) (vv_PublishedAt v) (vv_CreatedAt v).

(** [a.db.First(&u, id)] *)
Definition first_user (id : Z) : M UserView := take_row (fun d => users d !! id).

Definition named (username : string) (u : UserView) : bool :=
  String.eqb (collate (vu_Username u)) (collate username).

(** ** Statements on [users] *)

(** The unique index of [account] refuses to rename account [id]. *)
Definition name_taken (id : Z) (username : string) (d : Tables) : bool :=
  bool_decide (is_Some (account d !! id)) &&
  match find_row (fun a => negb (am_ID a =? id) && AccountRepo.account_is username a) (account d) with
  | Some _ => true | None => false
  end.

Definition set_columns (id : Z) (f : UserModel -> UserModel) : Tables -> Tables :=
  set_account (alter f id).

(** ** Facts *)

Lemma users_lookup d id : users d !! id = user_view <$> account d !! id.
Proof. unfold users. by rewrite lookup_fmap. Qed.

Lemma videos_lookup d id v :
  videos d !! id = Some v -> exists m, video d !! id = Some m /\ vm_Status m = 2 /\ vv_ID v = vm_ID m.
Proof.
  unfold videos. rewrite lookup_omap. intros (m & Hm & Hv)%bind_Some. exists m. split; [done|].
  unfold video_view in Hv. destruct (Z.eqb_spec (vm_Status m) 2) as [Hs|Hs]; [|done].
  injection Hv as <-. done.
Qed.

End Views.
