(* ===== verification/Edge.v ===== *)
(** * What the handlers of the main package share

    [main.go], [config.go], [resilience.go] ([withRedis], [dbSlot]), [auth.go] (tokens,
    cookies, sessions, rate limits), [session_cache.go] (as one request runs it; the
    interleavings are in [SessionCache]) and the invalidations of [cache.go].

    A handler is a computation that always answers: a [Response]. The cookies of a response
    are what the client holds after all its Set-Cookie headers. The JSON body of a request is
    what gin binds to the struct of the handler, [None] if it refuses. *)
From S2P Require Import Prelude.
From S2P Require Import GoStd.
From S2P Require Import GoConv.
From S2P Require Import GoHash.
From S2P Require Import Errors.
From S2P Require Import Models.
From S2P Require Import Redis.
From S2P Require Import Store.
From S2P Require Import RedisClient.
From S2P Require Import Views.
From S2P Require Resilience.
From S2P Require SessionCache.

(** ** Requests and responses *)

Inductive cookies := KeepCookies | SetTokens (access refresh : string) | ClearCookies.

(** The rows of the pages of [admin.go]. *)
Record adminUser := mkAdminUser {
  au_ID : Z; au_Username : string; au_Bio : string; au_AvatarURL : string; au_Role : string;
  au_Status : Z; au_CreatedAt : Time; au_VideoCount : Z }.

Record adminVideo := mkAdminVideo {
  av_ID : Z; av_UserID : Z; av_Username : string; av_Title : string; av_Description : string;
  av_Status : Z; av_PlayURL : string; av_CoverURL : string; av_Size : Z; av_LikesCount : Z;
  av_CommentsCount : Z; av_CreatedAt : Time }.

Record adminCounts := mkAdminCounts {
  ao_Users : Z; ao_DisabledUsers : Z; ao_Videos : Z; ao_PublishedVideos : Z; ao_OfflineVideos : Z;
  ao_MediaBytes : Z }.

(** The values the handlers marshal. A [User] goes out without its password hash. *)
Inductive Body :=
  | BError (code : string)
  | BOk
  | BReauthenticate (b : bool)
  | BUser (u : UserView)
  | BMe (u : UserView) (isAdmin : bool)
  | BProfile (u : UserView) (videos followers following likes : Z)
  | BUsers (l : list UserView)
  | BVideo (v : VideoView)
  | BVideos (l : list VideoView)
  | BComments (l : list CommentView)
  | BNotifications (l : list NotificationView)
  | BMessage (m : DirectMessageModel)
  | BMessages (l : list DirectMessageModel)
  | BFlag (name : string) (b : bool)
  | BCount (n : Z)
  | BUpload (id : string)
  | BUploaded (indices : list Z) (completed published : bool)
  | BURL (url : string)
  | BCover (id : string)
  | BVideoPage (items : list VideoView) (nextCursor : string)
  | BAction (liked favorited : bool) (likesCount favoritesCount : Z)
  | BComment (c : CommentView)
  | BOverview (c : adminCounts)
  | BAdminUsers (items : list adminUser) (total page pageSize : Z)
  | BAdminVideos (items : list adminVideo) (total page pageSize : Z).

Record Response := mkResponse {
  rs_Status : Z;
  rs_Body : Body;
  rs_Cookies : cookies;
  rs_Headers : list (string * string);
}.

Definition errorJSON (status : Z) (code : string) : Response :=
  mkResponse status (BError code) KeepCookies [].

Definition JSON (status : Z) (body : Body) : Response := mkResponse status body KeepCookies [].

Definition with_cookies (c : cookies) (r : Response) : Response :=
  mkResponse (rs_Status r) (rs_Body r) c (rs_Headers r).

Definition with_header (name value : string) (r : Response) : Response :=
  mkResponse (rs_Status r) (rs_Body r) (rs_Cookies r) ((name, value) :: rs_Headers r).

(** What a handler reads of the headers of a request. *)
Record Request := mkRequest {
  rq_Authorization : string;
  rq_Access : option string;     (* the cookie owlet_access *)
  rq_Refresh : option string;    (* the cookie owlet_refresh *)
  rq_ClientIP : string;
}.

Record tokenClaims := mkClaims {
  tc_Kind : string;
  tc_SessionID : string;
  tc_Subject : string;
  tc_IssuedAt : Time;
  tc_ExpiresAt : Time;
  tc_ID : string;
}.

(** The JWT library: signing with HS256, and parsing at a time with a valid HS256 signature
    and an expiration that has not passed. *)
Class JWT := {
  SignedString : string -> tokenClaims -> option string;
  ParseWithClaims : string -> Time -> string -> option tokenClaims;
}.

Record Config := mkConfig {
  cf_JWTSecret : string;
  cf_MaxMediaBytes : Z;
  cf_RedisTimeout : Z;
  cf_DBTimeout : Z;
  cf_DataDir : string;
}.

(** [paramID] of [social.go]. *)
Definition paramID (param : string) : option Z :=
  match ParseUint param with
  | Some id => if id =? 0 then None else Some id
  | None => None
  end.

(** [shaHex] of [main.go]. *)
Definition shaHex (s : string) : string := hex_EncodeToString (sha256_sum s).

(** [strings.EqualFold(s, "Bearer")]: the letters of the word have no other foldings. *)
Definition is_bearer (s : string) : bool := String.eqb (ToLower s) "bearer".

Definition accessCredential (rq : Request) : option string :=
  if String.eqb (rq_Authorization rq) "" then rq_Access rq else
  match Fields (rq_Authorization rq) with
  | [a; b] => if is_bearer a then Some b else Some ""%string
  | _ => Some ""%string
  end.

(** ** Redis behind the circuit breaker *)

Definition errBusy : error := EMain "service_busy".
Definition errRedisOpen : error := EMain "redis_circuit_open".
Definition errInvalidSession : error := EMain "invalid_session".

Definition breaker_allow (now : Time) : M bool := fun w =>
  let p := process w in
  let '(ok, b) := Resilience.Breaker.allow (breaker p) now in
  (inr ok, with_process w (mkProcess b (local_videos p) (limiter p))).

Definition breaker_result (now : Time) (failed : bool) : M unit := fun w =>
  let p := process w in
  (inr tt, with_process w (mkProcess (Resilience.Breaker.result (breaker p) now failed) (local_videos p) (limiter p))).

(** An absent key ([redis.Nil]) is an answer here, not an error. *)
Definition withRedis {A} (fn : M A) : M (error + A) :=
  now ← time_now;
  allowed ← breaker_allow now;
  if negb allowed then mret (inl errRedisOpen) else
  r ← attempt fn;
  now ← time_now;
  _ ← breaker_result now (match r with inl _ => true | inr _ => false end);
  mret r.

(** A slot of the pool of loads, or [errBusy]. *)
Definition dbSlot : M unit := map_error (fun _ => errBusy) call.

Definition redis_get_string (key : string) : M (option json_value) :=
  redis_read (fun now r => string_at now r key).

Definition redis_set_key (key : string) (v : json_value) (ttl : Z) : M unit :=
  redis_write (fun now r => Some (redis_set now key v ttl r)).

Definition redis_set_nx (key : string) (v : json_value) (ttl : Z) : M bool :=
  redis_request (fun now r => let '(ok, r) := redis_setnx now key v ttl r in (inr ok, r)).

Definition redis_del_keys (keys : list string) : M unit :=
  redis_write (fun _ r => Some (redis_del keys r)).

(** ** Rate limits *)

Definition limiter_take (key : string) (max window : Z) (now : Time) : M (option bool) := fun w =>
  let p := process w in
  let '(ok, l) := Resilience.Limiter.take (limiter p) key max window now in
  (inr ok, with_process w (mkProcess (breaker p) (local_videos p) l)).

(** [limitScript]; PEXPIRE takes milliseconds. *)
Definition limitScript (key : string) (window : Z) : M Z :=
  redis_request (fun now r =>
    match redis_incr now key r with
    | None => (inl wrong_type, r)
    | Some (n, r) =>
        (inr n, if n =? 1 then redis_expire now key (window `quot` millisecond * millisecond) r else r)
    end).

(** The middleware [rateLimit]: [None] lets the request through. *)
Definition rateLimit (key : string) (max window : Z) (userID : option Z) (rq : Request)
    : M (option Response) :=
  let subject := match userID with
    | Some id => ("user:" +:+ fmt_d id)%string | None => rq_ClientIP rq end in
  let limitKey := ("limit:" +:+ key +:+ ":" +:+ subject)%string in
  now ← time_now;
  allowed ← limiter_take limitKey max window now;
  match allowed with
  | None => mret (Some (errorJSON 503 "rate_limit_unavailable"))
  | Some false => mret (Some (errorJSON 429 "rate_limited"))
  | Some true =>
      result ← withRedis (limitScript limitKey window);
      match result with
      | inr n => mret (if max <? n then Some (errorJSON 429 "rate_limited") else None)
      | inl _ => mret None
      end
  end.

(** ** Caches of single videos: what makes them forget *)

Definition videoCacheKeys (id : Z) : string * string :=
  let key := ("video:v2:{" +:+ fmt_d id +:+ "}")%string in (key, (key +:+ ":lock")%string).

Definition videoCardKey (id : Z) : string := ("video:card:v1:" +:+ fmt_d id)%string.

Definition on_videos {A} (f : Resilience.Memory.videoMemory (V := videoEnvelope) ->
    A * Resilience.Memory.videoMemory (V := videoEnvelope)) : M A := fun w =>
  let p := process w in
  let '(a, v) := f (local_videos p) in
  (inr a, with_process w (mkProcess (breaker p) v (limiter p))).

Definition videos_invalidate (id : Z) : M unit :=
  on_videos (fun m => (tt, Resilience.Memory.invalidate m id)).

Definition invalidateVideo (id : Z) : M unit :=
  _ ← videos_invalidate id;
  let '(key, lock) := videoCacheKeys id in
  _ ← withRedis (redis_del_keys [key; lock]);
  mret tt.

Section Edge.
Context `{Collation} `{JWT}.
Variable cfg : Config.

Fixpoint invalidate_all (ids : list Z) : M unit :=
  match ids with
  | [] => mret tt
  | id :: ids =>
      _ ← invalidateVideo id;
      _ ← withRedis (redis_del_keys [videoCardKey id]);
      invalidate_all ids
  end.

Definition invalidateAuthor (uid : Z) : M unit :=
  ids ← attempt (query (fun d =>
          vv_ID <$> select_rows (fun v => vv_UserID v =? uid) (Views.videos d)));
  match ids with inl _ => mret tt | inr ids => invalidate_all ids end.

(** ** Tokens *)

Definition signToken (userID : Z) (sessionID kind : string) (ttl : Z) : M string :=
  issued ← time_now;
  now ← time_now;
  id ← uuid_NewString;
  match SignedString (cf_JWTSecret cfg) (mkClaims kind sessionID (fmt_d userID) issued (now + ttl) id) with
  | Some token => mret token
  | None => throw (EMain "signing failed")
  end.

Definition parseToken (raw kind : string) : M tokenClaims :=
  now ← time_now;
  match ParseWithClaims (cf_JWTSecret cfg) now raw with
  | Some claims => if String.eqb (tc_Kind claims) kind then mret claims else throw (EMain "invalid token")
  | None => throw (EMain "invalid token")
  end.

(** ** Sessions *)

Definition session_row (id : string) (userID : Z) (hash : string) (expires now : Time) : SessionModel :=
  mkSessionModel id userID hash expires None now.

(** [newSessionOn]: the row, and the tokens the cookies get. *)
Definition newSession (userID : Z) : M (string * string) :=
  sid ← uuid_NewString;
  access ← signToken userID sid "access" SessionCache.accessTTL;
  refresh ← signToken userID sid "refresh" SessionCache.refreshTTL;
  now ← time_now;
  _ ← insert_keyed (session_row sid userID (shaHex refresh) (now + SessionCache.refreshTTL))
        (fun s d => bool_decide (is_Some (sessions (extension d) !! collate (se_ID s))))
        (fun s => set_extension (set_sessions <[collate (se_ID s) := s]>));
  mret (access, refresh).

Definition owned_live (uid : Z) (s : SessionModel) : bool :=
  (se_UserID s =? uid) && match se_RevokedAt s with None => true | Some _ => false end.

Definition revoke (now : Time) (s : SessionModel) : SessionModel :=
  mkSessionModel (se_ID s) (se_UserID s) (se_RefreshHash s) (se_ExpiresAt s) (Some now) (se_CreatedAt s).

(** [WHERE id IN ?] *)
Definition id_in (ids : list string) (id : string) : bool :=
  existsb (fun i => String.eqb (collate i) (collate id)) ids.

Definition revoke_ids (now : Time) (ids : list string) : Tables -> Tables :=
  set_extension (set_sessions (fmap (fun s => if id_in ids (se_ID s) then revoke now s else s))).

Definition revokeSessions (uid : Z) : M (list string) :=
  ids ← query (fun d => se_ID <$> select_rows (owned_live uid) (sessions (extension d)));
  now ← time_now;
  _ ← (if (0 <? len_z ids) then update (revoke_ids now ids) else mret tt);
  mret ids.

Definition sessionKey (id : string) : string := ("auth:session:v1:" +:+ id)%string.

Fixpoint retire_each (ids : list string) (failed : bool) : M bool :=
  match ids with
  | [] => mret failed
  | id :: ids =>
      r ← withRedis (redis_set_key (sessionKey id) (JRaw "revoked")
                       (SessionCache.refreshTTL + SessionCache.accessTTL));
      retire_each ids (match r with inl _ => true | inr _ => failed end)
  end.

Definition retireSessions (ids : list string) : M unit :=
  now ← time_now;
  let deadline := now + SessionCache.sessionLease in
  failed ← retire_each ids false;
  if failed : bool then
    now ← time_now;
    let wait := deadline - now in
    if 0 <? wait then sleep wait else mret tt
  else mret tt.

(** [json.Unmarshal] into a [cachedSession]. *)
Definition json_session (v : json_value) : option (SessionModel * Time) :=
  match v with
  | JSession s until => Some (s, until)
  | JRaw _ => None
  | _ => Some (mkSessionModel "" 0 "" 0 None 0, 0)
  end.

(** The error of [json.Marshal] is dropped: the text is empty then. *)
Definition marshal_session (s : SessionModel) (until : Time) : json_value :=
  if json_time (se_ExpiresAt s) && json_time (se_CreatedAt s) && json_time until
  then JSession s until else JRaw "".

(** The row, leased from before it is read. *)
Definition load_row (id : string) : M SessionModel :=
  now ← time_now;
  let until := now + SessionCache.sessionLease in
  s ← take_row (fun d => sessions (extension d) !! collate id);
  if bool_decide (se_RevokedAt s <> None) then throw errInvalidSession else
  now ← time_now;
  if negb (time_Before now (se_ExpiresAt s)) then throw errInvalidSession else
  now ← time_now;
  let ttl := until - now in
  _ ← (if 0 <? ttl then
         _ ← withRedis (redis_set_nx (sessionKey id) (marshal_session s until) ttl); mret tt
       else mret tt);
  mret s.

Definition is_revoked_mark (v : json_value) : bool :=
  match v with JRaw s => String.eqb s "revoked" | _ => false end.

Definition loadSession (id : string) : M SessionModel :=
  raw ← withRedis (redis_get_string (sessionKey id));
  match raw with
  | inr (Some v) =>
      if is_revoked_mark v then throw errInvalidSession else
      match json_session v with
      | Some (s, until) =>
          if String.eqb (se_ID s) id then
            now ← time_now;
            if time_Before now until then mret s else load_row id
          else load_row id
      | None => load_row id
      end
  | _ => load_row id
  end.

(** [accountAccess] of [admin.go]: only the id, the role and the status are selected. *)
Definition accountAccess (id : Z) : M (string * Z) :=
  take_row (fun d => (fun a => (am_Role a, am_Status a)) <$> account d !! id).

(** Who a request comes from. *)
Record Principal := mkPrincipal { pr_ID : Z; pr_Role : string; pr_SessionID : string }.

Inductive auth_result := Refused (r : Response) | Anonymous | Known (p : Principal).

Definition refuse (status : Z) (code : string) : M auth_result := mret (Refused (errorJSON status code)).

Definition check_account (uid : Z) (sid : string) : M auth_result :=
  account ← attempt (accountAccess uid);
  match account with
  | inl err =>
      if errors_Is err ERecordNotFound then refuse 403 "account_disabled" else refuse 503 "auth_unavailable"
  | inr (role, status) =>
      if negb (status =? 1) then refuse 403 "account_disabled" else mret (Known (mkPrincipal uid role sid))
  end.

Definition check_session (uid : Z) (sid : string) : M auth_result :=
  s ← attempt (loadSession sid);
  match s with
  | inl err =>
      if errors_Is err ERecordNotFound || errors_Is err errInvalidSession then refuse 401 "invalid_session"
      else mret (Refused (with_header "Retry-After" "1" (errorJSON 503 "auth_unavailable")))
  | inr s =>
      if negb (se_UserID s =? uid) || bool_decide (se_RevokedAt s <> None) then refuse 401 "invalid_session" else
      now ← time_now;
      if negb (time_Before now (se_ExpiresAt s)) then refuse 401 "invalid_session" else
      check_account uid (se_ID s)
  end.

Definition authenticate (rq : Request) (optional : bool) : M auth_result :=
  match accessCredential rq with
  | None => if optional then mret Anonymous else refuse 401 "login_required"
  | Some raw =>
      claims ← attempt (parseToken raw "access");
      match claims with
      | inl _ => refuse 401 "invalid_session"
      | inr claims =>
          match ParseUint (tc_Subject claims) with
          | None => refuse 401 "invalid_session"
          | Some uid =>
              if uid =? 0 then refuse 401 "invalid_session" else check_session uid (tc_SessionID claims)
          end
      end
  end.

(** [auth()] in front of a handler. *)
Definition authed (rq : Request) (handler : Principal -> M Response) : M Response :=
  who ← authenticate rq false;
  match who with
  | Known p => handler p
  | Refused r => mret r
  | Anonymous => mret (errorJSON 401 "login_required")
  end.

(** A handler behind [rateLimit]. *)
Definition limited (key : string) (max window : Z) (userID : option Z) (rq : Request) (handler : M Response)
    : M Response :=
  refusal ← rateLimit key max window userID rq;
  match refusal with Some r => mret r | None => handler end.

(** The group [/api/v1/admin]. *)
Definition admin_only (rq : Request) (handler : Principal -> M Response) : M Response :=
  authed rq (fun p =>
    if String.eqb (pr_Role p) "admin" then handler p else mret (errorJSON 403 "admin_required")).

End Edge.
