(* ===== verification/EdgeRules.v ===== *)
(** * What the shared parts of the handlers leave alone, and what they establish

    [quiet] computations change Redis, the memory of the process and the clock at most. The
    rate limits, the invalidations, the reading of tokens and sessions are quiet; [wp_authed]
    says whom a handler behind [auth()] runs for. *)
From S2P Require Import Prelude.
From S2P Require Import GoStd.
From S2P Require Import GoConv.
From S2P Require Import Errors.
From S2P Require Import Models.
From S2P Require Import Redis.
From S2P Require Import Store.
From S2P Require Import RedisClient.
From S2P Require Import Views.
From S2P Require SessionCache.
From S2P Require Import Edge.

(** ** Quiet computations *)

Definition quiet {A} (m : M A) : Prop :=
  forall w, wp m (fun _ w' => outside w w') (fun _ w' => outside w w') w.

Lemma outside_env w e : clock_of w <= clock e -> outside w (with_env w e).
Proof. by intros Hc. Qed.

Lemma wp_quiet {A} (m : M A) (Q : A -> World -> Prop) (E : error -> World -> Prop) w :
  quiet m -> (forall a w', outside w w' -> Q a w') -> (forall e w', outside w w' -> E e w') -> wp m Q E w.
Proof. intros Hm HQ HE. by eapply wp_mono; [apply Hm|auto..]. Qed.

Lemma quiet_ret {A} (a : A) : quiet (mret a).
Proof. intros w. by apply wp_ret. Qed.

Lemma quiet_throw {A} e : quiet (throw (A := A) e).
Proof. intros w. by apply wp_throw. Qed.

Lemma quiet_bind {A B} (m : M A) (f : A -> M B) : quiet m -> (forall a, quiet (f a)) -> quiet (m ≫= f).
Proof.
  intros Hm Hf w. apply wp_bind. apply wp_quiet; [done|intros a w' Ho|done].
  apply wp_quiet; [done|intros b w'' Ho'; by etrans..].
Qed.

Lemma quiet_attempt {A} (m : M A) : quiet m -> quiet (attempt m).
Proof. intros Hm w. apply wp_attempt, Hm. Qed.

Lemma quiet_map_error {A} f (m : M A) : quiet m -> quiet (map_error f m).
Proof. intros Hm w. apply wp_map_error, Hm. Qed.

Lemma quiet_call : quiet call.
Proof. intros w. by apply wp_call_clock; [intros e He|intros t e He]; apply outside_env; unfold clock_of; rewrite He. Qed.

Lemma quiet_time_now : quiet time_now.
Proof. intros w. apply wp_time_now. intros t e Ht He. apply outside_env. unfold clock_of. lia. Qed.

Lemma quiet_event_id : quiet new_event_id.
Proof. intros w. done. Qed.

Lemma quiet_uuid : quiet uuid_NewString.
Proof. intros w. done. Qed.

Lemma quiet_sleep d : quiet (sleep d).
Proof. intros w. apply wp_sleep. intros e He. apply outside_env. unfold clock_of. lia. Qed.

Lemma quiet_query {A} (f : Tables -> A) : quiet (query f).
Proof. apply quiet_bind; [apply quiet_call|]. by intros [] w. Qed.

Lemma quiet_take_row {A} (f : Tables -> option A) : quiet (take_row f).
Proof. apply quiet_bind; [apply quiet_query|]. intros [a|]; [apply quiet_ret|apply quiet_throw]. Qed.

Lemma quiet_request {A} (f : Time -> Redis -> (error + A) * Redis) : quiet (redis_request f).
Proof. intros w. by apply wp_redis_request. Qed.

(** A request behind the breaker always ends: with an answer, or without. *)
Lemma wp_withRedis {A} (m : M A) (Q : error + A -> World -> Prop) E w :
  (forall w', outside w w' -> redis w' = redis w -> Q (inl errRedisOpen) w') ->
  (forall w1, outside w w1 -> redis w1 = redis w ->
     wp m (fun a w' => forall w2, outside w' w2 -> Q (inr a) w2)
          (fun e w' => forall w2, outside w' w2 -> Q (inl e) w2) w1) ->
  wp (withRedis m) Q E w.
Proof.
  intros HO HM. unfold withRedis. apply wp_bind, wp_time_now. intros t e Ht He.
  set (w1 := with_env w e). assert (outside w w1 /\ redis w1 = redis w) as [Ho1 Hr1].
  { split; [apply outside_env; unfold clock_of; lia|done]. }
  clearbody w1. apply wp_bind. unfold wp at 1, breaker_allow. destruct (Resilience.Breaker.allow _ _) as [ok b].
  set (w2 := with_process w1 _). assert (outside w w2 /\ redis w2 = redis w) as [Ho2 Hr2] by done.
  clearbody w2. destruct (negb ok); [by apply wp_ret, HO|].
  assert (forall r w3, (forall w', outside w3 w' -> Q r w') ->
    wp (now ← time_now; _ ← breaker_result now (match r with inl _ => true | inr _ => false end); mret r) Q E w3) as Hend.
  { intros r w3 Hr. apply wp_bind, wp_time_now. intros t3 e3 Ht3 He3.
    apply Hr. repeat split. unfold clock_of. simpl. lia. }
  apply wp_bind, wp_attempt. eapply wp_mono; [by apply HM|intros a w3 HQ|intros err w3 HQ]; by apply Hend.
Qed.

Lemma wp_withRedis_quiet {A} (m : M A) (Q : error + A -> World -> Prop) E w :
  quiet m -> (forall r w', outside w w' -> Q r w') -> wp (withRedis m) Q E w.
Proof.
  intros Hm HQ. apply wp_withRedis; [by auto|]. intros w1 Ho1 _.
  apply wp_quiet; [done|..]; intros ? w2 Ho2 w3 Ho3; apply HQ; (etrans; [exact Ho1|by etrans]).
Qed.

Lemma quiet_withRedis {A} (m : M A) : quiet m -> quiet (withRedis m).
Proof. intros Hm w. by apply wp_withRedis_quiet. Qed.

Lemma quiet_on_videos {A} f : quiet (on_videos (A := A) f).
Proof. intros w. unfold wp, on_videos. by destruct (f _). Qed.

Lemma quiet_limiter key max window now : quiet (limiter_take key max window now).
Proof. intros w. unfold wp, limiter_take. by destruct (Resilience.Limiter.take _ _ _ _ _). Qed.

Ltac quiet_step :=
  lazymatch goal with
  | |- quiet (mret _) => apply quiet_ret
  | |- quiet (throw _) => apply quiet_throw
  | |- quiet (_ ≫= _) => apply quiet_bind; [|intros ?]
  | |- quiet (attempt _) => apply quiet_attempt
  | |- quiet (map_error _ _) => apply quiet_map_error
  | |- quiet call => apply quiet_call
  | |- quiet time_now => apply quiet_time_now
  | |- quiet new_event_id => apply quiet_event_id
  | |- quiet uuid_NewString => apply quiet_uuid
  | |- quiet (sleep _) => apply quiet_sleep
  | |- quiet (query _) => apply quiet_query
  | |- quiet (take_row _) => apply quiet_take_row
  | |- quiet (redis_request _) => apply quiet_request
  | |- quiet (redis_read _) => apply quiet_request
  | |- quiet (redis_write _) => apply quiet_request
  | |- quiet (withRedis _) => apply quiet_withRedis
  | |- quiet (on_videos _) => apply quiet_on_videos
  | |- quiet (limiter_take _ _ _ _) => apply quiet_limiter
  | |- quiet (match ?x with _ => _ end) => destruct x eqn:?
  end.

Ltac quiet_solve := repeat (cbv zeta; quiet_step); eauto.

Section EdgeRules.
Context `{Collation} `{JWT}.
Variable cfg : Config.

(** ** Limits and invalidations *)

Lemma rateLimit_quiet key max window uid rq : quiet (rateLimit key max window uid rq).
Proof. unfold rateLimit, limitScript. quiet_solve. Qed.

Lemma invalidateVideo_quiet id : quiet (invalidateVideo id).
Proof.
  unfold invalidateVideo, videos_invalidate, redis_del_keys. destruct (videoCacheKeys id). quiet_solve.
Qed.

Lemma invalidateAuthor_quiet uid : quiet (invalidateAuthor uid).
Proof.
  assert (forall ids, quiet (invalidate_all ids)) as Hall.
  { induction ids as [|id ids IH]; simpl; [apply quiet_ret|].
    apply quiet_bind; [apply invalidateVideo_quiet|]. intros []. unfold redis_del_keys. quiet_solve. }
  unfold invalidateAuthor. quiet_solve.
Qed.

Lemma retireSessions_quiet ids : quiet (retireSessions ids).
Proof.
  assert (forall failed, quiet (retire_each ids failed)) as Hr.
  { induction ids as [|id ids IH]; intros failed; simpl; [apply quiet_ret|].
    unfold redis_set_key. apply quiet_bind; [quiet_solve|]. intros r. apply IH. }
  unfold retireSessions. quiet_solve.
Qed.

(** ** Tokens *)

(** [raw] is a token of this kind, signed with the secret of the process. *)
Definition token_claims (raw kind : string) (c : tokenClaims) : Prop :=
  tc_Kind c = kind /\ exists now, ParseWithClaims (cf_JWTSecret cfg) now raw = Some c.

Lemma wp_parseToken raw kind (Q : tokenClaims -> World -> Prop) (E : error -> World -> Prop) w :
  (forall c w', outside w w' -> redis w' = redis w -> token_claims raw kind c -> Q c w') ->
  (forall e w', outside w w' -> E e w') -> wp (parseToken cfg raw kind) Q E w.
Proof.
  intros HQ HE. unfold parseToken. apply wp_bind, wp_time_now. intros now e Hn He.
  assert (outside w (with_env w e)) as Ho by (apply outside_env; unfold clock_of; lia).
  destruct (ParseWithClaims _ _ _) as [c|] eqn:Hp; [|by apply wp_throw, HE].
  destruct (String.eqb_spec (tc_Kind c) kind) as [Hk|Hk]; [|by apply wp_throw, HE].
  apply wp_ret, HQ; [done..|]. split; [done|by exists now].
Qed.

(** ** Sessions *)

(** The session may be used: the database has it, or a lease in Redis does. *)
Definition usable (w : World) (sid : string) (s : SessionModel) : Prop :=
  sessions (extension (db w)) !! collate sid = Some s \/
  exists now until v, clock_of w <= now < until /\ se_ID s = sid /\
    string_at now (redis w) (sessionKey sid) = Some (Some v) /\ json_session v = Some (s, until).

Lemma usable_before w w' sid s : outside w w' -> redis w' = redis w -> usable w' sid s -> usable w sid s.
Proof.
  intros (Hd & _ & _ & Hc & _) Hr [Hs|(now & until & v & Hn & ? & Hv & ?)]; [left; by rewrite <-Hd|right].
  exists now, until, v. rewrite <-Hr. split_and!; [lia..|done|done|done].
Qed.

Lemma load_row_quiet id : quiet (load_row id).
Proof. unfold load_row, redis_set_nx. quiet_solve. Qed.

Lemma wp_withRedis_read {A} (f : Time -> Redis -> option A) (Q : error + A -> World -> Prop) E w :
  (forall e w', outside w w' -> Q (inl e) w') ->
  (forall now w' a, clock_of w <= now <= clock_of w' -> outside w w' -> f now (redis w) = Some a ->
     Q (inr a) w') ->
  wp (withRedis (redis_read f)) Q E w.
Proof.
  intros HF HQ. apply wp_withRedis; [by auto|]. intros w1 Ho1 Hr1. apply wp_redis_read.
  - intros now w2 a Hle Hle' Ho2 Hf _ w3 Ho3. rewrite Hr1 in Hf.
    pose proof (outside_clock _ _ Ho1). pose proof (outside_clock _ _ Ho3).
    apply (HQ now); [lia|etrans; [exact Ho1|by etrans]|done].
  - intros w2 err Ho2 _ w3 Ho3. apply HF. etrans; [exact Ho1|by etrans].
Qed.

Lemma wp_load_row sid w w0 :
  outside w0 w ->
  wp (load_row sid) (fun s w' => outside w0 w' /\ sessions (extension (db w0)) !! collate sid = Some s)
    (fun _ w' => outside w0 w') w.
Proof.
  intros Ho. unfold load_row. apply wp_bind, wp_quiet; [apply quiet_time_now| |intros err w1 H1; by etrans].
  intros now w1 Ho1. assert (outside w0 w1) as H1 by by etrans. clear Ho Ho1.
  apply wp_bind, wp_take_row_clock.
  2: { intros e1 He1 _. etrans; [exact H1|]. apply outside_env. unfold clock_of. lia. }
  2: { intros t e1 He1. etrans; [exact H1|]. apply outside_env. unfold clock_of. lia. }
  intros s e1 He1 Hs. rewrite (proj1 H1) in Hs.
  set (w2 := with_env _ _). assert (outside w0 w2) as H2.
  { etrans; [exact H1|]. unfold w2. apply outside_env. unfold clock_of. lia. }
  clearbody w2. case_bool_decide; [by apply wp_throw|].
  apply wp_bind, wp_quiet; [apply quiet_time_now| |intros err w3 Ho3; by etrans]. intros now2 w3 Ho3.
  assert (outside w0 w3) as H3' by by etrans. destruct (negb _); [by apply wp_throw|].
  apply wp_bind, wp_quiet; [apply quiet_time_now| |intros err w4 Ho4; by etrans]. intros now3 w4 Ho4.
  apply wp_bind, wp_quiet; [unfold redis_set_nx; quiet_solve| |intros err w5 Ho5; etrans; [exact H3'|]; by etrans].
  intros _ w5 Ho5. apply wp_ret. split; [|done]. etrans; [exact H3'|]. by etrans.
Qed.

Lemma wp_loadSession sid w :
  wp (loadSession sid) (fun s w' => outside w w' /\ usable w sid s) (fun _ w' => outside w w') w.
Proof.
  assert (forall w', outside w w' ->
    wp (load_row sid) (fun s w' => outside w w' /\ usable w sid s) (fun _ w' => outside w w') w') as Hload.
  { intros w' Ho. eapply wp_mono; [by apply wp_load_row| |done]. intros s w2 [H2 Hs]. split; [done|by left]. }
  unfold loadSession. apply wp_bind, wp_withRedis_read; [intros err w' Ho; by apply Hload|].
  intros now w' [v|] Hn Ho Hv; [|by apply Hload].
  destruct (is_revoked_mark v); [by apply wp_throw|].
  destruct (json_session v) as [[s until]|] eqn:Hj; [|by apply Hload].
  destruct (String.eqb_spec (se_ID s) sid) as [Hid|Hid]; [|by apply Hload].
  apply wp_bind, wp_time_now. intros now2 e Hn2 He.
  assert (outside w (with_env w' e)) as Ho2.
  { etrans; [exact Ho|]. apply outside_env. unfold clock_of. lia. }
  unfold time_Before. destruct (Z.ltb_spec now2 until) as [Hl|Hl]; [|by apply Hload].
  apply wp_ret. split; [done|]. right. exists now, until, v. split; [|done].
  pose proof (outside_clock _ _ Ho). unfold clock_of in *. lia.
Qed.

(** ** Who a handler runs for *)

Definition refusal (r : Response) : Prop := rs_Status r ∈ [401; 403; 503].

(** [p] comes with a token of a session that may be used, and is what the account is now. *)
Record identified (w : World) (rq : Request) (p : Principal) : Prop := {
  id_token : exists raw c, accessCredential rq = Some raw /\ token_claims raw "access" c /\
    ParseUint (tc_Subject c) = Some (pr_ID p) /\
    exists s, usable w (tc_SessionID c) s /\ se_UserID s = pr_ID p /\ se_RevokedAt s = None /\
      clock_of w < se_ExpiresAt s /\ pr_SessionID p = se_ID s;
  id_account : exists a, account (db w) !! pr_ID p = Some a /\ am_Status a = 1 /\ am_Role a = pr_Role p;
}.

Definition auth_ok (w : World) (rq : Request) (r : auth_result) (w' : World) : Prop :=
  outside w w' /\
  match r with
  | Refused r => refusal r
  | Anonymous => accessCredential rq = None
  | Known p => identified w rq p
  end.

Lemma wp_check_account uid sid w w0 :
  outside w0 w ->
  wp (check_account uid sid)
    (fun r w' => outside w0 w' /\
       match r with
       | Refused r => refusal r
       | Anonymous => False
       | Known p => pr_ID p = uid /\ pr_SessionID p = sid /\
           exists a, account (db w0) !! uid = Some a /\ am_Status a = 1 /\ am_Role a = pr_Role p
       end) (fun _ _ => False) w.
Proof.
  intros Ho. unfold check_account, accountAccess, refuse.
  assert (forall e, clock e = clock (env w) -> outside w0 (with_env w e)) as Hout.
  { intros e He. etrans; [exact Ho|]. apply outside_env. unfold clock_of. lia. }
  apply wp_bind, wp_attempt, wp_take_row_clock.
  - intros [role status] e He Ha. rewrite (proj1 Ho) in Ha. apply fmap_Some in Ha as (a & Ha & [= -> ->]).
    destruct (Z.eqb_spec (am_Status a) 1) as [Hs|Hs]; apply wp_ret; (split; [by apply Hout|]).
    + split_and!; [done..|]. by exists a.
    + unfold refusal. simpl. set_solver.
  - intros e He _. simpl. apply wp_ret. split; [by apply Hout|]. unfold refusal. simpl. set_solver.
  - intros t e He. simpl. apply wp_ret. split; [by apply Hout|]. unfold refusal. simpl. set_solver.
Qed.

Lemma wp_authenticate rq optional w :
  wp (authenticate cfg rq optional) (auth_ok w rq) (fun _ _ => False) w.
Proof.
  assert (forall code w', outside w w' -> auth_ok w rq (Refused (errorJSON 401 code)) w') as H401.
  { intros code w' Ho. split; [done|]. unfold refusal. simpl. set_solver. }
  unfold authenticate, refuse. destruct (accessCredential rq) as [raw|] eqn:Hraw.
  2: { destruct optional; apply wp_ret; [done|by apply H401]. }
  apply wp_bind, wp_attempt, wp_parseToken; [|intros err w1 Ho; apply wp_ret; by apply H401].
  intros c w1 Ho1 Hr1 Hc. destruct (ParseUint (tc_Subject c)) as [uid|] eqn:Hu; [|by apply wp_ret, H401].
  destruct (Z.eqb_spec uid 0) as [->|Hnz]; [by apply wp_ret, H401|].
  unfold check_session, refuse. apply wp_bind, wp_attempt.
  eapply wp_mono; [apply wp_loadSession| |]; simpl.
  2: { intros err w2 Ho2. assert (outside w w2) by by etrans.
       destruct (_ || _); apply wp_ret; [by apply H401|]. split; [done|]. unfold refusal. simpl. set_solver. }
  intros s w2 [Ho2 Hs]. assert (outside w w2) as Hw2 by by etrans.
  destruct (Z.eqb_spec (se_UserID s) uid) as [Huid|]; simpl; [|by apply wp_ret, H401].
  case_bool_decide as Hr; simpl; [by apply wp_ret, H401|].
  apply wp_bind, wp_time_now. intros now e Hn He. unfold time_Before.
  assert (outside w (with_env w2 e)) as Hw3.
  { etrans; [exact Hw2|]. apply outside_env. unfold clock_of. lia. }
  destruct (Z.ltb_spec now (se_ExpiresAt s)) as [Hl|Hl]; simpl; [|by apply wp_ret, H401].
  eapply wp_mono; [by apply wp_check_account| |done].
  intros r w4 [Hw4 Hr4]. split; [done|]. destruct r as [r| |p]; [done|done|].
  destruct Hr4 as (Hid & Hsid & a & Ha & Hst & Hrole). split; [|exists a; by rewrite Hid].
  exists raw, c. rewrite Hid. split_and!; [done..|]. exists s.
  assert (clock_of w <= now) as Hnow by (pose proof (outside_clock _ _ Hw2); unfold clock_of in *; lia).
  split_and!; [by apply (usable_before w w1)|done|by destruct (se_RevokedAt s); [destruct Hr|]|lia|done].
Qed.

(** A handler behind [auth()] runs for an identified principal, in tables as they were. *)
Lemma wp_authed rq h (Q : Response -> World -> Prop) w :
  (forall r w', outside w w' -> refusal r -> Q r w') ->
  (forall p w', outside w w' -> identified w rq p -> wp (h p) Q (fun _ _ => False) w') ->
  wp (authed cfg rq h) Q (fun _ _ => False) w.
Proof.
  intros HR HK. unfold authed. apply wp_bind. eapply wp_mono; [apply wp_authenticate| |done].
  intros [r| |p] w' [Ho Hr]; [by apply wp_ret, HR| |by apply HK].
  apply wp_ret, HR; [done|]. unfold refusal. simpl. set_solver.
Qed.

Lemma wp_admin_only rq h (Q : Response -> World -> Prop) w :
  (forall r w', outside w w' -> refusal r -> Q r w') ->
  (forall p w', outside w w' -> identified w rq p -> pr_Role p = "admin"%string ->
     wp (h p) Q (fun _ _ => False) w') ->
  wp (admin_only cfg rq h) Q (fun _ _ => False) w.
Proof.
  intros HR HK. apply wp_authed; [done|]. intros p w' Ho Hp.
  destruct (String.eqb_spec (pr_Role p) "admin"); [by apply HK|].
  apply wp_ret, HR; [done|]. unfold refusal. simpl. set_solver.
Qed.

Lemma wp_limited key max window uid rq h (Q : Response -> World -> Prop) w :
  (forall r w', outside w w' -> rs_Status r ∈ [429; 503] -> Q r w') ->
  (forall w', outside w w' -> wp h Q (fun _ _ => False) w') ->
  wp (limited key max window uid rq h) Q (fun _ _ => False) w.
Proof.
  intros HR HK. unfold limited. apply wp_bind.
  assert (wp (rateLimit key max window uid rq)
    (fun r w' => outside w w' /\ match r with Some r => rs_Status r ∈ [429; 503] | None => True end)
    (fun _ _ => False) w) as Hl.
  2: { eapply wp_mono; [exact Hl| |done]. intros [r|] w' [Ho Hr]; [by apply wp_ret, HR|by apply HK]. }
  assert (forall code n, n ∈ [429; 503] -> forall w', outside w w' ->
    outside w w' /\ rs_Status (errorJSON n code) ∈ [429; 503]) as Hcode by done.
  unfold rateLimit. cbv zeta. apply wp_bind, wp_time_now. intros now e Hn He.
  assert (outside w (with_env w e)) as Ho1 by (apply outside_env; unfold clock_of; lia).
  apply wp_bind. unfold wp at 1, limiter_take. destruct (Resilience.Limiter.take _ _ _ _ _) as [ok l].
  set (w2 := with_process _ _). assert (outside w w2) as Ho2 by by etrans. clearbody w2.
  destruct ok as [[|]|]; [|apply wp_ret, Hcode; [set_solver|done]..].
  apply wp_bind, wp_withRedis_quiet; [apply quiet_request|]. intros r w3 Ho3.
  assert (outside w w3) as Hw3 by by etrans. destruct r as [err|n]; [by apply wp_ret|].
  apply wp_ret. destruct (max <? n); [|done]. apply Hcode; [set_solver|done].
Qed.

End EdgeRules.
