(* ===== verification/AuthHandlers.v ===== *)
(** * Accounts and sessions: the handlers of [auth.go] and the account side of [admin.go] *)
From Stdlib Require Import Ascii.
From S2P Require Import Prelude.
From S2P Require Import GoStd.
From S2P Require Import GoConv.
From S2P Require AccountDomain.
From S2P Require Import Errors.
From S2P Require Import Models.
From S2P Require Import Redis.
From S2P Require Import Store.
From S2P Require AccountRepo.
From S2P Require Import Views.
From S2P Require SessionCache.
From S2P Require Import Edge.

Section AuthHandlers.
Context `{Collation} `{JWT} `{AccountDomain.Bcrypt}.
Variable cfg : Config.

(** [usernamePattern]: three to forty letters, digits and underscores. *)
Definition word_char (b : Z) : bool :=
  ((97 <=? b) && (b <=? 122)) || ((65 <=? b) && (b <=? 90)) || ((48 <=? b) && (b <=? 57)) || (b =? 95).

Definition usernamePattern (s : string) : bool :=
  forallb word_char (string_bytes s) && (3 <=? len s) && (len s <=? 40).

Definition password_length (s : string) : bool := negb ((len s <? 12) || (72 <? len s)).

Definition generate (salt password : string) : option string :=
  AccountDomain.GenerateFromPassword salt password.

(** ** Registration *)

Record register_body := mkRegister { rb_Username : string; rb_Password : string; rb_Invite : string }.

Definition invite_open (hash : string) (now : Time) (i : InviteModel) : bool :=
  String.eqb (collate (iv_CodeHash i)) (collate hash) &&
  match iv_UsedBy i with None => true | Some _ => false end && (now <? iv_ExpiresAt i).

Definition use_invite (uid : Z) (i : InviteModel) : InviteModel :=
  mkInviteModel (iv_ID i) (iv_CodeHash i) (Some uid) (iv_ExpiresAt i) (iv_CreatedAt i).

(** [createCoreUser] of [core.go] *)
Definition core_user (username hash : string) : AccountDomain.User :=
  {| AccountDomain.u_ID := 0; AccountDomain.u_Account := username;
     AccountDomain.u_Password := hash; AccountDomain.u_Nickname := username;
     AccountDomain.u_AvatarURL := ""; AccountDomain.u_Bio := ""; AccountDomain.u_Status := 1;
     AccountDomain.u_Role := "user"; AccountDomain.u_FollowingCount := 0;
     AccountDomain.u_FollowerCount := 0; AccountDomain.u_WorkCount := 0 |}.

Definition createCoreUser (username hash : string) : M UserView :=
  m ← AccountRepo.insert_user (core_user username hash);
  mret (mkUserView (am_ID m) username hash "" "" (am_CreatedAt m)).

Definition register_tx (username hash inviteHash : string) : M UserView :=
  transaction (
    now ← time_now;
    invite ← take_row (fun d => find_row (invite_open inviteHash now) (invites (extension d)));
    user ← createCoreUser username hash;
    _ ← update (set_extension (set_invites (alter (use_invite (vu_ID user)) (iv_ID invite))));
    mret user).

Definition register (salt : string) (body : option register_body) : M Response :=
  match body with
  | None => mret (errorJSON 400 "invalid_registration")
  | Some b =>
      if negb (usernamePattern (rb_Username b)) || negb (password_length (rb_Password b))
         || (len (rb_Invite b) <? 20)
      then mret (errorJSON 400 "invalid_registration") else
      match generate salt (rb_Password b) with
      | None => mret (errorJSON 500 "password_error")
      | Some hash =>
          user ← attempt (register_tx (rb_Username b) hash (shaHex (rb_Invite b)));
          match user with
          | inl _ => mret (errorJSON 400 "invalid_invite_or_username")
          | inr user =>
              tokens ← attempt (newSession cfg (vu_ID user));
              match tokens with
              | inl _ => mret (errorJSON 500 "session_error")
              | inr (access, refresh) => mret (with_cookies (SetTokens access refresh) (JSON 201 (BUser user)))
              end
          end
      end
  end.

(** ** Login *)

Definition account_disabled : error := EMain "account_disabled".
Definition credentials_changed : error := EMain "credentials_changed".

Definition login_tx (uid : Z) (hash : string) : M (string * string) :=
  transaction (
    account ← take_row (fun d => (fun a => (am_Password a, am_Status a)) <$> account d !! uid);
    let '(password, status) := account in
    if negb (status =? 1) then throw account_disabled else
    if negb (String.eqb password hash) then throw credentials_changed else
    newSession cfg uid).

Definition login (body : option (string * string)) : M Response :=
  match body with
  | None => mret (errorJSON 400 "invalid_request")
  | Some (username, password) =>
      user ← attempt (take_row (fun d => find_row (named username) (users d)));
      match user with
      | inl _ => mret (errorJSON 401 "invalid_credentials")
      | inr user =>
          if negb (AccountDomain.CompareHashAndPassword (vu_PasswordHash user) password)
          then mret (errorJSON 401 "invalid_credentials") else
          tokens ← attempt (login_tx (vu_ID user) (vu_PasswordHash user));
          match tokens with
          | inl err =>
              mret (with_cookies ClearCookies
                (if errors_Is err account_disabled then errorJSON 403 "account_disabled"
                 else if errors_Is err credentials_changed then errorJSON 401 "invalid_credentials"
                 else errorJSON 503 "auth_unavailable"))
          | inr (access, refresh) => mret (with_cookies (SetTokens access refresh) (JSON 200 (BUser user)))
          end
      end
  end.

(** ** Refresh *)

Definition rotate (hash : string) (expires : Time) (s : SessionModel) : SessionModel :=
  mkSessionModel (se_ID s) (se_UserID s) hash expires (se_RevokedAt s) (se_CreatedAt s).

Definition refresh_tx (uid : Z) (sid raw refresh : string) : M unit :=
  transaction (
    s ← take_row (fun d => sessions (extension d) !! collate sid);
    if negb (se_UserID s =? uid) || bool_decide (se_RevokedAt s <> None) then throw (EMain "invalid refresh") else
    now ← time_now;
    if time_After now (se_ExpiresAt s) || negb (String.eqb (se_RefreshHash s) (shaHex raw))
    then throw (EMain "invalid refresh") else
    now ← time_now;
    update (set_extension (set_sessions
      (alter (rotate (shaHex refresh) (now + SessionCache.refreshTTL)) (collate (se_ID s)))))).

Definition refresh_tokens (uid : Z) (sid raw : string) : M Response :=
  access ← attempt (signToken cfg uid sid "access" SessionCache.accessTTL);
  match access with
  | inl _ => mret (errorJSON 500 "session_error")
  | inr access =>
      refresh ← attempt (signToken cfg uid sid "refresh" SessionCache.refreshTTL);
      match refresh with
      | inl _ => mret (errorJSON 500 "session_error")
      | inr refresh =>
          r ← attempt (refresh_tx uid sid raw refresh);
          match r with
          | inl _ => mret (with_cookies ClearCookies (errorJSON 401 "invalid_session"))
          | inr _ => mret (with_cookies (SetTokens access refresh) (JSON 200 BOk))
          end
      end
  end.

Definition refresh (rq : Request) : M Response :=
  match rq_Refresh rq with
  | None => mret (errorJSON 401 "invalid_session")
  | Some raw =>
      claims ← attempt (parseToken cfg raw "refresh");
      match claims with
      | inl _ => mret (errorJSON 401 "invalid_session")
      | inr claims =>
          match ParseUint (tc_Subject claims) with
          | None => mret (errorJSON 401 "invalid_session")
          | Some uid =>
              account ← attempt (accountAccess uid);
              match account with
              | inl _ => mret (errorJSON 503 "auth_unavailable")
              | inr (_, status) =>
                  if negb (status =? 1)
                  then mret (with_cookies ClearCookies (errorJSON 403 "account_disabled"))
                  else refresh_tokens uid (tc_SessionID claims) raw
              end
          end
      end
  end.

(** ** Logout *)

Definition sid_of (raw : option string) (kind : string) : M string :=
  match raw with
  | None => mret ""%string
  | Some raw =>
      claims ← attempt (parseToken cfg raw kind);
      mret (match claims with inl _ => ""%string | inr claims => tc_SessionID claims end)
  end.

Definition logout (rq : Request) : M Response :=
  sid ← sid_of (rq_Refresh rq) "refresh";
  sid ← (if String.eqb sid "" then sid_of (accessCredential rq) "access" else mret sid);
  if String.eqb sid "" then mret (with_cookies ClearCookies (JSON 200 BOk)) else
  now ← time_now;
  r ← attempt (update (revoke_ids now [sid]));
  match r with
  | inl _ => mret (errorJSON 503 "logout_failed")
  | inr _ => _ ← retireSessions [sid]; mret (with_cookies ClearCookies (JSON 200 BOk))
  end.

(** ** The own account *)

Definition me (p : Principal) : M Response :=
  u ← attempt (first_user (pr_ID p));
  match u with
  | inl _ => mret (errorJSON 404 "user_not_found")
  | inr u => mret (JSON 200 (BMe u (String.eqb (pr_Role p) "admin")))
  end.

Record profile_body := mkProfileBody { pb_Bio : option string; pb_Username : option string }.

(** [UPDATE users SET …], through the view. *)
Definition set_profile (bio username : option string) (a : UserModel) : UserModel :=
  mkUserModel (am_ID a) (default (am_Account a) username) (am_Password a) (am_Nickname a)
    (am_AvatarURL a) (default (am_Bio a) bio) (am_Status a) (am_Role a) (am_CreatedAt a)
    (am_UpdatedAt a).

Definition set_nickname (name : string) (a : UserModel) : UserModel :=
  mkUserModel (am_ID a) (am_Account a) (am_Password a) name (am_AvatarURL a) (am_Bio a)
    (am_Status a) (am_Role a) (am_CreatedAt a) (am_UpdatedAt a).

Definition updateMe_tx (uid : Z) (bio username : option string) : M (list string) :=
  transaction (
    _ ← update_unless (fun d => match username with Some name => name_taken uid name d | None => false end)
          (set_columns uid (set_profile bio username));
    match username with
    | None => mret []
    | Some name =>
        _ ← update (set_columns uid (set_nickname name));
        revokeSessions uid
    end).

Definition updateMe (p : Principal) (body : option profile_body) : M Response :=
  match body with
  | None => mret (errorJSON 400 "invalid_profile")
  | Some b =>
      if match pb_Bio b with Some bio => 500 <? len bio | None => false end
      then mret (errorJSON 400 "invalid_profile") else
      if match pb_Username b with Some name => negb (usernamePattern name) | None => false end
      then mret (errorJSON 400 "invalid_username") else
      match pb_Bio b, pb_Username b with
      | None, None => mret (errorJSON 400 "empty_update")
      | bio, username =>
          revoked ← attempt (updateMe_tx (pr_ID p) bio username);
          match revoked with
          | inl _ => mret (errorJSON 409 "update_failed")
          | inr revoked =>
              _ ← retireSessions revoked;
              _ ← invalidateAuthor (pr_ID p);
              match username with
              | None => me p
              | Some _ =>
                  tokens ← attempt (newSession cfg (pr_ID p));
                  match tokens with
                  | inl _ => mret (with_cookies ClearCookies (errorJSON 503 "session_error"))
                  | inr (access, refresh) => r ← me p; mret (with_cookies (SetTokens access refresh) r)
                  end
              end
          end
      end
  end.

Definition set_password (hash : string) (a : UserModel) : UserModel :=
  mkUserModel (am_ID a) (am_Account a) hash (am_Nickname a) (am_AvatarURL a) (am_Bio a)
    (am_Status a) (am_Role a) (am_CreatedAt a) (am_UpdatedAt a).

Definition changePassword_tx (uid : Z) (hash : string) : M (list string) :=
  transaction (
    _ ← update (set_columns uid (set_password hash));
    revokeSessions uid).

(** [body]: the old and the new password. *)
Definition changePassword (salt : string) (p : Principal) (body : option (string * string)) : M Response :=
  match body with
  | None => mret (errorJSON 400 "invalid_password")
  | Some (oldPassword, newPassword) =>
      if negb (password_length newPassword) then mret (errorJSON 400 "invalid_password") else
      u ← attempt (first_user (pr_ID p));
      match u with
      | inl _ => mret (errorJSON 401 "invalid_credentials")
      | inr u =>
          if negb (AccountDomain.CompareHashAndPassword (vu_PasswordHash u) oldPassword)
          then mret (errorJSON 401 "invalid_credentials") else
          match generate salt newPassword with
          | None => mret (errorJSON 500 "password_error")
          | Some hash =>
              revoked ← attempt (changePassword_tx (vu_ID u) hash);
              match revoked with
              | inl _ => mret (errorJSON 500 "password_error")
              | inr revoked => _ ← retireSessions revoked; mret (with_cookies ClearCookies (JSON 200 BOk))
              end
          end
      end
  end.

(** A count whose error is dropped stays 0. *)
Definition count_or_zero (f : Tables -> Z) : M Z :=
  n ← attempt (query f); mret (match n with inl _ => 0 | inr n => n end).

Definition userProfile (param : string) : M Response :=
  match ParseUint param with
  | None => mret (errorJSON 400 "invalid_id")
  | Some id =>
      u ← attempt (first_user id);
      match u with
      | inl _ => mret (errorJSON 404 "user_not_found")
      | inr u =>
          nvideos ← count_or_zero (fun d => map_count (fun v => vv_UserID v =? id) (Views.videos d));
          nfollowers ← count_or_zero (fun d => map_count (fun f => vf_FollowingID f =? id) (Views.follows d));
          nfollowing ← count_or_zero (fun d => map_count (fun f => vf_FollowerID f =? id) (Views.follows d));
          nlikes ← count_or_zero (fun d => map_count (fun l =>
                     match Views.videos d !! vl_VideoID l with Some v => vv_UserID v =? id | None => false end)
                     (Views.likes d));
          mret (JSON 200 (BProfile u nvideos nfollowers nfollowing nlikes))
      end
  end.

(** ** Administration of accounts ([admin.go]) *)

Definition errProtectedAdmin : error := EMain "protected_admin".

Definition adminWriteError (err : error) : Response :=
  if errors_Is err ERecordNotFound then errorJSON 404 "record_not_found" else
  if errors_Is err EDuplicatedKey then errorJSON 409 "username_taken" else
  if errors_Is err errProtectedAdmin then errorJSON 400 "protected_admin" else
  errorJSON 503 "admin_unavailable".

Record admin_user_body := mkAdminUserBody {
  ab_Username : option string; ab_Bio : option string; ab_Status : option Z }.

(** [tx.Model(&u).Updates(updates)] *)
Definition admin_row (b : admin_user_body) (now : Time) (a : UserModel) : UserModel :=
  mkUserModel (am_ID a) (default (am_Account a) (ab_Username b)) (am_Password a)
    (default (am_Nickname a) (ab_Username b)) (am_AvatarURL a) (default (am_Bio a) (ab_Bio b))
    (default (am_Status a) (ab_Status b)) (am_Role a) (am_CreatedAt a) now.

Definition disables (b : admin_user_body) : bool :=
  match ab_Status b with Some s => negb (s =? 1) | None => false end.

Definition renames (b : admin_user_body) : bool :=
  match ab_Username b with Some _ => true | None => false end.

Definition adminUpdateUser_tx (id : Z) (b : admin_user_body) : M (list string) :=
  transaction (
    u ← take_row (fun d => account d !! id);
    if disables b && String.eqb (am_Role u) "admin" then throw errProtectedAdmin else
    now ← time_now;
    _ ← update_unless
          (fun d => match ab_Username b with Some name => name_taken (am_ID u) name d | None => false end)
          (set_columns (am_ID u) (admin_row b now));
    if renames b || disables b then revokeSessions id else mret []).

Definition adminUpdateUser (p : Principal) (param : string) (body : option admin_user_body) : M Response :=
  match paramID param with
  | None => mret (errorJSON 400 "invalid_id")
  | Some id =>
      match body with
      | None | Some (mkAdminUserBody None None None) => mret (errorJSON 400 "invalid_request")
      | Some b =>
          if match ab_Username b with Some name => negb (usernamePattern name) | None => false end
          then mret (errorJSON 400 "invalid_username") else
          if match ab_Bio b with Some bio => 500 <? len bio | None => false end
          then mret (errorJSON 400 "invalid_profile") else
          if match ab_Status b with Some s => negb (s =? 0) && negb (s =? 1) | None => false end
          then mret (errorJSON 400 "invalid_status") else
          revoked ← attempt (adminUpdateUser_tx id b);
          match revoked with
          | inl err => mret (adminWriteError err)
          | inr revoked =>
              _ ← retireSessions revoked;
              _ ← invalidateAuthor id;
              mret (JSON 200 (BReauthenticate ((id =? pr_ID p) && renames b)))
          end
      end
  end.

Definition admin_password_row (hash : string) (now : Time) (a : UserModel) : UserModel :=
  mkUserModel (am_ID a) (am_Account a) hash (am_Nickname a) (am_AvatarURL a) (am_Bio a)
    (am_Status a) (am_Role a) (am_CreatedAt a) now.

Definition adminPassword_tx (id : Z) (hash : string) : M (list string) :=
  transaction (
    u ← take_row (fun d => account d !! id);
    now ← time_now;
    _ ← update (set_columns (am_ID u) (admin_password_row hash now));
    revokeSessions id).

Definition adminPassword (salt : string) (p : Principal) (param : string) (body : option string) : M Response :=
  match paramID param with
  | None => mret (errorJSON 400 "invalid_id")
  | Some id =>
      match body with
      | None => mret (errorJSON 400 "invalid_password")
      | Some password =>
          if negb (password_length password) then mret (errorJSON 400 "invalid_password") else
          match generate salt password with
          | None => mret (errorJSON 503 "admin_unavailable")
          | Some hash =>
              revoked ← attempt (adminPassword_tx id hash);
              match revoked with
              | inl err => mret (adminWriteError err)
              | inr revoked =>
                  _ ← retireSessions revoked; mret (JSON 200 (BReauthenticate (id =? pr_ID p)))
              end
          end
      end
  end.

(** The command [grant-admin]. *)
Definition set_role (role : string) (now : Time) (a : UserModel) : UserModel :=
  mkUserModel (am_ID a) (am_Account a) (am_Password a) (am_Nickname a) (am_AvatarURL a) (am_Bio a)
    (am_Status a) role (am_CreatedAt a) now.

Definition grantAdmin (username : string) : M unit :=
  u ← take_row (fun d => find_row (fun a => AccountRepo.account_is username a && (am_Status a =? 1)) (account d));
  now ← time_now;
  update (set_columns (am_ID u) (set_role "admin" now)).

(** The command [invite] of [main.go]; [code] is what it prints. *)
Definition createInvite (code : string) : M InviteModel :=
  now ← time_now;
  insert_row "invites" (fun id t => mkInviteModel id (shaHex code) None (now + 14 * 24 * hour) t)
    (fun i d => match find_row (fun j => String.eqb (collate (iv_CodeHash j)) (collate (iv_CodeHash i)))
                        (invites (extension d)) with Some _ => true | None => false end)
    (fun i => set_extension (set_invites <[iv_ID i := i]>)).

End AuthHandlers.
