(* ===== verification/AccountSpec.v ===== *)
(** * What accounts, sessions and invites promise

    [lawful given d d'] is the contract of the operations of the main package on accounts, as a
    relation between the tables before and after: a session that is revoked stays revoked, and
    the refresh token of one that was there is replaced by one with a hash in [given] only, an
    invite that was used stays used by the same account, an enabled administrator stays one,
    and when the name or the password of an account changes or the account is disabled, every
    session it had is revoked in the same commit. The relation is a preorder, so that what
    each operation keeps, all of them keep together. *)
From S2P Require Import Prelude.
From S2P Require Import GoStd.
From S2P Require AccountDomain.
From S2P Require Import Errors.
From S2P Require Import Models.
From S2P Require Import Store.
From S2P Require SessionCache.
From S2P Require AccountRepo.
From S2P Require Import Views.
From S2P Require Import Edge.
From S2P Require Import AuthHandlers.

Section AccountSpec.
Context `{Collation} `{JWT} `{AccountDomain.Bcrypt}.

(** The hashes of the refresh tokens that sessions may be given. *)
Variable given : string -> Prop.

(** ** The contract *)

Definition revoked (s : SessionModel) : Prop := se_RevokedAt s <> None.

(** A session keeps its owner; it keeps its refresh token or is given another; once revoked
    nothing about it but the time changes. *)
Record session_evolves (s s' : SessionModel) : Prop := {
  sv_id : se_ID s' = se_ID s;
  sv_user : se_UserID s' = se_UserID s;
  sv_hash : se_RefreshHash s' = se_RefreshHash s \/ given (se_RefreshHash s');
  sv_revoked : revoked s -> revoked s' /\ se_RefreshHash s' = se_RefreshHash s;
}.

Record invite_evolves (i i' : InviteModel) : Prop := {
  ie_id : iv_ID i' = iv_ID i;
  ie_code : iv_CodeHash i' = iv_CodeHash i;
  ie_expires : iv_ExpiresAt i' = iv_ExpiresAt i;
  ie_used : iv_UsedBy i <> None -> i' = i;
}.

Definition enabled_admin (a : UserModel) : Prop := am_Role a = "admin"%string /\ am_Status a = 1.

(** What a client proved to get a session no longer holds. *)
Definition credentials_differ (a a' : UserModel) : Prop :=
  am_Account a' <> am_Account a \/ am_Password a' <> am_Password a \/
  (am_Status a = 1 /\ am_Status a' <> 1).

Definition sessions_revoked (uid : Z) (d d' : Tables) : Prop :=
  forall k s s', sessions (extension d) !! k = Some s -> se_UserID s = uid ->
    sessions (extension d') !! k = Some s' -> revoked s'.

Record lawful (d d' : Tables) : Prop := {
  lw_sessions : forall k s, sessions (extension d) !! k = Some s ->
    exists s', sessions (extension d') !! k = Some s' /\ session_evolves s s';
  lw_invites : forall k i, invites (extension d) !! k = Some i ->
    exists i', invites (extension d') !! k = Some i' /\ invite_evolves i i';
  lw_accounts : forall id a, account d !! id = Some a ->
    exists a', account d' !! id = Some a' /\ (enabled_admin a -> enabled_admin a') /\
      (credentials_differ a a' -> sessions_revoked id d d');
}.

#[export] Instance session_evolves_preorder : PreOrder session_evolves.
Proof.
  split; [by intros s; split; [done|done|by left|done]|]. intros s1 s2 s3 [I1 U1 G1 R1] [I2 U2 G2 R2].
  split; [congruence..| |].
  { destruct G2 as [E2|G2]; [|by right]. destruct G1 as [E1|G1]; [left; congruence|right; by rewrite E2]. }
  intros [Hr1 E1]%R1. apply R2 in Hr1 as [Hr2 E2]. split; [done|congruence].
Qed.

#[export] Instance invite_evolves_preorder : PreOrder invite_evolves.
Proof.
  split; [by intros i; split|]. intros i1 i2 i3 [I1 C1 E1 U1] [I2 C2 E2 U2].
  split; [congruence..|]. intros Hu. assert (i2 = i1) as -> by auto. auto.
Qed.

Lemma credentials_differ_split a1 a2 a3 :
  credentials_differ a1 a3 -> credentials_differ a1 a2 \/ credentials_differ a2 a3.
Proof.
  unfold credentials_differ. intros [Hd|[Hd|[Hd1 Hd3]]].
  - destruct (decide (am_Account a2 = am_Account a1)) as [E|]; [rewrite <-E in Hd|]; auto.
  - destruct (decide (am_Password a2 = am_Password a1)) as [E|]; [rewrite <-E in Hd|]; auto.
  - destruct (decide (am_Status a2 = 1)); auto 6.
Qed.

Lemma credentials_same a : ~ credentials_differ a a.
Proof. intros [Hd|[Hd|[Hd1 Hd2]]]; done. Qed.

#[export] Instance lawful_preorder : PreOrder lawful.
Proof.
  split.
  - intros d. split; [eauto..|]; [intros k s Hs; exists s; done|intros k i Hi; exists i; done|].
    intros id a Ha. exists a. split; [done|]. split; [done|].
    by intros Hd%credentials_same.
  - intros d1 d2 d3 [S1 I1 A1] [S2 I2 A2]. split.
    + intros k s (s2 & Hs2 & E2)%S1. destruct (S2 _ _ Hs2) as (s3 & Hs3 & E3).
      exists s3. split; [done|]. by etrans.
    + intros k i (i2 & Hi2 & E2)%I1. destruct (I2 _ _ Hi2) as (i3 & Hi3 & E3).
      exists i3. split; [done|]. by etrans.
    + intros id a (a2 & Ha2 & Hp2 & Hc2)%A1. destruct (A2 _ _ Ha2) as (a3 & Ha3 & Hp3 & Hc3).
      exists a3. split; [done|]. split; [auto|]. intros Hd k s s3 Hs Hu Hs3.
      destruct (S1 _ _ Hs) as (s2 & Hs2 & E12).
      destruct (credentials_differ_split a a2 a3 Hd) as [Hd2|Hd3].
      * destruct (S2 _ _ Hs2) as (s3' & Hs3' & E23). rewrite Hs3 in Hs3'. injection Hs3' as <-.
        apply E23. by apply (Hc2 Hd2 k s).
      * apply (Hc3 Hd3 k s2); [done|by rewrite (sv_user _ _ E12)|done].
Qed.

(** Operations that leave accounts, sessions and invites alone. *)
Lemma lawful_frame d d' : account d' = account d -> extension d' = extension d -> lawful d d'.
Proof.
  intros Ea Ex. destruct (reflexivity d : lawful d d) as [S I A].
  split; unfold sessions_revoked; rewrite ?Ex, ?Ea; done.
Qed.

(** A new session, or one that evolves. *)
Lemma lawful_sessions d d' :
  account d' = account d -> invites (extension d') = invites (extension d) ->
  (forall k s, sessions (extension d) !! k = Some s ->
    exists s', sessions (extension d') !! k = Some s' /\ session_evolves s s') ->
  lawful d d'.
Proof.
  intros Ea Ei Hs. split; rewrite ?Ea, ?Ei; [done|intros k i Hi; by exists i|].
  intros id a Ha. exists a. split_and!; [done..|]. by intros Hd%credentials_same.
Qed.

(** ** Sessions revoked together *)

Lemma revoke_evolves now s : session_evolves s (revoke now s).
Proof. by split; [done|done|left|]. Qed.

Lemma revoke_ids_lookup now ids d k s :
  sessions (extension d) !! k = Some s ->
  exists s', sessions (extension (revoke_ids now ids d)) !! k = Some s' /\ session_evolves s s' /\
    (id_in ids (se_ID s) = true -> revoked s').
Proof.
  intros Hs. simpl. rewrite lookup_fmap, Hs. simpl. eexists. split; [done|].
  destruct (id_in ids (se_ID s)); [|done]. split; [apply revoke_evolves|done].
Qed.

Lemma revoke_ids_lawful now ids d : lawful d (revoke_ids now ids d).
Proof.
  apply lawful_sessions; [done|done|]. intros k s Hs.
  destruct (revoke_ids_lookup now ids d k s Hs) as (s' & ? & ? & _). eauto.
Qed.

Lemma id_in_true ids id : id ∈ ids -> id_in ids id = true.
Proof.
  intros Hin. unfold id_in. apply existsb_exists. exists id.
  split; [by apply list_elem_of_In|apply String.eqb_refl].
Qed.

(** [revokeSessions]: some sessions are revoked, all the user's among them. *)
Definition revoked_for (uid : Z) (d d' : Tables) : Prop :=
  (exists now ids, d' = revoke_ids now ids d \/ d' = d) /\ sessions_revoked uid d d'.

Lemma wp_revokeSessions uid w :
  wp (revokeSessions uid)
    (fun _ w' => revoked_for uid (db w) (db w') /\ grows w w')
    (fun err w' => (exists t, err = EDriver t) /\ grows w w') w.
Proof.
  unfold revokeSessions. apply wp_bind, wp_query; [|intros t e; split; [by exists t|auto with store]]. intros e.
  apply wp_bind, wp_time_now. intros now e1 _ _. set (ids := se_ID <$> _).
  assert (forall k s, sessions (extension (db w)) !! k = Some s -> owned_live uid s = true ->
            se_ID s ∈ ids) as Hin.
  { intros k s Hs Ho. apply list_elem_of_fmap. exists s. split; [done|].
    apply elem_of_select_rows. by exists k. }
  apply wp_bind. destruct (Z.ltb_spec 0 (len_z ids)) as [Hl|Hl].
  - apply wp_update; [|intros t e2; split; [by exists t|auto with store]]. intros e2. apply wp_ret. split; [|auto with store].
    split; [exists now, ids; by left|]. intros k s s' Hs Hu Hs'.
    destruct (revoke_ids_lookup now ids (db w) k s Hs) as (s2 & Hs2 & Hev & Hr).
    simpl in Hs', Hs2. rewrite Hs' in Hs2. injection Hs2 as <-.
    destruct (owned_live uid s) eqn:Ho; [by apply Hr, id_in_true, (Hin k)|].
    apply Hev. unfold owned_live in Ho. rewrite Hu, Z.eqb_refl in Ho. unfold revoked.
    by destruct (se_RevokedAt s).
  - apply wp_ret, wp_ret. split; [|auto with store]. split; [exists now, ids; by right|].
    intros k s s' Hs Hu Hs'. simpl in Hs'. rewrite Hs in Hs'. injection Hs' as <-.
    destruct (owned_live uid s) eqn:Ho.
    + specialize (Hin k s Hs Ho). destruct ids; [by apply elem_of_nil in Hin|unfold len_z in Hl; simpl in Hl; lia].
    + unfold owned_live in Ho. rewrite Hu, Z.eqb_refl in Ho. unfold revoked. by destruct (se_RevokedAt s).
Qed.

Lemma revoked_for_frame uid d d' : revoked_for uid d d' -> account d' = account d /\ exists s, d' = set_extension (set_sessions s) d.
Proof.
  intros [(now & ids & [->| ->]) _]; (split; [done|]); [by eexists|]. exists id. by destruct d as [????????????? []].
Qed.

Lemma revoked_for_evolves uid d d' k s :
  revoked_for uid d d' -> sessions (extension d) !! k = Some s ->
  exists s', sessions (extension d') !! k = Some s' /\ session_evolves s s'.
Proof.
  intros [(now & ids & [->| ->]) _] Hs; [|by exists s].
  destruct (revoke_ids_lookup now ids d k s Hs) as (s' & ? & ? & _). eauto.
Qed.

(** An account is changed and its sessions are revoked: [f] keeps enabled administrators. *)
Lemma lawful_account d d1 d' id f :
  (forall a, account d !! id = Some a -> enabled_admin a -> enabled_admin (f a)) ->
  d1 = set_columns id f d -> revoked_for id d1 d' -> lawful d d'.
Proof.
  intros Hadm -> Hr. destruct (revoked_for_frame _ _ _ Hr) as [Ea (g & Eg)].
  split.
  - intros k s Hs. by apply (revoked_for_evolves _ _ _ k s Hr).
  - rewrite Eg. simpl. intros k i Hi. by exists i.
  - intros j a Ha. rewrite Ea. simpl. destruct (decide (j = id)) as [->|Hne].
    + rewrite lookup_alter_eq, Ha. simpl. eexists. split; [done|]. split; [by apply Hadm|].
      intros _ k s s' Hs Hu Hs'. by apply (proj2 Hr k s s').
    + rewrite lookup_alter_ne by done. exists a. split_and!; [done..|]. by intros Hd%credentials_same.
Qed.

(** An account is changed in what is no credential. *)
Lemma lawful_columns d id f :
  (forall a, account d !! id = Some a -> (enabled_admin a -> enabled_admin (f a)) /\
     am_Account (f a) = am_Account a /\ am_Password (f a) = am_Password a /\
     (am_Status a = 1 -> am_Status (f a) = 1)) ->
  lawful d (set_columns id f d).
Proof.
  intros Hf. split; simpl; [intros k s Hs; by exists s|intros k i Hi; by exists i|].
  intros j a Ha. destruct (decide (j = id)) as [->|Hne].
  - rewrite lookup_alter_eq, Ha. simpl. eexists. split; [done|].
    destruct (Hf a Ha) as (Hadm & Hacc & Hpw & Hst). split; [done|].
    intros [Hd|[Hd|[Hd1 Hd2]]]; [done|done|by apply Hst in Hd1].
  - rewrite lookup_alter_ne by done. exists a. split_and!; [done..|]. by intros Hd%credentials_same.
Qed.

End AccountSpec.

(** * What the transactions on accounts and sessions do to the tables

    One rule per transaction of [auth.go] and [admin.go]: the tables it leaves when it
    succeeds; a transaction that fails leaves them as they were. *)

Section AuthRules.
Context `{Collation} `{JWT} `{AccountDomain.Bcrypt}.
Variable cfg : Config.

(** ** Tokens and sessions *)

(** [token] is what [signToken] makes for a session. *)
Definition token_for (uid : Z) (sid kind token : string) : Prop :=
  exists issued expires id,
    SignedString (cf_JWTSecret cfg) (mkClaims kind sid (fmt_d uid) issued expires id) = Some token.

Lemma wp_signToken uid sid kind ttl (Q : string -> World -> Prop) (E : error -> World -> Prop) w :
  (forall token e, clock (env w) <= clock e -> token_for uid sid kind token -> Q token (with_env w e)) ->
  (forall err e, (exists t, err = EMain t /\ err <> account_disabled /\ err <> credentials_changed) ->
     E err (with_env w e)) ->
  wp (signToken cfg uid sid kind ttl) Q E w.
Proof.
  intros HQ HE. unfold signToken. apply wp_bind, wp_time_now. intros t e Ht Hc.
  apply wp_bind, wp_time_now. intros t2 e2 Ht2 Hc2. simpl in *.
  apply wp_bind, wp_uuid. intros b e3 Hc3. simpl in *.
  destruct (SignedString _ _) as [token|] eqn:Hs.
  - apply wp_ret, (HQ _ e3); [lia|]. by eexists _, _, _.
  - apply wp_throw, (HE _ e3). eexists. split_and!; [done|discriminate..].
Qed.

(** A session that a new pair of tokens opens for [uid]. *)
Record session_opened (uid : Z) (tokens : string * string) (from : Time) (s : SessionModel) (d d' : Tables) : Prop := {
  op_user : se_UserID s = uid;
  op_live : se_RevokedAt s = None;
  op_hash : se_RefreshHash s = shaHex tokens.2;
  op_expires : from + SessionCache.refreshTTL <= se_ExpiresAt s;
  op_access : token_for uid (se_ID s) "access" tokens.1;
  op_refresh : token_for uid (se_ID s) "refresh" tokens.2;
  op_new : sessions (extension d) !! collate (se_ID s) = None;
  op_db : d' = set_extension (set_sessions <[collate (se_ID s) := s]>) d;
}.

Definition not_account (err : error) : Prop := err <> account_disabled /\ err <> credentials_changed.

Lemma wp_newSession uid w :
  wp (newSession cfg uid)
    (fun tokens w' => (exists s, session_opened uid tokens (clock (env w)) s (db w) (db w')) /\
       auto_inc w' = auto_inc w)
    (fun err w' => not_account err /\ db w' = db w /\ auto_inc w' = auto_inc w) w.
Proof.
  unfold newSession. apply wp_bind, wp_uuid. intros b e0 He0. set (sid := uuid_text b).
  apply wp_bind, wp_signToken.
  2: { intros err e (t & _ & ? & ?). by split. }
  intros access e He Ha. apply wp_bind, wp_signToken.
  2: { intros err e2 (t & _ & ? & ?). by split. }
  intros refresh e2 He2 Hr. apply wp_bind, wp_time_now. intros now e3 Hn Hc. simpl in *.
  apply wp_bind, wp_insert_keyed; [|by split|by split].
  intros t e4 Ht Hdup. simpl in He, Hdup. apply bool_decide_eq_false, eq_None_not_Some in Hdup.
  apply wp_ret. split; [|done]. eexists (session_row sid uid (shaHex refresh) (now + SessionCache.refreshTTL) t).
  split; simpl; try done. lia.
Qed.

Lemma session_opened_lawful given uid tokens t s d d' : session_opened uid tokens t s d d' -> lawful given d d'.
Proof.
  intros [_ _ _ _ _ _ Hn ->]. apply lawful_sessions; [done|done|]. simpl. intros k s0 Hs.
  exists s0. rewrite lookup_insert_ne; [done|]. intros <-. congruence.
Qed.

(** Login: the account is enabled and still has the password that was checked. *)
Lemma wp_login_tx uid hash w :
  wp (login_tx cfg uid hash)
    (fun tokens w' =>
       (exists a s, account (db w) !! uid = Some a /\ am_Status a = 1 /\ am_Password a = hash /\
          session_opened uid tokens (clock (env w)) s (db w) (db w')) /\ grows w w')
    (fun err w' => (db w' = db w /\
       (err = account_disabled -> exists a, account (db w) !! uid = Some a /\ am_Status a <> 1) /\
       (err = credentials_changed -> exists a, account (db w) !! uid = Some a /\ am_Password a <> hash))
       /\ grows w w') w.
Proof.
  apply (wp_tables _ (fun tokens d' => exists a s, account (db w) !! uid = Some a /\ am_Status a = 1 /\
      am_Password a = hash /\ session_opened uid tokens (clock (env w)) s (db w) d')); [done|].
  intros w1 Hdb Hai Hcl. pose proof (grows_auto_inc _ _ Hai) as Hg.
  apply wp_bind, wp_take_row_clock; [|by auto with store..].
  intros [password status] e He Ha. rewrite Hdb in Ha. apply fmap_Some in Ha as (a & Ha & [= -> ->]).
  destruct (Z.eqb_spec (am_Status a) 1) as [Hs|Hs]; simpl.
  2: { apply wp_throw. split; [split; [eauto|discriminate]|auto with store]. }
  destruct (String.eqb_spec (am_Password a) hash) as [Hp|Hp]; simpl.
  2: { apply wp_throw. split; [split; [discriminate|eauto]|auto with store]. }
  eapply wp_mono; [apply wp_newSession| |]; simpl.
  - intros tokens w' [(s & Hop) Hai']. split; [|apply grows_auto_inc; by rewrite Hai', Hai].
    exists a, s. rewrite Hdb, He, Hcl in Hop. done.
  - intros err w' ([Hn1 Hn2] & _ & Hai'). split; [done|]. apply grows_auto_inc. by rewrite Hai', Hai.
Qed.

(** Refresh: a live session of the user that was opened with the token presented gets the
    hash of the new token. *)
Record session_rotated (uid : Z) (sid raw refresh : string) (from : Time) (s : SessionModel) (d d' : Tables) : Prop := {
  ro_row : sessions (extension d) !! collate sid = Some s;
  ro_user : se_UserID s = uid;
  ro_live : se_RevokedAt s = None;
  ro_expires : from <= se_ExpiresAt s;
  ro_hash : se_RefreshHash s = shaHex raw;
  ro_db : exists expires, from + SessionCache.refreshTTL <= expires /\
    d' = set_extension (set_sessions (alter (rotate (shaHex refresh) expires) (collate (se_ID s)))) d;
}.

Lemma wp_refresh_tx uid sid raw refresh w :
  wp (refresh_tx uid sid raw refresh)
    (fun _ w' => (exists s, session_rotated uid sid raw refresh (clock (env w)) s (db w) (db w')) /\ grows w w')
    (fun err w' => (db w' = db w /\ True) /\ grows w w') w.
Proof.
  apply (wp_tables _ (fun _ d' => exists s, session_rotated uid sid raw refresh (clock (env w)) s (db w) d')
           (fun _ => True)); [done|].
  intros w1 Hdb Hai Hcl. pose proof (grows_auto_inc _ _ Hai) as Hg.
  apply wp_bind, wp_take_row_clock; [|by auto with store..]. intros s e He Hs. rewrite Hdb in Hs.
  destruct (Z.eqb_spec (se_UserID s) uid) as [Hu|Hu]; simpl; [|apply wp_throw; auto with store].
  case_bool_decide as Hr; simpl; [apply wp_throw; auto with store|].
  apply wp_bind, wp_time_now. intros now e2 Hn Hc2.
  destruct (time_After now (se_ExpiresAt s)) eqn:Hexp; simpl; [apply wp_throw; auto with store|].
  destruct (String.eqb_spec (se_RefreshHash s) (shaHex raw)) as [Hh|Hh]; simpl; [|apply wp_throw; auto with store].
  apply wp_bind, wp_time_now. intros now2 e3 Hn2 _. simpl in *.
  unfold time_After in Hexp. apply wp_update; [|by auto with store].
  intros e4. split; [|auto with store]. exists s. split; [done..| | |done|].
  - by destruct (se_RevokedAt s); [destruct Hr|].
  - lia.
  - eexists. split; [|by rewrite <-Hdb]. lia.
Qed.

Lemma session_rotated_lawful given uid sid raw refresh t s d d' :
  session_rotated uid sid raw refresh t s d d' ->
  (forall k s, sessions (extension d) !! k = Some s -> k = collate (se_ID s)) ->
  given (shaHex refresh) -> lawful given d d'.
Proof.
  intros [Hs Hu Hl _ Hh (x & _ & ->)] Hk Hg. apply lawful_sessions; [done|done|]. simpl. intros k s0 Hs0.
  destruct (decide (k = collate (se_ID s))) as [->|Hne].
  - rewrite lookup_alter_eq, Hs0. eexists. split; [done|].
    pose proof (Hk _ _ Hs) as E. rewrite E in Hs. rewrite Hs in Hs0. injection Hs0 as <-.
    split; [done|done|by right|]. unfold revoked. congruence.
  - rewrite lookup_alter_ne by done. by exists s0.
Qed.

(** Registration: an open invite is used up for the new account. *)
Record registered (username hash inviteHash : string) (from : Time) (w w' : World) (i : InviteModel) (r : UserModel) : Prop := {
  rg_invite : exists k, invites (extension (db w)) !! k = Some i;
  rg_code : collate (iv_CodeHash i) = collate inviteHash;
  rg_open : iv_UsedBy i = None /\ from < iv_ExpiresAt i;
  rg_user : AccountRepo.user_stored w (core_user username hash) r
              (with_db w' (set_account <[am_ID r := r]> (db w)));
  rg_db : db w' = set_extension (set_invites (alter (use_invite (am_ID r)) (iv_ID i)))
                    (set_account <[am_ID r := r]> (db w));
}.

Lemma wp_register_tx username hash inviteHash w :
  wp (register_tx username hash inviteHash)
    (fun u w' => exists i r, registered username hash inviteHash (clock (env w)) w w' i r /\
       u = mkUserView (am_ID r) username hash "" "" (am_CreatedAt r) /\ grows w w')
    (fun err w' => db w' = db w /\ grows w w') w.
Proof.
  set (Q u w' := exists i r, registered username hash inviteHash (clock (env w)) w w' i r /\
         u = mkUserView (am_ID r) username hash "" "" (am_CreatedAt r) /\ grows w w').
  eapply wp_mono; [apply (wp_transaction_clock _ Q (fun _ => True))| |]; [..|done|by intros err w' [[? _] ?]].
  { intros u w' e (i & r & [] & ? & ?). exists i, r. split; [|done]. by split. }
  { intros u w' (i & r & _ & _ & Hg). exact Hg. }
  { done. }
  intros w1 Hdb Hai Hcl. pose proof (grows_auto_inc _ _ Hai) as Hg.
  apply wp_bind, wp_time_now. intros now e Hn Hc.
  apply wp_bind, wp_take_row; [|by auto with store..]. intros i e1 Hi. simpl in Hi. rewrite Hdb in Hi.
  apply find_row_Some in Hi as (k & Hk & Ho). unfold invite_open in Ho.
  apply wp_bind, wp_bind, AccountRepo.wp_insert_user.
  2: { intros err w2 _ Hg2 _. split; [done|]. etrans; [|exact Hg2]. auto with store. }
  intros r w2 ((t & Hr) & Hdb2 & Hfree & Hlt & Hg2). simpl in Hdb2, Hfree. rewrite Hdb in Hdb2, Hfree.
  assert (grows w w2) as Hgw2 by (etrans; [|exact Hg2]; auto with store).
  apply wp_ret, wp_bind, wp_update; [|by auto with store].
  intros e2. apply wp_ret. exists i, r. split; [|by auto with store]. split.
  - by exists k.
  - by apply andb_true_iff in Ho as [[Ho%String.eqb_eq _]%andb_true_iff _].
  - apply andb_true_iff in Ho as [[_ Ho]%andb_true_iff He]. split; [by destruct (iv_UsedBy i)|].
    simpl in Hn. lia.
  - split_and!; [|done|done|done|auto with store].
    exists t. rewrite Hr. unfold next_id. simpl. by rewrite Hai.
  - simpl. by rewrite Hdb2.
Qed.

(** ** Accounts *)

Lemma set_columns_compose id f g d : set_columns id g (set_columns id f d) = set_columns id (fun a => g (f a)) d.
Proof.
  unfold set_columns, set_account. simpl. f_equal. apply map_eq. intros i.
  destruct (decide (i = id)) as [->|Hne]; [|by rewrite !lookup_alter_ne].
  rewrite !lookup_alter_eq. by destruct (account d !! id).
Qed.

(** Column changes of one account, and the end of its sessions. *)
Definition account_ended (id : Z) (f : UserModel -> UserModel) (d d' : Tables) : Prop :=
  revoked_for id (set_columns id f d) d'.

Lemma wp_then_revoke id w w1 (Q : list string -> Tables -> Prop) (F : error -> Prop) :
  grows w w1 -> (forall t, F (EDriver t)) -> (forall ids d', revoked_for id (db w1) d' -> Q ids d') ->
  wp (revokeSessions id) (fun ids w' => Q ids (db w') /\ grows w w') (fun err w' => F err /\ grows w w') w1.
Proof.
  intros Hg HF HQ. eapply wp_mono; [apply (wp_revokeSessions (fun _ => True))| |].
  - intros ids w' [Hr Hg']. split; [by apply HQ|]. by etrans.
  - intros err w' [[t ->] Hg']. split; [done|]. by etrans.
Qed.

Lemma wp_changePassword_tx uid hash w :
  wp (changePassword_tx uid hash)
    (fun _ w' => account_ended uid (set_password hash) (db w) (db w') /\ grows w w')
    (fun err w' => (db w' = db w /\ True) /\ grows w w') w.
Proof.
  apply (wp_tables _ (fun _ d' => account_ended uid (set_password hash) (db w) d') (fun _ => True)); [done|].
  intros w1 Hdb Hai _. pose proof (grows_auto_inc _ _ Hai) as Hg.
  apply wp_bind, wp_update; [|by auto with store]. intros e.
  apply (wp_then_revoke uid w _ (fun _ d' => account_ended uid (set_password hash) (db w) d')); [by auto with store|done|].
  intros ids d' Hr. simpl in Hr. by rewrite Hdb in Hr.
Qed.

(** [updateMe]: without a new name the sessions stay. *)
Definition profile_updated (uid : Z) (bio username : option string) (d d' : Tables) : Prop :=
  match username with
  | None => d' = set_columns uid (set_profile bio None) d
  | Some name => name_taken uid name d = false /\
      account_ended uid (fun a => set_nickname name (set_profile bio (Some name) a)) d d'
  end.

Lemma wp_updateMe_tx uid bio username w :
  wp (updateMe_tx uid bio username)
    (fun _ w' => profile_updated uid bio username (db w) (db w') /\ grows w w')
    (fun err w' => (db w' = db w /\ True) /\ grows w w') w.
Proof.
  apply (wp_tables _ (fun _ d' => profile_updated uid bio username (db w) d') (fun _ => True)); [done|].
  intros w1 Hdb Hai _. pose proof (grows_auto_inc _ _ Hai) as Hg.
  apply wp_bind, wp_update_unless; [|by auto with store..]. intros e Hdup. rewrite Hdb in *.
  destruct username as [name|]; [|apply wp_ret; split; [done|by auto with store]].
  apply wp_bind, wp_update; [|by auto with store]. intros e2.
  apply (wp_then_revoke uid w _ (fun _ d' => profile_updated uid bio (Some name) (db w) d')); [by auto with store|done|].
  intros ids d' Hr. simpl in Hr. split; [done|]. unfold account_ended. by rewrite <-set_columns_compose.
Qed.

(** [adminUpdateUser]: renaming and disabling end the sessions; an administrator cannot be
    disabled. *)
Definition admin_updated (id : Z) (b : admin_user_body) (u : UserModel) (d d' : Tables) : Prop :=
  account d !! id = Some u /\ (disables b = true -> am_Role u <> "admin"%string) /\
  (forall name, ab_Username b = Some name -> name_taken (am_ID u) name d = false) /\
  exists now, let d1 := set_columns (am_ID u) (admin_row b now) d in
    if renames b || disables b then revoked_for id d1 d' else d' = d1.

Lemma wp_adminUpdateUser_tx id b w :
  wp (adminUpdateUser_tx id b)
    (fun _ w' => (exists u, admin_updated id b u (db w) (db w')) /\ grows w w')
    (fun err w' => (db w' = db w /\
       (err = errProtectedAdmin -> exists u, account (db w) !! id = Some u /\ am_Role u = "admin"%string))
       /\ grows w w') w.
Proof.
  apply (wp_tables _ (fun _ d' => exists u, admin_updated id b u (db w) d')); [done|].
  intros w1 Hdb Hai _. pose proof (grows_auto_inc _ _ Hai) as Hg.
  apply wp_bind, wp_take_row; [|by auto with store..]. intros u e Hu. rewrite Hdb in Hu.
  destruct (disables b && String.eqb (am_Role u) "admin") eqn:Hp.
  { apply wp_throw. split; [|by auto with store]. intros _. exists u. split; [done|].
    by apply andb_true_iff in Hp as [_ Hp%String.eqb_eq]. }
  assert (disables b = true -> am_Role u <> "admin"%string) as Hprot.
  { intros Hd Hr. by rewrite Hd, Hr in Hp. }
  apply wp_bind, wp_time_now. intros now e1 _ _.
  apply wp_bind, wp_update_unless; [|by auto with store..]. intros e2 Hdup. simpl in Hdup. rewrite Hdb in Hdup.
  assert (forall name, ab_Username b = Some name -> name_taken (am_ID u) name (db w) = false) as Hfree.
  { intros name Hn. by rewrite Hn in Hdup. }
  destruct (renames b || disables b) eqn:Hrd.
  - apply (wp_then_revoke id w _ (fun _ d' => exists u, admin_updated id b u (db w) d')); [by auto with store|done|].
    intros ids d' Hr. simpl in Hr. rewrite Hdb in Hr. exists u. split_and!; [done..|].
    exists now. by rewrite Hrd.
  - apply wp_ret. split; [|by auto with store]. exists u. split_and!; [done..|].
    exists now. rewrite Hrd. simpl. by rewrite Hdb.
Qed.

Lemma wp_adminPassword_tx id hash w :
  wp (adminPassword_tx id hash)
    (fun _ w' => (exists u now, account (db w) !! id = Some u /\
       revoked_for id (set_columns (am_ID u) (admin_password_row hash now) (db w)) (db w')) /\ grows w w')
    (fun err w' => (db w' = db w /\ True) /\ grows w w') w.
Proof.
  apply (wp_tables _ (fun _ d' => exists u now, account (db w) !! id = Some u /\
    revoked_for id (set_columns (am_ID u) (admin_password_row hash now) (db w)) d') (fun _ => True)); [done|].
  intros w1 Hdb Hai _. pose proof (grows_auto_inc _ _ Hai) as Hg.
  apply wp_bind, wp_take_row; [|by auto with store..]. intros u e Hu. rewrite Hdb in Hu.
  apply wp_bind, wp_time_now. intros now e1 _ _.
  apply wp_bind, wp_update; [|by auto with store]. intros e2.
  apply (wp_then_revoke id w _ (fun _ d' => exists u now, account (db w) !! id = Some u /\
    revoked_for id (set_columns (am_ID u) (admin_password_row hash now) (db w)) d')); [by auto with store|done|].
  intros ids d' Hr. simpl in Hr. rewrite Hdb in Hr. by exists u, now.
Qed.

Lemma wp_grantAdmin username w :
  wp (grantAdmin username)
    (fun _ w' => (exists k u now, account (db w) !! k = Some u /\ am_Status u = 1 /\
       AccountRepo.account_is username u = true /\
       db w' = set_columns (am_ID u) (set_role "admin" now) (db w)) /\ grows w w')
    (fun err w' => db w' = db w /\ grows w w') w.
Proof.
  unfold grantAdmin. apply wp_bind, wp_take_row; [|by auto with store..].
  intros u e (k & Hk & [Ha Hs]%andb_true_iff)%find_row_Some.
  apply wp_bind, wp_time_now. intros now e1 _ _. apply wp_update; [|by auto with store].
  intros e2. split; [|by auto with store]. exists k, u, now. split_and!; [done|lia|done|done].
Qed.

(** A new invite: its code is not that of another. *)
Definition invite_created (w : World) (i : InviteModel) (w' : World) : Prop :=
  iv_ID i = next_id "invites" w /\ iv_UsedBy i = None /\
  db w' = set_extension (set_invites <[iv_ID i := i]>) (db w) /\ iv_ID i < next_id "invites" w' /\
  grows w w'.

Lemma wp_createInvite code w :
  wp (createInvite code)
    (fun i w' => invite_created w i w' /\ iv_CodeHash i = shaHex code)
    (fun err w' => db w' = db w /\ grows w w') w.
Proof.
  unfold createInvite. apply wp_bind, wp_time_now. intros now e _ _. apply wp_insert_row.
  - intros t e1 _ row ai _. split; [|done]. split_and!; try done.
    + unfold next_id at 1. simpl. unfold row, ai. rewrite lookup_insert_eq. simpl. unfold next_id. simpl. lia.
    + apply grows_insert_trans. auto with store.
  - intros t e1 row ai _. split; [done|]. apply grows_insert_trans. auto with store.
  - by auto with store.
Qed.

End AuthRules.
