(* ===== verification/OutboxWorker.v ===== *)
(** * The outbox and its worker ([worker.go])

    A transaction that must be announced also inserts a row into the outbox; the worker
    publishes the rows in batches, marks a batch when the broker confirmed all of it, and
    consumers process each message. What the broker does is a list of notices, an arbitrary
    one in the theorems. *)
From S2P Require Import Prelude.
From S2P Require Import GoStd.
From S2P Require Import Errors.
From S2P Require Import Models.
From S2P Require Import Redis.
From S2P Require Import Store.
From S2P Require Import RedisClient.
From S2P Require Import Views.
From S2P Require Import Edge.
From S2P Require Import EdgeRules.

Section OutboxWorker.
Context `{Collation}.

(** ** Enqueuing *)

Definition outbox_row (id kind : string) (data : list (string * Z)) (now : Time) : OutboxModel :=
  mkOutboxModel id kind (mkEvent id kind data) None now.

Definition enqueue (kind : string) (data : list (string * Z)) : M unit :=
  id ← uuid_NewString;
  _ ← insert_keyed (outbox_row id kind data)
        (fun r d => bool_decide (is_Some (outbox (extension d) !! collate (ob_ID r))))
        (fun r => set_extension (set_outbox <[collate (ob_ID r) := r]>));
  mret tt.

(** A JSON number is read as the nearest float64, the even one of two. *)
Definition nearest_float64 (n : Z) : Z :=
  let k := Z.log2 n - 52 in
  if k <=? 0 then n else
  let q := n / 2 ^ k in
  let r := n mod 2 ^ k in
  let half := 2 ^ (k - 1) in
  (if (half <? r) || ((r =? half) && Z.odd q) then q + 1 else q) * 2 ^ k.

Definition eventUint (e : event) (key : string) : Z :=
  match find (fun kv => String.eqb (fst kv) key) (ev_Data e) with
  | Some (_, n) => nearest_float64 n
  | None => 0
  end.

(** ** Publishing *)

Definition outboxBatchSize : Z := 128.

(** [ORDER BY created_at ASC, id ASC] *)
Definition outbox_less (a b : OutboxModel) : bool :=
  (ob_CreatedAt a <? ob_CreatedAt b) ||
  ((ob_CreatedAt a =? ob_CreatedAt b) && String.ltb (collate (ob_ID a)) (collate (ob_ID b))).

Definition pending (r : OutboxModel) : bool := match ob_PublishedAt r with None => true | Some _ => false end.

Definition pending_rows (d : Tables) : list OutboxModel :=
  take_z outboxBatchSize (stable_sort outbox_less (select_rows pending (outbox (extension d)))).

(** What arrives on the channels [returned] and [confirm]; when the list ends the context
    does. *)
Inductive notice := Returned | Confirmed (ack : bool) (tag : Z) | Closed.

Definition unroutable : error := EMain "outbox message unroutable".
Definition unconfirmed : error := EMain "outbox confirmation failed".
Definition deadline_exceeded : error := EMain "context deadline exceeded".

(** [PublishWithContext] for each row. *)
Fixpoint publish_rows (rows : list OutboxModel) : M unit :=
  match rows with
  | [] => mret tt
  | row :: rows => _ ← publish (EvOutbox (ob_Payload row)); publish_rows rows
  end.

(** The confirmations of [n] messages from [tag] on, and the notices left. *)
Fixpoint await (n : nat) (tag : Z) (notices : list notice) : error + list notice :=
  match n with
  | O => inr notices
  | S n =>
      match notices with
      | [] => inl deadline_exceeded
      | Returned :: _ => inl unroutable
      | Closed :: _ => inl unconfirmed
      | Confirmed ack t :: notices =>
          if negb ack || negb (t =? tag) then inl unconfirmed else await n (tag + 1) notices
      end
  end.

Definition confirmations (n : nat) (first : Z) (notices : list notice) : error + unit :=
  match await n first notices with
  | inl err => inl err
  | inr (Returned :: _) => inl unroutable
  | inr _ => inr tt
  end.

Definition mark_published (now : Time) (ids : list string) : Tables -> Tables :=
  set_extension (set_outbox (fmap (fun r =>
    if id_in ids (ob_ID r) && pending r
    then mkOutboxModel (ob_ID r) (ob_Kind r) (ob_Payload r) (Some now) (ob_CreatedAt r) else r))).

Definition publishOutboxBatch (first : Z) (notices : list notice) (rows : list OutboxModel) : M unit :=
  _ ← publish_rows rows;
  match confirmations (length rows) first notices with
  | inl err => throw err
  | inr _ => now ← time_now; update (mark_published now (ob_ID <$> rows))
  end.

(** One round of [publishOutbox]: how many rows it published. An error ends the session with
    the broker; the next session begins again. *)
Definition publishOutbox_round (first : Z) (notices : list notice) : M Z :=
  rows ← query pending_rows;
  match rows with
  | [] => mret 0
  | _ => _ ← publishOutboxBatch first notices rows; mret (len_z rows)
  end.

(** [publishOutbox]: a round for each list of notices, until the context ends; [first] is the
    number the broker gives to the next message. *)
Fixpoint publishOutbox (first : Z) (rounds : list (list notice)) : M unit :=
  match rounds with
  | [] => mret tt
  | notices :: rounds =>
      n ← publishOutbox_round first notices;
      _ ← (if n =? 0 then sleep (100 * millisecond) else mret tt);
      publishOutbox (first + n) rounds
  end.

(** ** Consuming *)

(** [publishCoreVideo] of [core.go] *)
Definition publishCoreVideo (v : VideoView) : M unit :=
  now ← time_now;
  publish (EvVideoPublished (mkPublishedEvent ("owlet-video:" +:+ fmt_d (vv_ID v)) (vv_ID v)
    (vv_UserID v) (vv_Title v) (vv_Description v) (mediaURL (vv_FilePath v))
    (mediaURL (vv_CoverPath v)) (vv_PublishedAt v) now)).

(** The marker of the event; that it is there already is no error. *)
Definition mark_processed (id : string) : M unit :=
  transaction (
    r ← attempt (insert_keyed (mkProcessedEventModel id)
          (fun p d => bool_decide (is_Some (processed_events (extension d) !! collate (pv_ID p))))
          (fun p => set_extension (set_processed_events <[collate (pv_ID p) := p]>)));
    match r with
    | inl err => if errors_Is err EDuplicatedKey then mret tt else throw err
    | inr _ => mret tt
    end).

Definition invalidate_event (e : event) : M unit :=
  let videoID := eventUint e "videoId" in
  if 0 <? videoID then invalidateVideo videoID else mret tt.

Definition processEvent (e : event) : M unit :=
  _ ← mark_processed (ev_ID e);
  if String.eqb (ev_Kind e) "video.published" then
    v ← attempt (take_row (fun d => Views.videos d !! eventUint e "videoId"));
    match v with
    | inl err => if errors_Is err ERecordNotFound then mret tt else throw err
    | inr v => _ ← publishCoreVideo v; invalidate_event e
    end
  else invalidate_event e.

(** What a consumer answers to a delivery. *)
Inductive verdict := Ack | Reject | Requeue.

(** One delivery of [consumeEvents]: [body] is the decoded message, [attempt] its header,
    [confirm] what the broker says to the message on the retry queue ([None]: nothing within
    five seconds). The result holds the attempt number of the copy on the retry queue. *)
Definition consume (body : option event) (attempt_no : Z) (confirm : option bool)
    : M (verdict * option Z) :=
  match body with
  | None => mret (Reject, None)
  | Some e =>
      if String.eqb (ev_ID e) "" then mret (Reject, None) else
      r ← attempt (processEvent e);
      match r with
      | inr _ => mret (Ack, None)
      | inl _ =>
          if 3 <=? attempt_no then mret (Reject, None) else
          sent ← attempt call;
          match sent, confirm with
          | inr _, Some true => mret (Ack, Some (attempt_no + 1))
          | inr _, _ => mret (Requeue, Some (attempt_no + 1))
          | inl _, _ => mret (Requeue, None)
          end
      end
  end.

End OutboxWorker.

(** * What the rounds of the outbox worker do

    The batch is a part of the pending rows; a round that succeeds marks exactly the batch. In
    a world without faults a round cannot fail if the broker confirms. *)

Section OutboxRules.
Context `{Collation}.

Definition outbox_keys (o : gmap string OutboxModel) : Prop :=
  forall k r, o !! k = Some r -> k = collate (ob_ID r).

Definition unsent (d : Tables) : list OutboxModel := select_rows pending (outbox (extension d)).

Definition announcements (rows : list OutboxModel) : list Event := EvOutbox ∘ ob_Payload <$> rows.

(** ** The batch *)

Lemma unsent_NoDup d : outbox_keys (outbox (extension d)) -> NoDup (unsent d).
Proof.
  intros Hk. apply (NoDup_fmap_1 (fun r => collate (ob_ID r))), select_rows_NoDup.
  intros i j a b Ha Hb E. by rewrite (Hk _ _ Ha), (Hk _ _ Hb).
Qed.

Lemma pending_rows_split d :
  unsent d ≡ₚ pending_rows d ++ drop (Z.to_nat outboxBatchSize) (stable_sort outbox_less (unsent d)).
Proof. unfold pending_rows, take_z. rewrite take_drop. by rewrite stable_sort_Permutation. Qed.

Lemma pending_rows_bound d : len_z (pending_rows d) = Z.min outboxBatchSize (len_z (unsent d)).
Proof.
  unfold pending_rows, take_z, len_z. rewrite length_take.
  assert (length (stable_sort outbox_less (unsent d)) = length (unsent d)) as <- by by rewrite stable_sort_Permutation.
  unfold unsent, outboxBatchSize. lia.
Qed.

Lemma elem_of_pending_rows d r : r ∈ pending_rows d -> exists k, outbox (extension d) !! k = Some r /\ pending r = true.
Proof. intros Hr. apply elem_of_select_rows. change (r ∈ unsent d). rewrite (pending_rows_split d). set_solver. Qed.

Lemma id_in_spec ids id : id_in ids id = true <-> exists i, i ∈ ids /\ collate i = collate id.
Proof.
  unfold id_in. rewrite existsb_exists. split; intros (i & Hi & E); exists i.
  - by rewrite list_elem_of_In, <-String.eqb_eq.
  - by rewrite <-list_elem_of_In, String.eqb_eq.
Qed.

(** The rows the update marks are those of the batch. *)
Lemma batch_marked d k r :
  outbox_keys (outbox (extension d)) -> outbox (extension d) !! k = Some r ->
  (id_in (ob_ID <$> pending_rows d) (ob_ID r) && pending r = true <-> r ∈ pending_rows d).
Proof.
  intros Hk Hr. rewrite andb_true_iff, id_in_spec. split.
  - intros [(i & (b & -> & Hb)%list_elem_of_fmap & E) _].
    destruct (elem_of_pending_rows d b Hb) as (j & Hj & _).
    assert (j = k) as -> by by rewrite (Hk _ _ Hj), (Hk _ _ Hr).
    by simplify_eq.
  - intros Hin. destruct (elem_of_pending_rows d r Hin) as (j & _ & Hp). split; [|done].
    exists (ob_ID r). split; [|done]. apply list_elem_of_fmap. by exists r.
Qed.

Definition published_at (now : Time) (r : OutboxModel) : OutboxModel :=
  mkOutboxModel (ob_ID r) (ob_Kind r) (ob_Payload r) (Some now) (ob_CreatedAt r).

(** After a batch: its rows are marked, the others are as they were. *)
Definition batch_row (now : Time) (rows : list OutboxModel) (r r' : OutboxModel) : Prop :=
  (r ∈ rows /\ r' = published_at now r) \/ (r ∉ rows /\ r' = r).

Definition batch_published (now : Time) (d d' : Tables) : Prop :=
  d' = mark_published now (ob_ID <$> pending_rows d) d /\
  forall k r, outbox (extension d) !! k = Some r ->
    exists r', outbox (extension d') !! k = Some r' /\ batch_row now (pending_rows d) r r'.

Lemma batch_published_intro now d :
  outbox_keys (outbox (extension d)) ->
  batch_published now d (mark_published now (ob_ID <$> pending_rows d) d).
Proof.
  intros Hk. split; [done|]. intros k r Hr. simpl. rewrite lookup_fmap, Hr. simpl. eexists. split; [done|].
  pose proof (batch_marked d k r Hk Hr) as Hb. unfold batch_row. destruct (_ && _); [left|right]; naive_solver.
Qed.

Lemma batch_keys now d d' :
  outbox_keys (outbox (extension d)) -> batch_published now d d' -> outbox_keys (outbox (extension d')).
Proof.
  intros Hk [-> _] k r. simpl. rewrite lookup_fmap. intros (o & Ho & ->)%fmap_Some.
  rewrite (Hk _ _ Ho). by case_match.
Qed.

Lemma batch_row_back now d d' k r' :
  batch_published now d d' -> outbox (extension d') !! k = Some r' ->
  exists r, outbox (extension d) !! k = Some r /\ batch_row now (pending_rows d) r r'.
Proof.
  intros [E Hb] Hr'. assert (is_Some (outbox (extension d) !! k)) as [r Hr].
  { rewrite E in Hr'. simpl in Hr'. rewrite lookup_fmap in Hr'. apply fmap_Some in Hr' as (r & Hr & _). by exists r. }
  exists r. split; [done|]. destruct (Hb k r Hr) as (r2 & Hr2 & Hrow). by simplify_eq.
Qed.

Lemma batch_unsent now d d' :
  outbox_keys (outbox (extension d)) -> batch_published now d d' -> unsent d ≡ₚ pending_rows d ++ unsent d'.
Proof.
  intros Hk Hb. pose proof (batch_keys _ _ _ Hk Hb) as Hk'.
  rewrite (pending_rows_split d) at 1. apply Permutation_app_head.
  pose proof (unsent_NoDup d Hk) as Hnd. rewrite (pending_rows_split d) in Hnd.
  apply NoDup_app in Hnd as (_ & Hdis & Hnd). apply NoDup_Permutation; [done|by apply unsent_NoDup|].
  intros r. unfold unsent at 2. rewrite elem_of_select_rows. split.
  - intros Hr. assert (r ∈ unsent d) as Hu by (rewrite (pending_rows_split d); set_solver).
    apply elem_of_select_rows in Hu as (k & Hk0 & Hp). exists k. split; [|done].
    destruct (proj2 Hb k r Hk0) as (r' & Hr' & [[Hin _]|[_ ->]]); [by destruct (Hdis r)|done].
  - intros (k & Hk0 & Hp). destruct (batch_row_back _ _ _ _ _ Hb Hk0) as (o & Ho & [[_ ->]|[Hout ->]]); [done|].
    assert (o ∈ unsent d) as Hu by (apply elem_of_select_rows; by exists k).
    rewrite (pending_rows_split d), elem_of_app in Hu. by destruct Hu.
Qed.

(** ** Rounds *)

Lemma wp_publish_rows rows w :
  wp (publish_rows rows)
    (fun _ w' => exists e, w' = with_queue (with_env w e) (queue w ++ announcements rows))
    (fun err w' => exists e k, w' = with_queue (with_env w e) (queue w ++ announcements (take k rows))) w.
Proof.
  revert w. induction rows as [|row rows IH]; intros w; simpl.
  { apply wp_ret. exists (env w). unfold with_queue, with_env. simpl. rewrite app_nil_r. by destruct w. }
  apply wp_bind, wp_publish.
  - intros e. eapply wp_mono; [apply IH| |]; simpl.
    + intros _ w' [e' ->]. exists e'. unfold with_queue, with_env. simpl. by rewrite <-app_assoc.
    + intros err w' (e' & k & ->). exists e', (S k). unfold with_queue, with_env. simpl. by rewrite <-app_assoc.
  - intros t e. exists e, 0%nat. unfold with_queue, with_env. simpl. by rewrite app_nil_r.
Qed.

Definition round_done (first : Z) (notices : list notice) (w w' : World) : Prop :=
  queue w' = queue w ++ announcements (pending_rows (db w)) /\
  ((pending_rows (db w) = [] /\ db w' = db w) \/
   (confirmations (length (pending_rows (db w))) first notices = inr tt /\
      exists now, batch_published now (db w) (db w'))).

(** A round publishes the batch, or fails after a part of it and marks nothing. *)
Lemma wp_publishOutbox_round first notices w :
  outbox_keys (outbox (extension (db w))) ->
  wp (publishOutbox_round first notices)
    (fun n w' => n = len_z (pending_rows (db w)) /\ round_done first notices w w')
    (fun err w' => db w' = db w /\ exists k, queue w' = queue w ++ announcements (take k (pending_rows (db w)))) w.
Proof.
  intros Hk. unfold publishOutbox_round. apply wp_bind, wp_query.
  2: { intros t e. split; [done|]. exists 0%nat. simpl. by rewrite app_nil_r. }
  intros e. set (rows := pending_rows (db w)). unfold round_done. fold rows.
  destruct rows as [|row0 rows0] eqn:Hrows.
  { apply wp_ret. simpl. rewrite app_nil_r. auto. }
  rewrite <-Hrows. unfold rows in *. clear Hrows.
  apply wp_bind. unfold publishOutboxBatch. apply wp_bind. eapply wp_mono; [apply wp_publish_rows| |]; simpl.
  2: { intros err w' (e' & k & ->). split; [done|]. by exists k. }
  intros _ w' [e' ->].
  assert (announcements (take (length (pending_rows (db w))) (pending_rows (db w))) = announcements (pending_rows (db w))) as Hall
    by by rewrite firstn_all.
  destruct (confirmations _ _ _) as [err|[]] eqn:Hc.
  { apply wp_throw. split; [done|]. eexists. by rewrite Hall. }
  apply wp_bind, wp_time_now. intros now e2 _ _. apply wp_update; [|intros t e3; split; [done|eexists; by rewrite Hall]].
  intros e3. apply wp_ret. split; [done|]. split; [done|]. right. split; [done|].
  exists now. simpl. by apply batch_published_intro.
Qed.

(** ** Without faults *)

Definition calm_world (w : World) : Prop := faults (env w) = [].

Lemma wp_call_calm (Q : unit -> World -> Prop) E w :
  calm_world w -> (forall e, faults e = [] -> Q tt (with_env w e)) -> wp call Q E w.
Proof. intros Hc HQ. unfold calm_world, wp, call in *. rewrite Hc. by apply HQ. Qed.

Lemma wp_time_now_calm (Q : Time -> World -> Prop) E w :
  calm_world w -> (forall t e, faults e = [] -> Q t (with_env w e)) -> wp time_now Q E w.
Proof. intros Hc HQ. by apply HQ. Qed.

Lemma wp_sleep_calm d (Q : unit -> World -> Prop) E w :
  calm_world w -> (forall e, faults e = [] -> Q tt (with_env w e)) -> wp (sleep d) Q E w.
Proof. intros Hc HQ. by apply HQ. Qed.

Lemma wp_publish_rows_calm rows (E : error -> World -> Prop) w :
  calm_world w ->
  wp (publish_rows rows)
    (fun _ w' => exists e, faults e = [] /\ w' = with_queue (with_env w e) (queue w ++ announcements rows)) E w.
Proof.
  revert w. induction rows as [|row rows IH]; intros w Hc; simpl.
  { apply wp_ret. exists (env w). unfold with_queue, with_env. simpl. rewrite app_nil_r. by destruct w. }
  apply wp_bind. unfold publish. apply wp_bind, wp_call_calm; [done|]. intros e He.
  unfold wp at 1, push_event. eapply wp_mono; [by apply IH| |done]; simpl.
  intros _ w' (e' & He' & ->). exists e'. split; [done|]. unfold with_queue, with_env. simpl. by rewrite <-app_assoc.
Qed.

(** All that a broker that works says about [n] messages from [first] on. *)
Fixpoint acks (n : nat) (first : Z) : list notice :=
  match n with O => [] | S n => Confirmed true first :: acks n (first + 1) end.

Lemma await_acks n m first : await n first (acks (n + m) first) = inr (acks m (first + Z.of_nat n)).
Proof.
  revert first. induction n as [|n IH]; intros first; simpl.
  - f_equal. f_equal. lia.
  - rewrite Z.eqb_refl. simpl. rewrite IH. do 2 f_equal. lia.
Qed.

Lemma confirmations_acks n m first : confirmations n first (acks (n + m) first) = inr tt.
Proof. unfold confirmations. rewrite await_acks. by destruct m. Qed.

Lemma wp_round_calm first m (E : error -> World -> Prop) w :
  calm_world w -> outbox_keys (outbox (extension (db w))) ->
  let rows := pending_rows (db w) in
  wp (publishOutbox_round first (acks (length rows + m) first))
    (fun n w' => n = len_z rows /\ calm_world w' /\ outbox_keys (outbox (extension (db w'))) /\
       queue w' = queue w ++ announcements rows /\ unsent (db w) ≡ₚ rows ++ unsent (db w')) E w.
Proof.
  intros Hc Hk rows. unfold publishOutbox_round, query. apply wp_bind, wp_bind, wp_call_calm; [done|].
  intros e He. unfold wp at 1, read_db. simpl. fold rows.
  destruct rows as [|row0 rows0] eqn:Hrows.
  { apply wp_ret. simpl. by rewrite app_nil_r. }
  rewrite <-Hrows. unfold rows in *. clear Hrows.
  apply wp_bind. unfold publishOutboxBatch. apply wp_bind. eapply wp_mono; [by apply wp_publish_rows_calm| |done].
  intros _ w' (e' & He' & ->). rewrite confirmations_acks.
  apply wp_bind, wp_time_now_calm; [done|]. intros now e2 He2. unfold update.
  apply wp_bind, wp_call_calm; [done|]. intros e3 He3. unfold wp at 1, write_db. apply wp_ret.
  pose proof (batch_published_intro now (db w) Hk) as Hb.
  split_and!; [done|done|by eapply batch_keys|done|by eapply batch_unsent].
Qed.

(** What a broker that works says in each of [rounds] rounds: it confirms a whole batch. *)
Fixpoint working (rounds : nat) (first : Z) : list (list notice) :=
  match rounds with
  | O => []
  | S n => acks (Z.to_nat outboxBatchSize) first :: working n (first + outboxBatchSize)
  end.

Lemma wp_idle rounds first (E : error -> World -> Prop) w :
  calm_world w -> unsent (db w) = [] ->
  wp (publishOutbox first rounds) (fun _ w' => db w' = db w /\ queue w' = queue w) E w.
Proof.
  intros Hc Hu. assert (pending_rows (db w) = []) as Hp.
  { unfold pending_rows. fold (unsent (db w)). by rewrite Hu. }
  clear Hu. revert first w Hc Hp. induction rounds as [|notices rounds IH]; intros first w Hc Hp; simpl; [by apply wp_ret|].
  apply wp_bind. unfold publishOutbox_round, query. apply wp_bind, wp_bind, wp_call_calm; [done|].
  intros e He. unfold wp at 1, read_db. simpl. rewrite Hp. apply wp_ret. simpl.
  apply wp_bind, wp_sleep_calm; [done|]. intros e2 He2.
  eapply wp_mono; [by apply IH|done|done].
Qed.

Lemma wp_drain rounds first (E : error -> World -> Prop) w :
  calm_world w -> outbox_keys (outbox (extension (db w))) ->
  len_z (unsent (db w)) <= outboxBatchSize * Z.of_nat rounds ->
  wp (publishOutbox first (working rounds first))
    (fun _ w' => unsent (db w') = [] /\
       exists sent, queue w' = queue w ++ announcements sent /\ sent ≡ₚ unsent (db w)) E w.
Proof.
  revert first w. induction rounds as [|n IH]; intros first w Hc Hk Hl; cbn [publishOutbox working].
  { assert (unsent (db w) = []) as Hn by (destruct (unsent (db w)); [done|unfold len_z in Hl; simpl in Hl; lia]).
    apply wp_ret. split; [done|]. exists []. simpl. rewrite app_nil_r. by rewrite Hn. }
  pose proof (pending_rows_bound (db w)) as Hb.
  assert (exists m, Z.to_nat outboxBatchSize = (length (pending_rows (db w)) + m)%nat) as [m Hm].
  { exists (Z.to_nat outboxBatchSize - length (pending_rows (db w)))%nat. unfold len_z in Hb. lia. }
  rewrite Hm. apply wp_bind. eapply wp_mono; [by apply wp_round_calm| |done].
  intros k w1 (-> & Hc1 & Hk1 & Hq1 & Hu). simpl in Hu.
  assert (len_z (unsent (db w)) = len_z (pending_rows (db w)) + len_z (unsent (db w1))) as Hlen.
  { unfold len_z. rewrite Hu, length_app. lia. }
  assert (forall b : bool, wp (if b then sleep (100 * millisecond) else mret tt)
    (fun _ w2 => calm_world w2 /\ db w2 = db w1 /\ queue w2 = queue w1) E w1) as Hpause by by intros [].
  apply wp_bind. eapply wp_mono; [apply Hpause| |done]. intros _ w2 (Hc2 & Hd2 & Hq2).
  destruct (decide (unsent (db w1) = [])) as [Hn|Hn].
  - eapply wp_mono; [apply wp_idle; [done|by rewrite Hd2]| |done]. intros _ w3 [Hd3 Hq3].
    rewrite Hd3, Hd2, Hq3, Hq2, Hq1. split; [done|]. exists (pending_rows (db w)). split; [done|].
    by rewrite Hu, Hn, app_nil_r.
  - assert (len_z (pending_rows (db w)) = outboxBatchSize) as ->.
    { destruct (unsent (db w1)); [done|]. unfold len_z in *. simpl in Hlen. lia. }
    eapply wp_mono; [apply IH; [done|by rewrite Hd2|rewrite Hd2]| |done].
    + unfold outboxBatchSize in *. lia.
    + rewrite Hd2, Hq2, Hq1. intros _ w3 (Hu3 & sent & Hq3 & Hs). split; [done|].
      exists (pending_rows (db w) ++ sent). unfold announcements. rewrite fmap_app. split; [by rewrite Hq3, <-app_assoc|].
      by rewrite Hs, Hu.
Qed.

End OutboxRules.

(** * The queues of the outbox worker ([declareBroker], [consumeEvents], [runWorker])

    The exchanges, queues and bindings that [declareBroker] declares, what the broker does
    with them, and the consumers on the queue of events, as a step relation. A message that is
    rejected, or whose time to live ends, is dead-lettered: routed again through the exchange
    that the arguments of its queue name. *)

(** ** Declarations *)

Record queue_args := mkQueueArgs {
  qa_ttl : option Z;           (* x-message-ttl, in milliseconds *)
  qa_dlx : option string;      (* x-dead-letter-exchange *)
  qa_dlkey : option string;    (* x-dead-letter-routing-key *)
}.

Inductive broker_declaration :=
  | DExchange (name kind : string)
  | DQueue (name : string) (args : queue_args)
  | DBind (queue key exchange : string).

Definition declareBroker : list broker_declaration :=
  [ DExchange "owlet.events" "topic";
    DExchange "owlet.dlx" "direct";
    DQueue "owlet.events" (mkQueueArgs None (Some "owlet.dlx") None);
    DBind "owlet.events" "events" "owlet.events";
    DQueue "owlet.retry" (mkQueueArgs (Some 10000) (Some "owlet.events") (Some "events"));
    DQueue "owlet.dead" (mkQueueArgs None None None);
    DBind "owlet.dead" "events" "owlet.dlx" ]%string.

(** ** The broker

    The default exchange takes a message to the queue with the name of its key, the others to
    the queues bound with its key: the keys have no wildcards. *)

Definition args_of (queue : string) : option queue_args :=
  head (omap (fun d => match d with
    | DQueue q args => if String.eqb q queue then Some args else None
    | _ => None
    end) declareBroker).

Definition routed (exchange key : string) : list string :=
  if String.eqb exchange "" then (if bool_decide (is_Some (args_of key)) then [key] else []) else
  omap (fun d => match d with
    | DBind q k e => if String.eqb e exchange && String.eqb k key then Some q else None
    | _ => None
    end) declareBroker.

(** Where a message with a key goes that leaves a queue this way. *)
Definition dead_letters (queue key : string) : list (string * string) :=
  match args_of queue with
  | Some args =>
      match qa_dlx args with
      | Some exchange => let key := default key (qa_dlkey args) in (fun q => (q, key)) <$> routed exchange key
      | None => []
      end
  | None => []
  end.

(** A message: the event it decodes to, its header [attempt], its routing key. *)
Record delivery := mkDelivery { dl_body : option event; dl_attempt : Z; dl_key : string }.

Notation Queues := (gmap string (list delivery)).

Definition messages_of (qs : Queues) (queue : string) : list delivery := default [] (qs !! queue).

Definition put (queue : string) (m : delivery) (qs : Queues) : Queues :=
  <[queue := messages_of qs queue ++ [m]]> qs.

(** [ch.Publish(exchange, key)] *)
Definition sent (exchange key : string) (body : option event) (attempt_no : Z) (qs : Queues) : Queues :=
  foldl (fun qs q => put q (mkDelivery body attempt_no key) qs) qs (routed exchange key).

Definition dead_lettered (queue : string) (m : delivery) (qs : Queues) : Queues :=
  foldl (fun qs qk => put qk.1 (mkDelivery (dl_body m) (dl_attempt m) qk.2) qs) qs (dead_letters queue (dl_key m)).

Definition taken (queue : string) (a b : list delivery) (qs : Queues) : Queues := <[queue := a ++ b]> qs.

Section EventBroker.
Context `{Collation}.

(** ** What processing an event does *)

(** What was marked stays marked; what was announced to the services stays announced. *)
Definition since (w w' : World) : Prop :=
  (forall k, is_Some (processed_events (extension (db w)) !! k) ->
     is_Some (processed_events (extension (db w')) !! k)) /\
  queue w `prefix_of` queue w'.

#[export] Instance since_preorder : PreOrder since.
Proof.
  split; [by intros w; split|]. intros w1 w2 w3 [M1 Q1] [M2 Q2]. split; [auto|by etrans].
Qed.

Lemma since_same w w' : db w' = db w -> queue w' = queue w -> since w w'.
Proof. intros Hd Hq. split; [by rewrite Hd|by rewrite Hq]. Qed.

(** What the main package announces to the services, once per processing. *)
Definition core_event (v : VideoView) (at_ : Time) : Event :=
  EvVideoPublished (mkPublishedEvent ("owlet-video:" +:+ fmt_d (vv_ID v)) (vv_ID v)
    (vv_UserID v) (vv_Title v) (vv_Description v) (mediaURL (vv_FilePath v))
    (mediaURL (vv_CoverPath v)) (vv_PublishedAt v) at_).

(** The event was processed: it is marked, and a published video is announced. *)
Definition processed (e : event) (w w' : World) : Prop :=
  (exists g, db w' = set_extension (set_processed_events g) (db w)) /\
  is_Some (processed_events (extension (db w')) !! collate (ev_ID e)) /\
  match (if String.eqb (ev_Kind e) "video.published" then Views.videos (db w) !! eventUint e "videoId" else None) with
  | Some v => exists at_, queue w' = queue w ++ [core_event v at_]
  | None => queue w' = queue w
  end.

Lemma wp_mark_processed id w :
  wp (mark_processed id)
    (fun _ w' => (exists g, db w' = set_extension (set_processed_events g) (db w)) /\
       is_Some (processed_events (extension (db w')) !! collate id) /\ grows w w' /\ queue w' = queue w /\ since w w')
    (fun _ w' => db w' = db w /\ grows w w' /\ queue w' = queue w) w.
Proof.
  assert (forall d w' e', d = db w -> queue w' = queue w -> grows w w' ->
    db (with_db (with_env w' e') d) = db w /\ grows w (with_db (with_env w' e') d) /\
    queue (with_db (with_env w' e') d) = queue w) as Hback by (intros; split_and!; auto with store).
  apply wp_transaction; [intros; split_and!; auto with store|]. intros e0.
  apply wp_bind, wp_attempt, wp_insert_keyed.
  - intros t e1 _ _. apply wp_ret. split; [|intros; by apply Hback; auto with store]. intros e'. split; [by eexists|].
    simpl. split; [rewrite lookup_insert_eq; by eexists|]. split_and!; [auto with store|done|]. split; [|done].
    simpl. intros k Hk. destruct (decide (k = collate id)) as [->|Hne]; [by rewrite lookup_insert_eq|].
    by rewrite lookup_insert_ne.
  - intros t e1 Hdup. apply bool_decide_eq_true in Hdup. simpl. apply wp_ret.
    split; [|intros; by apply Hback; auto with store]. intros e'. split; [|by split_and!; auto with store].
    exists (fun x => x). simpl. by destruct (db w) as [????????????? []].
  - intros t e1. simpl. apply wp_throw. split_and!; auto with store.
Qed.

Lemma wp_invalidate_event e w (Q : unit -> World -> Prop) (E : error -> World -> Prop) :
  (forall w', outside w w' -> Q tt w') -> wp (invalidate_event e) Q E w.
Proof.
  intros HQ. unfold invalidate_event. cbv zeta. destruct (0 <? _); [|by apply wp_ret, HQ].
  unfold invalidateVideo, videos_invalidate. apply wp_bind.
  unfold wp at 1, on_videos. cbn. apply wp_bind, wp_withRedis_quiet; [apply quiet_request|].
  intros r w' Ho. by apply wp_ret, HQ.
Qed.

Lemma wp_processEvent e w :
  wp (processEvent e) (fun _ w' => processed e w w' /\ since w w') (fun _ w' => since w w') w.
Proof.
  unfold processEvent. apply wp_bind. eapply wp_mono; [apply wp_mark_processed| |].
  2: { intros err w' (Hd & _ & Hq). by apply since_same. }
  intros _ w1 (Hg & Hs & _ & Hq & Hsince). unfold processed.
  assert (Views.videos (db w1) = Views.videos (db w)) as Hv by (by destruct Hg as [g ->]).
  assert (forall w2 : World, outside w1 w2 -> db w2 = db w1 /\ queue w2 = queue w1) as Ho by (by intros w2 (? & _ & ? & _)).
  destruct (String.eqb (ev_Kind e) "video.published").
  2: { apply wp_invalidate_event. intros w' [Hd' Hq']%Ho. split; [by rewrite Hd', Hq'|].
       etrans; [exact Hsince|by apply since_same]. }
  apply wp_bind, wp_attempt, wp_take_row; [..|intros t e1; by apply wp_throw].
  - intros v e1 Hf. rewrite Hv in Hf. rewrite Hf. apply wp_bind. unfold publishCoreVideo.
    apply wp_bind, wp_time_now. intros at_ e2 _ _. apply wp_publish; [|by intros t e3].
    intros e3. apply wp_invalidate_event. intros w' (Hd' & _ & Hq' & _). simpl in Hd', Hq'. rewrite Hd', Hq'. split.
    + split_and!; [done..|]. exists at_. by rewrite Hq.
    + etrans; [exact Hsince|]. split; [by rewrite Hd'|]. rewrite Hq'. by apply prefix_app_r.
  - intros e1 Hf. rewrite Hv in Hf. rewrite Hf. simpl. apply wp_ret. by split_and!.
Qed.

(** The state: the queues, the world; the events published so far, those that a consumer
    processed and acknowledged, with the worlds before and after it, and whether a consumer
    waited in vain for a confirmation, which may still be on its channel. *)
Record Bus := mkBus {
  bus_queues : Queues;
  bus_world : World;
  bus_published : list event;
  bus_done : list (event * World * World);
  bus_late : bool;
}.

(** What the settlement of a delivery does to the queues; [copy] is the attempt number of a copy
    that reached the retry queue. *)
Definition settle_delivery (m : delivery) (a b : list delivery) (v : verdict) (copy : option Z) (qs : Queues) : Queues :=
  let qs := match copy with Some n => sent "" "owlet.retry" (dl_body m) n qs | None => qs end in
  match v with
  | Ack => taken "owlet.events" a b qs
  | Reject => dead_lettered "owlet.events" m (taken "owlet.events" a b qs)
  | Requeue => qs
  end.

(** The events go out and come in in any order, to any of the consumers, in the one world,
    which moves on between them. A consumer takes the next confirmation on its channel for that
    of the copy it sent: it is, unless one came too late before. A copy on the retry queue
    that the broker confirmed is there; one that was not confirmed may be. *)
Inductive bus_step : Bus -> Bus -> Prop :=
  | bus_publish qs w l k late e :
      bus_step (mkBus qs w l k late) (mkBus (sent "owlet.events" "events" (Some e) 0 qs) w (e :: l) k late)
  | bus_noise qs w l k late body :
      body = None -> bus_step (mkBus qs w l k late) (mkBus (sent "owlet.events" "events" body 0 qs) w l k late)
  | bus_consume qs w l k late a m b confirm v copy arrived w' :
      messages_of qs "owlet.events" = a ++ m :: b ->
      consume (dl_body m) (dl_attempt m) confirm w = (inr (v, copy), w') ->
      (confirm = Some true -> late = false -> arrived = copy) -> arrived = copy \/ arrived = None ->
      bus_step (mkBus qs w l k late)
        (mkBus (settle_delivery m a b v arrived qs) w' l
           (match v, copy, dl_body m with Ack, None, Some e => (e, w, w') :: k | _, _, _ => k end)
           (late || match copy, confirm with Some _, None => true | _, _ => false end))
  | bus_expire qs w l k late a m b :
      messages_of qs "owlet.retry" = a ++ m :: b ->
      bus_step (mkBus qs w l k late) (mkBus (dead_lettered "owlet.retry" m (taken "owlet.retry" a b qs)) w l k late)
  | bus_world_moves qs w l k late w' :
      since w w' -> bus_step (mkBus qs w l k late) (mkBus qs w' l k late).

Inductive bus_reachable : Bus -> Prop :=
  | bus_init w : bus_reachable (mkBus ∅ w [] [] false)
  | bus_next s s' : bus_reachable s -> bus_step s s' -> bus_reachable s'.

(** ** Reconnecting ([runWorker]) *)

(** A session with the broker: how long it lasted and the random part of the wait after it, in
    nanoseconds; the waits between the sessions. *)
Fixpoint reconnects (delay : Z) (sessions : list (Z * Z)) : list Z :=
  match sessions with
  | [] => []
  | (lasted, jitter) :: sessions =>
      let delay := if minute <? lasted then second else delay in
      (delay + jitter) :: reconnects (Z.min (delay * 2) (30 * second)) sessions
  end.

Definition runWorker (sessions : list (Z * Z)) : list Z := reconnects second sessions.

End EventBroker.

(** ** No event is lost *)

Section NoEventLost.
Context `{Collation}.

Lemma messages_of_put q q' m qs :
  messages_of (put q m qs) q' = if decide (q = q') then messages_of qs q' ++ [m] else messages_of qs q'.
Proof.
  unfold put, messages_of. case_decide as Hq; [subst; by rewrite lookup_insert_eq|by rewrite lookup_insert_ne].
Qed.

Lemma messages_of_taken q q' a b qs :
  messages_of (taken q a b qs) q' = if decide (q = q') then a ++ b else messages_of qs q'.
Proof.
  unfold taken, messages_of. case_decide as Hq; [subst; by rewrite lookup_insert_eq|by rewrite lookup_insert_ne].
Qed.

(** What the declarations amount to. *)
Lemma sent_events body n qs :
  sent "owlet.events" "events" body n qs = put "owlet.events" (mkDelivery body n "events") qs.
Proof. reflexivity. Qed.

Lemma sent_retry body n qs :
  sent "" "owlet.retry" body n qs = put "owlet.retry" (mkDelivery body n "owlet.retry") qs.
Proof. reflexivity. Qed.

Lemma rejected_dead m qs : dl_key m = "events"%string ->
  dead_lettered "owlet.events" m qs = put "owlet.dead" (mkDelivery (dl_body m) (dl_attempt m) "events") qs.
Proof. intros Hk. unfold dead_lettered. by rewrite Hk. Qed.

Lemma expired_events m qs :
  dead_lettered "owlet.retry" m qs = put "owlet.events" (mkDelivery (dl_body m) (dl_attempt m) "events") qs.
Proof. reflexivity. Qed.

Lemma consume_result body n confirm w v copy w' :
  consume body n confirm w = (inr (v, copy), w') ->
  match v, copy with
  | Ack, None => exists e, body = Some e /\ processEvent e w = (inr tt, w')
  | Ack, Some c => confirm = Some true /\ c = n + 1 /\ n < 3
  | Reject, None => body = None \/ (exists e, body = Some e /\ ev_ID e = ""%string) \/ 3 <= n
  | Reject, Some _ => False
  | Requeue, Some c => c = n + 1 /\ n < 3
  | Requeue, None => True
  end.
Proof.
  unfold consume, mret, M_ret. destruct body as [e|]; [|intros [= <- <- <-]; auto].
  destruct (String.eqb_spec (ev_ID e) ""); [intros [= <- <- <-]; eauto|].
  unfold mbind, M_bind, attempt. destruct (processEvent e w) as [[err|[]] w1] eqn:Hp; [|intros [= <- <- <-]; eauto].
  destruct (Z.leb_spec 3 n); [intros [= <- <- <-]; auto|].
  destruct (call w1) as [[t|[]] w2]; [intros [= <- <- <-]; done|].
  destruct confirm as [[|]|]; intros [= <- <- <-]; auto.
Qed.

Definition holds (qs : Queues) (e : event) : Prop :=
  exists m, dl_body m = Some e /\ (m ∈ messages_of qs "owlet.events" \/ m ∈ messages_of qs "owlet.retry" \/
                                   m ∈ messages_of qs "owlet.dead").

Definition done_with (s : Bus) (e : event) : Prop := exists w w', (e, w, w') ∈ bus_done s.

Record bus_ok (s : Bus) : Prop := {
  bo_events : forall m, m ∈ messages_of (bus_queues s) "owlet.events" ->
    dl_key m = "events"%string /\ 0 <= dl_attempt m <= 3;
  bo_retry : forall m, m ∈ messages_of (bus_queues s) "owlet.retry" -> 1 <= dl_attempt m <= 3;
  bo_dead : forall m, m ∈ messages_of (bus_queues s) "owlet.dead" ->
    dl_body m = None \/ (exists e, dl_body m = Some e /\ ev_ID e = ""%string) \/ dl_attempt m = 3;
  bo_there : bus_late s = false -> forall e, e ∈ bus_published s -> done_with s e \/ holds (bus_queues s) e;
  bo_done : forall e w w', (e, w, w') ∈ bus_done s -> processEvent e w = (inr tt, w') /\ since w' (bus_world s);
}.

Lemma holds_put q m qs e : holds qs e -> holds (put q m qs) e.
Proof.
  intros (m' & Hb & Hm). exists m'. split; [done|]. rewrite !messages_of_put.
  repeat case_decide; set_solver.
Qed.

Lemma holds_new q m qs e :
  q ∈ ["owlet.events"; "owlet.retry"; "owlet.dead"]%string -> dl_body m = Some e -> holds (put q m qs) e.
Proof.
  intros Hq Hb. exists m. split; [done|]. rewrite !messages_of_put. set_unfold in Hq.
  destruct Hq as [-> |[-> |[-> |[]]]]; simpl; set_solver.
Qed.

Lemma holds_taken q a m b qs e :
  messages_of qs q = a ++ m :: b -> holds qs e -> holds (taken q a b qs) e \/ dl_body m = Some e.
Proof.
  intros Hq (m' & Hb & Hm).
  assert (forall q', m' ∈ messages_of qs q' -> m' ∈ messages_of (taken q a b qs) q' \/ m' = m) as Hin.
  { intros q' Hm'. rewrite messages_of_taken. case_decide; [subst; rewrite Hq in Hm'; set_solver|by left]. }
  destruct Hm as [Hm|[Hm|Hm]]; apply Hin in Hm as [Hm| ->]; (by right) || (left; exists m'; auto).
Qed.

Lemma ok_put q m s :
  bus_ok s ->
  (q = "owlet.events"%string -> dl_key m = "events"%string /\ 0 <= dl_attempt m <= 3) ->
  (q = "owlet.retry"%string -> 1 <= dl_attempt m <= 3) ->
  (q = "owlet.dead"%string ->
     dl_body m = None \/ (exists e, dl_body m = Some e /\ ev_ID e = ""%string) \/ dl_attempt m = 3) ->
  bus_ok (mkBus (put q m (bus_queues s)) (bus_world s) (bus_published s) (bus_done s) (bus_late s)).
Proof.
  intros [H1 H2 H3 H4 H5] Hev Hre Hde. split; simpl; try done.
  - intros m'. rewrite messages_of_put. case_decide; [|apply H1]. intros [Hm|Hm]%elem_of_app; [by apply H1|].
    apply list_elem_of_singleton in Hm as ->. auto.
  - intros m'. rewrite messages_of_put. case_decide; [|apply H2]. intros [Hm|Hm]%elem_of_app; [by apply H2|].
    apply list_elem_of_singleton in Hm as ->. auto.
  - intros m'. rewrite messages_of_put. case_decide; [|apply H3]. intros [Hm|Hm]%elem_of_app; [by apply H3|].
    apply list_elem_of_singleton in Hm as ->. auto.
  - intros Hl e He. destruct (H4 Hl e He) as [|Hh]; [by left|]. right. by apply holds_put.
Qed.

(** A message leaves a queue; what is published is still held, or was processed. *)
Lemma ok_taken q a m b s k :
  bus_ok s -> messages_of (bus_queues s) q = a ++ m :: b ->
  (forall x, x ∈ bus_done s -> x ∈ k) ->
  (forall e w w', (e, w, w') ∈ k -> processEvent e w = (inr tt, w') /\ since w' (bus_world s)) ->
  (bus_late s = false -> forall e, dl_body m = Some e -> exists w w', (e, w, w') ∈ k) ->
  bus_ok (mkBus (taken q a b (bus_queues s)) (bus_world s) (bus_published s) k (bus_late s)).
Proof.
  intros [H1 H2 H3 H4 H5] Hq Hk Hp Hm.
  assert (forall q' x, x ∈ messages_of (taken q a b (bus_queues s)) q' -> x ∈ messages_of (bus_queues s) q') as Hsub.
  { intros q' x. rewrite messages_of_taken. case_decide; [subst; rewrite Hq|done]. set_solver. }
  split; simpl; try (intros x Hx%Hsub; by auto); try done.
  intros Hl e He. destruct (H4 Hl e He) as [(w1 & w2 & Hd)|Hh]; [left; exists w1, w2; by apply Hk|].
  destruct (holds_taken _ _ _ _ _ e Hq Hh) as [|Hb]; [by right|]. left. by apply (Hm Hl).
Qed.

(** A message moves to the end of another queue. *)
Lemma ok_moved q q' a m b s m' :
  bus_ok s -> messages_of (bus_queues s) q = a ++ m :: b -> dl_body m' = dl_body m ->
  q' ∈ ["owlet.events"; "owlet.retry"; "owlet.dead"]%string ->
  (q' = "owlet.events"%string -> dl_key m' = "events"%string /\ 0 <= dl_attempt m' <= 3) ->
  (q' = "owlet.retry"%string -> 1 <= dl_attempt m' <= 3) ->
  (q' = "owlet.dead"%string ->
     dl_body m' = None \/ (exists e, dl_body m' = Some e /\ ev_ID e = ""%string) \/ dl_attempt m' = 3) ->
  bus_ok (mkBus (put q' m' (taken q a b (bus_queues s))) (bus_world s) (bus_published s) (bus_done s) (bus_late s)).
Proof.
  intros Hok Hq Hb Hin Hev Hre Hde. pose proof Hok as [H1 H2 H3 H4 H5].
  assert (forall r x, x ∈ messages_of (put q' m' (taken q a b (bus_queues s))) r ->
    x ∈ messages_of (bus_queues s) r \/ x = m' /\ r = q') as Hsub.
  { intros r x. rewrite messages_of_put, messages_of_taken.
    repeat case_decide; subst; rewrite ?Hq; set_solver. }
  split; simpl; try done.
  - intros x Hx. apply Hsub in Hx as [Hx|[-> Hx]]; [by apply H1|by apply Hev].
  - intros x Hx. apply Hsub in Hx as [Hx|[-> Hx]]; [by apply H2|by apply Hre].
  - intros x Hx. apply Hsub in Hx as [Hx|[-> Hx]]; [by apply H3|by apply Hde].
  - intros Hl e He. destruct (H4 Hl e He) as [|Hh]; [by left|]. right.
    destruct (holds_taken _ _ _ _ _ e Hq Hh) as [|Hbm]; [by apply holds_put|]. apply holds_new; [done|congruence].
Qed.

(** Time passes, and it may become too late for a confirmation. *)
Lemma ok_moves s w late :
  bus_ok s -> since (bus_world s) w -> (late = false -> bus_late s = false) ->
  bus_ok (mkBus (bus_queues s) w (bus_published s) (bus_done s) late).
Proof.
  intros [H1 H2 H3 H4 H5] Hw Hl. split; simpl; try done.
  - intros Hn e He. by apply H4; [apply Hl|].
  - intros e w1 w2 He. destruct (H5 _ _ _ He) as [Hp Hs]. split; [done|by etrans].
Qed.

Lemma taken_put q q' a b m qs : q <> q' -> taken q a b (put q' m qs) = put q' m (taken q a b qs).
Proof.
  intros Hq. unfold put. rewrite messages_of_taken, decide_False by done. unfold taken. by apply insert_insert_ne.
Qed.

Lemma consume_since body n confirm w : since w (consume body n confirm w).2.
Proof.
  unfold consume. destruct body as [e|]; [|done]. destruct (String.eqb (ev_ID e) ""); [done|].
  pose proof (wp_processEvent e w) as Hp. unfold wp, mbind, M_bind, attempt in *.
  destruct (processEvent e w) as [[err|[]] w1]; [|by destruct Hp].
  destruct (3 <=? n); [exact Hp|]. unfold call. destruct (faults (env w1)) as [|[t|] fs]; simpl;
    repeat case_match; simpl; (etrans; [exact Hp|by apply since_same]).
Qed.

(** A delivery that a consumer answered. *)
Lemma ok_consumed qs w l k late a m b confirm v copy arrived w' :
  bus_ok (mkBus qs w l k late) -> messages_of qs "owlet.events" = a ++ m :: b ->
  consume (dl_body m) (dl_attempt m) confirm w = (inr (v, copy), w') ->
  (confirm = Some true -> late = false -> arrived = copy) -> arrived = copy \/ arrived = None ->
  bus_ok (mkBus (settle_delivery m a b v arrived qs) w' l
           (match v, copy, dl_body m with Ack, None, Some e => (e, w, w') :: k | _, _, _ => k end)
           (late || match copy, confirm with Some _, None => true | _, _ => false end)).
Proof.
  intros Hok Hq Hc Ha Har. pose proof (consume_result _ _ _ _ _ _ _ Hc) as Hr.
  pose proof (consume_since (dl_body m) (dl_attempt m) confirm w) as Hw. rewrite Hc in Hw. simpl in Hw.
  set (late' := late || _). assert (late' = false -> late = false) as Hl by (subst late'; by destruct late).
  pose proof (ok_moves _ w' late' Hok Hw Hl) as Hok'. simpl in Hok'. clearbody late'.
  destruct (bo_events _ Hok m) as [Hkey Hatt]; [simpl; rewrite Hq; set_solver|].
  unfold settle_delivery. destruct v.
  - destruct copy as [c|].
    + destruct Hr as (-> & -> & Hlt). destruct arrived as [c|].
      * destruct Har as [[= ->]|]; [|done]. rewrite sent_retry, taken_put by done.
        apply (ok_moved _ _ a m b (mkBus qs w' l k late')); simpl; try done; [set_solver|lia].
      * apply (ok_taken _ a m b (mkBus qs w' l k late')); simpl; try done.
        -- apply (bo_done _ Hok').
        -- intros Hl'. by specialize (Ha eq_refl (Hl Hl')).
    + destruct Hr as (e & Hb & Hp). assert (arrived = None) as -> by (by destruct Har). rewrite Hb.
      apply (ok_taken _ a m b (mkBus qs w' l k late')); simpl; try done.
      * set_solver.
      * intros e' w1 w2 [[= -> -> ->]|He]%elem_of_cons; [by split|by apply (bo_done _ Hok')].
      * intros _ e' He. rewrite Hb in He. injection He as <-. exists w, w'. set_solver.
  - destruct copy; [done|]. assert (arrived = None) as -> by (by destruct Har). rewrite rejected_dead by done.
    apply (ok_moved _ _ a m b (mkBus qs w' l k late')); simpl; try done; [set_solver|]. intros _.
    destruct Hr as [Hr|[Hr|Hr]]; [by left|by right; left|right; right; lia].
  - destruct arrived as [c|]; [|exact Hok']. destruct Har as [<-|Har]; [|done]. destruct Hr as [-> Hlt].
    rewrite sent_retry. apply (ok_put _ _ _ Hok'); simpl; done || lia.
Qed.

Lemma bus_step_ok s s' : bus_step s s' -> bus_ok s -> bus_ok s'.
Proof.
  intros Hs Hok. destruct Hs as [qs w l k late e|qs w l k late body Hb|qs w l k late a m b confirm v copy arrived w' Hq Hc Ha Har
    |qs w l k late a m b Hq|qs w l k late w' Hw].
  - rewrite sent_events.
    destruct (ok_put "owlet.events" (mkDelivery (Some e) 0 "events") _ Hok) as [H1 H2 H3 H4 H5];
      [by simpl; intros; split; [|lia]|done..|].
    split; simpl in *; try done. intros Hl e' [->|He]%elem_of_cons; [|by apply H4]. right. by apply holds_new; [set_solver|].
  - rewrite sent_events.
    apply (ok_put "owlet.events" (mkDelivery body 0 "events") _ Hok); simpl; [lia || done..|done].
  - by eapply ok_consumed.
  - rewrite expired_events. pose proof (bo_retry _ Hok m) as Hat. simpl in Hat.
    apply (ok_moved _ _ a m b (mkBus qs w l k late)); simpl; try done; [set_solver|]. intros _. split; [done|].
    assert (1 <= dl_attempt m <= 3); [|lia]. apply Hat. rewrite Hq. set_solver.
  - exact (ok_moves _ w' late Hok Hw id).
Qed.

Lemma bus_reachable_ok s : bus_reachable s -> bus_ok s.
Proof.
  induction 1 as [w|s s' _ IH Hs]; [|by eapply bus_step_ok].
  split; simpl; try (intros m Hm; unfold messages_of in Hm; simpl in Hm; by apply not_elem_of_nil in Hm).
  - intros _ e He. by apply not_elem_of_nil in He.
  - intros e w1 w2 He. by apply not_elem_of_nil in He.
Qed.

(** ** The waits between the sessions *)

Lemma reconnects_bounds delay sessions :
  second <= delay <= 30 * second -> Forall (fun s => 0 <= s.2 < 250 * millisecond) sessions ->
  Forall (fun wait => second <= wait < 30 * second + 250 * millisecond) (reconnects delay sessions).
Proof.
  intros Hd Hs. revert delay Hd. induction Hs as [|[lasted jitter] sessions Hj _ IH]; intros delay Hd; simpl; [done|].
  assert (0 < second) by done. simpl in Hj.
  constructor; [|apply IH]; destruct (minute <? lasted); lia.
Qed.

End NoEventLost.
