(* ===== verification/PublishHandlers.v ===== *)
(** * Publishing and moderating videos ([core.go], [video.go], [admin.go]) *)
From S2P Require Import Prelude.
From S2P Require Import GoStd.
From S2P Require Import GoConv.
From S2P Require Import Errors.
From S2P Require Import Models.
From S2P Require Import Redis.
From S2P Require Import Store.
From S2P Require Import Views.
From S2P Require Import Edge.
From S2P Require Import AuthHandlers.
From S2P Require Import OutboxWorker.

Section PublishHandlers.
Context `{Collation} `{Unicode}.

(** ** Tags *)

Definition tag_rune (r : Z) : bool := letter_or_number r || (r =? 95).

(** The longest run of at most [n] runes of a tag: its bytes and the rest. *)
Fixpoint tag_run (n : nat) (l : bytes) : bytes * bytes :=
  match n, l with
  | O, _ | _, [] => ([], l)
  | S n, _ =>
      let '(r, width) := decode_rune l in
      if tag_rune r then
        let '(run, rest) := tag_run n (drop width l) in (take width l ++ run, rest)
      else ([], l)
  end.

(** [tagPattern.FindAllString(s, -1)], without the leading signs. *)
Fixpoint find_tags (fuel : nat) (l : bytes) : list bytes :=
  match fuel, l with
  | O, _ | _, [] => []
  | S fuel, b :: l =>
      if b =? 35 then
        match tag_run 60 l with
        | ([], _) => find_tags fuel l
        | (run, rest) => run :: find_tags fuel rest
        end
      else find_tags fuel l
  end.

(** The tags of a text in lower case, each once, in order. *)
Definition tags_of (text : string) : list string :=
  let l := string_bytes text in
  dedup ((fun run => unicode_ToLower (string_of_bytes run)) <$> find_tags (length l) l).

Definition insert_tag (videoID : Z) (tag : string) : M VideoTagModel :=
  insert_row "video_tags" (fun id _ => mkVideoTagModel id videoID tag)
    (fun t d => match find_row (fun o => (vt_VideoID o =? vt_VideoID t)
                                          && String.eqb (collate (vt_Tag o)) (collate (vt_Tag t)))
                        (video_tags (extension d)) with Some _ => true | None => false end)
    (fun t => set_extension (set_video_tags <[vt_ID t := t]>)).

Fixpoint insert_tags (videoID : Z) (tags : list string) : M unit :=
  match tags with
  | [] => mret tt
  | tag :: tags => _ ← insert_tag videoID tag; insert_tags videoID tags
  end.

(** ** Publication *)

(** What [publishVideo] has when its transaction begins. *)
Record publication := mkPublication {
  pu_UserID : Z;
  pu_Title : string;
  pu_Description : string;
  pu_FilePath : string;
  pu_CoverPath : string;
  pu_Size : Z;
  pu_PublishedAt : Time;
  pu_UploadID : string;
  pu_RawTitle : string;   (* before [TrimSpace]: the tags are taken from it *)
}.

Definition core_video_row (p : publication) (id : Z) (now : Time) : VideoModel :=
  {| vm_ID := id; vm_AuthorID := pu_UserID p; vm_Title := pu_Title p;
     vm_Description := pu_Description p; vm_MediaURL := mediaURL (pu_FilePath p);
     vm_CoverURL := mediaURL (pu_CoverPath p); vm_Status := 2;
     vm_PublishedAt := Some (pu_PublishedAt p); vm_IdempotencyKey := None; vm_CreatedAt := now;
     vm_UpdatedAt := now; vm_FilePath := pu_FilePath p; vm_CoverPath := pu_CoverPath p;
     vm_Size := pu_Size p |}.

(** [createCoreVideo]: a row without an idempotency key is never refused. *)
Definition createCoreVideo (p : publication) : M VideoModel :=
  m ← insert_row "video" (core_video_row p) (fun _ _ => false) (fun r => set_video <[vm_ID r := r]>);
  _ ← insert_keyed (fun now => mkVideoStatModel (vm_ID m) 0 0 0 now now)
        (fun s d => bool_decide (is_Some (video_stat d !! sm_VideoID s)))
        (fun s => set_video_stat <[sm_VideoID s := s]>);
  mret m.

Definition upload_published (u : UploadModel) : UploadModel :=
  mkUploadModel (ul_ID u) (ul_UserID u) (ul_FileMD5 u) (ul_Size u) (ul_Chunks u) (ul_Completed u)
    true (ul_StoredPath u) (ul_CreatedAt u).

(** [WHERE id = ? AND published = false] *)
Definition mark_upload (id : string) : Tables -> Tables :=
  set_extension (set_uploads (alter (fun u => if ul_Published u then u else upload_published u) (collate id))).

Definition video_event (videoID userID : Z) : list (string * Z) :=
  [("videoId", videoID); ("userId", userID)]%string.

(** The transaction of [publishVideo]. *)
Definition publish_tx (p : publication) : M VideoModel :=
  transaction (
    m ← createCoreVideo p;
    _ ← insert_tags (vm_ID m) (tags_of (pu_RawTitle p +:+ " " +:+ pu_Description p));
    _ ← update (mark_upload (pu_UploadID p));
    _ ← enqueue "video.published" (video_event (vm_ID m) (pu_UserID p));
    mret m).

(** ** Moderation ([adminUpdateVideo]) *)

Record admin_video_body := mkAdminVideoBody {
  vb_Title : option string; vb_Description : option string; vb_Status : option Z }.

Definition moderated_row (title description : option string) (status : option Z) (now : Time)
    (v : VideoModel) : VideoModel :=
  {| vm_ID := vm_ID v; vm_AuthorID := vm_AuthorID v; vm_Title := default (vm_Title v) title;
     vm_Description := default (vm_Description v) description; vm_MediaURL := vm_MediaURL v;
     vm_CoverURL := vm_CoverURL v; vm_Status := default (vm_Status v) status;
     vm_PublishedAt := vm_PublishedAt v; vm_IdempotencyKey := vm_IdempotencyKey v;
     vm_CreatedAt := vm_CreatedAt v; vm_UpdatedAt := now; vm_FilePath := vm_FilePath v;
     vm_CoverPath := vm_CoverPath v; vm_Size := vm_Size v |}.

Definition delete_tags (videoID : Z) : Tables -> Tables :=
  set_extension (set_video_tags (filter (fun kt => vt_VideoID (kt.2) <> videoID))).

Definition retag (videoID : Z) (title description : string) : M unit :=
  _ ← update (delete_tags videoID);
  insert_tags videoID (tags_of (title +:+ " " +:+ description)).

Definition adminUpdateVideo_tx (id : Z) (b : admin_video_body) : M unit :=
  transaction (
    v ← take_row (fun d => v ← video d !! id; if negb (vm_Status v =? 4) then Some v else None);
    now ← time_now;
    let title := TrimSpace <$> vb_Title b in
    _ ← update (set_video (alter (moderated_row title (vb_Description b) (vb_Status b) now) (vm_ID v)));
    let v := moderated_row title (vb_Description b) (vb_Status b) now v in
    _ ← match vb_Title b, vb_Description b with
        | None, None => mret tt
        | _, _ => retag id (vm_Title v) (vm_Description v)
        end;
    if vm_Status v =? 2 then enqueue "video.published" (video_event id (vm_AuthorID v)) else mret tt).

Definition adminUpdateVideo (param : string) (body : option admin_video_body) : M Response :=
  match paramID param with
  | None => mret (errorJSON 400 "invalid_id")
  | Some id =>
      match body with
      | None | Some (mkAdminVideoBody None None None) => mret (errorJSON 400 "invalid_request")
      | Some b =>
          if match vb_Title b with
             | Some t => let v := TrimSpace t in (len v =? 0) || (160 <? len v)
             | None => false end
          then mret (errorJSON 400 "invalid_video") else
          if match vb_Description b with Some s => 2000 <? len s | None => false end
          then mret (errorJSON 400 "invalid_video") else
          if match vb_Status b with Some s => negb (s =? 2) && negb (s =? 3) | None => false end
          then mret (errorJSON 400 "invalid_status") else
          r ← attempt (adminUpdateVideo_tx id b);
          match r with
          | inl err => mret (adminWriteError err)
          | inr _ =>
              _ ← invalidateVideo id;
              _ ← withRedis (redis_del_keys [videoCardKey id]);
              mret (JSON 200 BOk)
          end
      end
  end.

End PublishHandlers.
