(* ===== verification/SocialHandlers.v ===== *)
(** * Direct messages, lists and mentions ([messaging.go], [social.go], [feed.go], [core.go])

    A cursor of these lists is the number MySQL reads from its text. *)
From Stdlib Require Import Ascii.
From S2P Require Import Prelude.
From S2P Require Import GoStd.
From S2P Require Import GoConv.
From S2P Require Import Errors.
From S2P Require Import Models.
From S2P Require Import Store.
From S2P Require MessageRepo.
From S2P Require Import Views.
From S2P Require Import Edge.
From S2P Require Import AuthHandlers.
From S2P Require Import PublishHandlers.

Section SocialHandlers.
Context `{Collation} `{Unicode}.

(** ** Lists ordered by id *)

Definition by_id {A} (id : A -> Z) (l : list A) : list A := stable_sort (fun a b => id a <? id b) l.
Definition by_id_desc {A} (id : A -> Z) (l : list A) : list A := stable_sort (fun a b => id b <? id a) l.

Definition before_cursor {A} (id : A -> Z) (cursor : option Z) (a : A) : bool :=
  match cursor with Some c => id a <? c | None => true end.

(** [LIMIT n] on rows of [videos] with their authors, the newest first. *)
Definition video_list (P : VideoView -> bool) (cursor : option Z) (limit : Z) (d : Tables) : list VideoView :=
  with_author d <$> take_z limit (by_id_desc vv_ID
    (select_rows (fun v => P v && before_cursor vv_ID cursor v) (Views.videos d))).

(** ** Direct messages *)

Definition between (a b : Z) (m : DirectMessageModel) : bool :=
  ((dm_SenderID m =? a) && (dm_RecipientID m =? b)) || ((dm_SenderID m =? b) && (dm_RecipientID m =? a)).

Definition message_list (P : DirectMessageModel -> bool) (limit : Z) (d : Tables) : list DirectMessageModel :=
  take_z limit (by_id_desc dm_ID (select_rows P (messages (extension d)))).

Definition peer_of (uid : Z) (m : DirectMessageModel) : Z :=
  if dm_SenderID m =? uid then dm_RecipientID m else dm_SenderID m.

(** A peer whose row cannot be read is left out. *)
Fixpoint load_peers (peers : list Z) : M (list UserView) :=
  match peers with
  | [] => mret []
  | peer :: peers =>
      u ← attempt (first_user peer);
      rest ← load_peers peers;
      mret (match u with inl _ => rest | inr u => u :: rest end)
  end.

Definition conversations (p : Principal) : M Response :=
  let uid := pr_ID p in
  l ← attempt (query (message_list (fun m => (dm_SenderID m =? uid) || (dm_RecipientID m =? uid)) 500));
  match l with
  | inl _ => mret (errorJSON 500 "query_failed")
  | inr l => peers ← load_peers (dedup (peer_of uid <$> l)); mret (JSON 200 (BUsers peers))
  end.

Definition thread (p : Principal) (param : string) : M Response :=
  match paramID param with
  | None => mret (errorJSON 400 "invalid_id")
  | Some peer =>
      l ← attempt (query (message_list (between (pr_ID p) peer) 50));
      match l with
      | inl _ => mret (errorJSON 500 "query_failed")
      | inr l => mret (JSON 200 (BMessages (reverse l)))
      end
  end.

(** One of the two follows the other. *)
Definition related (a b : Z) (f : FollowView) : bool :=
  ((vf_FollowerID f =? a) && (vf_FollowingID f =? b)) || ((vf_FollowerID f =? b) && (vf_FollowingID f =? a)).

Definition insert_direct (sender recipient : Z) (body : string) : M DirectMessageModel :=
  insert_row "messages" (fun id now => mkDirectMessageModel id sender recipient body now)
    (fun _ _ => false) (fun m => set_extension (set_messages <[dm_ID m := m]>)).

Definition sendMessage (p : Principal) (param : string) (body : option string) : M Response :=
  match paramID param with
  | None => mret (errorJSON 400 "invalid_id")
  | Some peer =>
      let uid := pr_ID p in
      if peer =? uid then mret (errorJSON 400 "invalid_recipient") else
      match body with
      | None => mret (errorJSON 400 "invalid_message")
      | Some text =>
          let text := TrimSpace text in
          if (len text =? 0) || (2000 <? len text) then mret (errorJSON 400 "invalid_message") else
          n ← count_or_zero (fun d => map_count (related uid peer) (Views.follows d));
          if n =? 0 then mret (errorJSON 403 "relationship_required") else
          m ← attempt (insert_direct uid peer text);
          match m with
          | inl _ => mret (errorJSON 500 "send_failed")
          | inr m => mret (JSON 201 (BMessage m))
          end
      end
  end.

(** ** Notifications *)

Definition notifications (p : Principal) : M Response :=
  l ← attempt (query (fun d => take_z 50 (by_id_desc vo_ID
        (select_rows (fun n => vo_UserID n =? pr_ID p) (Views.notifications d)))));
  match l with
  | inl _ => mret (errorJSON 500 "query_failed")
  | inr l => mret (JSON 200 (BNotifications l))
  end.

Definition unreadCount (p : Principal) : M Response :=
  n ← count_or_zero (fun d => map_count (fun n => (vo_UserID n =? pr_ID p) &&
        match vo_ReadAt n with None => true | Some _ => false end) (Views.notifications d));
  mret (JSON 200 (BCount n)).

(** ** Likes, comments, relations *)

Definition liked_by (uid video : Z) (l : LikeView) : bool := (vl_UserID l =? uid) && (vl_VideoID l =? video).

Definition isLiked (p : Principal) (param : string) : M Response :=
  match paramID param with
  | None => mret (errorJSON 400 "invalid_id")
  | Some id =>
      n ← count_or_zero (fun d => map_count (liked_by (pr_ID p) id) (Views.likes d));
      mret (JSON 200 (BFlag "liked" (0 <? n)))
  end.

Definition likes_video (uid : Z) (d : Tables) (v : VideoView) : bool :=
  0 <? map_count (liked_by uid (vv_ID v)) (Views.likes d).

Definition myLikes (p : Principal) : M Response :=
  l ← attempt (query (fun d => video_list (likes_video (pr_ID p) d) None 30 d));
  match l with
  | inl _ => mret (errorJSON 500 "query_failed")
  | inr l => mret (JSON 200 (BVideos (hydrateVideo <$> l)))
  end.

Definition comment_author (d : Tables) (c : CommentView) : CommentView :=
  mkCommentView (vc_ID c) (vc_UserID c) (author_of d (vc_UserID c)) (vc_VideoID c) (vc_Body c) (vc_CreatedAt c).

Definition comments (param : string) (cursor : option Z) : M Response :=
  match paramID param with
  | None => mret (errorJSON 400 "invalid_id")
  | Some id =>
      l ← attempt (query (fun d => comment_author d <$> take_z 50 (by_id vc_ID (select_rows
            (fun c => (vc_VideoID c =? id) && match cursor with Some n => n <? vc_ID c | None => true end)
            (Views.comments d)))));
      match l with
      | inl _ => mret (errorJSON 500 "query_failed")
      | inr l => mret (JSON 200 (BComments l))
      end
  end.

(** At most a hundred ids, in no particular order; the rows of a failed query are none. *)
Definition relationList (param : string) (followers : bool) : M Response :=
  match paramID param with
  | None => mret (errorJSON 400 "invalid_id")
  | Some id =>
      ids ← attempt (query (fun d => take_z 100
        (if followers : bool then vf_FollowerID <$> select_rows (fun f => vf_FollowingID f =? id) (Views.follows d)
         else vf_FollowingID <$> select_rows (fun f => vf_FollowerID f =? id) (Views.follows d))));
      match ids with
      | inl _ => mret (errorJSON 500 "query_failed")
      | inr [] => mret (JSON 200 (BUsers []))
      | inr ids =>
          l ← attempt (query (fun d => select_rows (fun u => bool_decide (vu_ID u ∈ ids)) (users d)));
          mret (JSON 200 (BUsers (match l with inl _ => [] | inr l => l end)))
      end
  end.

(** [tagFeed] of [feed.go] *)
Definition has_tag (tag : string) (d : Tables) (v : VideoView) : bool :=
  match find_row (fun t => (vt_VideoID t =? vv_ID v) && String.eqb (collate (vt_Tag t)) (collate tag))
          (video_tags (extension d)) with Some _ => true | None => false end.

Definition tagFeed (param : string) (cursor : option Z) : M Response :=
  let tag := unicode_ToLower param in
  if (len tag <? 1) || (60 <? len tag) then mret (errorJSON 400 "invalid_tag") else
  l ← attempt (query (fun d => video_list (has_tag tag d) cursor 20 d));
  match l with
  | inl _ => mret (errorJSON 500 "feed_failed")
  | inr l => mret (JSON 200 (BVideos (hydrateVideo <$> l)))
  end.

(** [userVideos] of [video.go]; [id] is the number MySQL reads. *)
Definition userVideos (id : Z) (cursor : option Z) : M Response :=
  l ← attempt (query (video_list (fun v => vv_UserID v =? id) cursor 30));
  match l with
  | inl _ => mret (errorJSON 500 "query_failed")
  | inr l => mret (JSON 200 (BVideos (hydrateVideo <$> l)))
  end.

(** ** Favourites ([core.go]) *)

Definition favorite_of (uid : Z) (a : ActionModel) : bool :=
  (im_UserID a =? uid) && String.eqb (collate (im_ActionType a)) (collate "favorite") && (im_Status a =? 1).

Definition core_error (err : error) : Response := let '(status, code) := coreError err in errorJSON status code.

Definition coreIsFavorite (p : Principal) (param : string) : M Response :=
  match paramID param with
  | None => mret (errorJSON 400 "invalid_id")
  | Some id =>
      n ← attempt (query (fun d => map_count (fun a => favorite_of (pr_ID p) a && (im_VideoID a =? id))
                                     (interaction_action d)));
      match n with
      | inl err => mret (core_error err)
      | inr n => mret (JSON 200 (BFlag "favorited" (0 <? n)))
      end
  end.

Definition favorites_video (uid : Z) (d : Tables) (v : VideoView) : bool :=
  0 <? map_count (fun a => favorite_of uid a && (im_VideoID a =? vv_ID v)) (interaction_action d).

Definition coreFavorites (p : Principal) : M Response :=
  l ← attempt (query (fun d => video_list (favorites_video (pr_ID p) d) None 100 d));
  match l with
  | inl err => mret (core_error err)
  | inr l => mret (JSON 200 (BVideos (hydrateVideo <$> l)))
  end.

(** ** Mentions ([coreMentions]) *)

Fixpoint word_run (n : nat) (l : bytes) : bytes :=
  match n, l with
  | O, _ | _, [] => []
  | S n, b :: l => if word_char b then b :: word_run n l else []
  end.

(** [mentionPattern.FindAllString(s, -1)], without the signs: three to forty characters. *)
Fixpoint find_mentions (fuel : nat) (l : bytes) : list bytes :=
  match fuel, l with
  | O, _ | _, [] => []
  | S fuel, b :: l =>
      let run := word_run 40 l in
      if (b =? 64) && (3 <=? length run)%nat
      then run :: find_mentions fuel (drop (length run) l)
      else find_mentions fuel l
  end.

Definition mentions_of (text : string) : list string :=
  let l := string_bytes text in string_of_bytes <$> find_mentions (length l) l.

Definition mention_key (commentID userID : Z) : string :=
  ("comment:" +:+ fmt_d commentID +:+ ":mention:" +:+ fmt_d userID)%string.

Definition mention_row (userID : Z) (c : CommentView) (id : Z) (now : Time) : MessageModel :=
  {| mm_ID := id; mm_UserID := userID; mm_Type := "mention"; mm_Title := "提及";
     mm_Content := "在评论中提到了你"; mm_ActorID := vc_UserID c; mm_ActorNickname := "";
     mm_ActorAvatarURL := ""; mm_EventID := Some (mention_key (vc_ID c) userID);
     mm_IdempotencyKey := None; mm_IsRead := false; mm_CreatedAt := now; mm_ReadAt := None;
     mm_VideoID := Some (vc_VideoID c) |}.

(** [FirstOrCreate]: any row of the user with the key will do. *)
Definition notify_mention (c : CommentView) (userID : Z) : M unit :=
  found ← query (fun d => find_row (fun m => (mm_UserID m =? userID)
                   && MessageRepo.column_is (mm_EventID m) (mention_key (vc_ID c) userID)) (user_message d));
  match found with
  | Some _ => mret tt
  | None =>
      _ ← insert_row "user_message" (mention_row userID c)
            (fun m d => match find_row (fun o => MessageRepo.clashes m o) (user_message d) with
                        | Some _ => true | None => false end)
            (fun m => set_user_message <[mm_ID m := m]>);
      mret tt
  end.

Fixpoint notify_mentions (c : CommentView) (seen : list Z) (names : list string) : M unit :=
  match names with
  | [] => mret tt
  | name :: names =>
      u ← attempt (take_row (fun d => find_row (named name) (users d)));
      match u with
      | inl _ => notify_mentions c seen names
      | inr u =>
          if (vu_ID u =? vc_UserID c) || bool_decide (vu_ID u ∈ seen) then notify_mentions c seen names
          else _ ← attempt (notify_mention c (vu_ID u)); notify_mentions c (vu_ID u :: seen) names
      end
  end.

Definition coreMentions (c : CommentView) : M unit := notify_mentions c [] (mentions_of (vc_Body c)).

End SocialHandlers.

(** * The pages of the administration ([admin.go])

    The overview and the two lists, with their filters: a page number, a status, a text that
    is looked for with LIKE, its wildcards escaped. *)

(** ** LIKE

    A pattern of MySQL: a percent sign stands for any text, an underscore for one character,
    any other text for what collates with it; the escape character takes the meaning from
    the next one. *)

Inductive like_item := AnyText | AnyCharacter | Text (s : bytes).

(** [text] is what was read since the last wildcard. *)
Definition with_text (text : bytes) (l : list like_item) : list like_item :=
  match text with [] => l | _ => Text text :: l end.

Fixpoint like_parse (escape : Z) (text pattern : bytes) : list like_item :=
  match pattern with
  | [] => with_text text []
  | b :: pattern =>
      if b =? escape then
        match pattern with
        | [] => with_text (text ++ [b]) []
        | c :: pattern => like_parse escape (text ++ [c]) pattern
        end
      else if b =? 37 then with_text text (AnyText :: like_parse escape [] pattern)
      else if b =? 95 then with_text text (AnyCharacter :: like_parse escape [] pattern)
      else like_parse escape (text ++ [b]) pattern
  end.

(** Every way to cut a text in two. *)
Definition cuts (l : bytes) : list (bytes * bytes) :=
  (fun n => (take n l, drop n l)) <$> seq 0 (S (length l)).

Section AdminPages.
Context `{Collation}.

Definition same_text (a b : bytes) : bool :=
  String.eqb (collate (string_of_bytes a)) (collate (string_of_bytes b)).

Fixpoint like_match (items : list like_item) (l : bytes) : bool :=
  match items with
  | [] => match l with [] => true | _ => false end
  | AnyText :: items => existsb (fun c => like_match items c.2) (cuts l)
  | AnyCharacter :: items =>
      match l with [] => false | _ => like_match items (drop (decode_rune l).2 l) end
  | Text s :: items => existsb (fun c => same_text c.1 s && like_match items c.2) (cuts l)
  end.

(** [column LIKE pattern ESCAPE '!'] *)
Definition like (pattern column : string) : bool :=
  like_match (like_parse 33 [] (string_bytes pattern)) (string_bytes column).

(** ** Parameters *)

Definition adminPage (page : option string) : option Z :=
  let '(p, ok) := ParseInt (default "1"%string page) in
  if negb ok || (p <? 1) || (100000 <? p) then None else Some p.

(** [strings.NewReplacer("!", "!!", "%", "!%", "_", "!_")] *)
Definition escape_wildcards (l : bytes) : bytes :=
  l ≫= (fun b => if (b =? 33) || (b =? 37) || (b =? 95) then [33; b] else [b]).

Definition adminQuery (q : string) : option string :=
  let q := TrimSpace q in
  if 160 <? len q then None else
  Some ("%" +:+ string_of_bytes (escape_wildcards (string_bytes q)) +:+ "%")%string.

(** ** The overview *)

Definition overview (d : Tables) : adminCounts := {|
  ao_Users := map_count (fun _ => true) (account d);
  ao_DisabledUsers := map_count (fun a => negb (am_Status a =? 1)) (account d);
  ao_Videos := map_count (fun v => negb (vm_Status v =? 4)) (video d);
  ao_PublishedVideos := map_count (fun v => vm_Status v =? 2) (video d);
  ao_OfflineVideos := map_count (fun v => vm_Status v =? 3) (video d);
  ao_MediaBytes := foldr (fun v n => vm_Size v + n) 0 (select_rows (fun _ => true) (video d));
|}.

Definition adminOverview : M Response :=
  r ← attempt (query overview);
  match r with
  | inl _ => mret (errorJSON 503 "admin_unavailable")
  | inr c => mret (JSON 200 (BOverview c))
  end.

(** ** The lists *)

Definition pageSize : Z := 20.

(** [OFFSET (page - 1) * 20 LIMIT 20] *)
Definition page_slice {A} (page : Z) (l : list A) : list A :=
  take_z pageSize (drop (Z.to_nat ((page - 1) * pageSize)) l).

(** The number of an id as the text that was looked for. *)
Definition id_is (q : string) (id : Z) : bool := String.eqb (collate (fmt_d id)) (collate q).

(** [pattern] is what [adminQuery] makes of [q]. *)
Definition searched_user (pattern q : string) (a : UserModel) : bool :=
  like pattern (am_Account a) || id_is q (am_ID a).

Definition user_status (status : string) (a : UserModel) : bool :=
  if String.eqb status "" then true else
  if String.eqb status "0" then negb (am_Status a =? 1) else am_Status a =? 1.

Definition admin_user (d : Tables) (a : UserModel) : adminUser :=
  mkAdminUser (am_ID a) (am_Account a) (am_Bio a) (am_AvatarURL a) (am_Role a) (am_Status a) (am_CreatedAt a)
    (map_count (fun v => (vm_AuthorID v =? am_ID a) && negb (vm_Status v =? 4)) (video d)).

Definition listed_users (pattern q status : string) (d : Tables) : list UserModel :=
  by_id_desc am_ID (select_rows (fun a => searched_user pattern q a && user_status status a) (account d)).

(** Two statements: the number of rows, then the page. *)
Definition list_page {A} (rows : Tables -> list A) (page : Z) (body : list A -> Z -> Body) : M Response :=
  total ← attempt (query (fun d => len_z (rows d)));
  match total with
  | inl _ => mret (errorJSON 503 "admin_unavailable")
  | inr total =>
      items ← attempt (query (fun d => page_slice page (rows d)));
      match items with
      | inl _ => mret (errorJSON 503 "admin_unavailable")
      | inr items => mret (JSON 200 (body items total))
      end
  end.

Definition adminUsers (page : option string) (q status : string) : M Response :=
  match adminPage page with
  | None => mret (errorJSON 400 "invalid_page")
  | Some page =>
      match adminQuery q with
      | None => mret (errorJSON 400 "invalid_search")
      | Some pattern =>
          if negb (bool_decide (status ∈ [""; "0"; "1"]%string)) then mret (errorJSON 400 "invalid_status") else
          list_page (fun d => admin_user d <$> listed_users pattern q status d) page
            (fun items total => BAdminUsers items total page pageSize)
      end
  end.

(** The author of a video, if there is one; a NULL does not match. *)
Definition searched_video (pattern q : string) (d : Tables) (v : VideoModel) : bool :=
  like pattern (vm_Title v)
  || match account d !! vm_AuthorID v with Some a => like pattern (am_Account a) | None => false end
  || id_is q (vm_ID v).

Definition video_status (status : string) (v : VideoModel) : bool :=
  if String.eqb status "" then true else
  if String.eqb status "2" then vm_Status v =? 2 else vm_Status v =? 3.

Definition admin_video (d : Tables) (v : VideoModel) : adminVideo :=
  let s := video_stat d !! vm_ID v in
  mkAdminVideo (vm_ID v) (vm_AuthorID v) (default ""%string (am_Account <$> account d !! vm_AuthorID v))
    (vm_Title v) (vm_Description v) (vm_Status v) (vm_MediaURL v) (vm_CoverURL v) (vm_Size v)
    (default 0 (sm_LikeCount <$> s)) (default 0 (sm_CommentCount <$> s)) (vm_CreatedAt v).

Definition listed_videos (pattern q status : string) (d : Tables) : list VideoModel :=
  by_id_desc vm_ID (select_rows (fun v => negb (vm_Status v =? 4) && searched_video pattern q d v
    && video_status status v) (video d)).

Definition adminVideos (page : option string) (q status : string) : M Response :=
  match adminPage page with
  | None => mret (errorJSON 400 "invalid_page")
  | Some page =>
      match adminQuery q with
      | None => mret (errorJSON 400 "invalid_search")
      | Some pattern =>
          if negb (bool_decide (status ∈ [""; "2"; "3"]%string)) then mret (errorJSON 400 "invalid_status") else
          list_page (fun d => admin_video d <$> listed_videos pattern q status d) page
            (fun items total => BAdminVideos items total page pageSize)
      end
  end.

End AdminPages.

(** ** Searching is literal *)

Section search.
Context `{Collation}.

Lemma elem_of_cuts l a b : (a, b) ∈ cuts l <-> l = a ++ b.
Proof.
  unfold cuts. rewrite list_elem_of_fmap. split.
  - intros (n & [= -> ->] & _). by rewrite take_drop.
  - intros ->. exists (length a). rewrite take_app_length, drop_app_length. split; [done|].
    apply elem_of_seq. rewrite length_app. lia.
Qed.

Lemma existsb_cuts P l : existsb P (cuts l) = true <-> exists a b, l = a ++ b /\ P (a, b) = true.
Proof.
  rewrite existsb_exists. split.
  - intros ([a b] & Hin & HP). apply list_elem_of_In, elem_of_cuts in Hin. eauto.
  - intros (a & b & Hl & HP). exists (a, b). split; [|done]. by apply list_elem_of_In, elem_of_cuts.
Qed.

Lemma like_parse_escaped text l rest :
  like_parse 33 text (escape_wildcards l ++ 37 :: rest)
  = with_text (text ++ l) (AnyText :: like_parse 33 [] rest).
Proof.
  revert text. induction l as [|b l IH]; intros text.
  { simpl. by rewrite app_nil_r. }
  replace (text ++ b :: l) with ((text ++ [b]) ++ l) by (by rewrite <-app_assoc). rewrite <-IH.
  change (escape_wildcards (b :: l)) with
    ((if (b =? 33) || (b =? 37) || (b =? 95) then [33; b] else [b]) ++ escape_wildcards l).
  destruct ((b =? 33) || (b =? 37) || (b =? 95)) eqn:Hb; [done|].
  apply orb_false_iff in Hb as [[H33 H37]%orb_false_iff H95]. simpl. by rewrite H33, H37, H95.
Qed.

Lemma like_match_contains s l :
  like_match (AnyText :: with_text s [AnyText]) l = true <->
  exists a b c, l = a ++ b ++ c /\ same_text b s = true.
Proof.
  assert (forall l, like_match [AnyText] l = true) as Hany.
  { intros k. cbn [like_match]. apply existsb_cuts. exists k, []. by rewrite app_nil_r. }
  cbn [like_match]. rewrite existsb_cuts. destruct s as [|x s]; simpl with_text.
  - split.
    + intros (a & b & -> & _). exists a, [], b. split; [done|]. apply String.eqb_refl.
    + intros (a & b & c & -> & _). exists a, (b ++ c). split; [done|]. apply Hany.
  - split.
    + intros (a & r & -> & Hr). cbn [snd like_match] in Hr. apply existsb_cuts in Hr as (b & c & -> & Hb).
      apply andb_true_iff in Hb as [Hb _]. by exists a, b, c.
    + intros (a & b & c & -> & Hb). exists a, (b ++ c). split; [done|]. cbn [snd like_match].
      apply existsb_cuts. exists b, c. split; [done|]. apply andb_true_iff. split; [done|apply Hany].
Qed.

Lemma escape_wildcards_bytes l : Forall is_byte l -> Forall is_byte (escape_wildcards l).
Proof.
  intros Hl. unfold escape_wildcards. induction Hl as [|b l Hb _ IH]; simpl; [done|].
  apply Forall_app. split; [|done]. unfold is_byte in *. case_match; repeat constructor; lia.
Qed.

(** A column is found by a search exactly if it has the trimmed text somewhere, in a spelling
    that collates with it. *)
Lemma search_is_literal q pattern column :
  adminQuery q = Some pattern ->
  like pattern column = true <->
  exists a b c, string_bytes column = a ++ b ++ c /\ same_text b (string_bytes (TrimSpace q)) = true.
Proof.
  unfold adminQuery. cbv zeta. destruct (160 <? len (TrimSpace q)); [done|]. intros [= <-].
  unfold like. rewrite !string_bytes_app, string_bytes_of_bytes by apply escape_wildcards_bytes, string_bytes_range.
  change (string_bytes "%") with [37]. change ([37] ++ ?l) with (37 :: l). cbn [like_parse]. simpl (37 =? _).
  cbv iota. change (37 :: escape_wildcards ?l ++ [37]) with (37 :: (escape_wildcards l ++ 37 :: [])).
  rewrite like_parse_escaped. simpl app. simpl like_parse. apply like_match_contains.
Qed.

End search.

(** ** The list of accounts *)

Section lists.
Context `{Collation}.

Lemma by_id_desc_elem {A} (id : A -> Z) l x : x ∈ by_id_desc id l <-> x ∈ l.
Proof. unfold by_id_desc. by rewrite stable_sort_Permutation. Qed.

Lemma by_id_desc_sorted {A} (id : A -> Z) (l : list A) :
  NoDup (id <$> l) -> StronglySorted (fun x y => id y < id x) (by_id_desc id l).
Proof.
  intros Hnd. assert (NoDup (id <$> by_id_desc id l)) as Hnd'.
  { unfold by_id_desc. by rewrite stable_sort_Permutation. }
  assert (StronglySorted (fun x y => (id x <? id y) = false) (by_id_desc id l)) as Hs.
  { apply (stable_sort_ordered _ (fun _ => True)); [intros; lia..|]. by apply Forall_true. }
  revert Hnd'. induction Hs as [|x k Hs IH Hx]; [constructor|]. intros [Hnin Hnd']%NoDup_cons.
  constructor; [by apply IH|]. rewrite Forall_forall in *. intros y Hy.
  specialize (Hx y Hy). assert (id x <> id y); [|lia]. intros He. apply Hnin. rewrite He. by apply list_elem_of_fmap_2.
Qed.

(** The pages, one after the other, are the list. *)
Lemma pages_join {A} (l : list A) n :
  mjoin ((fun i => page_slice (Z.of_nat i + 1) l) <$> seq 0 n) = take (20 * n) l.
Proof.
  assert (forall i, page_slice (Z.of_nat i + 1) l = take 20 (drop (20 * i) l)) as Hp.
  { intros i. unfold page_slice, take_z, pageSize. f_equal. f_equal. lia. }
  induction n as [|n IH]; [done|].
  replace (seq 0 (S n)) with (seq 0 n ++ [n]) by (by rewrite seq_S).
  assert (20 * S n = 20 * n + 20)%nat as -> by lia.
  rewrite fmap_app, join_app, IH. cbn [fmap list_fmap mjoin list_join]. rewrite app_nil_r, Hp.
  apply take_take_drop.
Qed.

(** What a search for [q] with a status is meant to find. *)
Definition found_user (q status : string) (a : UserModel) : Prop :=
  ((exists x b y, string_bytes (am_Account a) = x ++ b ++ y /\ same_text b (string_bytes (TrimSpace q)) = true) \/
   collate (fmt_d (am_ID a)) = collate q) /\
  (status = "0"%string -> am_Status a <> 1) /\ (status = "1"%string -> am_Status a = 1).

Lemma elem_of_listed_users pattern q status d a :
  adminQuery q = Some pattern -> status ∈ [""; "0"; "1"]%string ->
  a ∈ listed_users pattern q status d <-> (exists id, account d !! id = Some a) /\ found_user q status a.
Proof.
  intros Hq Hs. assert (user_status status a = true <->
    (status = "0"%string -> am_Status a <> 1) /\ (status = "1"%string -> am_Status a = 1)) as Hst.
  { unfold user_status. set_unfold in Hs. destruct Hs as [-> |[-> |[-> |[]]]]; simpl.
    - split; [by split|done].
    - rewrite negb_true_iff, Z.eqb_neq. naive_solver.
    - rewrite Z.eqb_eq. naive_solver. }
  assert (searched_user pattern q a && user_status status a = true <-> found_user q status a) as Hf.
  { rewrite andb_true_iff, Hst. unfold searched_user, found_user, id_is.
    by rewrite orb_true_iff, (search_is_literal q pattern _ Hq), String.eqb_eq. }
  unfold listed_users. rewrite by_id_desc_elem, elem_of_select_rows. setoid_rewrite Hf. naive_solver.
Qed.

Lemma wp_list_page {A} (rows : Tables -> list A) page body w :
  wp (list_page rows page body)
    (fun r w' => db w' = db w /\
       (r = JSON 200 (body (page_slice page (rows (db w))) (len_z (rows (db w)))) \/
        r = errorJSON 503 "admin_unavailable"))
    (fun _ _ => False) w.
Proof.
  unfold list_page. apply wp_bind, wp_attempt, wp_query.
  - intros e. apply wp_bind, wp_attempt, wp_query.
    + intros e'. apply wp_ret. auto.
    + intros t e'. apply wp_ret. auto.
  - intros t e. apply wp_ret. auto.
Qed.

End lists.
