(* ===== verification/VideoDetail.v ===== *)
(** * One video, through its caches ([cache.go], [video.go], [upload_cache.go])

    A request for a video looks at the memory of the process, then at Redis, then at the
    database; one process at a time fills the Redis key, under a lock. The loads of one key
    share a flight ([Resilience.Flight]); this is the load of one flight. *)
From S2P Require Import Prelude.
From S2P Require Import GoStd.
From S2P Require Import GoConv.
From S2P Require Import Errors.
From S2P Require Import Models.
From S2P Require Import Redis.
From S2P Require Import Store.
From S2P Require Import RedisClient.
From S2P Require Import Views.
From S2P Require Import Edge.
From S2P Require Resilience.

Section VideoDetail.
Context `{Collation}.
Variable cfg : Config.

Record videoResult := mkVideoResult { vr_Value : videoEnvelope; vr_Stale : bool }.

(** ** The memory of the process *)

Definition videos_get (id : Z) (allow_stale : bool) : M (option videoEnvelope) :=
  now1 ← time_now;
  now2 ← time_now;
  on_videos (fun m => Resilience.Memory.get m id allow_stale now1 now2).

Definition videos_generation : M Z := on_videos (fun m => (Resilience.Memory.generation m, m)).

Definition videos_put (id : Z) (v : videoEnvelope) (generation : Z) : M unit :=
  now ← time_now;
  on_videos (fun m => (tt, Resilience.Memory.put vn_Missing m id v generation now)).

(** [stale()]: a copy that may be old, but not of a missing video. *)
Definition stale_copy (id : Z) : M (option videoResult) :=
  v ← videos_get id true;
  mret (match v with
        | Some v => if vn_Missing v then None else Some (mkVideoResult v true)
        | None => None
        end).

(** ** Redis *)

Definition no_video : VideoView := mkVideoView 0 0 no_user "" "" "" 0 "" "" "" 0 0 0 0 0 0.

(** [json.Unmarshal] into an envelope. *)
Definition json_envelope (v : json_value) : option videoEnvelope :=
  match v with
  | JVideo e => Some e
  | JRaw _ => None
  | _ => Some (mkEnvelope no_video false)
  end.

Definition readVideoCache (id : Z) : M (error + option videoEnvelope) :=
  let '(key, _) := videoCacheKeys id in
  raw ← withRedis (redis_get_string key);
  mret (match raw with
        | inl err => inl err
        | inr raw =>
            inr (v ← raw ≫= json_envelope;
                 if negb (vn_Missing v) && negb (vv_ID (vn_Video v) =? id) then None else Some v)
        end).

Definition holds_token (now : Time) (r : Redis) (lock token : string) : option bool :=
  (fun v => match v with Some (JRaw t) => String.eqb t token | _ => false end) <$> string_at now r lock.

Definition releaseVideoLock (lock token : string) : M unit :=
  redis_write (fun now r =>
    mine ← holds_token now r lock token; Some (if mine : bool then redis_del [lock] r else r)).

(** The copy is published only while the lock is held. *)
Definition publishVideoCache (key lock token : string) (payload : json_value) (ttl : Z) : M bool :=
  redis_request (fun now r =>
    match holds_token now r lock token with
    | None => (inl wrong_type, r)
    | Some false => (inr false, r)
    | Some true => (inr true, redis_del [lock] (redis_set now key payload ttl r))
    end).

(** What the JSON of a video keeps: the fields tagged ["-"] are left out. *)
Definition json_user (u : UserView) : UserView :=
  mkUserView (vu_ID u) (vu_Username u) "" (vu_Bio u) (vu_AvatarURL u) (vu_CreatedAt u).

Definition json_video (v : VideoView) : VideoView :=
  mkVideoView (vv_ID v) (vv_UserID v) (json_user (vv_User v)) (vv_Title v) (vv_Description v) ""
    (vv_Size v) "" (vv_PlayURL v) (vv_CoverURL v) (vv_LikesCount v) (vv_CommentsCount v)
    (vv_FavoritesCount v) (vv_Popularity v) (vv_PublishedAt v) 0.

(** The times of a video must have years of four digits, or its JSON is empty. *)
Definition marshal_envelope (v : videoEnvelope) : json_value :=
  let x := vn_Video v in
  if json_time (vv_PublishedAt x) && json_time (vu_CreatedAt (vv_User x))
  then JVideo (mkEnvelope (json_video x) (vn_Missing v)) else JRaw "".

(** ** Loading *)

Definition fresh (v : videoEnvelope) : videoResult := mkVideoResult v false.

Definition found (id : Z) (v : videoEnvelope) (generation : Z) : M videoResult :=
  _ ← videos_put id v generation; mret (fresh v).

Definition or_stale (id : Z) (err : error) : M videoResult :=
  old ← stale_copy id;
  match old with Some r => mret r | None => throw err end.

(** [Preload("User").First(&v, id)] *)
Definition video_by_id (id : Z) (d : Tables) : option VideoView := with_author d <$> Views.videos d !! id.

(** Put what the database said into the caches; [token] is that of the lock if it is held. *)
Definition store_result (id generation jitter : Z) (token : option string) (result : videoEnvelope)
    : M videoResult :=
  let '(key, lock) := videoCacheKeys id in
  can_store ← (match token with
    | None => mret true
    | Some token =>
        let ttl := if vn_Missing result then 20 * second else 4 * minute + jitter * second in
        stored ← withRedis (publishVideoCache key lock token (marshal_envelope result) ttl);
        mret (match stored with inl _ => true | inr stored => stored end)
    end);
  _ ← (if can_store : bool then videos_put id result generation else mret tt);
  mret (fresh result).

Definition load_database (id generation jitter : Z) (token : option string) : M videoResult :=
  slot ← attempt dbSlot;
  match slot with
  | inl err => or_stale id err
  | inr _ =>
      v ← attempt (take_row (video_by_id id));
      match v with
      | inr v => store_result id generation jitter token (mkEnvelope (hydrateVideo v) false)
      | inl err =>
          if errors_Is err ERecordNotFound
          then store_result id generation jitter token (mkEnvelope no_video true)
          else or_stale id err
      end
  end.

(** The loop at [waiting]: a read every 25 ms until the deadline. [None]: Redis failed. *)
Fixpoint wait_cache (fuel : nat) (id generation : Z) (deadline : Time) : M (option videoResult) :=
  match fuel with
  | O => throw errBusy
  | S fuel =>
      _ ← sleep (25 * millisecond);
      now ← time_now;
      if deadline <? now then throw errBusy else
      cached ← readVideoCache id;
      match cached with
      | inr (Some v) => r ← found id v generation; mret (Some r)
      | inr None => wait_cache fuel id generation deadline
      | inl _ => mret None
      end
  end.

Definition wait_fuel : nat := 25.

Definition load_locked (id generation jitter : Z) (token : string) : M videoResult :=
  cached ← readVideoCache id;
  match cached with
  | inr (Some v) => found id v generation
  | _ => load_database id generation jitter (Some token)
  end.

(** Run [m], then the deferred call, whatever [m] does. *)
Definition defer {A} (m : M A) (last : M unit) : M A :=
  r ← attempt m;
  _ ← attempt last;
  match r with inl err => throw err | inr a => mret a end.

Definition load_missed (id generation jitter : Z) (redis_ok : bool) : M videoResult :=
  let '(_, lock) := videoCacheKeys id in
  token ← uuid_NewString;
  locked ← (if redis_ok : bool
            then withRedis (redis_set_nx lock (JRaw token) (cf_DBTimeout cfg + second))
            else mret (inl errRedisOpen));
  match locked with
  | inl _ => load_database id generation jitter None
  | inr false =>
      old ← stale_copy id;
      match old with
      | Some r => mret r
      | None =>
          now ← time_now;
          r ← wait_cache wait_fuel id generation (now + 600 * millisecond);
          match r with
          | Some r => mret r
          | None => load_database id generation jitter None
          end
      end
  | inr true =>
      defer (load_locked id generation jitter token)
        (_ ← withRedis (releaseVideoLock lock token); mret tt)
  end.

Definition load (id generation jitter : Z) : M videoResult :=
  cached ← readVideoCache id;
  match cached with
  | inr (Some v) => found id v generation
  | inr None => load_missed id generation jitter true
  | inl _ => load_missed id generation jitter false
  end.

(** A place in the group of flights, or [errBusy]. *)
Definition enter_flight : M unit := map_error (fun _ => errBusy) call.

Definition detail (id jitter : Z) : M videoResult :=
  local ← videos_get id false;
  match local with
  | Some v => mret (fresh v)
  | None =>
      generation ← videos_generation;
      _ ← enter_flight;
      load id generation jitter
  end.

(** ** The handler *)

Definition unavailable : Response := errorJSON 503 "video_temporarily_unavailable".

Definition visible (id : Z) (d : Tables) : Z :=
  match video d !! id with Some v => b2z (vm_Status v =? 2) | None => 0 end.

Definition videoDetail (param : string) (jitter : Z) : M Response :=
  match paramID param with
  | None => mret (errorJSON 400 "invalid_id")
  | Some id =>
      n ← attempt (query (visible id));
      match n with
      | inl _ => mret unavailable
      | inr n =>
          if n =? 0 then mret (errorJSON 404 "video_not_found") else
          r ← attempt (detail id jitter);
          match r with
          | inl _ => mret (with_header "Retry-After" "1" unavailable)
          | inr r =>
              if vn_Missing (vr_Value r) then mret (errorJSON 404 "video_not_found") else
              mret (with_header "X-Cache" (if vr_Stale r then "stale" else "fresh")
                      (JSON 200 (BVideo (vn_Video (vr_Value r)))))
          end
      end
  end.

(** ** Cached uploads ([upload_cache.go]) *)

Definition uploadKey (id : string) : string := ("upload:session:" +:+ id)%string.
Definition uploadHashKey (uid : Z) (hash : string) : string :=
  ("upload:hash:" +:+ fmt_d uid +:+ ":" +:+ hash)%string.

Definition pipe_del (key : string) : pipe_command := fun _ r => Some (redis_del [key] r).

Definition marshal_upload (u : UploadModel) : json_value :=
  if json_time (ul_CreatedAt u) then JUpload u else JRaw "".

Definition cacheUpload (u : UploadModel) : M unit :=
  now ← time_now;
  let ttl := ul_CreatedAt u + 24 * hour - now in
  if ttl <=? 0 then mret tt else
  let hash := uploadHashKey (ul_UserID u) (ul_FileMD5 u) in
  _ ← withRedis (redis_pipe
        [pipe_set (uploadKey (ul_ID u)) (marshal_upload u) (Z.min ttl minute);
         if ul_Published u then pipe_del hash else pipe_set hash (JRaw (ul_ID u)) ttl]);
  mret tt.

End VideoDetail.
