(* ===== verification/Uploads.v ===== *)
(** * Uploads: chunks, assembly, images, publication ([video.go])

    An upload is a row of the database and files under [DATA_DIR/tmp]: a file per chunk, then
    the assembled video, which publication moves to [DATA_DIR/media]. A handler has the request
    as gin and [net/http] present it: the parameters of the path, the bound JSON, the length
    that the client announced and the bytes that came, the parsed form file. *)
From Stdlib Require Import Ascii.
From S2P Require Import Prelude.
From S2P Require Import GoStd.
From S2P Require Import GoConv.
From S2P Require Import GoHash.
From S2P Require Import Errors.
From S2P Require Import Files.
From S2P Require Import Models.
From S2P Require Import Redis.
From S2P Require Import Store.
From S2P Require Import FileOps.
From S2P Require Import RedisClient.
From S2P Require Import Views.
From S2P Require Import Edge.
From S2P Require Import PublishHandlers.
From S2P Require Import VideoDetail.

(** [uuid.Parse] accepts the text. *)
Class UUID := { uuid_Parse : string -> bool }.

Definition chunkSize : Z := 5 * 1024 * 1024.
Definition maxVideoSize : Z := 200 * 1024 * 1024.
Definition maxImageSize : Z := 10 * 1024 * 1024.

Definition is_err {A} (r : error + A) : bool := match r with inl _ => true | inr _ => false end.

(** The hexadecimal MD5 of the data is the text, up to case ([strings.EqualFold]). *)
Definition md5_is (data text : string) : bool := String.eqb (ToLower text) (hex_EncodeToString (md5_sum data)).

Section Uploads.
Context `{Collation} `{Unicode} `{UUID}.
Variable cfg : Config.

(** ** Rows *)

Definition upload_row (uid : Z) (md5 : string) (size chunks : Z) (id : string) (now : Time) : UploadModel :=
  mkUploadModel id uid md5 size chunks false false "" now.

Definition create_upload (uid : Z) (md5 : string) (size chunks : Z) (id : string) : M UploadModel :=
  insert_keyed (upload_row uid md5 size chunks id)
    (fun u d => bool_decide (is_Some (uploads (extension d) !! collate (ul_ID u))))
    (fun u => set_extension (set_uploads <[collate (ul_ID u) := u]>)).

Definition completed_row (path : string) (u : UploadModel) : UploadModel :=
  mkUploadModel (ul_ID u) (ul_UserID u) (ul_FileMD5 u) (ul_Size u) (ul_Chunks u) true (ul_Published u)
    path (ul_CreatedAt u).

Definition complete_upload (id path : string) : Tables -> Tables :=
  set_extension (set_uploads (alter (completed_row path) (collate id))).

(** [json.Unmarshal] into an [Upload]. *)
Definition json_upload (v : json_value) : option UploadModel :=
  match v with
  | JUpload u => Some u
  | JRaw _ => None
  | _ => Some (mkUploadModel "" 0 "" 0 0 false false "" 0)
  end.

Definition owned_upload (uid : Z) (id : string) (d : Tables) : option UploadModel :=
  u ← uploads (extension d) !! collate id; if ul_UserID u =? uid then Some u else None.

(** The row from the database, or the answer; a fresh one is cached. *)
Definition upload_from_db (uid : Z) (id : string) : M (Response + UploadModel) :=
  r ← attempt (take_row (owned_upload uid id));
  match r with
  | inl _ => mret (inl (errorJSON 404 "upload_not_found"))
  | inr u =>
      now ← time_now;
      if 24 * hour <? time_Sub now (ul_CreatedAt u) then mret (inl (errorJSON 410 "upload_expired")) else
      _ ← cacheUpload u;
      mret (inr u)
  end.

(** [uploadFor]; [get] tells whether the method is GET. *)
Definition uploadFor (get : bool) (uid : Z) (id : string) : M (Response + UploadModel) :=
  if negb (uuid_Parse id) then mret (inl (errorJSON 400 "invalid_upload")) else
  if negb get then upload_from_db uid id else
  raw ← withRedis (redis_get_string (uploadKey id));
  match raw with
  | inr (Some v) =>
      match json_upload v with
      | Some u =>
          if String.eqb (ul_ID u) id && (ul_UserID u =? uid) then
            now ← time_now;
            if time_Sub now (ul_CreatedAt u) <? 24 * hour then mret (inr u) else upload_from_db uid id
          else upload_from_db uid id
      | None => upload_from_db uid id
      end
  | _ => upload_from_db uid id
  end.

(** ** [initUpload] *)

Record init_body := mkInitBody { ib_MD5 : string; ib_Size : Z; ib_Chunks : Z }.

Definition same_file (uid : Z) (hash : string) (size chunks : Z) (since : Time) (u : UploadModel) : bool :=
  (ul_UserID u =? uid) && String.eqb (collate (ul_FileMD5 u)) (collate hash) && (ul_Size u =? size)
  && (ul_Chunks u =? chunks) && negb (ul_Published u) && (since <? ul_CreatedAt u).

(** [ORDER BY created_at DESC, id]: the first of the rows. *)
Definition newer_upload (u v : UploadModel) : bool :=
  (ul_CreatedAt v <? ul_CreatedAt u)
  || (ul_CreatedAt u =? ul_CreatedAt v) && String.ltb (collate (ul_ID u)) (collate (ul_ID v)).

Definition latest_upload (P : UploadModel -> bool) (d : Tables) : option UploadModel :=
  head (stable_sort newer_upload (select_rows P (uploads (extension d)))).

(** [reusable.ID != ""] *)
Definition named (u : UploadModel) : option UploadModel := if String.eqb (ul_ID u) "" then None else Some u.

(** An upload of the same file that is not published yet. *)
Definition reusable_upload (uid : Z) (hash : string) (size chunks : Z) : M (option UploadModel) :=
  cached ← withRedis (redis_get_string (uploadHashKey uid hash));
  let cachedID := match cached with inr (Some (JRaw id)) => id | _ => ""%string end in
  now ← time_now;
  let P := same_file uid hash size chunks (now - 24 * hour) in
  first ← (if String.eqb cachedID "" then mret None else
           r ← attempt (take_row (fun d =>
                 u ← uploads (extension d) !! collate cachedID; if P u then Some u else None));
           mret (match r with inr u => named u | inl _ => None end));
  match first with
  | Some u => mret (Some u)
  | None =>
      r ← attempt (take_row (latest_upload P));
      mret (match r with inr u => named u | inl _ => None end)
  end.

Definition media_used (d : Tables) : Z := foldr Z.add 0 (vv_Size <$> (map_to_list (Views.videos d)).*2).

Definition init_ok (b : init_body) : bool :=
  (1 <=? ib_Size b) && (ib_Size b <=? maxVideoSize) && (1 <=? ib_Chunks b)
  && (ib_Chunks b =? (ib_Size b + chunkSize - 1) `quot` chunkSize) && (len (ib_MD5 b) =? 32).

(** [free] is what [freeBytes] says, [None] if it fails. *)
Definition initUpload (uid : Z) (body : option init_body) (free : option Z) : M Response :=
  match body with
  | None => mret (errorJSON 400 "invalid_upload")
  | Some b =>
      if negb (init_ok b) then mret (errorJSON 400 "invalid_upload") else
      if negb (hex_valid (ib_MD5 b)) then mret (errorJSON 400 "invalid_md5") else
      let hash := ToLower (ib_MD5 b) in
      reusable ← reusable_upload uid hash (ib_Size b) (ib_Chunks b);
      match reusable with
      | Some u => _ ← cacheUpload u; mret (JSON 201 (BUpload (ul_ID u)))
      | None =>
          used ← attempt (query media_used);
          let used := match used with inr n => n | inl _ => 0 end in
          if cf_MaxMediaBytes cfg <? int64_of (used + ib_Size b)
          then mret (errorJSON 507 "media_capacity_reached") else
          if match free with Some n => n <? 8 * 1024 * 1024 * 1024 + ib_Size b | None => false end
          then mret (errorJSON 507 "disk_space_low") else
          id ← uuid_NewString;
          r ← attempt (create_upload uid hash (ib_Size b) (ib_Chunks b) id);
          match r with
          | inl _ => mret (errorJSON 500 "upload_init_failed")
          | inr u => _ ← cacheUpload u; mret (JSON 201 (BUpload (ul_ID u)))
          end
      end
  end.

(** ** Chunks *)

Definition upload_dir (u : UploadModel) : string := filepath_Join [cf_DataDir cfg; "tmp"; ul_ID u]%string.
Definition chunk_name (dir : string) (i : Z) : string := filepath_Join [dir; fmt_0d 3 i].

Fixpoint stat_chunks (dir : string) (indices : list Z) : M (list Z) :=
  match indices with
  | [] => mret []
  | i :: indices =>
      r ← attempt (os_Stat (chunk_name dir i));
      l ← stat_chunks dir indices;
      mret (if is_err r then l else i :: l)
  end.

Definition uploadStatus (uid : Z) (id : string) : M Response :=
  r ← uploadFor true uid id;
  match r with
  | inl resp => mret resp
  | inr u =>
      l ← stat_chunks (upload_dir u) (seqZ 0 (ul_Chunks u));
      mret (JSON 200 (BUploaded l (ul_Completed u) (ul_Published u)))
  end.

(** How many bytes chunk [i] has. *)
Definition expected_size (u : UploadModel) (i : Z) : Z :=
  if i =? ul_Chunks u - 1 then ul_Size u - i * chunkSize else chunkSize.

(** Write what came to the temporary file [name], and rename it when it is right. *)
Definition store_chunk (name dest : string) (expected : Z) (body md5 : string) : M Response :=
  let data := String.substring 0 (Z.to_nat (expected + 1)) body in
  written ← attempt (file_Write name data);
  closed ← attempt file_Close;
  if is_err written || is_err closed || negb (len data =? expected) || negb (md5_is data md5)
  then mret (errorJSON 400 "chunk_checksum_mismatch") else
  r ← attempt (os_Rename name dest);
  if is_err r then mret (errorJSON 500 "storage_error") else mret (JSON 200 BOk).

Record chunk_request := mkChunkRequest {
  cr_Index : string;
  cr_ContentLength : Z;
  cr_Body : string;
  cr_MD5 : string;
}.

(** [uploadChunk] once the upload is known. *)
Definition receive_chunk (rq : chunk_request) (u : UploadModel) : M Response :=
  if ul_Completed u then mret (errorJSON 409 "already_completed") else
  let '(i, ok) := ParseInt (cr_Index rq) in
  if negb ok || (i <? 0) || (ul_Chunks u <=? i) then mret (errorJSON 400 "invalid_chunk") else
  let expected := expected_size u i in
  if negb (cr_ContentLength rq =? expected) then mret (errorJSON 400 "chunk_size_mismatch") else
  let dir := upload_dir u in
  made ← attempt (os_MkdirAll dir);
  if is_err made then mret (errorJSON 500 "storage_error") else
  f ← attempt (os_CreateTemp dir "incoming-");
  match f with
  | inl _ => mret (errorJSON 500 "storage_error")
  | inr name =>
      defer (store_chunk name (chunk_name dir i) expected (cr_Body rq) (cr_MD5 rq)) (os_Remove name)
  end.

Definition uploadChunk (uid : Z) (id : string) (rq : chunk_request) : M Response :=
  r ← uploadFor false uid id;
  match r with inl resp => mret resp | inr u => receive_chunk rq u end.

(** ** Assembly *)

(** Append the chunks to [name]; what was hashed on the way. *)
Fixpoint assemble (dir name : string) (indices : list Z) (sofar : string) : M (Response + string) :=
  match indices with
  | [] => mret (inr sofar)
  | i :: indices =>
      opened ← attempt (file_open (chunk_name dir i));
      if is_err opened then _ ← attempt file_Close; mret (inl (errorJSON 409 "missing_chunk")) else
      copied ← attempt (data ← file_read (chunk_name dir i); _ ← file_Write name data; mret data);
      match copied with
      | inl _ => _ ← attempt file_Close; mret (inl (errorJSON 500 "storage_error"))
      | inr data => assemble dir name indices (sofar +:+ data)
      end
  end.

(** [string(header[4:8]) == "ftyp"] of the first twelve bytes. *)
Definition is_mp4 (content : string) : bool :=
  (12 <=? len content) && String.eqb (String.substring 4 4 content) "ftyp".

Definition closing (r : Response) : M Response := _ ← attempt file_Close; mret r.

(** The file at its place, then the row. *)
Definition place_upload (u : UploadModel) (name : string) : M Response :=
  closed ← attempt file_Close;
  if is_err closed then mret (errorJSON 500 "storage_error") else
  let path := filepath_Join [cf_DataDir cfg; "tmp"; ul_ID u +:+ ".mp4"]%string in
  moved ← attempt (os_Rename name path);
  if is_err moved then mret (errorJSON 500 "storage_error") else
  saved ← attempt (update (complete_upload (ul_ID u) path));
  if is_err saved then mret (errorJSON 500 "upload_complete_failed") else
  _ ← cacheUpload (completed_row path u);
  _ ← attempt (os_RemoveAll (upload_dir u));
  mret (JSON 200 (BUpload (ul_ID u))).

Definition finish_upload (u : UploadModel) (name : string) : M Response :=
  r ← assemble (upload_dir u) name (seqZ 0 (ul_Chunks u)) "";
  match r with
  | inl resp => mret resp
  | inr content =>
      if negb (len content =? ul_Size u) || negb (md5_is content (ul_FileMD5 u))
      then closing (errorJSON 400 "file_checksum_mismatch") else
      sought ← attempt call;
      if is_err sought then closing (errorJSON 500 "storage_error") else
      header ← attempt (file_read name);
      if match header with inr c => negb (is_mp4 c) | inl _ => true end
      then closing (errorJSON 400 "mp4_required") else
      place_upload u name
  end.

(** [completeUpload] once the upload is known. *)
Definition complete_owned (u : UploadModel) : M Response :=
  if ul_Completed u then mret (JSON 200 (BUpload (ul_ID u))) else
  f ← attempt (os_CreateTemp (filepath_Join [cf_DataDir cfg; "tmp"]%string) "assembled-");
  match f with
  | inl _ => mret (errorJSON 500 "storage_error")
  | inr name => defer (finish_upload u name) (os_Remove name)
  end.

Definition completeUpload (uid : Z) (id : string) : M Response :=
  r ← uploadFor false uid id;
  match r with inl resp => mret resp | inr u => complete_owned u end.

(** ** Images *)

(** What [http.DetectContentType] says of JPEG, PNG and WebP, as an extension. *)
Definition image_ext (b : string) : option string :=
  let l := string_bytes b in
  if bool_decide ([255; 216; 255] `prefix_of` l) then Some ".jpg"%string else
  if bool_decide ([137; 80; 78; 71; 13; 10; 26; 10] `prefix_of` l) then Some ".png"%string else
  if String.prefix "RIFF" b && String.eqb (String.substring 8 6 b) "WEBPVP" then Some ".webp"%string else None.

(** [saveImage]: the form file, if there is one within the limit of the body. *)
Definition saveImage (file : option string) (folder : string) : M string :=
  match file with
  | None => throw (EMain "no file")
  | Some b =>
      if maxImageSize <? len b then throw (EMain "image too large") else
      match image_ext b with
      | None => throw (EMain "unsupported image")
      | Some ext =>
          let dir := filepath_Join [cf_DataDir cfg; folder] in
          _ ← os_MkdirAll dir;
          id ← uuid_NewString;
          let name := (id +:+ ext)%string in
          _ ← os_WriteFile (filepath_Join [dir; name]) b;
          mret (filepath_Join [folder; name])
      end
  end.

Definition TrimPrefix (s prefix : string) : string :=
  if String.prefix prefix s then String.substring (String.length prefix) (String.length s - String.length prefix) s
  else s.

Definition with_avatar (url : string) (a : UserModel) : UserModel :=
  mkUserModel (am_ID a) (am_Account a) (am_Password a) (am_Nickname a) url (am_Bio a) (am_Status a) (am_Role a)
    (am_CreatedAt a) (am_UpdatedAt a).

(** [UPDATE users SET avatar_url = ? WHERE id = ?] *)
Definition set_avatar (uid : Z) (url : string) : Tables -> Tables := set_account (alter (with_avatar url) uid).

Definition uploadAvatar (uid : Z) (file : option string) : M Response :=
  saved ← attempt (saveImage file "media/avatars");
  match saved with
  | inl _ => mret (errorJSON 400 "invalid_image")
  | inr path =>
      let url := ("/media/" +:+ TrimPrefix path "media/")%string in
      r ← attempt (update (set_avatar uid url));
      if is_err r then mret (errorJSON 500 "update_failed") else
      _ ← invalidateAuthor uid;
      mret (JSON 200 (BURL url))
  end.

Definition covers_dir (uid : Z) : string := filepath_Join ["tmp"; "covers"; fmt_d uid]%string.

Definition uploadCover (uid : Z) (file : option string) : M Response :=
  saved ← attempt (saveImage file (covers_dir uid));
  match saved with
  | inl _ => mret (errorJSON 400 "invalid_image")
  | inr path => mret (JSON 201 (BCover (filepath_Base path)))
  end.

(** ** Publication *)

Record publish_body := mkPublishBody {
  pb_UploadID : string;
  pb_Title : string;
  pb_Description : string;
  pb_CoverID : string;
}.

Definition publish_body_ok (b : publish_body) : bool :=
  (1 <=? len (TrimSpace (pb_Title b))) && (len (pb_Title b) <=? 160) && (len (pb_Description b) <=? 2000).

Definition ready_upload (uid : Z) (id : string) (d : Tables) : option UploadModel :=
  u ← uploads (extension d) !! collate id;
  if (ul_UserID u =? uid) && ul_Completed u && negb (ul_Published u) then Some u else None.

(** [strings.ContainsAny(id, "/\")] *)
Definition has_separator (id : string) : bool :=
  existsb (fun b => (b =? 47) || (b =? 92)) (string_bytes id).

Definition cover_source (uid : Z) (id : string) : string :=
  filepath_Join [cf_DataDir cfg; "tmp"; "covers"; fmt_d uid; id]%string.

(** The path of the cover below [media], or the answer. *)
Definition check_cover (uid : Z) (id : string) : M (Response + string) :=
  if String.eqb id "" then mret (inr ""%string) else
  if has_separator id || (60 <? len id) then mret (inl (errorJSON 400 "invalid_cover")) else
  r ← attempt (os_Stat (cover_source uid id));
  if is_err r then mret (inl (errorJSON 400 "cover_not_found")) else
  mret (inr (filepath_Join ["covers"; id]%string)).

Definition media_name (rel : string) : string := filepath_Join [cf_DataDir cfg; "media"; rel]%string.

(** [_ = os.Rename(dest, u.StoredPath)], and the answer. *)
Definition put_back (dest stored : string) (r : Response) : M Response := _ ← attempt (os_Rename dest stored); mret r.

Definition move_cover (uid : Z) (id cover : string) : M (error + unit) :=
  if String.eqb cover "" then mret (inr tt) else
  _ ← attempt (os_MkdirAll (filepath_Join [cf_DataDir cfg; "media"; "covers"]%string));
  attempt (os_Rename (cover_source uid id) (media_name cover)).

(** The row of a video as the handler answers it. *)
Definition created_view (v : VideoModel) : VideoView :=
  mkVideoView (vm_ID v) (vm_AuthorID v) no_user (vm_Title v) (vm_Description v) (vm_FilePath v) (vm_Size v)
    (vm_CoverPath v) "" "" 0 0 0 0 (default 0 (vm_PublishedAt v)) (vm_CreatedAt v).

(** From the files in their place to the answer. *)
Definition publish_row (uid : Z) (b : publish_body) (u : UploadModel) (rel dest cover : string) : M Response :=
  now ← time_now;
  r ← attempt (publish_tx (mkPublication uid (TrimSpace (pb_Title b)) (pb_Description b) rel cover (ul_Size u)
                             now (ul_ID u) (pb_Title b)));
  match r with
  | inl _ => put_back dest (ul_StoredPath u) (errorJSON 500 "publish_failed")
  | inr row =>
      _ ← cacheUpload (upload_published u);
      mret (JSON 201 (BVideo (hydrateVideo (created_view row))))
  end.

Definition publish_files (uid : Z) (b : publish_body) (u : UploadModel) (cover : string) : M Response :=
  id ← uuid_NewString;
  let rel := filepath_Join ["videos"; id +:+ ".mp4"]%string in
  let dest := media_name rel in
  made ← attempt (os_MkdirAll (filepath_Dir dest));
  if is_err made then mret (errorJSON 500 "storage_error") else
  moved ← attempt (os_Rename (ul_StoredPath u) dest);
  if is_err moved then mret (errorJSON 500 "storage_error") else
  allowed ← attempt (os_Chmod dest);
  if is_err allowed then put_back dest (ul_StoredPath u) (errorJSON 500 "storage_error") else
  covered ← move_cover uid (pb_CoverID b) cover;
  if is_err covered then put_back dest (ul_StoredPath u) (errorJSON 500 "storage_error") else
  publish_row uid b u rel dest cover.

Definition publishVideo (uid : Z) (body : option publish_body) : M Response :=
  match body with
  | None => mret (errorJSON 400 "invalid_video")
  | Some b =>
      if negb (publish_body_ok b) then mret (errorJSON 400 "invalid_video") else
      if negb (uuid_Parse (pb_UploadID b)) then mret (errorJSON 400 "invalid_upload") else
      r ← attempt (take_row (ready_upload uid (pb_UploadID b)));
      match r with
      | inl _ => mret (errorJSON 404 "upload_not_found")
      | inr u =>
          there ← attempt (os_Stat (ul_StoredPath u));
          if is_err there then mret (errorJSON 409 "upload_missing") else
          cover ← check_cover uid (pb_CoverID b);
          match cover with
          | inl resp => mret resp
          | inr cover => publish_files uid b u cover
          end
      end
  end.

(** ** [cleanupUploads] *)

Definition abandoned (before : Time) (u : UploadModel) : bool :=
  (ul_CreatedAt u <? before) && negb (ul_Published u).

Definition delete_upload (id : string) : Tables -> Tables := set_extension (set_uploads (delete (collate id))).

Fixpoint remove_uploads (l : list UploadModel) : M unit :=
  match l with
  | [] => mret tt
  | u :: l =>
      _ ← attempt (os_RemoveAll (upload_dir u));
      _ ← (if String.eqb (ul_StoredPath u) "" then mret (inr tt) else attempt (os_Remove (ul_StoredPath u)));
      _ ← update (delete_upload (ul_ID u));
      remove_uploads l
  end.

Definition cleanupUploads : M unit :=
  now ← time_now;
  l ← query (fun d => select_rows (abandoned (now - 48 * hour)) (uploads (extension d)));
  remove_uploads l.

End Uploads.
