(* ===== verification/ExtensionRules.v ===== *)
(** * The tables of the main package: their invariant and the rules of their writes

    Sessions, invites, tags, direct messages, the outbox and the markers of processed events
    ([models.go]): every row is stored under its own key, and no video has a tag twice. *)
From S2P Require Import Prelude.
From S2P Require Import GoStd.
From S2P Require Import GoConv.
From S2P Require Import Errors.
From S2P Require Import Models.
From S2P Require Import Redis.
From S2P Require Import Store.
From S2P Require MessageRepo.
From S2P Require Import Views.
From S2P Require Import Edge.
From S2P Require Import AuthHandlers.
From S2P Require Import OutboxWorker.
From S2P Require Import PublishHandlers.
From S2P Require Import SocialHandlers.

Section ExtensionRules.
Context `{Collation} `{Unicode}.

Definition same_tag (a b : VideoTagModel) : Prop :=
  vt_VideoID a = vt_VideoID b /\ collate (vt_Tag a) = collate (vt_Tag b).

Record extension_ok (w : World) : Prop := {
  ex_session : forall k s, sessions (extension (db w)) !! k = Some s -> k = collate (se_ID s);
  ex_invite : forall k i, invites (extension (db w)) !! k = Some i -> k = iv_ID i;
  ex_invite_fresh : ids_below (next_id "invites" w) (invites (extension (db w)));
  ex_tag : forall k t, video_tags (extension (db w)) !! k = Some t -> k = vt_ID t;
  ex_tag_fresh : ids_below (next_id "video_tags" w) (video_tags (extension (db w)));
  ex_tag_once : forall i j a b, video_tags (extension (db w)) !! i = Some a ->
    video_tags (extension (db w)) !! j = Some b -> same_tag a b -> i = j;
  ex_message : forall k m, messages (extension (db w)) !! k = Some m -> k = dm_ID m;
  ex_message_fresh : ids_below (next_id "messages" w) (messages (extension (db w)));
  ex_outbox : forall k r, outbox (extension (db w)) !! k = Some r ->
    k = collate (ob_ID r) /\ ev_ID (ob_Payload r) = ob_ID r /\ ev_Kind (ob_Payload r) = ob_Kind r;
}.

Lemma extension_frame w w' :
  extension_ok w -> grows w w' -> extension (db w') = extension (db w) -> extension_ok w'.
Proof.
  intros [] Hg E. split; rewrite ?E; try done; by eapply ids_below_mono; [|apply Hg].
Qed.

(** ** Sessions and invites *)

Lemma extension_sessions w w' g :
  extension_ok w -> grows w w' -> extension (db w') = set_sessions g (extension (db w)) ->
  (forall k s, g (sessions (extension (db w))) !! k = Some s -> k = collate (se_ID s)) -> extension_ok w'.
Proof.
  intros [] Hg E Hs. split; rewrite ?E; simpl; try done; by eapply ids_below_mono; [|apply Hg].
Qed.

Lemma extension_invites w w' g :
  extension_ok w -> grows w w' -> extension (db w') = set_invites g (extension (db w)) ->
  (forall k i, g (invites (extension (db w))) !! k = Some i -> k = iv_ID i /\ k < next_id "invites" w') ->
  extension_ok w'.
Proof.
  intros [] Hg E Hs. split; rewrite ?E; simpl; try done; try by eapply ids_below_mono; [|apply Hg].
  - intros k i Hi. by apply Hs in Hi as [? _].
  - intros k i Hi. by apply Hs in Hi as [_ ?].
Qed.

(** ** Tags *)

(** The tags of video [v] grow by [tags]. *)
Record tags_added (v : Z) (tags : list string) (m m' : gmap Z VideoTagModel) : Prop := {
  ta_old : forall k t, m !! k = Some t -> m' !! k = Some t;
  ta_new : forall k t, m' !! k = Some t -> m !! k = Some t \/ vt_VideoID t = v /\ vt_Tag t ∈ tags;
  ta_all : forall tag, tag ∈ tags -> exists k t, m' !! k = Some t /\ vt_VideoID t = v /\ vt_Tag t = tag;
}.

Lemma tags_added_nil v m : tags_added v [] m m.
Proof. split; [done|by left|]. intros tag Hin. by apply elem_of_nil in Hin. Qed.

Lemma tags_added_cons v tag tags m m1 m2 :
  tags_added v [tag] m m1 -> tags_added v tags m1 m2 -> tags_added v (tag :: tags) m m2.
Proof.
  intros [O1 N1 A1] [O2 N2 A2]. split.
  - auto.
  - intros k t [[Ht|[Hv Ht]]%N1|[Hv Ht]]%N2; [by left|right..]; rewrite elem_of_cons; [|by auto].
    apply list_elem_of_singleton in Ht. auto.
  - intros t [->|Ht]%elem_of_cons; [|by apply A2].
    destruct (A1 tag) as (k & t & Hk & ?); [by left|]. exists k, t. auto.
Qed.

Lemma extension_tags w w' g :
  extension_ok w -> grows w w' -> extension (db w') = set_video_tags g (extension (db w)) ->
  (forall k t, g (video_tags (extension (db w))) !! k = Some t -> k = vt_ID t /\ k < next_id "video_tags" w') ->
  (forall i j a b, g (video_tags (extension (db w))) !! i = Some a ->
     g (video_tags (extension (db w))) !! j = Some b -> same_tag a b -> i = j) -> extension_ok w'.
Proof.
  intros [] Hg E Hs Ho. split; rewrite ?E; simpl; try done; try by eapply ids_below_mono; [|apply Hg].
  - intros k t Ht. by apply Hs in Ht as [? _].
  - intros k t Ht. by apply Hs in Ht as [_ ?].
Qed.

Lemma wp_insert_tag v tag w :
  extension_ok w ->
  wp (insert_tag v tag)
    (fun _ w' => exists m, db w' = set_extension (set_video_tags (fun _ => m)) (db w) /\
       tags_added v [tag] (video_tags (extension (db w))) m /\ extension_ok w' /\ grows w w')
    (fun err w' => grows w w') w.
Proof.
  intros Hok. unfold insert_tag. apply wp_insert_row.
  2: { intros t e row ai _. apply grows_insert_trans. auto with store. }
  2: { auto with store. }
  intros t e _ row ai Hdup.
  assert (forall k o, video_tags (extension (db w)) !! k = Some o -> ~ same_tag o row) as Hfree.
  { intros k o Hk [Hv Ht]. destruct (find_row _ _) eqn:Hf; [done|].
    apply (find_row_None _ _ k o Hf) in Hk. simpl in Hv, Ht.
    by rewrite Hv, Ht, Z.eqb_refl, String.eqb_refl in Hk. }
  assert (video_tags (extension (db w)) !! vt_ID row = None) as Hnew.
  { eapply ids_below_fresh; [apply Hok|]. simpl. lia. }
  eexists. split; [done|]. split_and!.
  - split.
    + intros k o Hk. rewrite lookup_insert_ne; [done|]. intros <-. congruence.
    + intros k o [[<- <-]|[_ Hk]]%lookup_insert_Some; [|by left]. right. split; [done|]. by left.
    + intros tg ->%list_elem_of_singleton. exists (vt_ID row), row. by rewrite lookup_insert_eq.
  - eapply (extension_tags w _ <[vt_ID row := row]>); [done|apply grows_insert_trans; auto with store|done|..].
    + intros k o [[<- <-]|[_ Hk]]%lookup_insert_Some.
      * split; [done|]. unfold next_id, ai. simpl. rewrite lookup_insert_eq. simpl. unfold next_id. lia.
      * split; [by apply (ex_tag _ Hok)|]. apply (ex_tag_fresh _ Hok) in Hk.
        unfold next_id, ai in *. simpl. rewrite lookup_insert_eq. unfold next_id. simpl. lia.
    + intros i j a b Ha Hb Hs. apply lookup_insert_Some in Ha as [[<- <-]|[_ Ha]],
        Hb as [[<- <-]|[_ Hb]]; [done|..].
      * destruct (Hfree _ _ Hb). by destruct Hs.
      * by destruct (Hfree _ _ Ha).
      * by eapply (ex_tag_once _ Hok).
  - apply grows_insert_trans. auto with store.
Qed.

Lemma wp_insert_tags v tags w :
  extension_ok w ->
  wp (insert_tags v tags)
    (fun _ w' => exists m, db w' = set_extension (set_video_tags (fun _ => m)) (db w) /\
       tags_added v tags (video_tags (extension (db w))) m /\ extension_ok w' /\ grows w w')
    (fun err w' => grows w w') w.
Proof.
  revert w. induction tags as [|tag tags IH]; intros w Hok.
  - apply wp_ret. exists (video_tags (extension (db w))). split_and!; [|apply tags_added_nil|done|auto with store].
    by destruct (db w) as [????????????? []].
  - apply wp_bind. eapply wp_mono; [by apply wp_insert_tag| |done].
    intros _ w1 (m1 & E1 & H1 & Hok1 & Hg1). eapply wp_mono; [by apply IH| |].
    + intros _ w2 (m2 & E2 & H2 & Hok2 & Hg2). exists m2. rewrite E1 in E2, H2. split_and!; [by rewrite E2| |done|by etrans].
      eapply tags_added_cons; [exact H1|exact H2].
    + intros err w2 Hg2. by etrans.
Qed.

(** ** The outbox *)

Record enqueued (kind : string) (data : list (string * Z)) (r : OutboxModel) (d d' : Tables) : Prop := {
  en_kind : ob_Kind r = kind;
  en_payload : ob_Payload r = mkEvent (ob_ID r) kind data;
  en_pending : ob_PublishedAt r = None;
  en_new : outbox (extension d) !! collate (ob_ID r) = None;
  en_db : d' = set_extension (set_outbox <[collate (ob_ID r) := r]>) d;
}.

Lemma wp_enqueue kind data w :
  wp (enqueue kind data)
    (fun _ w' => (exists r, enqueued kind data r (db w) (db w')) /\ auto_inc w' = auto_inc w)
    (fun err w' => auto_inc w' = auto_inc w) w.
Proof.
  unfold enqueue. apply wp_bind, wp_uuid. intros b e0 _. set (id := uuid_text b). apply wp_bind, wp_insert_keyed; [|by intros..]. intros t e _ Hdup. simpl in Hdup.
  apply bool_decide_eq_false, eq_None_not_Some in Hdup. apply wp_ret. split; [|done].
  exists (outbox_row id kind data t). by split.
Qed.

Lemma extension_outbox w w' g :
  extension_ok w -> grows w w' -> extension (db w') = set_outbox g (extension (db w)) ->
  (forall k r, g (outbox (extension (db w))) !! k = Some r ->
     k = collate (ob_ID r) /\ ev_ID (ob_Payload r) = ob_ID r /\ ev_Kind (ob_Payload r) = ob_Kind r) ->
  extension_ok w'.
Proof.
  intros [] Hg E Hs. split; rewrite ?E; simpl; try done; by eapply ids_below_mono; [|apply Hg].
Qed.

Lemma enqueued_ok kind data r w w' :
  extension_ok w -> grows w w' -> enqueued kind data r (db w) (db w') -> extension_ok w'.
Proof.
  intros Hok Hg [Hk Hp _ _ E]. apply (extension_outbox w w' <[collate (ob_ID r) := r]>); [done|done|by rewrite E|].
  intros k o [[<- <-]|[_ Ho]]%lookup_insert_Some; [by rewrite Hp, Hk|by apply (ex_outbox _ Hok)].
Qed.

End ExtensionRules.

(** * What publishing, moderating, sending and relaying do to the tables *)

Section PublishRules.
Context `{Collation} `{Unicode}.

(** ** Publication *)

(** The tables after [publish_tx]: the video with its counters at zero, its tags, the upload
    marked, and the event that announces it. *)
Definition published_tables (p : publication) (row : VideoModel) (now : Time)
    (m : gmap Z VideoTagModel) (r : OutboxModel) (d : Tables) : Tables :=
  set_extension (fun x => set_outbox <[collate (ob_ID r) := r]>
    (set_uploads (alter (fun u => if ul_Published u then u else upload_published u) (collate (pu_UploadID p)))
      (set_video_tags (fun _ => m) x)))
    (set_video_stat <[vm_ID row := mkVideoStatModel (vm_ID row) 0 0 0 now now]>
      (set_video <[vm_ID row := row]> d)).

Definition announces (id uid : Z) (r : OutboxModel) : Prop :=
  ob_PublishedAt r = None /\ ob_Payload r = mkEvent (ob_ID r) "video.published" (video_event id uid).

Definition publication_tags (p : publication) : list string :=
  tags_of (pu_RawTitle p +:+ " " +:+ pu_Description p).

Record published (w : World) (p : publication) (row : VideoModel) (w' : World) : Prop := {
  pb_row : exists now, row = core_video_row p (next_id "video" w) now;
  pb_stat_new : video_stat (db w) !! vm_ID row = None;
  pb_db : exists now m r,
    tags_added (vm_ID row) (publication_tags p) (video_tags (extension (db w))) m /\
    announces (vm_ID row) (pu_UserID p) r /\ outbox (extension (db w)) !! collate (ob_ID r) = None /\
    db w' = published_tables p row now m r (db w);
  pb_ext : extension_ok w';
  pb_next : vm_ID row < next_id "video" w';
  pb_grows : grows w w';
}.

Record core_created (w : World) (p : publication) (row : VideoModel) (w' : World) : Prop := {
  cc_row : exists now, row = core_video_row p (next_id "video" w) now;
  cc_stat_new : video_stat (db w) !! vm_ID row = None;
  cc_db : exists now, db w' = set_video_stat <[vm_ID row := mkVideoStatModel (vm_ID row) 0 0 0 now now]>
                      (set_video <[vm_ID row := row]> (db w));
  cc_next : vm_ID row < next_id "video" w';
  cc_grows : grows w w';
}.

Lemma wp_createCoreVideo p w :
  wp (createCoreVideo p) (core_created w p) (fun _ w' => grows w w') w.
Proof.
  unfold createCoreVideo. apply wp_bind, wp_insert_row; [|done|auto with store].
  intros t e _ row ai _.
  assert (grows w (with_write w (set_video <[vm_ID row := row]> (db w)) ai e)) as Hg.
  { apply grows_insert_trans. auto with store. }
  apply wp_bind, wp_insert_keyed; [|by intros; apply grows_env..].
  intros t2 e2 _ Hdup. simpl in Hdup. apply bool_decide_eq_false, eq_None_not_Some in Hdup.
  apply wp_ret. split.
  - by exists t.
  - done.
  - by exists t2.
  - unfold next_id, ai. simpl. rewrite lookup_insert_eq. simpl. unfold next_id. simpl. lia.
  - by apply grows_db, grows_env.
Qed.

Lemma wp_publish_tx p w :
  extension_ok w ->
  wp (publish_tx p) (published w p) (fun _ w' => db w' = db w /\ grows w w') w.
Proof.
  intros Hok. eapply wp_mono; [apply (wp_transaction_clock _ (published w p) (fun _ => True))| |].
  - intros row w' e [? ? ? Hx]. split; try done. apply (extension_frame w'); [done|apply grows_env, grows_refl|done].
  - by intros row w' [].
  - done.
  - intros w1 Hdb Hai _. pose proof (grows_auto_inc _ _ Hai) as Hg.
    apply wp_bind. eapply wp_mono; [apply wp_createCoreVideo| |by intros err w2 Hg2; split; [|etrans]].
    intros row w2 [(t & Hrow) Hnew (now & Hdb2) Hnext Hg2]. rewrite Hdb in Hnew, Hdb2.
    assert (grows w w2) as Hgw2 by (by etrans).
    assert (extension_ok w2) as Hok2 by (apply (extension_frame w); [done|done|by rewrite Hdb2]).
    apply wp_bind. eapply wp_mono; [by apply wp_insert_tags| |by intros err w3 Hg3; split; [|etrans]].
    intros _ w3 (m & Hdb3 & Htags & Hok3 & Hg3). rewrite Hdb2 in Hdb3, Htags. simpl in Htags.
    assert (grows w w3) as Hgw3 by (by etrans).
    apply wp_bind, wp_update; [|by auto with store]. intros e.
    apply wp_bind. eapply wp_mono; [apply wp_enqueue| |intros err w4 Hai4; split; [done|]].
    2: { etrans; [exact Hgw3|]. by apply grows_auto_inc. }
    intros _ w4 [(r & Hen) Hai4]. apply wp_ret.
    assert (grows w3 w4) as Hg4 by by apply grows_auto_inc. split.
    + exists t. rewrite Hrow. unfold next_id. by rewrite Hai.
    + done.
    + exists now, m, r. destruct Hen as [_ Hp Hpend Hn Hd]. simpl in Hn. rewrite Hdb3 in Hn, Hd.
      split_and!; [done|done|done|exact Hd].
    + eapply enqueued_ok; [|by apply grows_auto_inc|exact Hen].
      destruct Hok3. by split.
    + eapply Z.lt_le_trans; [exact Hnext|]. etrans; [apply Hg3|apply Hg4].
    + by etrans.
  - done.
  - by intros err w' [[? _] ?].
Qed.

(** ** Moderation *)

Definition retagged (b : admin_video_body) (id : Z) (v' : VideoModel) (m m' : gmap Z VideoTagModel) : Prop :=
  match vb_Title b, vb_Description b with
  | None, None => m' = m
  | _, _ => tags_added id (tags_of (vm_Title v' +:+ " " +:+ vm_Description v'))
              (filter (fun kt => vt_VideoID (kt.2) <> id) m) m'
  end.

Definition reannounced (id : Z) (v' : VideoModel) (o o' : gmap string OutboxModel) : Prop :=
  if vm_Status v' =? 2
  then exists r, announces id (vm_AuthorID v') r /\ o !! collate (ob_ID r) = None /\ o' = <[collate (ob_ID r) := r]> o
  else o' = o.

Definition moderated_tables (v : VideoModel) (f : VideoModel -> VideoModel)
    (m : gmap Z VideoTagModel) (o : gmap string OutboxModel) (d : Tables) : Tables :=
  set_extension (fun x => set_outbox (fun _ => o) (set_video_tags (fun _ => m) x))
    (set_video (alter f (vm_ID v)) d).

Record moderated (w : World) (id : Z) (b : admin_video_body) (w' : World) : Prop := {
  md_db : exists v now m o,
    let f := moderated_row (TrimSpace <$> vb_Title b) (vb_Description b) (vb_Status b) now in
    video (db w) !! id = Some v /\ vm_Status v <> 4 /\
    retagged b id (f v) (video_tags (extension (db w))) m /\
    reannounced id (f v) (outbox (extension (db w))) o /\
    db w' = moderated_tables v f m o (db w);
  md_ext : extension_ok w';
  md_grows : grows w w';
}.

Lemma delete_tags_ok id w w' :
  extension_ok w -> grows w w' -> extension (db w') = extension (delete_tags id (db w)) -> extension_ok w'.
Proof.
  intros Hok Hg E. eapply (extension_tags w w' _ Hok Hg E).
  - intros k t [Ht _]%map_lookup_filter_Some. split; [by apply (ex_tag _ Hok)|].
    apply (ex_tag_fresh _ Hok) in Ht. specialize (Hg "video_tags"%string). lia.
  - intros i j a c [Ha _]%map_lookup_filter_Some [Hb _]%map_lookup_filter_Some. by apply (ex_tag_once _ Hok).
Qed.

Lemma wp_retag id title description w :
  extension_ok w ->
  wp (retag id title description)
    (fun _ w' => exists m, db w' = set_extension (set_video_tags (fun _ => m)) (db w) /\
       tags_added id (tags_of (title +:+ " " +:+ description))
         (filter (fun kt => vt_VideoID (kt.2) <> id) (video_tags (extension (db w)))) m /\
       extension_ok w' /\ grows w w')
    (fun err w' => grows w w') w.
Proof.
  intros Hok. unfold retag. apply wp_bind, wp_update; [|auto with store]. intros e.
  set (w1 := with_db _ _). assert (grows w w1) as Hg1 by (unfold w1; auto with store).
  assert (extension_ok w1) as Hok1 by by apply (delete_tags_ok id w).
  eapply wp_mono; [by apply wp_insert_tags| |intros err w2 Hg2; by etrans].
  intros _ w2 (m & E & Ht & Hok2 & Hg2). exists m. split_and!; [by rewrite E|done|done|by etrans].
Qed.

Lemma wp_adminUpdateVideo_tx id b w :
  extension_ok w ->
  wp (adminUpdateVideo_tx id b) (fun _ w' => moderated w id b w')
    (fun err w' => db w' = db w /\ grows w w') w.
Proof.
  intros Hok. eapply wp_mono; [apply (wp_transaction_clock _ (fun _ w' => moderated w id b w') (fun _ => True))| |].
  - intros _ w' e [? Hx ?]. split; try done. apply (extension_frame w'); [done|apply grows_env, grows_refl|done].
  - by intros _ w' [].
  - done.
  - intros w1 Hdb Hai _. pose proof (grows_auto_inc _ _ Hai) as Hg.
    apply wp_bind, wp_take_row; [|by auto with store..]. intros v e Hv. rewrite Hdb in Hv.
    destruct (video (db w) !! id) as [v0|] eqn:Hv0; simpl in Hv; [|done].
    destruct (Z.eqb_spec (vm_Status v0) 4) as [Hs|Hs]; simpl in Hv; [done|]. injection Hv as ->.
    apply wp_bind, wp_time_now. intros now e1 _ _. cbv zeta.
    set (f := moderated_row (TrimSpace <$> vb_Title b) (vb_Description b) (vb_Status b) now).
    apply wp_bind, wp_update; [|by auto with store]. intros e2.
    set (w2 := with_db _ _). assert (grows w w2) as Hg2 by (unfold w2; auto with store).
    assert (db w2 = set_video (alter f (vm_ID v)) (db w)) as Hdb2 by (unfold w2; simpl; by rewrite Hdb).
    assert (extension_ok w2) as Hok2 by (apply (extension_frame w); [done|done|by rewrite Hdb2]).
    clearbody w2. apply wp_bind.
    apply (wp_mono _ (fun _ w3 => exists m, db w3 = set_extension (set_video_tags (fun _ => m)) (db w2) /\
       retagged b id (f v) (video_tags (extension (db w))) m /\ extension_ok w3 /\ grows w w3) _
       (fun _ w3 => grows w w3)); [| |by intros err w3 Hg3].
    { assert (wp (retag id (vm_Title (f v)) (vm_Description (f v)))
        (fun _ w3 => exists m, db w3 = set_extension (set_video_tags (fun _ => m)) (db w2) /\
           tags_added id (tags_of (vm_Title (f v) +:+ " " +:+ vm_Description (f v)))
             (filter (fun kt => vt_VideoID (kt.2) <> id) (video_tags (extension (db w)))) m /\
           extension_ok w3 /\ grows w w3) (fun _ w3 => grows w w3) w2) as Hretag.
      { eapply wp_mono; [by apply wp_retag| |intros err w3 Hg3; by etrans].
        intros _ w3 (m & E & Ht & Hok3 & Hg3). exists m. rewrite Hdb2 in Ht. split_and!; [done..|by etrans]. }
      unfold retagged. destruct (vb_Title b), (vb_Description b); [exact Hretag..|].
      apply wp_ret. exists (video_tags (extension (db w))). split_and!; [|done|done|done].
      rewrite Hdb2. by destruct (db w) as [????????????? []]. }
    intros _ w3 (m & Hdb3 & Htags & Hok3 & Hg3).
    destruct (vm_Status (f v) =? 2) eqn:Hst.
    + eapply wp_mono; [apply wp_enqueue| |].
      2: { intros err w4 Hai4. split; [done|]. etrans; [exact Hg3|]. by apply grows_auto_inc. }
      intros _ w4 [(r & Hen) Hai4]. pose proof (grows_auto_inc _ _ Hai4) as Hg4. split; [|by eapply enqueued_ok|by etrans].
      destruct Hen as [_ Hp Hpend Hn Hd]. rewrite Hdb3, Hdb2 in Hn, Hd.
      exists v, now, m, (<[collate (ob_ID r) := r]> (outbox (extension (db w)))). fold f. split_and!; try done.
      unfold reannounced. rewrite Hst. by exists r.
    + apply wp_ret. split; [|done|done].
      exists v, now, m, (outbox (extension (db w))). fold f. split_and!; try done.
      * unfold reannounced. by rewrite Hst.
      * rewrite Hdb3, Hdb2. by destruct (db w) as [????????????? []].
  - done.
  - by intros err w' [[? _] ?].
Qed.

(** ** Rows of the outbox, markers, messages *)

Lemma mark_published_ok now ids w w' :
  extension_ok w -> grows w w' -> db w' = mark_published now ids (db w) -> extension_ok w'.
Proof.
  intros Hok Hg E. eapply (extension_outbox w w' _ Hok Hg); [by rewrite E|].
  intros k r (o & <- & Ho)%lookup_fmap_Some. pose proof (ex_outbox _ Hok _ _ Ho). by case_match.
Qed.

Record direct_sent (w : World) (sender recipient : Z) (body : string) (m : DirectMessageModel) (w' : World) : Prop := {
  ds_row : exists now, m = mkDirectMessageModel (next_id "messages" w) sender recipient body now;
  ds_db : db w' = set_extension (set_messages <[dm_ID m := m]>) (db w);
  ds_next : dm_ID m < next_id "messages" w';
  ds_grows : grows w w';
}.

Lemma wp_insert_direct sender recipient body w :
  wp (insert_direct sender recipient body)
    (direct_sent w sender recipient body) (fun _ w' => db w' = db w /\ grows w w') w.
Proof.
  unfold insert_direct. apply wp_insert_row; [|done|by auto with store].
  intros t e _ row ai _. split; [by exists t|done| |].
  - unfold next_id at 1. simpl. unfold row, ai. rewrite lookup_insert_eq. simpl. unfold next_id. simpl. lia.
  - apply grows_insert_trans. auto with store.
Qed.

Lemma direct_sent_ok w sender recipient body m w' :
  extension_ok w -> direct_sent w sender recipient body m w' -> extension_ok w'.
Proof.
  intros [] [_ E Hn Hg]. split; rewrite ?E; simpl; try done; try by eapply ids_below_mono; [|apply Hg].
  - intros k o [[<- <-]|[_ Ho]]%lookup_insert_Some; [done|by auto].
  - apply ids_below_insert; [|done]. by eapply ids_below_mono; [|apply Hg].
Qed.

Record mention_sent (w : World) (userID : Z) (c : CommentView) (m : MessageModel) (w' : World) : Prop := {
  mt_row : exists now, m = mention_row userID c (next_id "user_message" w) now;
  mt_db : db w' = set_user_message <[mm_ID m := m]> (db w);
  mt_free : forall i o, user_message (db w) !! i = Some o -> MessageRepo.clashes m o = false;
  mt_next : mm_ID m < next_id "user_message" w';
  mt_grows : grows w w';
}.

(** A mention is notified once. *)
Lemma wp_notify_mention c userID w :
  wp (notify_mention c userID)
    (fun _ w' => (db w' = db w /\ grows w w') \/ exists m, mention_sent w userID c m w')
    (fun _ w' => db w' = db w /\ grows w w') w.
Proof.
  unfold notify_mention. apply wp_bind, wp_query; [|by auto with store]. intros e.
  destruct (find_row _ _); [apply wp_ret; left; by auto with store|].
  apply wp_bind, wp_insert_row; [|intros; split; [done|]; apply grows_insert_trans; auto with store|by auto with store].
  intros t e1 _ row ai Hdup. apply wp_ret. right. exists row. split.
  - by exists t.
  - done.
  - intros i o Ho. simpl in Hdup. destruct (find_row _ _) eqn:Hf; [done|]. by apply (find_row_None _ _ i o Hf).
  - unfold next_id. simpl. unfold ai. rewrite lookup_insert_eq. unfold next_id. simpl. lia.
  - apply grows_insert_trans. auto with store.
Qed.

End PublishRules.
