(* ===== verification/System.v ===== *)
(** * Data integrity of the whole database

    [step] runs any write of any repository, in any world; [reachable] closes it from the
    empty database. [integrity] gathers the invariants of the components. Since a
    transaction is atomic, a sequence of steps is also an interleaving of concurrent
    requests. *)
From S2P Require Import Prelude.
From S2P Require Import GoStd.
From S2P Require Import GoConv.
From S2P Require InteractionDomain.
From S2P Require VideoDomain.
From S2P Require MessageDomain.
From S2P Require ExposureDomain.
From S2P Require RecommendationDomain.
From S2P Require PlaybackDomain.
From S2P Require AccountDomain.
From S2P Require Import Models.
From S2P Require Import Errors.
From S2P Require Import Redis.
From S2P Require Import Store.
From S2P Require InteractionRepo.
From S2P Require RelationRepo.
From S2P Require MessageRepo.
From S2P Require VideoRepo.
From S2P Require RecommendationRepo.
From S2P Require ExposureRepo.
From S2P Require PlaybackRepo.
From S2P Require AccountRepo.
From S2P Require Views.
From S2P Require Import Edge.
From S2P Require Import AuthHandlers.
From S2P Require Import AccountSpec.
From S2P Require Import OutboxWorker.
From S2P Require Import PublishHandlers.
From S2P Require Import SocialHandlers.
From S2P Require Import Uploads.
From S2P Require Import ExtensionRules.

Section System.
Context `{Collation, !CollationLaws}.

(** The world a computation leaves behind, whether it fails or not. *)
Definition after {A} (m : M A) (w : World) : World := (m w).2.

(** One request's write, or a change outside the database and the disk: time passes, other
    faults are to come, Redis and the queue change. *)
Inductive plain_step : World -> World -> Prop :=
  | step_SetAction w u v t active key :
      plain_step w (after (InteractionRepo.SetAction u v t active key) w)
  | step_CreateComment w v u content key c :
      InteractionDomain.NewComment v u content key = inr c ->
      plain_step w (after (InteractionRepo.CreateComment c) w)
  | step_DeleteComment w id u role :
      plain_step w (after (InteractionRepo.DeleteComment id u role) w)
  | step_SetFollow w u t active key :
      plain_step w (after (RelationRepo.SetFollow u t active key) w)
  | step_CreateMessage w m key : plain_step w (after (MessageRepo.Create m key) w)
  | step_MarkRead w u ids : plain_step w (after (MessageRepo.MarkRead u ids) w)
  | step_SaveVideo w now a title desc media cover key v :
      VideoDomain.NewPublished now a title desc media cover key = inr v ->
      plain_step w (after (VideoRepo.Save v) w)
  | step_UpdateStatus w v : plain_step w (after (VideoRepo.UpdateStatus v) w)
  | step_EnsureStats w : plain_step w (after VideoRepo.EnsureStats w)
  | step_SaveViewEvent w e : plain_step w (after (ExposureRepo.SaveViewEvent e) w)
  | step_SaveExposures w xs : plain_step w (after (ExposureRepo.SaveExposures xs) w)
  | step_SaveVideoEmbedding w e : plain_step w (after (RecommendationRepo.SaveVideoEmbedding e) w)
  | step_CreateQoSReport w r : plain_step w (after (PlaybackRepo.CreateQoSReport r) w)
  | step_SaveAccount w u : plain_step w (after (AccountRepo.Save u) w)
  | step_UpdateProfile w u : plain_step w (after (AccountRepo.UpdateProfile u) w)
  | step_register w username hash invite :
      plain_step w (after (register_tx username hash invite) w)
  | step_session `{JWT} cfg w uid : plain_step w (after (newSession cfg uid) w)
  | step_login `{JWT} cfg w uid hash : plain_step w (after (login_tx cfg uid hash) w)
  | step_refresh w uid sid raw token : plain_step w (after (refresh_tx uid sid raw token) w)
  | step_logout w now ids : plain_step w (after (update (revoke_ids now ids)) w)
  | step_updateMe w uid bio username : plain_step w (after (updateMe_tx uid bio username) w)
  | step_changePassword w uid hash : plain_step w (after (changePassword_tx uid hash) w)
  | step_adminUpdateUser w id b : plain_step w (after (adminUpdateUser_tx id b) w)
  | step_adminPassword w id hash : plain_step w (after (adminPassword_tx id hash) w)
  | step_grantAdmin w username : plain_step w (after (grantAdmin username) w)
  | step_createInvite w code : plain_step w (after (createInvite code) w)
  | step_adminUpdateVideo `{Unicode} w id b : plain_step w (after (adminUpdateVideo_tx id b) w)
  | step_mark_published w now ids : plain_step w (after (update (mark_published now ids)) w)
  | step_mark_processed w id : plain_step w (after (mark_processed id) w)
  | step_direct w sender recipient body : plain_step w (after (insert_direct sender recipient body) w)
  | step_mention w c userID : plain_step w (after (notify_mention c userID) w)
  | step_outside w r q e p : plain_step w (mkWorld (db w) (auto_inc w) r q e p (disk w)).

(** A step of the system: one of those, the publication of a video, a write of the uploads, or
    a change of the disk. *)
Inductive step : World -> World -> Prop :=
  | step_plain w w' : plain_step w w' -> step w w'
  | step_publish `{Unicode} w p : step w (after (publish_tx p) w)
  | step_create_upload w uid md5 size chunks id : step w (after (create_upload uid md5 size chunks id) w)
  | step_complete_upload w id path : step w (after (update (complete_upload id path)) w)
  | step_delete_upload w id : step w (after (update (delete_upload id)) w)
  | step_avatar w uid url : step w (after (update (set_avatar uid url)) w)
  | step_disk w f : step w (with_disk w f).

Inductive reachable : World -> Prop :=
  | reachable_init e p f : reachable (mkWorld no_tables ∅ no_redis [] e p f)
  | reachable_step w w' : reachable w -> step w w' -> reachable w'.

Definition no_stat (d : Tables) (v : Z) : Prop := video_stat d !! v = None.

(** Videos are stored under their ids; no author used an idempotency key twice. *)
Record videos_ok (d : Tables) : Prop := {
  ok_video_id : forall id v, video d !! id = Some v -> id = vm_ID v;
  ok_video_key : forall i j a b k, video d !! i = Some a -> video d !! j = Some b ->
    vm_IdempotencyKey a = Some k -> VideoRepo.video_key_is (vm_AuthorID a) k b = true -> i = j;
}.

(** Every invariant at once. *)
Record integrity (w : World) : Prop := {
  in_counters : InteractionRepo.counters_ok w;
  in_relation : RelationRepo.relation_ok (db w);
  in_messages : MessageRepo.messages_ok w;
  in_exposures : ExposureRepo.exposures_ok w;
  in_qos : PlaybackRepo.qos_ok w;
  in_accounts : AccountRepo.accounts_ok w;
  in_video : videos_ok (db w);
  in_extension : extension_ok w;
  in_embedding : RecommendationRepo.embeddings_ok (db w);
}.

(** ** Invariants under changes of other tables *)

Lemma counters_frame w w' :
  InteractionRepo.counters_ok w -> grows w w' -> interaction_action (db w') = interaction_action (db w) ->
  interaction_comment (db w') = interaction_comment (db w) -> video (db w') = video (db w) ->
  video_stat (db w') = video_stat (db w) -> InteractionRepo.counters_ok w'.
Proof.
  intros [Ha Hc Hun Hk Hf Hv Hs Has Hcs Hty] Hg Ea Ec Ev Es. split; rewrite ?Ea, ?Ec, ?Ev, ?Es; try done.
  - eapply ids_below_mono; [done|apply Hg].
  - eapply ids_below_mono; [done|apply Hg].
  - intros v s Hvs. pose proof (Hs v s Hvs) as Hok. unfold InteractionRepo.stat_ok in *.
    by rewrite Ea, Ec.
Qed.

Lemma relation_frame d d' :
  RelationRepo.relation_ok d -> user_follow d' = user_follow d ->
  user_relation_stat d' = user_relation_stat d -> RelationRepo.relation_ok d'.
Proof. intros [Hf Hk Hc] Ef Es. by split; rewrite ?Ef, ?Es. Qed.

Lemma qos_frame w w' :
  PlaybackRepo.qos_ok w -> grows w w' -> playback_qos_log (db w') = playback_qos_log (db w) ->
  PlaybackRepo.qos_ok w'.
Proof.
  intros [Hi Hu Hf] Hg E. split; unfold PlaybackRepo.qos_unique; rewrite ?E; [done|done|].
  eapply ids_below_mono; [done|apply Hg].
Qed.

Lemma accounts_frame w w' :
  AccountRepo.accounts_ok w -> grows w w' -> account (db w') = account (db w) ->
  AccountRepo.accounts_ok w'.
Proof.
  intros [Hi Hu Hf] Hg E. split; rewrite ?E; [done|done|]. eapply ids_below_mono; [done|apply Hg].
Qed.

Lemma videos_frame d d' : videos_ok d -> video d' = video d -> videos_ok d'.
Proof. intros [] E. by split; rewrite E. Qed.

Lemma video_key_is_sym a b k : vm_IdempotencyKey a = Some k ->
  VideoRepo.video_key_is (vm_AuthorID a) k b = true ->
  exists k', vm_IdempotencyKey b = Some k' /\ VideoRepo.video_key_is (vm_AuthorID b) k' a = true.
Proof.
  unfold VideoRepo.video_key_is. intros Ha. rewrite Ha.
  destruct (vm_IdempotencyKey b) as [k'|]; [|by rewrite andb_false_r]. intros Hb.
  exists k'. split; [done|]. by rewrite Z.eqb_sym, String.eqb_sym.
Qed.

(** A new video whose key is free, or a video whose author and key stay the same. *)
Lemma videos_insert d v :
  videos_ok d ->
  (forall k id o, vm_IdempotencyKey v = Some k -> video d !! id = Some o -> id <> vm_ID v ->
     VideoRepo.video_key_is (vm_AuthorID v) k o = false) ->
  videos_ok (set_video <[vm_ID v := v]> d).
Proof.
  intros [Hid Hkey] Hfree. split; simpl.
  - intros id o [[<- <-]|[_ Ho]]%lookup_insert_Some; [done|by apply Hid].
  - intros i j a b k Ha Hb Hk Hab. apply lookup_insert_Some in Ha as [[<- <-]|[Hi Ha]],
      Hb as [[<- <-]|[Hj Hb]]; [done|..].
    + rewrite (Hfree k j b) in Hab; [done|done|done|congruence].
    + apply (video_key_is_sym _ _ _ Hk) in Hab as (k' & Hk' & Hab).
      rewrite (Hfree k' i a) in Hab; [done|done|done|congruence].
    + by eapply Hkey.
Qed.

(** The tables of videos and interactions. *)
Record core_same (d d' : Tables) : Prop := {
  co_action : interaction_action d' = interaction_action d;
  co_comment : interaction_comment d' = interaction_comment d;
  co_video : video d' = video d;
  co_stat : video_stat d' = video_stat d;
}.

(** Each component's invariant holds anew, or its tables are the same. *)
Lemma integrity_intro w w' :
  integrity w -> grows w w' ->
  (InteractionRepo.counters_ok w' /\ videos_ok (db w')
   \/ core_same (db w) (db w')) ->
  (RelationRepo.relation_ok (db w') \/
   user_follow (db w') = user_follow (db w) /\ user_relation_stat (db w') = user_relation_stat (db w)) ->
  (MessageRepo.messages_ok w' \/ user_message (db w') = user_message (db w)) ->
  (ExposureRepo.exposures_ok w' \/
   exposures (db w') = exposures (db w) /\ video_view_events (db w') = video_view_events (db w)) ->
  (PlaybackRepo.qos_ok w' \/ playback_qos_log (db w') = playback_qos_log (db w)) ->
  (AccountRepo.accounts_ok w' \/ account (db w') = account (db w)) ->
  (extension_ok w' \/ extension (db w') = extension (db w)) ->
  (RecommendationRepo.embeddings_ok (db w') \/ video_embedding (db w') = video_embedding (db w)) ->
  integrity w'.
Proof.
  intros [Hc Hr Hm Hx Hq Ha Hv He Hb] Hg [[Hc' Hv']|[]] HR HM HX HQ HA HE HB.
  all: split; try done.
  all: try (destruct HR as [|[]]; [done|by eapply relation_frame]).
  all: try (destruct HM; [done|by eapply MessageRepo.messages_ok_mono]).
  all: try (destruct HX as [|[]]; [done|by eapply ExposureRepo.exposures_ok_mono]).
  all: try (destruct HQ; [done|by eapply qos_frame]).
  all: try (destruct HA; [done|by eapply accounts_frame]).
  all: try (destruct HE; [done|by eapply extension_frame]).
  all: try (destruct HB as [|HB]; [done|unfold RecommendationRepo.embeddings_ok; by rewrite HB]).
  - by eapply counters_frame.
  - by eapply videos_frame.
Qed.

Lemma integrity_same w w' : integrity w -> db w' = db w -> grows w w' -> integrity w'.
Proof. intros Hi E Hg. apply (integrity_intro w); rewrite ?E; auto. by right. Qed.

Lemma after_wp {A} (m : M A) Q E (P : World -> Prop) w :
  wp m Q E w -> (forall a w', Q a w' -> P w') -> (forall e w', E e w' -> P w') -> P (after m w).
Proof. unfold wp, after. destruct (m w) as [[e|a] w']; eauto. Qed.

(** Close the goals of [integrity_intro] about tables an operation does not touch. *)
Ltac untouched Hdb := rewrite ?Hdb; simpl; auto; right; split; done.

(** ** Every operation keeps the integrity of the database *)

Lemma step_interaction w w' :
  integrity w -> InteractionRepo.counters_ok w' -> grows w w' ->
  (exists s a c, db w' = set_video_stat s (set_interaction_action a (set_interaction_comment c (db w)))) ->
  integrity w'.
Proof.
  intros Hi Hc Hg (s & a & c & Hdb). apply (integrity_intro w); rewrite ?Hdb; simpl; auto.
  left. split; [done|]. eapply videos_frame; [apply Hi|done].
Qed.

Lemma SetAction_integrity w u v T active key :
  integrity w -> integrity (after (InteractionRepo.SetAction u v T active key) w).
Proof.
  intros Hi. destruct (InteractionDomain.NormalizeActionType T) as [err|t] eqn:HT.
  { unfold InteractionRepo.SetAction, after. by rewrite HT. }
  eapply after_wp; [apply InteractionRepo.wp_SetAction; [apply Hi|exact HT]| |].
  - intros [[a c] delta] w' [Hspec Hg]. apply (step_interaction w); [done| |done|].
    + eapply InteractionRepo.set_action_counters; [apply Hi| |exact Hspec|exact Hg].
      by eapply InteractionDomain.NormalizeActionType_cases.
    + apply InteractionRepo.set_action_frame in Hspec as (s & acts & E).
      exists s, acts, id. rewrite E. by destruct (db w).
  - intros err w' [[E _] Hg]. by eapply integrity_same.
Qed.

Lemma comment_counted_integrity w w' row delta count :
  integrity w -> InteractionRepo.counters_ok w' -> grows w w' ->
  InteractionRepo.comment_counted (db w) row delta count (db w') -> integrity w'.
Proof.
  intros Hi Hc Hg (s & now & _ & _ & Hd). apply (step_interaction w); [done|done|done|].
  eexists _, id, _. rewrite Hd. by destruct (db w).
Qed.

Lemma CreateComment_integrity w v u content key c :
  InteractionDomain.NewComment v u content key = inr c ->
  integrity w -> integrity (after (InteractionRepo.CreateComment c) w).
Proof.
  intros Hnew Hi. pose proof (InteractionDomain.NewComment_ok _ _ _ _ _ Hnew) as Hok.
  assert (forall row count w', InteractionRepo.comment_created w w' c row count -> integrity w') as Hcr.
  { intros row count w' Hcr. eapply comment_counted_integrity; [done| |apply Hcr|apply Hcr].
    eapply InteractionRepo.comment_created_counters; [apply Hi|apply Hok|exact Hcr]. }
  eapply after_wp; [apply InteractionRepo.wp_CreateComment, Hi| |].
  - intros [[r n] delta] w' Hs. inversion Hs; subst; [by eapply Hcr|by eapply integrity_same].
  - intros _ w' [[E Hg]|(row & count & H1)]; [by eapply integrity_same|by eapply Hcr].
Qed.

Lemma DeleteComment_integrity w id u role :
  integrity w -> integrity (after (InteractionRepo.DeleteComment id u role) w).
Proof.
  intros Hi.
  assert (forall row count delta w',
    InteractionRepo.delete_comment_done w w' id u role row count delta -> integrity w') as Hdel.
  { intros row count delta w' Hd.
    pose proof (InteractionRepo.delete_comment_counters _ _ _ _ _ _ _ _ (in_counters _ Hi) Hd) as Hc.
    destruct Hd as (c & _ & _ & Htx & Hg). inversion Htx; subst; [by eapply integrity_same|].
    by eapply comment_counted_integrity. }
  eapply after_wp; [apply InteractionRepo.wp_DeleteComment, Hi| |].
  - intros [[r n] delta] w' (row & Hd & _). by eapply Hdel.
  - intros err w' [(E & Hg & _)|(_ & row & count & delta & Hd)]; [by eapply integrity_same|by eapply Hdel].
Qed.

Lemma SetFollow_integrity w u t active key :
  integrity w -> integrity (after (RelationRepo.SetFollow u t active key) w).
Proof.
  intros Hi. eapply after_wp; [apply RelationRepo.wp_SetFollow, Hi| |].
  - intros r w' ((f & us & ts & _ & Hfs & Hr) & Hg).
    destruct (RelationRepo.fs_frame _ _ _ _ _ _ _ _ _ Hfs) as (fs & m & E).
    apply (integrity_intro w); auto; try untouched E.
  - intros err w' [[E _] Hg]. by eapply integrity_same.
Qed.

Lemma CreateMessage_integrity w m key :
  integrity w -> integrity (after (MessageRepo.Create m key) w).
Proof.
  intros Hi. eapply after_wp; [apply MessageRepo.wp_Create| |].
  - intros r w' [(x & Hx & _)|(x & _ & _ & E & Hg)]; [|by eapply integrity_same].
    pose proof (MessageRepo.message_created_ok _ _ _ _ _ (in_messages _ Hi) Hx) as Hok.
    destruct Hx as [_ E _ _ Hg]. apply (integrity_intro w); auto; try untouched E.
  - intros err w' [E Hg]. by eapply integrity_same.
Qed.

Lemma MarkRead_integrity w u ids : integrity w -> integrity (after (MessageRepo.MarkRead u ids) w).
Proof.
  intros Hi. eapply after_wp; [apply MessageRepo.wp_MarkRead| |].
  - intros n w' (_ & Hg & now & _ & E).
    pose proof (MessageRepo.marked_ok _ _ _ _ _ (in_messages _ Hi) Hg E) as Hok.
    apply (integrity_intro w); auto; try untouched E.
  - intros err w' [E Hg]. by eapply integrity_same.
Qed.

(** New rows of zeros for videos without counters keep the counters right. *)
Lemma zero_stats_counters w w' :
  InteractionRepo.counters_ok w -> grows w w' ->
  interaction_action (db w') = interaction_action (db w) ->
  interaction_comment (db w') = interaction_comment (db w) ->
  (forall v, is_Some (video (db w) !! v) -> is_Some (video (db w') !! v)) ->
  ids_below (next_id "video" w') (video (db w')) ->
  (forall v s, video_stat (db w) !! v = Some s -> video_stat (db w') !! v = Some s) ->
  (forall v s, video_stat (db w') !! v = Some s -> video_stat (db w) !! v = Some s \/
     video_stat (db w) !! v = None /\ sm_VideoID s = v /\ sm_LikeCount s = 0 /\
     sm_FavoriteCount s = 0 /\ sm_CommentCount s = 0) ->
  InteractionRepo.counters_ok w'.
Proof.
  intros Hok Hg Ea Ec Hv Hids Hold Hnew.
  split; rewrite ?Ea, ?Ec.
  - intros k a Ha. apply (InteractionRepo.ck_action w Hok) in Ha. naive_solver.
  - intros k c Hc. apply (InteractionRepo.ck_comment w Hok) in Hc. naive_solver.
  - apply Hok.
  - intros v s [Hs|(_ & Hs & _)]%Hnew; [by eapply InteractionRepo.ck_stat_key|done].
  - eapply ids_below_mono; [apply Hok|apply Hg].
  - done.
  - intros v s [Hs|(Hn & Hs & Hl & Hf & Hc)]%Hnew; unfold InteractionRepo.stat_ok; rewrite Ea, Ec.
    + by eapply InteractionRepo.ck_stat.
    + destruct (InteractionRepo.no_stat_counts w v Hok Hn) as [H1 H2]. by rewrite Hs, !H1, H2.
  - intros k a Ha. apply (InteractionRepo.ck_action_stat w Hok) in Ha as [s Hs]. exists s. auto.
  - intros k c Hc. apply (InteractionRepo.ck_comment_stat w Hok) in Hc as [s Hs]. exists s. auto.
  - apply Hok.
Qed.

Lemma SaveVideo_integrity w now a title desc media cover key v :
  VideoDomain.NewPublished now a title desc media cover key = inr v ->
  integrity w -> integrity (after (VideoRepo.Save v) w).
Proof.
  intros Hnew Hi.
  assert (VideoDomain.v_LikeCount v = 0 /\ VideoDomain.v_FavoriteCount v = 0 /\
          VideoDomain.v_CommentCount v = 0) as (Hl & Hf & Hc).
  { unfold VideoDomain.NewPublished in Hnew. cbv zeta in Hnew. repeat case_match; by simplify_eq/=. }
  eapply after_wp; [apply VideoRepo.wp_SaveVideo| |].
  - intros r w' (row & [(t & Hrow) (t' & E) Hvk Hns Hnext Hg] & _).
    assert (video (db w) !! vm_ID row = None) as Hfresh.
    { eapply ids_below_fresh; [apply (InteractionRepo.ck_video_fresh w), Hi|]. rewrite Hrow. simpl. lia. }
    apply (integrity_intro w); auto; try untouched E. left. split.
    + apply (zero_stats_counters w); rewrite ?E; auto; simpl.
      * apply Hi.
      * intros x Hx. destruct (decide (x = vm_ID row)) as [->|Hne]; [rewrite lookup_insert_eq; by eexists|].
        by rewrite lookup_insert_ne.
      * apply ids_below_insert; [|done]. eapply ids_below_mono; [apply (InteractionRepo.ck_video_fresh w), Hi|apply Hg].
      * intros x s Hs. rewrite lookup_insert_ne; [done|]. intros <-. congruence.
      * intros x s. destruct (decide (x = vm_ID row)) as [->|Hne].
        -- rewrite lookup_insert_eq. intros [= <-]. right. by rewrite Hl, Hf, Hc.
        -- rewrite lookup_insert_ne by done. auto.
    + rewrite E. apply (videos_frame (set_video <[vm_ID row := row]> (db w))); [|done].
      apply videos_insert; [apply Hi|].
      intros k id o Hk Ho _. replace (vm_AuthorID row) with (VideoDomain.v_AuthorID v) by by rewrite Hrow.
      by apply (Hvk k id o).
  - intros err w' [[E _] Hg]. by eapply integrity_same.
Qed.

Lemma UpdateStatus_integrity w v : integrity w -> integrity (after (VideoRepo.UpdateStatus v) w).
Proof.
  intros Hi. eapply after_wp; [apply VideoRepo.wp_UpdateStatus| |].
  - intros r w' [(now & row & Hrow & E) Hg]. apply (integrity_intro w); auto; try untouched E. left. split.
    + apply (zero_stats_counters w); rewrite ?E; auto; simpl.
      * apply Hi.
      * intros x Hx. destruct (decide (x = VideoDomain.v_ID v)) as [->|Hne]; [rewrite lookup_insert_eq; by eexists|].
        by rewrite lookup_insert_ne.
      * pose proof (InteractionRepo.ck_video_fresh w (in_counters _ Hi)) as Hb.
        apply ids_below_insert; [|apply Hb in Hrow]; [|specialize (Hg "video"%string); lia].
        eapply ids_below_mono; [exact Hb|apply Hg].
    + rewrite E. pose proof (ok_video_id _ (in_video _ Hi) _ _ Hrow) as Hid.
      change (VideoDomain.v_ID v) with (id (VideoDomain.v_ID v)). rewrite Hid.
      apply (videos_insert (db w) (VideoRepo.set_status (VideoDomain.v_Status v) now row)); [apply Hi|].
      simpl. intros k j o Hk Ho Hne. destruct (VideoRepo.video_key_is _ _ _) eqn:Hko; [|done].
      destruct Hne. rewrite <-Hid. symmetry.
      by eapply (ok_video_key _ (in_video _ Hi) _ j row o).
  - intros err w' [[E _] Hg]. by eapply integrity_same.
Qed.

Lemma SaveVideoEmbedding_integrity w e :
  integrity w -> integrity (after (RecommendationRepo.SaveVideoEmbedding e) w).
Proof.
  intros Hi. eapply after_wp; [apply RecommendationRepo.wp_SaveVideoEmbedding| |].
  - intros _ w' [Hs Hg]. pose proof (RecommendationRepo.embedding_saved_ok _ _ _ (in_embedding _ Hi) Hs) as Hok.
    destruct Hs as [now E]. apply (integrity_intro w); auto; try untouched E.
  - intros err w' [E Hg]. by eapply integrity_same.
Qed.

Lemma EnsureStats_integrity w : integrity w -> integrity (after VideoRepo.EnsureStats w).
Proof.
  intros Hi. unfold VideoRepo.EnsureStats.
  apply (after_wp _ (fun _ => integrity) (fun _ => integrity)); [|done|done].
  apply wp_bind, wp_time_now. intros now e _ _. apply wp_update.
  2: { intros t e'. eapply integrity_same; [exact Hi|done|auto with store]. }
  intros e'. apply (integrity_intro w); simpl; auto with store. left.
  split; [|by eapply videos_frame; [apply Hi|]].
  apply (zero_stats_counters w); simpl; auto with store.
  - apply Hi.
  - apply Hi.
  - intros x s Hs. by apply lookup_union_Some_l.
  - intros x s Hs. apply lookup_union_Some_raw in Hs as [Hs|[Hn Hs]]; [by left|].
    rewrite map_lookup_imap in Hs. apply bind_Some in Hs as (y & _ & [= <-]). by right.
Qed.

Lemma SaveViewEvent_integrity w e : integrity w -> integrity (after (ExposureRepo.SaveViewEvent e) w).
Proof.
  intros Hi. eapply after_wp; [apply ExposureRepo.wp_SaveViewEvent, Hi| |].
  - intros r w' (ev & x & [Hl Hn Hx Hp Hg] & _).
    pose proof (ExposureRepo.event_logged_ok _ _ _ _ (in_exposures _ Hi) Hl Hn Hx Hg) as Hok.
    assert (exists xs es, db w' = set_exposures xs (set_video_view_events es (db w))) as (xs & es & E).
    { destruct x; [destruct Hl as (_ & _ & ->); by eexists _, _|destruct Hl as [_ ->]].
      exists id. eexists. by destruct (db w). }
    apply (integrity_intro w); auto; try untouched E.
  - intros err w' [[E _] Hg]. by eapply integrity_same.
Qed.

Lemma exposures_saved_frame w xs rs w' :
  ExposureRepo.exposures_saved w xs rs w' ->
  exists f g, db w' = set_exposures f (set_video_view_events g (db w)).
Proof.
  induction 1 as [w w' E| |w write e x w1 xs rs w' [Hl] _ _ (f & g & IH)].
  - exists id, id. rewrite E. by destruct (db w).
  - done.
  - destruct Hl as (_ & _ & Hl). rewrite IH, Hl.
    exists (fun _ => exposures (set_exposures f (db w1))), (fun _ => video_view_events (set_video_view_events g (db w1))).
    rewrite Hl. done.
Qed.

Lemma SaveExposures_integrity w xs : integrity w -> integrity (after (ExposureRepo.SaveExposures xs) w).
Proof.
  intros Hi. eapply after_wp; [apply ExposureRepo.wp_SaveExposures, Hi| |].
  - intros rs w' Hs. pose proof (ExposureRepo.exposures_saved_ok _ _ _ _ Hs (in_exposures _ Hi)) as Hok.
    pose proof (ExposureRepo.exposures_saved_grows _ _ _ _ Hs) as Hg.
    apply exposures_saved_frame in Hs as (f & g & E).
    apply (integrity_intro w); auto; try untouched E.
  - intros err w' [[E _] Hg]. by eapply integrity_same.
Qed.

Lemma CreateQoSReport_integrity w r :
  integrity w -> integrity (after (PlaybackRepo.CreateQoSReport r) w).
Proof.
  intros Hi. eapply after_wp; [apply PlaybackRepo.wp_CreateQoSReport| |].
  - intros x w' [(q & Hq & _)|(id & q & _ & _ & _ & E & Hg)]; [|by eapply integrity_same].
    pose proof (PlaybackRepo.qos_stored_ok _ _ _ _ (in_qos _ Hi) Hq) as Hok.
    destruct Hq as (_ & E & _ & _ & Hg). apply (integrity_intro w); auto; try untouched E.
  - intros err w' [E Hg]. by eapply integrity_same.
Qed.

Lemma SaveAccount_integrity w u : integrity w -> integrity (after (AccountRepo.Save u) w).
Proof.
  intros Hi. eapply after_wp; [apply AccountRepo.wp_SaveAccount| |].
  - intros x w' (r & Hr & _).
    pose proof (AccountRepo.user_stored_ok _ _ _ _ (in_accounts _ Hi) Hr) as Hok.
    destruct Hr as (_ & E & _ & _ & Hg). apply (integrity_intro w); auto; try untouched E.
  - intros err w' [[E Hg] _]. by eapply integrity_same.
Qed.

Lemma UpdateProfile_integrity w u :
  integrity w -> integrity (after (AccountRepo.UpdateProfile u) w).
Proof.
  intros Hi. eapply after_wp; [apply AccountRepo.wp_UpdateProfile| |].
  - intros x w' [(now & row & Hrow & E) Hg]. apply (integrity_intro w); auto; try untouched E. left.
    destruct Hi as [_ _ _ _ _ [Hid Hu Hf] _ _]. split; rewrite E; simpl.
    + intros i a. destruct (decide (i = AccountDomain.u_ID u)) as [->|Hne].
      * rewrite lookup_insert_eq. intros [= <-]. simpl. by apply Hid.
      * rewrite lookup_insert_ne by done. apply Hid.
    + intros i j a b. destruct (decide (i = AccountDomain.u_ID u)) as [->|Hni],
        (decide (j = AccountDomain.u_ID u)) as [->|Hnj];
        rewrite ?lookup_insert_eq, ?lookup_insert_ne by done; try done.
      * intros [= <-] Hb. simpl. by apply Hu with (a := row).
      * intros Ha [= <-]. unfold AccountRepo.account_is. simpl. intros Hc.
        by apply (Hu i _ a row Ha Hrow).
      * apply Hu.
    + apply ids_below_insert; [eapply ids_below_mono; [exact Hf|apply Hg]|].
      apply Hf in Hrow. specialize (Hg "account"%string). lia.
  - intros err w' [[E _] Hg]. by eapply integrity_same.
Qed.

(** ** The main package *)

Lemma users_integrity w w' :
  integrity w -> grows w w' -> (exists f g, db w' = set_extension g (set_account f (db w))) ->
  AccountRepo.accounts_ok w' -> extension_ok w' -> integrity w'.
Proof.
  intros Hi Hg (f & g & E) Ha Hx. apply (integrity_intro w); auto; untouched E.
Qed.

Lemma columns_ok w w' id f :
  integrity w -> grows w w' -> account (db w') = account (Views.set_columns id f (db w)) ->
  (forall a, account (db w) !! id = Some a -> am_ID (f a) = am_ID a /\
     (am_Account (f a) = am_Account a \/ Views.name_taken id (am_Account (f a)) (db w) = false)) ->
  AccountRepo.accounts_ok w'.
Proof.
  intros Hi Hg E Hf. apply (AccountRepo.accounts_alter w w' id f); [apply Hi|done|done|].
  intros a Ha. destruct (Hf a Ha) as [Hid Hname]. split; [done|]. intros j b Hb Hne.
  destruct Hname as [->|Hfree]; [by eapply AccountRepo.account_alone; [apply Hi|..]|].
  unfold Views.name_taken in Hfree. rewrite bool_decide_eq_true_2 in Hfree by by eexists.
  destruct (find_row _ _) eqn:Hr; [done|]. apply (find_row_None _ _ j b Hr) in Hb as Hn.
  pose proof (AccountRepo.ac_id _ (in_accounts _ Hi) _ _ Hb) as Hj.
  destruct (Z.eqb_spec (am_ID b) id) as [Hx|Hx]; [congruence|done].
Qed.

(** Columns of an account change, and its sessions may be revoked. *)
Lemma ended_integrity w w' id f :
  integrity w -> grows w w' -> revoked_for id (Views.set_columns id f (db w)) (db w') ->
  (forall a, account (db w) !! id = Some a -> am_ID (f a) = am_ID a /\
     (am_Account (f a) = am_Account a \/ Views.name_taken id (am_Account (f a)) (db w) = false)) ->
  integrity w'.
Proof.
  intros Hi Hg Hr Hf. destruct (revoked_for_frame _ _ _ Hr) as [Ea (g & E)].
  apply (users_integrity w); [done|done|eexists _, _; exact E|by eapply columns_ok|].
  apply (extension_sessions w w' g); [apply Hi|done|by rewrite E|].
  intros k s Hs. assert (sessions (extension (db w')) !! k = Some s) as Hs' by (rewrite E; exact Hs).
  destruct Hr as [(now & ids & [Hd|Hd]) _]; rewrite Hd in Hs'; simpl in Hs'.
  - apply lookup_fmap_Some in Hs' as (s0 & <- & Hs0). apply (ex_session _ (in_extension _ Hi)) in Hs0.
    by case_match.
  - by apply (ex_session _ (in_extension _ Hi)).
Qed.

Lemma opened_integrity w w' uid tokens t s :
  integrity w -> grows w w' -> (exists (J : JWT) cfg, session_opened cfg uid tokens t s (db w) (db w')) -> integrity w'.
Proof.
  intros Hi Hg (J & cfg & [_ _ _ _ _ _ Hn E]).
  apply (users_integrity w); [done|done|exists id; eexists; by rewrite E|..].
  - apply (accounts_frame w); [apply Hi|done|by rewrite E].
  - eapply (extension_sessions w w'); [apply Hi|done|by rewrite E|].
    intros k s0 [[<- <-]|[_ Hs]]%lookup_insert_Some; [done|by apply (ex_session _ (in_extension _ Hi))].
Qed.

Lemma register_integrity w w' username hash invite t i r :
  integrity w -> grows w w' -> registered username hash invite t w w' i r -> integrity w'.
Proof.
  intros Hi Hg [_ _ _ Hu E]. apply (users_integrity w); [done|done|by eexists _, _|..].
  - assert (AccountRepo.accounts_ok (with_db w' (set_account <[am_ID r := r]> (db w)))) as Ha.
    { eapply AccountRepo.user_stored_ok; [apply Hi|exact Hu]. }
    apply (accounts_frame _ w' Ha); [by intros name|by rewrite E].
  - eapply (extension_invites w w'); [apply Hi|done|by rewrite E|].
    pose proof (ex_invite_fresh _ (in_extension _ Hi)) as Hf. pose proof (ex_invite _ (in_extension _ Hi)) as Hk.
    intros k o. destruct (decide (k = iv_ID i)) as [->|Hne].
    + rewrite lookup_alter_eq. intros (o0 & Ho & ->)%fmap_Some. split; [by apply Hk in Ho|].
      apply Hf in Ho. specialize (Hg "invites"%string). lia.
    + rewrite lookup_alter_ne by done. intros Ho. split; [by apply Hk|].
      apply Hf in Ho. specialize (Hg "invites"%string). lia.
Qed.

Lemma session_integrity (J : JWT) cfg w uid : integrity w -> integrity (after (newSession cfg uid) w).
Proof.
  intros Hi. eapply after_wp; [apply wp_newSession| |].
  - intros tokens w' [(s & Hs) Ha]. eapply opened_integrity; [exact Hi|by apply grows_auto_inc|by eexists _, _].
  - intros err w' (_ & E & Ha). eapply integrity_same; [exact Hi|done|by apply grows_auto_inc].
Qed.

Lemma login_integrity (J : JWT) cfg w uid hash : integrity w -> integrity (after (login_tx cfg uid hash) w).
Proof.
  intros Hi. eapply after_wp; [apply wp_login_tx| |].
  - intros tokens w' [(a & s & _ & _ & _ & Hs) Hg]. eapply opened_integrity; [exact Hi|done|by eexists _, _].
  - intros err w' [[E _] Hg]. by eapply integrity_same.
Qed.

Lemma refresh_integrity w uid sid raw token : integrity w -> integrity (after (refresh_tx uid sid raw token) w).
Proof.
  intros Hi. eapply after_wp; [apply wp_refresh_tx| |].
  - intros _ w' [(s & [_ _ _ _ _ (x & _ & E)]) Hg].
    apply (users_integrity w); [done|done|exists (fun a => a); eexists; by rewrite E|..].
    + apply (accounts_frame w); [apply Hi|done|by rewrite E].
    + eapply (extension_sessions w w'); [apply Hi|done|by rewrite E|].
      pose proof (ex_session _ (in_extension _ Hi)) as Hk. intros k s0.
      destruct (decide (k = collate (se_ID s))) as [->|Hne].
      * rewrite lookup_alter_eq. intros (o & Ho & ->)%fmap_Some. by apply Hk in Ho.
      * rewrite lookup_alter_ne by done. apply Hk.
  - intros err w' [[E _] Hg]. by eapply integrity_same.
Qed.

Lemma logout_integrity w now ids : integrity w -> integrity (after (update (revoke_ids now ids)) w).
Proof.
  intros Hi. apply (after_wp _ (fun _ => integrity) (fun _ => integrity)); [|done|done].
  apply wp_update; [|intros t e; eapply integrity_same; [exact Hi|done|auto with store]].
  intros e. assert (grows w (with_db (with_env w e) (revoke_ids now ids (db w)))) as Hg by auto with store.
  apply (users_integrity w); [done|done|by exists (fun a => a), (set_sessions (fmap (fun s => if id_in ids (se_ID s) then revoke now s else s)))|..].
  - by apply (accounts_frame w); [apply Hi|..].
  - eapply (extension_sessions w); [apply Hi|done|done|].
    intros k s (o & <- & Ho)%lookup_fmap_Some. apply (ex_session _ (in_extension _ Hi)) in Ho. by case_match.
Qed.

Lemma updateMe_integrity w uid bio username : integrity w -> integrity (after (updateMe_tx uid bio username) w).
Proof.
  intros Hi. eapply after_wp; [apply wp_updateMe_tx| |].
  - intros _ w' [Hu Hg]. destruct username as [name|]; simpl in Hu.
    + destruct Hu as [Hfree Hr]. eapply ended_integrity; [exact Hi|exact Hg|exact Hr|].
      intros a Ha. split; [done|]. by right.
    + apply (users_integrity w); [done|done|eexists _, (fun x => x); rewrite Hu; by destruct (db w)|..].
      * eapply columns_ok; [exact Hi|done|by rewrite Hu|]. intros a Ha. split; [done|]. by left.
      * apply (extension_frame w); [apply Hi|done|by rewrite Hu].
  - intros err w' [[E _] Hg]. by eapply integrity_same.
Qed.

Lemma changePassword_integrity w uid hash : integrity w -> integrity (after (changePassword_tx uid hash) w).
Proof.
  intros Hi. eapply after_wp; [apply wp_changePassword_tx| |].
  - intros _ w' [Hr Hg]. eapply ended_integrity; [exact Hi|exact Hg|exact Hr|].
    intros a Ha. split; [done|]. by left.
  - intros err w' [[E _] Hg]. by eapply integrity_same.
Qed.

Lemma account_key w id u : integrity w -> account (db w) !! id = Some u -> am_ID u = id.
Proof. intros Hi Hu. by apply (AccountRepo.ac_id _ (in_accounts _ Hi)) in Hu. Qed.

Lemma adminUpdateUser_integrity w id b : integrity w -> integrity (after (adminUpdateUser_tx id b) w).
Proof.
  intros Hi. eapply after_wp; [apply wp_adminUpdateUser_tx| |].
  - intros _ w' [(u & Hu & _ & Hfree & now & Hd) Hg]. rewrite (account_key _ _ _ Hi Hu) in *.
    assert (forall a, account (db w) !! id = Some a -> am_ID (admin_row b now a) = am_ID a /\
      (am_Account (admin_row b now a) = am_Account a \/
       Views.name_taken id (am_Account (admin_row b now a)) (db w) = false)) as Hcols.
    { intros a Ha. split; [done|]. simpl. destruct (ab_Username b) as [name|]; [right; by apply Hfree|by left]. }
    destruct (renames b || disables b); [by eapply ended_integrity|].
    apply (users_integrity w); [done|done|eexists _, (fun x => x); rewrite Hd; by destruct (db w)|..].
    + eapply columns_ok; [exact Hi|done|by rewrite Hd|done].
    + apply (extension_frame w); [apply Hi|done|by rewrite Hd].
  - intros err w' [[E _] Hg]. by eapply integrity_same.
Qed.

Lemma adminPassword_integrity w id hash : integrity w -> integrity (after (adminPassword_tx id hash) w).
Proof.
  intros Hi. eapply after_wp; [apply wp_adminPassword_tx| |].
  - intros _ w' [(u & now & Hu & Hr) Hg]. rewrite (account_key _ _ _ Hi Hu) in Hr.
    eapply ended_integrity; [exact Hi|exact Hg|exact Hr|]. intros a Ha. split; [done|]. by left.
  - intros err w' [[E _] Hg]. by eapply integrity_same.
Qed.

Lemma grantAdmin_integrity w username : integrity w -> integrity (after (grantAdmin username) w).
Proof.
  intros Hi. eapply after_wp; [apply wp_grantAdmin| |].
  - intros _ w' [(k & u & now & Hu & _ & _ & E) Hg].
    apply (users_integrity w); [done|done|eexists _, (fun x => x); rewrite E; by destruct (db w)|..].
    + eapply columns_ok; [exact Hi|done|by rewrite E|]. intros a Ha. split; [done|]. by left.
    + apply (extension_frame w); [apply Hi|done|by rewrite E].
  - intros err w' [E Hg]. by eapply integrity_same.
Qed.

Lemma createInvite_integrity w code : integrity w -> integrity (after (createInvite code) w).
Proof.
  intros Hi. eapply after_wp; [apply wp_createInvite| |].
  - intros i w' [(Hid & _ & E & Hnext & Hg) _].
    apply (users_integrity w); [done|done|exists (fun a => a); eexists; by rewrite E|..].
    + apply (accounts_frame w); [apply Hi|done|by rewrite E].
    + eapply (extension_invites w w'); [apply Hi|done|by rewrite E|].
      intros k o [[<- <-]|[_ Ho]]%lookup_insert_Some; [done|].
      split; [by apply (ex_invite _ (in_extension _ Hi))|].
      apply (ex_invite_fresh _ (in_extension _ Hi)) in Ho. specialize (Hg "invites"%string). lia.
  - intros err w' [E Hg]. by eapply integrity_same.
Qed.

Lemma publish_integrity (U : Unicode) w p : integrity w -> integrity (after (publish_tx p) w).
Proof.
  intros Hi. eapply after_wp; [apply wp_publish_tx; apply Hi| |].
  - intros row w' [(t & Hrow) Hns (now & m & r & _ & _ & _ & E) Hx Hnext Hg].
    assert (video (db w) !! vm_ID row = None) as Hfresh.
    { eapply ids_below_fresh; [apply (InteractionRepo.ck_video_fresh w), Hi|]. rewrite Hrow. simpl. lia. }
    apply (integrity_intro w); auto; try untouched E. left. split.
    + apply (zero_stats_counters w); rewrite ?E; auto; simpl.
      * apply Hi.
      * intros x Hv. destruct (decide (x = vm_ID row)) as [->|Hne]; [rewrite lookup_insert_eq; by eexists|].
        by rewrite lookup_insert_ne.
      * apply ids_below_insert; [|done]. eapply ids_below_mono; [apply (InteractionRepo.ck_video_fresh w), Hi|apply Hg].
      * intros x s0 Hs. rewrite lookup_insert_ne; [done|]. intros <-. congruence.
      * intros x s0 [[<- <-]|[_ Hs]]%lookup_insert_Some; [by right|by left].
    + apply (videos_frame (set_video <[vm_ID row := row]> (db w))); [|by rewrite E].
      apply videos_insert; [apply Hi|]. intros k id o Hk. by rewrite Hrow in Hk.
  - intros err w' [E Hg]. by eapply integrity_same.
Qed.

Lemma alter_insert_row {A} (f : A -> A) (m : gmap Z A) k a : m !! k = Some a -> alter f k m = <[k := f a]> m.
Proof.
  intros Ha. apply map_eq. intros i. destruct (decide (i = k)) as [->|Hne].
  - by rewrite lookup_alter_eq, lookup_insert_eq, Ha.
  - by rewrite lookup_alter_ne, lookup_insert_ne by done.
Qed.

Lemma moderate_integrity (U : Unicode) w id b : integrity w -> integrity (after (adminUpdateVideo_tx id b) w).
Proof.
  intros Hi. eapply after_wp; [apply wp_adminUpdateVideo_tx; apply Hi| |].
  - intros _ w' [(v & now & m & o & Hv & _ & _ & _ & E) Hx Hg].
    set (f := moderated_row _ _ _ _) in E.
    pose proof (ok_video_id _ (in_video _ Hi) _ _ Hv) as Hid. rewrite Hid in Hv.
    assert (video (db w') = <[vm_ID v := f v]> (video (db w))) as Ev.
    { rewrite E. simpl. by apply alter_insert_row. }
    apply (integrity_intro w); auto; try untouched E. left. split.
    + apply (zero_stats_counters w); rewrite ?Ev; auto; try by rewrite E.
      * apply Hi.
      * intros x Hx'. destruct (decide (x = vm_ID v)) as [->|Hne]; [rewrite lookup_insert_eq; by eexists|].
        by rewrite lookup_insert_ne.
      * pose proof (InteractionRepo.ck_video_fresh w (in_counters _ Hi)) as Hb.
        apply ids_below_insert; [|apply Hb in Hv; specialize (Hg "video"%string); lia].
        eapply ids_below_mono; [exact Hb|apply Hg].
      * rewrite E. intros x s0 Hs. by left.
    + apply (videos_frame (set_video <[vm_ID (f v) := f v]> (db w))); [|done].
      apply videos_insert; [apply Hi|]. simpl. intros k j o' Hk Ho Hne.
      destruct (VideoRepo.video_key_is _ _ _) eqn:Hko; [|done].
      destruct Hne. symmetry. by eapply (ok_video_key _ (in_video _ Hi) _ j v o').
  - intros err w' [E Hg]. by eapply integrity_same.
Qed.

(** A step that changes the tables of the main package only. *)
Lemma extension_integrity w w' g :
  integrity w -> grows w w' -> db w' = set_extension g (db w) -> extension_ok w' -> integrity w'.
Proof.
  intros Hi Hg E Hx. apply (users_integrity w); [done|done|exists (fun a => a), g; by rewrite E| |done].
  apply (accounts_frame w); [apply Hi|done|by rewrite E].
Qed.

Lemma mark_published_integrity w now ids : integrity w -> integrity (after (update (mark_published now ids)) w).
Proof.
  intros Hi. apply (after_wp _ (fun _ => integrity) (fun _ => integrity)); [|done|done].
  apply wp_update; [|intros t e; eapply integrity_same; [exact Hi|done|auto with store]].
  intros e. assert (grows w (with_db (with_env w e) (mark_published now ids (db w)))) as Hg by auto with store.
  eapply extension_integrity; [exact Hi|exact Hg|done|]. by eapply mark_published_ok; [apply Hi|..].
Qed.

Lemma mark_processed_integrity w id : integrity w -> integrity (after (mark_processed id) w).
Proof.
  intros Hi. eapply after_wp; [apply wp_mark_processed| |].
  - intros _ w' ((g & E) & _ & Hg & _). eapply extension_integrity; [exact Hi|done|exact E|].
    destruct (in_extension _ Hi). split; rewrite ?E; simpl; try done; by eapply ids_below_mono; [|apply Hg].
  - intros err w' (E & Hg & _). by eapply integrity_same.
Qed.

Lemma direct_integrity w a b text : integrity w -> integrity (after (insert_direct a b text) w).
Proof.
  intros Hi. eapply after_wp; [apply wp_insert_direct| |].
  - intros m w' Hm. eapply extension_integrity; [exact Hi|apply Hm|apply Hm|].
    eapply direct_sent_ok; [apply Hi|done].
  - intros err w' [E Hg]. by eapply integrity_same.
Qed.

Lemma mention_integrity w c uid : integrity w -> integrity (after (notify_mention c uid) w).
Proof.
  intros Hi. eapply after_wp; [apply wp_notify_mention| |].
  - intros _ w' [[E Hg]|(m & [_ E Hf Hn Hg])]; [by eapply integrity_same|].
    assert (MessageRepo.messages_ok w') as Hm by by eapply MessageRepo.message_added_ok; [apply Hi|..].
    apply (integrity_intro w); auto; try untouched E.
  - intros err w' [E Hg]. by eapply integrity_same.
Qed.

Lemma register_tx_integrity w username hash invite :
  integrity w -> integrity (after (register_tx username hash invite) w).
Proof.
  intros Hi. eapply after_wp; [apply wp_register_tx| |].
  - intros u w' (i & r & Hr & _ & Hg). by eapply register_integrity.
  - intros err w' [E Hg]. by eapply integrity_same.
Qed.

(** ** The writes of the uploads *)

Lemma update_integrity w f :
  integrity w -> (forall e, integrity (with_db (with_env w e) (f (db w)))) -> integrity (after (update f) w).
Proof.
  intros Hi Hf. apply (after_wp _ (fun _ => integrity) (fun _ => integrity)); [|done|done].
  apply wp_update; [done|]. intros t e. eapply integrity_same; [exact Hi|done|auto with store].
Qed.

Lemma uploads_integrity w w' g :
  integrity w -> grows w w' -> db w' = set_extension (set_uploads g) (db w) -> integrity w'.
Proof.
  intros Hi Hg E. eapply extension_integrity; [exact Hi|exact Hg|exact E|].
  destruct (in_extension _ Hi). split; rewrite ?E; simpl; try done; by eapply ids_below_mono; [|apply Hg].
Qed.

Lemma create_upload_integrity w uid md5 size chunks id :
  integrity w -> integrity (after (create_upload uid md5 size chunks id) w).
Proof.
  intros Hi. apply (after_wp _ (fun _ => integrity) (fun _ => integrity)); [|done|done].
  apply wp_insert_keyed.
  - intros t e _ _. eapply uploads_integrity; [exact Hi|auto with store|done].
  - intros t e _. eapply integrity_same; [exact Hi|done|auto with store].
  - intros t e. eapply integrity_same; [exact Hi|done|auto with store].
Qed.

Lemma avatar_integrity w uid url : integrity w -> integrity (after (update (set_avatar uid url)) w).
Proof.
  intros Hi. apply update_integrity; [done|]. intros e.
  set (w' := with_db _ _). assert (grows w w') as Hg by (unfold w'; auto with store).
  apply (users_integrity w); [done|done|by exists (alter (with_avatar url) uid), (fun x => x); unfold w'; simpl; destruct (db w) as [????????????? []]| |].
  - apply (columns_ok w w' uid (with_avatar url)); [done|done|done|]. intros a _. split; [done|by left].
  - apply (extension_frame w); [apply Hi|done|done].
Qed.

Lemma plain_step_integrity w w' : plain_step w w' -> integrity w -> integrity w'.
Proof.
  destruct 1; eauto using SetAction_integrity, CreateComment_integrity, DeleteComment_integrity,
    SetFollow_integrity, CreateMessage_integrity, MarkRead_integrity, SaveVideo_integrity,
    UpdateStatus_integrity, EnsureStats_integrity, SaveViewEvent_integrity,
    SaveExposures_integrity, SaveVideoEmbedding_integrity, CreateQoSReport_integrity, SaveAccount_integrity,
    UpdateProfile_integrity, register_tx_integrity, session_integrity, login_integrity,
    refresh_integrity, logout_integrity, updateMe_integrity, changePassword_integrity,
    adminUpdateUser_integrity, adminPassword_integrity, grantAdmin_integrity,
    createInvite_integrity, moderate_integrity, mark_published_integrity,
    mark_processed_integrity, direct_integrity, mention_integrity.
  intros Hi. eapply integrity_same; [done|done|]. intros name. unfold next_id. simpl. lia.
Qed.

Lemma step_integrity w w' : step w w' -> integrity w -> integrity w'.
Proof.
  destruct 1; eauto using plain_step_integrity, publish_integrity, create_upload_integrity, avatar_integrity.
  - intros Hi. apply update_integrity; [done|]. intros e. eapply uploads_integrity; [exact Hi|auto with store|done].
  - intros Hi. apply update_integrity; [done|]. intros e. eapply uploads_integrity; [exact Hi|auto with store|done].
  - intros Hi. eapply integrity_same; [done|done|]. intros name. unfold next_id. simpl. lia.
Qed.

Lemma init_integrity e p f : integrity (mkWorld no_tables ∅ no_redis [] e p f).
Proof. by repeat split. Qed.

Lemma reachable_ok w : reachable w -> integrity w.
Proof. induction 1; [apply init_integrity|by eapply step_integrity]. Qed.

(** An operation that is a step leads from a reachable world to a reachable one. *)
Lemma wp_reachable {A} (m : M A) Q E w :
  reachable w -> step w (after m w) -> wp m Q E w ->
  wp m (fun a w' => Q a w' /\ reachable w') (fun e w' => E e w' /\ reachable w') w.
Proof.
  intros Hw Hs. pose proof (reachable_step _ _ Hw Hs) as Hr. unfold wp, after in *.
  by destruct (m w) as [[e|a] w'].
Qed.

End System.
