(* ===== verification/Frames.v ===== *)
(** * What computations leave alone

    [changes_by R m]: whatever happens, the tables after [m] are related to those before by the
    preorder [R], and the disk is as it was. [draws_none m]: [m] draws no random bytes. *)
From S2P Require Import Prelude.
From S2P Require Import GoStd.
From S2P Require Import Errors.
From S2P Require Import Models.
From S2P Require Import Redis.
From S2P Require Import Store.
From S2P Require Import RedisClient.
From S2P Require Import Files.
From S2P Require Import FileOps.
From S2P Require Import Edge.
From S2P Require Resilience.
From S2P Require Import System.

Section Frames.
Context (R : relation Tables) `{!PreOrder R}.

Definition changes_by {A} (m : M A) : Prop := forall w, R (db w) (db (after m w)) /\ disk (after m w) = disk w.

Lemma changes_ret {A} (a : A) : changes_by (mret a).
Proof. by intros w. Qed.

Lemma changes_throw {A} e : changes_by (throw (A := A) e).
Proof. by intros w. Qed.

Lemma changes_bind {A B} (m : M A) (f : A -> M B) :
  changes_by m -> (forall a, changes_by (f a)) -> changes_by (m ≫= f).
Proof.
  intros Hm Hf w. specialize (Hm w). unfold after, mbind, M_bind in *.
  destruct (m w) as [[e|a] w']; [done|]. destruct Hm as [A1 E1], (Hf a w') as [A2 E2].
  unfold after in *. simpl in *. split; [by etrans|congruence].
Qed.

Lemma changes_attempt {A} (m : M A) : changes_by m -> changes_by (attempt m).
Proof. intros Hm w. specialize (Hm w). unfold after, attempt in *. by destruct (m w) as [[e|a] w']. Qed.

Lemma changes_map_error {A} f (m : M A) : changes_by m -> changes_by (map_error f m).
Proof. intros Hm w. specialize (Hm w). unfold after, map_error in *. by destruct (m w) as [[e|a] w']. Qed.

Lemma call_unchanged w : db (after call w) = db w /\ disk (after call w) = disk w.
Proof. unfold after, call. by destruct (faults (env w)) as [|[t|] fs]. Qed.

Lemma changes_call : changes_by call.
Proof. intros w. by destruct (call_unchanged w) as [-> ->]. Qed.

Lemma changes_read {A} (f : Tables -> A) : changes_by (read_db f).
Proof. by intros w. Qed.

Lemma changes_time : changes_by time_now.
Proof. by intros w. Qed.

Lemma changes_random n : changes_by (random_bytes n).
Proof. by intros w. Qed.

Lemma changes_write f : (forall d, R d (f d)) -> changes_by (write_db f).
Proof. intros Hf w. by split; [apply Hf|]. Qed.

Lemma changes_write_row {A} name (mk : Z -> A) dup put :
  (forall i d, R d (put (mk i) d)) -> changes_by (write_row name mk dup put).
Proof. intros Hp w. unfold after, write_row. destruct (dup _ _); [done|]. simpl. by split; [apply Hp|]. Qed.

Lemma changes_write_keyed {A} (row : A) dup put :
  (forall d, R d (put row d)) -> changes_by (write_keyed row dup put).
Proof. intros Hp w. unfold after, write_keyed. destruct (dup _ _); [done|]. simpl. by split; [apply Hp|]. Qed.

Lemma changes_write_upsert name put : (forall i d, R d (put i d)) -> changes_by (write_upsert name put).
Proof. intros Hp w. by split; [apply Hp|]. Qed.

Lemma changes_transaction {A} (m : M A) : changes_by m -> changes_by (transaction m).
Proof.
  intros Hm w. unfold after, transaction. destruct (call_unchanged w) as [D1 F1]. unfold after in D1, F1.
  destruct (call w) as [[e|[]] w1]; simpl in *; [rewrite D1; by split|]. specialize (Hm w1). unfold after in Hm.
  destruct (m w1) as [[e|a] w2]; simpl in *; [split; [done|]; destruct Hm; congruence|].
  destruct (call_unchanged w2) as [D3 F3]. unfold after in D3, F3.
  destruct (call w2) as [[e|[]] w3]; simpl in *; (split; [|destruct Hm; congruence]); [done|].
  rewrite D3, <-D1. apply Hm.
Qed.

End Frames.

Create HintDb changes.

Ltac head_of t := lazymatch t with ?f _ => head_of f | _ => t end.

(** The primitives of the monad, case analysis, and else the definition of what runs. *)
Ltac changes_step :=
  lazymatch goal with
  | |- PreOrder _ => apply _
  | |- changes_by _ (mret _) => apply changes_ret
  | |- changes_by _ (throw _) => apply changes_throw
  | |- changes_by _ (_ ≫= _) => apply changes_bind; [apply _| |intros ?]
  | |- changes_by _ (attempt _) => apply changes_attempt
  | |- changes_by _ (map_error _ _) => apply changes_map_error
  | |- changes_by _ (transaction _) => apply changes_transaction
  | |- changes_by _ call => apply changes_call
  | |- changes_by _ (read_db _) => apply changes_read
  | |- changes_by _ time_now => apply changes_time
  | |- changes_by _ (random_bytes _) => apply changes_random
  | |- changes_by _ (write_db _) => apply changes_write; intros ?; try solve [done | auto with changes]
  | |- changes_by _ (write_row _ _ _ _) => apply changes_write_row; [apply _|]; intros ? ?; try solve [done | auto with changes]
  | |- changes_by _ (write_keyed _ _ _) => apply changes_write_keyed; [apply _|]; intros ?; try solve [done | auto with changes]
  | |- changes_by _ (write_upsert _ _) => apply changes_write_upsert; intros ? ?; try solve [done | auto with changes]
  | |- changes_by _ (match ?x with _ => _ end) => destruct x
  | |- changes_by _ ?m => let f := head_of m in unfold f
  end.

Ltac changes_solve := repeat (cbv zeta; changes_step).

(** ** What draws no random bytes *)

Definition draws_none {A} (m : M A) : Prop := forall w, entropy (env (after m w)) = entropy (env w).

Lemma draws_bind {A B} (m : M A) (f : A -> M B) : draws_none m -> (forall a, draws_none (f a)) -> draws_none (m ≫= f).
Proof.
  intros Hm Hf w. specialize (Hm w). unfold after, mbind, M_bind in *.
  destruct (m w) as [[e|a] w']; [done|]. simpl in *. rewrite <-Hm. apply Hf.
Qed.

Lemma draws_attempt {A} (m : M A) : draws_none m -> draws_none (attempt m).
Proof. intros Hm w. specialize (Hm w). unfold after, attempt in *. by destruct (m w) as [[e|a] w']. Qed.

Lemma draws_call : draws_none call.
Proof. intros w. unfold after, call. by destruct (faults (env w)) as [|[t|] fs]. Qed.

Lemma draws_read_disk {A} (f : Disk -> option A) : draws_none (read_disk f).
Proof. intros w. unfold after, read_disk. by destruct (f (disk w)). Qed.

Lemma draws_redis_step {A} (f : Redis -> (error + A) * Redis) : draws_none (redis_step f).
Proof. intros w. unfold after, redis_step. by destruct (f (redis w)). Qed.

Lemma draws_breaker now : draws_none (breaker_allow now).
Proof. intros w. unfold after, breaker_allow. by destruct (Resilience.Breaker.allow _ _). Qed.

Ltac draws_step :=
  lazymatch goal with
  | |- draws_none (_ ≫= _) => apply draws_bind; [|intros ?]
  | |- draws_none (attempt _) => apply draws_attempt
  | |- draws_none call => apply draws_call
  | |- draws_none (read_disk _) => apply draws_read_disk
  | |- draws_none (redis_step _) => apply draws_redis_step
  | |- draws_none (breaker_allow _) => apply draws_breaker
  | |- draws_none (match ?x with _ => _ end) => destruct x
  | |- draws_none (mret _) => by intros ?w
  | |- draws_none (throw _) => by intros ?w
  | |- draws_none time_now => by intros ?w
  | |- draws_none (read_db _) => by intros ?w
  | |- draws_none (breaker_result _ _) => by intros ?w
  | |- draws_none ?m => let f := head_of m in unfold f
  end.

Ltac draws_solve := repeat (cbv zeta; draws_step).
