(* ===== verification/RepoProperties.v ===== *)
(** * A small database for the examples

    A concrete collation, and a run of the operations from the empty database: two
    accounts (1 and 2), a video of the first, a like, a comment and a follow of the second,
    two notifications, an exposure and a playback report. The theorems of the development
    are applied to it. *)
From S2P Require Import Prelude.
From S2P Require Import GoStd.
From S2P Require InteractionDomain.
From S2P Require RelationDomain.
From S2P Require VideoDomain.
From S2P Require MessageDomain.
From S2P Require ExposureDomain.
From S2P Require PlaybackDomain.
From S2P Require AccountDomain.
From S2P Require Import FeedDomain.
From S2P Require RecommendationDomain.
From S2P Require Import Errors.
From S2P Require Import Models.
From S2P Require Import Redis.
From S2P Require Import Store.
From S2P Require Import Paging.
From S2P Require InteractionRepo.
From S2P Require RelationRepo.
From S2P Require MessageRepo.
From S2P Require VideoRepo.
From S2P Require FeedRepo.
From S2P Require ExposureRepo.
From S2P Require PlaybackRepo.
From S2P Require AccountRepo.
From S2P Require Import System.

(** A collation that ignores the case of ASCII letters, as MySQL's does. *)
#[export] Instance case_insensitive : Collation := {| collate := ToLower |}.

#[export] Instance case_insensitive_laws : CollationLaws.
Proof. split. by vm_compute. Qed.

(** Calls take a second each way; none fails. *)
Definition calm : Env := mkEnv [] (repeat (10 ^ 9)%N 64) (63000000000 * second) ["e1"; "e2"; "e3"]%string.

Definition user (name : string) : AccountDomain.User :=
  AccountDomain.RestoreUser 0 name "hash" name "" "" 1 "user".

Definition value {A E} (d : A) (r : E + A) : A := match r with inr a => a | inl _ => d end.

Definition no_video : VideoDomain.Video :=
  VideoDomain.RestoreVideo 0 0 "" "" "" "" 0 0 0 0 None 0 0 "".
Definition a_video : VideoDomain.Video :=
  value no_video (VideoDomain.NewPublished (63000000000 * second) 1 "first" "" "m.mp4" "c.jpg" "vk").

Definition no_comment : InteractionDomain.Comment :=
  InteractionDomain.RestoreComment 0 0 0 "" "" "" 0 "" 0 0.
Definition a_comment : InteractionDomain.Comment :=
  value no_comment (InteractionDomain.NewComment 1 2 "nice" "ck").

Definition no_message : MessageDomain.Message :=
  MessageDomain.RestoreMessage 0 0 "" "" "" "" false 0 None.
Definition a_message (event : string) : MessageDomain.Message :=
  value no_message (MessageDomain.NewMessage 1 "like" "title" "content" event).

Definition no_event : ExposureDomain.ViewEvent :=
  ExposureDomain.RestoreViewEvent 0 0 0 "" "" "" 0 false 0.
Definition an_event : ExposureDomain.ViewEvent :=
  value no_event (ExposureDomain.NewViewEvent 2 1 "feed" "r1" "exposed" 0 false).

Definition no_report : PlaybackDomain.QoSReport :=
  PlaybackDomain.RestoreQoSReport 0 0 0 None 0 0 "" 0.
Definition a_report : PlaybackDomain.QoSReport :=
  value no_report (PlaybackDomain.NewQoSReport 2 1 (Some 120) 0 5000 "qk").

Definition w0 : World := mkWorld no_tables ∅ no_redis [] calm new_process ∅.
Definition w1 : World := after (AccountRepo.Save (user "ann")) w0.
Definition w2 : World := after (AccountRepo.Save (user "bob")) w1.
Definition w3 : World := after (VideoRepo.Save a_video) w2.
Definition w4 : World := after (InteractionRepo.SetAction 2 1 "LIKE" true "k1") w3.
Definition w5 : World := after (InteractionRepo.CreateComment a_comment) w4.
Definition w6 : World := after (RelationRepo.SetFollow 2 1 true "f1") w5.
Definition w7 : World := after (MessageRepo.Create (a_message "ev1") "mk1") w6.
Definition w8 : World := after (MessageRepo.Create (a_message "ev2") "mk2") w7.
Definition w9 : World := after (ExposureRepo.SaveViewEvent an_event) w8.
Definition w10 : World := after (PlaybackRepo.CreateQoSReport a_report) w9.

Lemma w10_reachable : reachable w10.
Proof.
  apply (reachable_step w9); [|apply step_plain, step_CreateQoSReport].
  apply (reachable_step w8); [|apply step_plain, step_SaveViewEvent].
  apply (reachable_step w7); [|apply step_plain, step_CreateMessage].
  apply (reachable_step w6); [|apply step_plain, step_CreateMessage].
  apply (reachable_step w5); [|apply step_plain, step_SetFollow].
  apply (reachable_step w4).
  2: { apply step_plain, (step_CreateComment w4 1 2 "nice" "ck"). by vm_compute. }
  apply (reachable_step w3); [|apply step_plain, step_SetAction].
  apply (reachable_step w2).
  2: { apply step_plain, (step_SaveVideo w2 (63000000000 * second) 1 "first" "" "m.mp4" "c.jpg" "vk"). by vm_compute. }
  apply (reachable_step w1); [|apply step_plain, step_SaveAccount].
  apply (reachable_step w0); [|apply step_plain, step_SaveAccount].
  apply reachable_init.
Qed.

Example w10_tables :
  (size (account (db w10)), size (video (db w10)), size (interaction_action (db w10)),
   size (interaction_comment (db w10)), size (user_follow (db w10)), size (user_message (db w10)),
   size (exposures (db w10)), size (playback_qos_log (db w10))) = (2, 1, 1, 1, 1, 2, 1, 1)%nat.
Proof. by vm_compute. Qed.

(** The counters of the video: one like, one comment. *)
Definition w10_stat : VideoStatModel :=
  Eval vm_compute in default (mkVideoStatModel 0 0 0 0 0 0) (video_stat (db w10) !! 1).

Lemma w10_stat_stored : video_stat (db w10) !! 1 = Some w10_stat.
Proof. vm_compute. reflexivity. Qed.

Definition w10_comment : CommentModel :=
  Eval vm_compute in default (mkCommentModel 0 0 0 "" 0 None 0 0) (interaction_comment (db w10) !! 1).

Lemma w10_comment_stored : interaction_comment (db w10) !! 1 = Some w10_comment.
Proof. vm_compute. reflexivity. Qed.

Definition second_comment : InteractionDomain.Comment :=
  value no_comment (InteractionDomain.NewComment 1 2 "again" "ck2").

Lemma second_comment_made : InteractionDomain.NewComment 1 2 "again" "ck2" = inr second_comment.
Proof. vm_compute. reflexivity. Qed.

(** From here on the example world is computed by [vm_compute] only. *)
#[global] Opaque w10 second_comment.

(** * What the repositories guarantee

    The properties of the persistence layer, in every reachable world, whatever database
    calls fail. A [wp] about an operation speaks of both of its outcomes. *)

Section RepoProperties.
Context `{Collation, !CollationLaws}.

(** ** Data integrity *)

(** C1: whatever sequence of writes, failures and retries led to the stored data, every
    counter the application shows equals the number of rows it stands for: likes,
    favourites and comments of a video, followings and followers of a user, exposures of
    a video to a user. *)
Theorem counters_are_true w :
  reachable w ->
  (forall v s, video_stat (db w) !! v = Some s ->
     let actions t := map_count (InteractionRepo.active_action v t) (interaction_action (db w)) in
     sm_LikeCount s = actions InteractionDomain.ActionTypeLike /\
     sm_FavoriteCount s = actions InteractionDomain.ActionTypeFavorite /\
     sm_CommentCount s = map_count (InteractionRepo.normal_comment v) (interaction_comment (db w))) /\
  (forall u, RelationRepo.counts_of (user_relation_stat (db w)) u
             = (map_count (RelationRepo.follows u) (user_follow (db w)),
                map_count (RelationRepo.followed u) (user_follow (db w)))) /\
  (forall u v, ExposureRepo.exposure_count (db w) u v
               = map_count (ExposureRepo.exposed u v) (video_view_events (db w))).
Proof.
  intros Hi%reachable_ok. split_and!.
  - intros v s Hs. rewrite (InteractionRepo.ck_stat_key w (in_counters w Hi) _ _ Hs).
    by apply (InteractionRepo.ck_stat w (in_counters w Hi) v).
  - apply (RelationRepo.rk_counts _ (in_relation w Hi)).
  - apply (ExposureRepo.xk_count _ (in_exposures w Hi)).
Qed.

(** ** Likes and favourites *)

(** C7: a successful [SetAction] returns the true number of active likes (favourites) of
    the video after it, and by how much it moved; the user's row ends in the requested
    state unless the same idempotency key was used last; no other row changes. A failed one
    changes nothing, and fails for a missing video or a driver error only. *)
Theorem SetAction_effect w u v T t active key :
  reachable w -> InteractionDomain.NormalizeActionType T = inr t ->
  let k := (u, v, collate t) in
  let count d := map_count (InteractionRepo.active_action v t) (interaction_action d) in
  wp (InteractionRepo.SetAction u v T active key)
    (fun '(action, n, delta) w' =>
       n = count (db w') /\ delta = count (db w') - count (db w) /\
       (InteractionRepo.action_replayed (db w) k (TrimSpace key) /\ db w' = db w \/
        InteractionRepo.was_active (db w') k = active) /\
       (exists row, interaction_action (db w') !! k = Some row /\ action = InteractionRepo.restoreAction row) /\
       forall k', k' <> k -> interaction_action (db w') !! k' = interaction_action (db w) !! k')
    (fun err w' => db w' = db w /\
       (err = EInteraction InteractionDomain.ErrVideoNotFound \/ exists text, err = EDriver text)) w.
Proof.
  intros Hw HT k count. pose proof (reachable_ok _ Hw) as Hi.
  eapply wp_mono; [apply wp_reachable; [exact Hw|apply step_plain, step_SetAction|]|..].
  - apply InteractionRepo.wp_SetAction; [apply Hi|exact HT].
  - intros [[a n] delta] w' [[Hspec _] Hi'%reachable_ok].
    eapply InteractionRepo.set_action_effect; [apply Hi|apply Hi'| |exact Hspec].
    by eapply InteractionDomain.NormalizeActionType_cases.
  - by intros err w' [[He _] _].
Qed.

(** A repeated [SetAction] with the same key answers what the first one answered and
    changes nothing, even when it asks for the opposite state. *)
Theorem SetAction_retry w u v T t active active' key :
  reachable w -> InteractionDomain.NormalizeActionType T = inr t -> TrimSpace key <> ""%string ->
  wp (InteractionRepo.SetAction u v T active key)
    (fun r w' => wp (InteractionRepo.SetAction u v T active' key)
       (fun r' w'' => r' = (r.1, 0) /\ db w'' = db w') (fun _ w'' => db w'' = db w') w')
    (fun _ w' => db w' = db w) w.
Proof.
  intros Hw HT Hkey. pose proof (reachable_ok _ Hw) as Hi.
  eapply wp_mono; [apply wp_reachable; [exact Hw|apply step_plain, step_SetAction|]|..].
  - apply InteractionRepo.wp_SetAction; [apply Hi|exact HT].
  - intros [[a n] delta] w' [[Hspec _] Hi'%reachable_ok].
    eapply wp_mono; [apply InteractionRepo.wp_SetAction; [apply Hi'|exact HT]|..].
    + intros [[a' n'] delta'] w'' [Hspec' _]. simpl in *.
      eapply InteractionRepo.set_action_again in Hspec' as (-> & -> & -> & ->);
        [done|exact Hkey|apply TrimSpace_trimmed|exact Hspec].
    + by intros err w'' [[? _] _].
  - by intros err w' [[[? _] _] _].
Qed.

(** ** Comments *)

(** C9: a successful [CreateComment] either stores exactly one new row, with the trimmed
    content, user and video of the request, or finds the comment stored earlier under the
    same user and key; the count it returns is the true number of comments. A failed one
    changes nothing, unless the failure comes after the COMMIT: then the comment is stored
    as if it had succeeded. *)
Theorem CreateComment_effect w v u content key c :
  reachable w -> InteractionDomain.NewComment v u content key = inr c ->
  let stored row d := InteractionRepo.comment_matches c row /\
    interaction_comment (db w) !! cm_ID row = None /\
    interaction_comment d = <[cm_ID row := row]> (interaction_comment (db w)) in
  wp (InteractionRepo.CreateComment c)
    (fun '(created, n, delta) w' =>
       exists row, InteractionRepo.comment_stored (db w') row created n /\
         (delta = 1 /\ stored row (db w') \/
          delta = 0 /\ db w' = db w /\ InteractionRepo.comment_key_is u (TrimSpace key) row = true))
    (fun err w' => db w' = db w \/ exists row, stored row (db w')) w.
Proof.
  intros Hw Hc stored. pose proof (reachable_ok _ Hw) as Hi.
  pose proof (InteractionDomain.NewComment_ok _ _ _ _ _ Hc) as Hcok.
  pose proof (InteractionDomain.NewComment_fields _ _ _ _ _ Hc) as (Hv & Hu & Hk).
  eapply wp_mono; [apply wp_reachable; [exact Hw|by eapply step_plain, step_CreateComment|]|..].
  - apply InteractionRepo.wp_CreateComment, Hi.
  - intros [[a n] delta] w' [Hspec Hi'%reachable_ok]. simpl in *.
    apply InteractionRepo.create_comment_effect in Hspec as (row & Hst & Hcase); [|apply Hi|apply Hi'].
    exists row. split; [done|]. destruct Hcase as [(-> & Hm & Hn & Hins)|(-> & Hdb & Hkey)]; [by left|right].
    by rewrite (InteractionDomain.ok_key_trimmed _ Hcok), Hu, Hk in Hkey.
  - intros err w' [[[Hdb _]|(row & n & Hcr & Hcnt & _)] Hi'%reachable_ok]; [by left|right].
    exists row. apply InteractionRepo.comment_counted_stored in Hcnt as [Hins _]; [|apply Hi'].
    destruct Hcr. by repeat split.
Qed.

(** A client that repeats [CreateComment] with its idempotency key gets the comment it
    created and the same count, and nothing is stored or counted twice. *)
Theorem CreateComment_retry w v u content key c :
  reachable w -> InteractionDomain.NewComment v u content key = inr c -> TrimSpace key <> ""%string ->
  wp (InteractionRepo.CreateComment c)
    (fun r w' => wp (InteractionRepo.CreateComment c)
       (fun r' w'' => r' = (r.1, 0) /\ db w'' = db w') (fun _ w'' => db w'' = db w') w')
    (fun _ w' => True) w.
Proof.
  intros Hw Hc Hkey. pose proof (reachable_ok _ Hw) as Hi.
  pose proof (InteractionDomain.NewComment_ok _ _ _ _ _ Hc) as Hcok.
  assert (InteractionDomain.c_IdempotencyKey c <> ""%string) as Hne.
  { pose proof (InteractionDomain.NewComment_fields _ _ _ _ _ Hc) as (_ & _ & Hk). by rewrite Hk. }
  eapply wp_mono; [apply wp_reachable; [exact Hw|by eapply step_plain, step_CreateComment|]|..].
  - apply InteractionRepo.wp_CreateComment, Hi.
  - intros [[a n] delta] w' [Hspec Hi'%reachable_ok].
    eapply wp_mono; [apply InteractionRepo.wp_CreateComment, Hi'|..].
    + intros [[a' n'] delta'] w'' Hspec'. simpl in *.
      eapply InteractionRepo.create_comment_again in Hspec' as (-> & -> & -> & ->);
        [done|apply Hi|apply Hi'|done|apply Hcok|exact Hspec].
    + intros err w'' [[Hdb _]|(row & n' & Hcr)]; [done|].
      apply InteractionRepo.comment_key_stored in Hspec as (row' & (Hrow & _) & Hk);
        [|apply Hi|apply Hi'|exact Hne|apply Hcok].
      by eapply InteractionRepo.comment_claimed in Hcr; [|exact Hne|apply Hcok|exact Hrow|exact Hk].
  - done.
Qed.

(** Only the author of a comment, the author of its video and an administrator can
    delete it. A successful [DeleteComment] marks that one comment deleted, returns the true
    number of the comments left and by how much it moved (nothing for a comment deleted
    before). A failed one changes nothing and says why, unless the failure comes after the
    COMMIT. *)
Theorem DeleteComment_effect w id u role :
  reachable w ->
  let deleted d (row : CommentModel) := exists c, interaction_comment (db w) !! id = Some c /\
    InteractionRepo.may_delete (db w) c u role /\ row = InteractionRepo.deleted_row c (cm_UpdatedAt row) /\
    interaction_comment d = <[id := row]> (interaction_comment (db w)) in
  wp (InteractionRepo.DeleteComment id u role)
    (fun '(comment, n, delta) w' => exists row, deleted (db w') row /\
       comment = InteractionRepo.restoreComment (InteractionRepo.commentWithUserSelect (db w') row) /\
       let count d := map_count (InteractionRepo.normal_comment (cm_VideoID row)) (interaction_comment d) in
       n = count (db w') /\ delta = count (db w') - count (db w))
    (fun err w' => db w' = db w /\ InteractionRepo.delete_failure (db w) id u role err \/
       (exists text, err = EDriver text) /\ exists row, deleted (db w') row) w.
Proof.
  intros Hw deleted. pose proof (reachable_ok _ Hw) as Hi.
  eapply wp_mono; [apply wp_reachable; [exact Hw|apply step_plain, step_DeleteComment|]|..].
  - apply InteractionRepo.wp_DeleteComment, Hi.
  - intros [[a n] delta] w' [(row & Hdone & Ha) Hi'%reachable_ok]. exists row.
    apply InteractionRepo.delete_comment_effect in Hdone
      as (c & Hc & Hm & Hst & Hrow & Hins & Hn); [|apply Hi|apply Hi'].
    split; [by exists c|]. split; [done|]. rewrite Hrow. exact Hn.
  - intros err w' [[(Hdb & _ & Hf)|(He & row & n & delta & Hdone)] Hi'%reachable_ok]; [by left|right].
    split; [done|]. exists row. apply InteractionRepo.delete_comment_effect in Hdone
      as (c & Hc & Hm & Hst & Hrow & Hins & Hn); [|apply Hi|apply Hi']. by exists c.
Qed.

(** ** Follows *)

(** C2: a successful [SetFollow] between two users returns the true numbers after it: how many
    users [u] follows and how many follow [t]. The row of the pair ends in the requested state unless
    the same idempotency key was used last; no other row changes. A failed one changes
    nothing. *)
Theorem SetFollow_effect w u t active key :
  reachable w -> u <> t ->
  wp (RelationRepo.SetFollow u t active key)
    (fun '(follow, us, ts) w' =>
       RelationDomain.rs_FollowingCount us = map_count (RelationRepo.follows u) (user_follow (db w')) /\
       RelationDomain.rs_FollowerCount ts = map_count (RelationRepo.followed t) (user_follow (db w')) /\
       (exists f, user_follow (db w') !! (u, t) = Some f /\ follow = RelationRepo.restoreFollow f /\
          (RelationRepo.replayed (db w) u t (TrimSpace key) f /\ user_follow (db w') = user_follow (db w) \/
           RelationRepo.is_following (user_follow (db w')) u t = active)) /\
       forall k, k <> (u, t) -> user_follow (db w') !! k = user_follow (db w) !! k)
    (fun err w' => db w' = db w /\
       (err = ERelation RelationDomain.ErrTargetUserNotFound \/ exists text, err = EDriver text)) w.
Proof.
  intros Hw Hne. pose proof (reachable_ok _ Hw) as Hi.
  eapply wp_mono; [apply RelationRepo.wp_SetFollow, Hi|..].
  - intros r w' [(f & us & ts & -> & [_ Hrow Hoth Heff Hu Ht] & Hok) _].
    destruct (RelationRepo.restoreStat_counts _ _ _ Hok (Hu Hne)) as [-> _].
    destruct (RelationRepo.restoreStat_counts _ _ _ Hok Ht) as [_ ->].
    split_and!; [done|done| |done]. exists f. split_and!; [done|done|].
    destruct Heff as [?|(_ & Hst & _)]; [by left|right].
    unfold RelationRepo.is_following. rewrite Hrow, Hst. apply RelationRepo.status_active.
  - by intros err w' [He _].
Qed.

(** A repeated [SetFollow] with the same key answers the same and changes no follow. *)
Theorem SetFollow_retry w u t active active' key :
  reachable w -> u <> t -> TrimSpace key <> ""%string ->
  wp (RelationRepo.SetFollow u t active key)
    (fun '(f, us, ts) w' => wp (RelationRepo.SetFollow u t active' key)
       (fun '(f', us', ts') w'' => f' = f /\
          RelationDomain.rs_FollowingCount us' = RelationDomain.rs_FollowingCount us /\
          RelationDomain.rs_FollowerCount ts' = RelationDomain.rs_FollowerCount ts /\
          user_follow (db w'') = user_follow (db w'))
       (fun _ w'' => db w'' = db w') w')
    (fun _ w' => db w' = db w) w.
Proof.
  intros Hw Hne Hkey. pose proof (reachable_ok _ Hw) as Hi.
  eapply wp_mono; [apply RelationRepo.wp_SetFollow, Hi|..]; [|by intros err w' [[? _] _]].
  intros r w' [(f & us & ts & -> & Hfs & Hok) _].
  eapply wp_mono; [apply RelationRepo.wp_SetFollow, Hok|..]; [|by intros err w'' [[? _] _]].
  intros r w'' [(f' & us' & ts' & -> & Hfs' & Hok') _].
  eapply RelationRepo.follow_set_again;
    [exact Hne|exact Hkey|apply TrimSpace_trimmed|exact Hfs|exact Hfs'|exact Hok|exact Hok'].
Qed.

(** ** Messages *)

(** A message with an event id or an idempotency key is stored at most once: a
    repeated [Create] stores nothing and hands back the message of the first, whether the
    first stored it or found it. *)
Theorem CreateMessage_once w m key :
  reachable w ->
  TrimSpace (MessageDomain.m_EventID m) <> ""%string \/ TrimSpace key <> ""%string ->
  wp (MessageRepo.Create m key)
    (fun r w' => wp (MessageRepo.Create m key)
       (fun r' w'' => r' = (r.1, false) /\ db w'' = db w') (fun _ w'' => db w'' = db w') w')
    (fun _ w' => db w' = db w) w.
Proof.
  intros Hw Hne. pose proof (reachable_ok _ Hw) as Hi.
  eapply wp_mono; [apply wp_reachable; [exact Hw|apply step_plain, step_CreateMessage|apply MessageRepo.wp_Create]|..];
    [|by intros err w' [[? _] _]].
  intros r w' [Hfirst Hi'%reachable_ok].
  assert (exists x, r.1 = MessageRepo.restore x /\
    (MessageRepo.message_created w m (TrimSpace key) x w' \/
     MessageRepo.message_found (db w') m (TrimSpace key) x)) as (x & Hr & Hx).
  { destruct Hfirst as [(x & Hx & ->)|(x & Hx & -> & E & _)]; exists x; simpl; rewrite ?E; auto. }
  eapply wp_mono; [apply MessageRepo.wp_Create|..]; [|by intros err w'' [? _]].
  intros r' w'' Hr'. rewrite Hr.
  pose proof (fun y => MessageRepo.create_again w w' w'' m (TrimSpace key) x y
    (in_messages _ Hi') (TrimSpace_trimmed _) Hne Hx) as Hagain.
  destruct Hr' as [(y & Hy & _)|(y & Hy & -> & E & _)]; destruct (Hagain y) as [Hno Heq].
  - by destruct (Hno Hy).
  - by rewrite (Heq Hy).
Qed.

(** [MarkRead] returns how many messages it marked; the unread messages of the user
    decrease by that number, those of other users do not change, and marking again finds
    nothing. *)
Theorem MarkRead_counts w u ids :
  reachable w ->
  let unread v w := map_count (MessageRepo.unread v) (user_message (db w)) in
  wp (MessageRepo.MarkRead u ids)
    (fun n w' => (forall v, unread v w' = unread v w - (if v =? u then n else 0)) /\
       wp (MessageRepo.MarkRead u ids) (fun n' _ => n' = 0) (fun _ _ => True) w')
    (fun _ w' => db w' = db w) w.
Proof.
  intros Hw unread.
  eapply wp_mono; [apply MessageRepo.wp_MarkRead|..]; [|by intros err w' [? _]].
  intros n w' (-> & _ & now & _ & E). split.
  - intros v. unfold unread. rewrite E. apply MessageRepo.unread_after_mark.
  - eapply wp_mono; [apply MessageRepo.wp_MarkRead|..]; [|done].
    intros n' w'' (-> & _). rewrite E. apply MessageRepo.marked_none.
Qed.

(** ** Playback reports *)

(** A playback report with an idempotency key is stored at most once, and a repeated
    [CreateQoSReport] hands back the report of the first. *)
Theorem CreateQoSReport_once w r :
  reachable w -> TrimSpace (PlaybackDomain.q_IdempotencyKey r) <> ""%string ->
  wp (PlaybackRepo.CreateQoSReport r)
    (fun a w' => wp (PlaybackRepo.CreateQoSReport r)
       (fun a' w'' => a' = (a.1, false) /\ db w'' = db w') (fun _ w'' => db w'' = db w') w')
    (fun _ w' => db w' = db w) w.
Proof.
  intros Hw Hne. pose proof (reachable_ok _ Hw) as Hi.
  eapply wp_mono; [apply wp_reachable; [exact Hw|apply step_plain, step_CreateQoSReport|apply PlaybackRepo.wp_CreateQoSReport]|..];
    [|by intros err w' [[? _] _]].
  intros a w' [Hfirst Hi'%reachable_ok].
  assert (exists i q, a.1 = PlaybackRepo.restoreQoSReport q /\ playback_qos_log (db w') !! i = Some q /\
    PlaybackRepo.qos_key_is (PlaybackDomain.q_UserID r) (TrimSpace (PlaybackDomain.q_IdempotencyKey r)) q = true)
    as (i & q & -> & Hq & Hk).
  { destruct Hfirst as [(q & Hq & ->)|(i & q & Hq & Hk & -> & E & _)].
    - exists (qm_ID q), q. split; [done|]. by eapply PlaybackRepo.qos_stored_key.
    - exists i, q. by rewrite E. }
  eapply wp_mono; [apply PlaybackRepo.wp_CreateQoSReport|..]; [|by intros err w'' [? _]].
  intros a' w'' [(q' & Hq' & _)|(j & q' & Hq' & Hk' & -> & E & _)].
  - by eapply PlaybackRepo.qos_not_stored in Hq'; [|exact Hne|exact Hq|exact Hk].
  - split; [|done]. do 2 f_equal.
    eapply (PlaybackRepo.qos_same w'); [apply (in_qos _ Hi')|exact Hq'|exact Hq|exact Hk'|exact Hk].
Qed.

(** ** Exposures *)

(** A successful [SaveViewEvent] logs exactly one event, with the fields of the
    request; an [exposed] event raises the exposure count of that user and video by one and
    answers the new count, other events leave the counts alone. It fails, changing nothing,
    for an unpublished video or a driver error only. *)
Theorem SaveViewEvent_effect w event :
  reachable w ->
  let u := ExposureDomain.e_UserID event in
  let v := ExposureDomain.e_VideoID event in
  let is_exposure := String.eqb (ExposureDomain.e_EventType event) ExposureDomain.EventTypeExposed in
  wp (ExposureRepo.SaveViewEvent event)
    (fun '(saved, exposure) w' =>
       (exists e, ExposureRepo.event_of u v (ExposureDomain.e_Scene event)
            (ExposureRepo.stringPtr (ExposureDomain.e_RequestID event)) (ExposureDomain.e_EventType event)
            (ExposureDomain.e_WatchMs event) (ExposureDomain.e_Completed event) e /\
          saved = ExposureRepo.restoreViewEvent e /\ video_view_events (db w) !! em_ID e = None /\
          video_view_events (db w') = <[em_ID e := e]> (video_view_events (db w))) /\
       (forall u' v', ExposureRepo.exposure_count (db w') u' v' = ExposureRepo.exposure_count (db w) u' v'
          + b2z ((u =? u') && (v =? v') && is_exposure)) /\
       ExposureDomain.x_ExposureCount <$> exposure
       = (if is_exposure then Some (ExposureRepo.exposure_count (db w') u v) else None))
    (fun err w' => db w' = db w /\
       (err = EExposure ExposureDomain.ErrVideoNotFound /\ ExposureRepo.published v (db w) = None
        \/ exists text, err = EDriver text)) w.
Proof.
  intros Hw u v is_exposure. pose proof (in_exposures _ (reachable_ok _ Hw)) as Hi.
  eapply wp_mono; [apply ExposureRepo.wp_SaveViewEvent, Hi|..]; [|by intros err w' [? _]].
  intros r w' (e & x & Hs & Hof & ->).
  destruct (ExposureRepo.event_saved_effect _ _ _ _ Hi Hs) as (Hev & Hc & Hx).
  pose proof (ExposureRepo.es_new _ _ _ _ Hs) as Hnew.
  pose proof Hof as (Hu & Hv & _ & _ & Ht & _). split_and!.
  - by exists e.
  - intros u' v'. rewrite Hc. unfold ExposureRepo.exposed. by rewrite Hu, Hv, Ht.
  - rewrite Hu, Hv, Ht in Hx. unfold is_exposure, u, v. rewrite <-Hx. by destruct x.
Qed.

(** [SaveExposures] is all or nothing: either it answers one exposure per write that is
    not nil, and every user and video is counted once per write, or nothing changes. *)
Theorem SaveExposures_all_or_nothing w writes :
  reachable w ->
  wp (ExposureRepo.SaveExposures writes)
    (fun rs w' => length rs = length (omap id writes) /\
       forall u v, ExposureRepo.exposure_count (db w') u v = ExposureRepo.exposure_count (db w) u v
         + Z.of_nat (length (filter (fun x => RecommendationDomain.ew_UserID x = u /\
                                              RecommendationDomain.ew_VideoID x = v) (omap id writes))))
    (fun err w' => db w' = db w) w.
Proof.
  intros Hw. pose proof (in_exposures _ (reachable_ok _ Hw)) as Hi.
  eapply wp_mono; [apply ExposureRepo.wp_SaveExposures, Hi|..]; [|by intros err w' [[? _] _]].
  intros rs w' Hs. by apply ExposureRepo.exposures_saved_effect.
Qed.

(** ** Profiles *)

(** A profile shows the true numbers of active follows and published works, whether
    the counters of [user_relation_stat] exist or not. *)
Theorem profile_counts_are_true w id :
  reachable w ->
  wp (AccountRepo.FindByID id)
    (fun u w' => AccountDomain.u_ID u = id /\
       AccountDomain.u_FollowingCount u = map_count (RelationRepo.follows id) (user_follow (db w)) /\
       AccountDomain.u_FollowerCount u = map_count (RelationRepo.followed id) (user_follow (db w)) /\
       AccountDomain.u_WorkCount u = map_count (fun v => (vm_AuthorID v =? id)
         && (vm_Status v =? VideoDomain.StatusPublished)) (video (db w)))
    (fun err _ => err = EAccount AccountDomain.ErrUserNotFound /\ account (db w) !! id = None
                  \/ exists text, err = EDriver text) w.
Proof.
  intros Hw. pose proof (reachable_ok _ Hw) as Hi.
  apply wp_map_error, wp_bind, wp_take_row.
  - intros m e Hm. apply fmap_Some in Hm as (a & Ha & ->). apply wp_ret.
    apply (AccountRepo.ac_id _ (in_accounts _ Hi)) in Ha as ->.
    apply AccountRepo.restored_counts, Hi.
  - intros e Hn. left. by apply fmap_None in Hn.
  - intros text e. right. by exists text.
Qed.

(** ** Pages *)

(** Pages fit together: reading a video's comments page after page, each from the
    position of the last comment of the page before, gives the comments of one large page,
    newest first, each once. *)
Theorem comment_pages_fit w v cursor n m c :
  reachable w -> 0 <= n -> 0 <= m ->
  last (InteractionRepo.comment_page v cursor n (db w)) = Some c ->
  let next := Some (InteractionDomain.mkCommentCursor (cm_CreatedAt c) (cm_ID c)) in
  let whole := InteractionRepo.comment_page v cursor (n + m) (db w) in
  InteractionRepo.comment_page v cursor n (db w) ++ InteractionRepo.comment_page v next m (db w) = whole /\
  NoDup whole /\
  StronglySorted (newest_first InteractionRepo.comment_pos) whole /\
  (forall x, x ∈ whole -> cm_VideoID x = v /\ cm_Status x = InteractionDomain.CommentStatusNormal).
Proof.
  intros Hw Hn Hm Hlast next whole. pose proof (reachable_ok _ Hw) as Hi.
  pose proof (InteractionRepo.comment_positions w v (in_counters _ Hi)) as Hnd. split_and!.
  - by apply (sql_page_app InteractionRepo.comment_pos).
  - by apply (sql_page_NoDup InteractionRepo.comment_pos).
  - apply (sql_page_sorted InteractionRepo.comment_pos).
  - intros x [Hx _]%elem_of_sql_page. apply elem_of_select_rows in Hx as (k & _ & Hx).
    apply andb_prop in Hx as [?%Z.eqb_eq ?%Z.eqb_eq]. done.
Qed.

Lemma video_positions {K} `{PositionLaws K} (pos : VideoModel -> K) w P :
  videos_ok (db w) -> (forall a b, pos a = pos b -> vm_ID a = vm_ID b) -> NoDup (pos <$> select_rows P (video (db w))).
Proof.
  intros Hok Hinj. apply select_rows_NoDup. intros i j a b Ha Hb Heq%Hinj.
  rewrite (ok_video_id _ Hok _ _ Ha), (ok_video_id _ Hok _ _ Hb). done.
Qed.

(** The hot list and the following list can be walked: a page and the page read from the
    position of its last video are one larger page, sorted (by score, time and id; by time and
    id), each video once, all of them published, and in the following list all by authors the
    viewer follows. *)
Theorem feed_pages_fit w viewer hot following n m last_hot last_video :
  reachable w -> 0 <= n -> 0 <= m ->
  last (FeedRepo.hot_page hot n (db w)) = Some last_hot ->
  last (FeedRepo.following_page viewer following n (db w)) = Some last_video ->
  FeedRepo.hot_page hot n (db w) ++
    FeedRepo.hot_page (Some (mkHotCursor (FeedRepo.hotScoreExpression (db w) last_hot)
      (FeedRepo.published_at last_hot) (vm_ID last_hot) 0 0)) m (db w)
  = FeedRepo.hot_page hot (n + m) (db w) /\
  FeedRepo.following_page viewer following n (db w) ++
    FeedRepo.following_page viewer
      (Some (mkTimelineCursor (FeedRepo.published_at last_video) (vm_ID last_video))) m (db w)
  = FeedRepo.following_page viewer following (n + m) (db w) /\
  NoDup (FeedRepo.hot_page hot (n + m) (db w)) /\
  NoDup (FeedRepo.following_page viewer following (n + m) (db w)) /\
  StronglySorted (newest_first (FeedRepo.hot_pos (db w))) (FeedRepo.hot_page hot (n + m) (db w)) /\
  (forall v, v ∈ FeedRepo.following_page viewer following (n + m) (db w) ->
     vm_Status v = VideoDomain.StatusPublished /\
     RelationRepo.is_following (user_follow (db w)) viewer (vm_AuthorID v) = true).
Proof.
  intros Hw Hn Hm Hhot Hfol. pose proof (in_video _ (reachable_ok _ Hw)) as Hok.
  pose proof (fun P => video_positions (FeedRepo.hot_pos (db w)) w P Hok) as Hh.
  pose proof (fun P => video_positions FeedRepo.timeline_pos w P Hok) as Ht.
  split_and!.
  - apply (sql_page_app (FeedRepo.hot_pos (db w))); try done. apply Hh. by intros a b [= _ _ ?].
  - apply (sql_page_app FeedRepo.timeline_pos); try done. apply Ht. by intros a b [= _ ?].
  - apply (sql_page_NoDup (FeedRepo.hot_pos (db w))), Hh. by intros a b [= _ _ ?].
  - apply (sql_page_NoDup FeedRepo.timeline_pos), Ht. by intros a b [= _ ?].
  - apply (sql_page_sorted (FeedRepo.hot_pos (db w))).
  - intros v [Hv _]%elem_of_sql_page. apply elem_of_select_rows in Hv as (k & _ & Hv).
    apply andb_true_iff in Hv as [[Hst%Z.eqb_eq _]%andb_true_iff Hf]. split; [done|exact Hf].
Qed.

End RepoProperties.

Lemma counters_are_true_witness :
  reachable w10 /\
  sm_LikeCount w10_stat = map_count (InteractionRepo.active_action 1 "LIKE") (interaction_action (db w10)).
Proof.
  split; [exact w10_reachable|].
  exact (proj1 (proj1 (counters_are_true w10 w10_reachable) 1 w10_stat w10_stat_stored)).
Defined.

Lemma SetAction_effect_witness :
  reachable w10 /\
  wp (InteractionRepo.SetAction 1 1 " like " true "k2")
    (fun '(_, n, delta) w' =>
       n = map_count (InteractionRepo.active_action 1 "LIKE") (interaction_action (db w')) /\
       delta = n - map_count (InteractionRepo.active_action 1 "LIKE") (interaction_action (db w10)))
    (fun err w' => db w' = db w10) w10.
Proof.
  split; [exact w10_reachable|].
  eapply wp_mono;
    [apply (SetAction_effect w10 1 1 " like " "LIKE" true "k2" w10_reachable); vm_compute; reflexivity|..].
  - intros [[a n] delta] w' (-> & -> & _). split; reflexivity.
  - intros err w' [H _]. exact H.
Defined.

Lemma SetAction_retry_witness :
  reachable w10 /\
  wp (InteractionRepo.SetAction 1 1 "LIKE" true "k2")
    (fun r w' => wp (InteractionRepo.SetAction 1 1 "LIKE" false "k2")
       (fun r' w'' => r' = (r.1, 0) /\ db w'' = db w') (fun _ w'' => db w'' = db w') w')
    (fun _ w' => db w' = db w10) w10.
Proof.
  split; [exact w10_reachable|].
  apply (SetAction_retry w10 1 1 "LIKE" "LIKE" true false "k2" w10_reachable);
    [vm_compute; reflexivity|by vm_compute].
Defined.

Lemma CreateComment_effect_witness :
  reachable w10 /\
  wp (InteractionRepo.CreateComment second_comment)
    (fun '(_, n, delta) w' => delta = 1 \/ delta = 0 /\ db w' = db w10)
    (fun _ _ => True) w10.
Proof.
  split; [exact w10_reachable|].
  pose proof (CreateComment_effect w10 1 2 "again" "ck2" second_comment w10_reachable
                second_comment_made) as H. cbv zeta in H.
  eapply wp_mono; [exact H|..].
  - intros [[a n] delta] w' (row & _ & [[-> _]|(-> & Hdb & _)]); [left; reflexivity|right].
    split; [reflexivity|exact Hdb].
  - intros; exact I.
Defined.

Lemma CreateComment_retry_witness :
  reachable w10 /\
  wp (InteractionRepo.CreateComment second_comment)
    (fun r w' => wp (InteractionRepo.CreateComment second_comment)
       (fun r' w'' => r' = (r.1, 0) /\ db w'' = db w') (fun _ w'' => db w'' = db w') w')
    (fun _ w' => True) w10.
Proof.
  split; [exact w10_reachable|].
  refine (CreateComment_retry w10 1 2 "again" "ck2" second_comment w10_reachable second_comment_made _).
  vm_compute. discriminate.
Defined.

Lemma DeleteComment_effect_witness :
  reachable w10 /\
  wp (InteractionRepo.DeleteComment 1 7 "user") (fun _ _ => False)
    (fun _ w' => interaction_comment (db w') !! 1 = interaction_comment (db w10) !! 1) w10.
Proof.
  split; [exact w10_reachable|].
  assert (~ InteractionRepo.may_delete (db w10) w10_comment 7 "user") as Hno.
  { intros (v & Hv & Hor). vm_compute in Hv. injection Hv as <-. vm_compute in Hor.
    by destruct Hor as [[=]|[[=]|[=]]]. }
  eapply wp_mono; [apply (DeleteComment_effect w10 1 7 "user" w10_reachable)|..].
  - intros [[a n] delta] w' (row & (c & Hc & Hm & _) & _). rewrite w10_comment_stored in Hc.
    injection Hc as <-. exact (Hno Hm).
  - intros err w' [[-> _]|(_ & row & c & Hc & Hm & _)]; [reflexivity|].
    rewrite w10_comment_stored in Hc. injection Hc as <-. by destruct Hno.
Defined.

Lemma SetFollow_effect_witness :
  reachable w10 /\
  wp (RelationRepo.SetFollow 1 2 true "f2")
    (fun '(_, us, _) w' => RelationDomain.rs_FollowingCount us
                           = map_count (RelationRepo.follows 1) (user_follow (db w')))
    (fun _ w' => db w' = db w10) w10.
Proof.
  split; [exact w10_reachable|].
  eapply wp_mono; [apply (SetFollow_effect w10 1 2 true "f2" w10_reachable); lia|..].
  - intros [[f us] ts] w' [H _]. exact H.
  - intros err w' [H _]. exact H.
Defined.

Lemma SetFollow_retry_witness :
  reachable w10 /\
  wp (RelationRepo.SetFollow 1 2 true "f2")
    (fun '(f, _, _) w' => wp (RelationRepo.SetFollow 1 2 false "f2")
       (fun '(f', _, _) w'' => f' = f) (fun _ w'' => db w'' = db w') w')
    (fun _ w' => db w' = db w10) w10.
Proof.
  split; [exact w10_reachable|].
  eapply wp_mono; [apply (SetFollow_retry w10 1 2 true false "f2" w10_reachable); [lia|by vm_compute]|..].
  - intros [[f us] ts] w' H. eapply wp_mono; [exact H|..]; [|by intros].
    intros [[f' us'] ts'] w'' [H' _]. exact H'.
  - intros err w' H. exact H.
Defined.

Lemma CreateMessage_once_witness :
  reachable w10 /\
  wp (MessageRepo.Create (a_message "ev3") "")
    (fun r w' => wp (MessageRepo.Create (a_message "ev3") "")
       (fun r' w'' => r' = (r.1, false) /\ db w'' = db w') (fun _ w'' => db w'' = db w') w')
    (fun _ w' => db w' = db w10) w10.
Proof.
  split; [exact w10_reachable|].
  apply (CreateMessage_once w10 (a_message "ev3") "" w10_reachable). left. by vm_compute.
Defined.

Lemma MarkRead_counts_witness :
  reachable w10 /\
  wp (MessageRepo.MarkRead 1 [1]) (fun n w' => map_count (MessageRepo.unread 1) (user_message (db w')) = 2 - n)
    (fun _ w' => db w' = db w10) w10.
Proof.
  split; [exact w10_reachable|].
  eapply wp_mono; [apply (MarkRead_counts w10 1 [1] w10_reachable)|..]; [|by intros].
  intros n w' [H _]. rewrite (H 1). vm_compute (1 =? 1). f_equal.
Defined.

Lemma CreateQoSReport_once_witness :
  reachable w10 /\
  wp (PlaybackRepo.CreateQoSReport a_report)
    (fun a w' => wp (PlaybackRepo.CreateQoSReport a_report)
       (fun a' w'' => a' = (a.1, false) /\ db w'' = db w') (fun _ w'' => db w'' = db w') w')
    (fun _ w' => db w' = db w10) w10.
Proof.
  split; [exact w10_reachable|].
  apply (CreateQoSReport_once w10 a_report w10_reachable). by vm_compute.
Defined.

Lemma SaveViewEvent_effect_witness :
  reachable w10 /\
  wp (ExposureRepo.SaveViewEvent an_event)
    (fun _ w' => ExposureRepo.exposure_count (db w') 2 1 = 2) (fun _ w' => db w' = db w10) w10.
Proof.
  split; [exact w10_reachable|].
  eapply wp_mono; [apply (SaveViewEvent_effect w10 an_event w10_reachable)|..].
  - intros [saved x] w' (_ & H & _). rewrite H. vm_compute. reflexivity.
  - intros err w' [H _]. exact H.
Defined.

Definition two_writes : list (option RecommendationDomain.ExposureWrite) :=
  [Some (RecommendationDomain.mkExposureWrite 2 1 "feed" ""); None;
   Some (RecommendationDomain.mkExposureWrite 2 1 "feed" "")].

Lemma SaveExposures_all_or_nothing_witness :
  reachable w10 /\
  wp (ExposureRepo.SaveExposures two_writes)
    (fun rs w' => length rs = 2%nat /\ ExposureRepo.exposure_count (db w') 2 1 = 3)
    (fun _ w' => db w' = db w10) w10.
Proof.
  split; [exact w10_reachable|].
  eapply wp_mono; [apply (SaveExposures_all_or_nothing w10 two_writes w10_reachable)|..]; [|by intros].
  intros rs w' [-> H]. rewrite H. split; vm_compute; reflexivity.
Defined.

Lemma profile_counts_are_true_witness :
  reachable w10 /\
  wp (AccountRepo.FindByID 1)
    (fun u _ => AccountDomain.u_FollowerCount u = 1 /\ AccountDomain.u_WorkCount u = 1)
    (fun err _ => exists text, err = EDriver text) w10.
Proof.
  split; [exact w10_reachable|].
  eapply wp_mono; [apply (profile_counts_are_true w10 1 w10_reachable)|..].
  - intros u w' (_ & _ & -> & ->). split; vm_compute; reflexivity.
  - intros err w' [[_ H]|H]; [|exact H]. vm_compute in H. discriminate H.
Defined.

Lemma comment_pages_fit_witness :
  reachable w10 /\
  InteractionRepo.comment_page 1 None 1 (db w10) ++
  InteractionRepo.comment_page 1 (Some (InteractionDomain.mkCommentCursor (cm_CreatedAt w10_comment) 1)) 1 (db w10)
  = InteractionRepo.comment_page 1 None 2 (db w10).
Proof.
  split; [exact w10_reachable|].
  refine (proj1 (comment_pages_fit w10 1 None 1 1 w10_comment w10_reachable _ _ _));
    [lia|lia|vm_compute; reflexivity].
Defined.

Definition w10_video : VideoModel :=
  Eval vm_compute in default (mkVideoModel 0 0 "" "" "" "" 0 None None 0 0 "" "" 0) (video (db w10) !! 1).

Lemma feed_pages_fit_witness :
  FeedRepo.hot_page None 1 (db w10) = [w10_video] /\
  NoDup (FeedRepo.following_page 2 None (1 + 1) (db w10)).
Proof.
  assert (FeedRepo.hot_page None 1 (db w10) = [w10_video]) as Hh by (vm_compute; reflexivity).
  assert (FeedRepo.following_page 2 None 1 (db w10) = [w10_video]) as Hf by (vm_compute; reflexivity).
  split; [exact Hh|].
  refine (proj1 (proj2 (proj2 (proj2 (feed_pages_fit w10 2 None None 1 1 w10_video w10_video
    w10_reachable _ _ _ _))))); [lia|lia|rewrite Hh; reflexivity|rewrite Hf; reflexivity].
Defined.
