(* ===== verification/Ports.v ===== *)
(** * The interfaces of the services

    Each Go interface a service depends on is a record of operations; a dependency that
    may be nil is an [option]. The laws a theorem needs of an implementation are classes
    over the record, declared where they are used. *)
From S2P Require Import Prelude.
From S2P Require Import GoStd.
From S2P Require Import InteractionDomain.
From S2P Require Import FeedDomain.
From S2P Require Import Errors.
From S2P Require Import Models.
From S2P Require Import Redis.
From S2P Require Import Store.

(** [MessageWriter], with the methods of [ActorMessageWriter] when the implementation has
    them. The result of the calls is not used. *)
Record MessageWriter := {
  CreateFromEvent : Z -> string -> string -> string -> string -> string -> M unit;
  CreateFromActorEvent :
    option (Z -> string -> string -> string -> string -> string -> Z -> string -> string -> M unit);
}.

Record HotScoreRecorder := { AddHotScore : Z -> Z -> Time -> M unit }.

Record StatCache := { SetVideoStat : VideoStat -> M unit }.

Record ActionStateResult := mkActionStateResult {
  st_VideoID : Z;
  st_ActionType : string;
  st_Active : bool;
  st_LikeCount : Z;
  st_FavoriteCount : Z;
  st_Delta : Z;
  st_IdempotencyKey : string;
}.

Record ActionStateStore := {
  SetActionState : Z -> Z -> string -> bool -> string -> option VideoStat -> M ActionStateResult;
}.

Record ActionEventPublisher := { PublishActionChanged : ActionChangedEvent -> M unit }.

Record PublishedEventPublisher := { PublishVideoPublished : PublishedEvent -> M unit }.

Record ViewEventPublisher := { PublishViewEventRecorded : ViewEventRecordedEvent -> M unit }.

Record FollowFeedBackfiller := {
  bf_CountFollowers : Z -> M Z;
  bf_ListAuthorRecentVideos : Z -> Z -> M (list (option FeedPageItem));
  bf_AddInboxItems : Z -> list Z -> FeedPageItem -> Z -> M unit;
}.

Record FanoutRepository := {
  fr_CountFollowers : Z -> M Z;
  fr_ListFollowerIDs : Z -> Z -> Z -> M (list Z);
  fr_BatchGetFeedCards : list Z -> M (gmap Z FeedCard);
  fr_BatchGetFeedStats : list Z -> M (gmap Z FeedStat);
}.

Record FollowingIndexCache := {
  ix_AddInboxItems : Z -> list Z -> FeedPageItem -> Z -> M unit;
  ix_AddAuthorOutboxItem : Z -> FeedPageItem -> Z -> M unit;
}.

Record FeedCacheWriter := {
  cw_SetCards : gmap Z FeedCard -> Z -> M unit;
  cw_SetStats : gmap Z FeedStat -> Z -> M unit;
}.

Record FeedPreheater := { PreheatFeedVideo : Z -> Z -> M unit }.

Record TokenSigner := { SignAccessToken : Z -> string -> M string; AccessTTL : Z }.

(** Run an optional computation and forget how it went ([_ = f()]). *)
Definition ignore {A} (m : M A) : M unit := _ ← attempt m; mret tt.

(** An operation that leaves the database alone. *)
Definition keeps_db {A} (m : M A) : Prop := forall w, db (m w).2 = db w /\ grows w (m w).2.

Lemma wp_ignore {A} (m : M A) Q E w :
  wp m (fun _ w' => Q tt w') (fun _ w' => Q tt w') w -> wp (ignore m) Q E w.
Proof.
  intros Hm. unfold ignore. apply wp_bind, wp_attempt. eapply wp_mono; [exact Hm| |]; intros; by apply wp_ret.
Qed.

Lemma wp_keeps_db {A} (m : M A) (Q : A -> World -> Prop) E w :
  keeps_db m -> (forall a w', db w' = db w -> grows w w' -> Q a w') ->
  (forall e w', db w' = db w -> grows w w' -> E e w') -> wp m Q E w.
Proof.
  intros Hm HQ HE. unfold wp. specialize (Hm w). destruct (m w) as [[e|a] w']; simpl in *; naive_solver.
Qed.

