(* ===== verification/RecommendationService.v ===== *)
(** * Recommendation service ([internal/application/recommendation/service.go])

    Candidates are scored, sorted, cut at the cursor and spread over their authors; the
    exposures of the last days decide what may be shown again. [math.Log1p] is a parameter;
    the other operations on [float64] are computed. *)
From S2P Require Import Prelude.
From S2P Require Import GoStd.
From S2P Require Import EmbeddingDomain.
From S2P Require Import RecommendationDomain.
From S2P Require Import Errors.
From S2P Require Import Models.
From S2P Require Import Store.
From S2P Require Import Codec.
From S2P Require Import Ports.
From S2P Require ExposureRepo.
From S2P Require RecommendationRepo.

Class MathLib := { Log1p : float64 -> float64 }.

Definition defaultLimit : Z := 10.
Definition candidatePoolMultiplier : Z := 8.
Definition minCandidatePoolSize : Z := 50.
Definition maxCandidatePoolSize : Z := 500.

(** [Service.now]. *)
Definition service_now : M Time := t ← time_now; mret (time_Truncate t minute).

Record RecommendInput := mkRecommendInput {
  rq_UserID : Z; rq_Scene : string; rq_RequestID : string; rq_Cursor : string; rq_Limit : Z }.

Record CandidateResult := mkCandidateResult {
  rr_UserID : Z; rr_Scene : string; rr_RequestID : string;
  rr_Candidates : list Candidate; rr_NextCursor : string; rr_HasMore : bool }.

Record ExposureInput := mkExposureInput {
  xi_UserID : Z; xi_VideoID : Z; xi_Scene : string; xi_RequestID : string }.

Record ExposureDecisionResult := mkExposureDecisionResult {
  xr_UserID : Z; xr_Scene : string; xr_RequestID : string; xr_Decisions : list ExposureDecision }.

(** ** Ranking *)

Definition normalizeLimit (limit : Z) : Z := normalize_limit defaultLimit MaxLimit limit.

Definition candidatePoolLimit (limit : Z) : Z :=
  let poolLimit := limit * candidatePoolMultiplier in
  let poolLimit := if poolLimit <? minCandidatePoolSize then minCandidatePoolSize else poolLimit in
  if maxCandidatePoolSize <? poolLimit then maxCandidatePoolSize else poolLimit.

Section Ranking.
Context `{MathLib}.

Definition rankScore (similarity : float64) (hotScore : Z) (freshness : float64)
    (hasUserVector : bool) : float64 :=
  let hot := float_div (Log1p (float_of_int (Z.max hotScore 0))) (float_of_int 10) in
  if hasUserVector
  then float_add (float_add (float_mul similarity (float_const 70 100)) (float_mul hot (float_const 20 100)))
         (float_mul freshness (float_const 10 100))
  else float_add (float_mul hot (float_const 65 100)) (float_mul freshness (float_const 35 100)).

(** [Duration.Hours]: whole hours and the rest as a fraction. *)
Definition duration_Hours (d : Z) : float64 :=
  float_add (float_of_int (Z.quot d hour)) (float_div (float_of_int (Z.rem d hour)) (float_of_int hour)).

Definition freshnessScore (now publishedAt : Time) : float64 :=
  if time_IsZero publishedAt then float_zero else
  let hours := duration_Hours (time_Sub now publishedAt) in
  let hours := if float_ltb hours float_zero then float_zero else hours in
  float_div (float_of_int 1) (float_add (float_of_int 1) (float_div hours (float_of_int 72))).

Definition recommendationReason (hasUserVector : bool) (similarity : float64) (hotScore : Z) : string :=
  if hasUserVector && float_ltb (float_const 5 100) similarity then "interest_match"
  else if 0 <? hotScore then "hot" else "fresh".

(** The [less] of [sortCandidates]. *)
Definition candidate_less (left_ right_ : Candidate) : bool :=
  if negb (float_eqb (cd_RankScore left_) (cd_RankScore right_))
  then float_ltb (cd_RankScore right_) (cd_RankScore left_)
  else if negb (time_Equal (cd_PublishedAt left_) (cd_PublishedAt right_))
  then time_After (cd_PublishedAt left_) (cd_PublishedAt right_)
  else cd_VideoID right_ <? cd_VideoID left_.

Definition sortCandidates (candidates : list Candidate) : list Candidate :=
  stable_sort candidate_less candidates.

(** The loop of [rankCandidates]. *)
Definition score_candidate (now : Time) (userVector : option (list float64))
    (vectors : gmap Z (list float64)) (c : Candidate) : Candidate :=
  let freshness := freshnessScore now (cd_PublishedAt c) in
  let similarity :=
    match userVector with
    | Some userVector =>
        match vectors !! cd_VideoID c with
        | Some (x :: vector) => default float_zero (CosineSimilarity userVector (x :: vector))
        | _ => float_zero
        end
    | None => float_zero
    end in
  let hasUserVector := bool_decide (is_Some userVector) in
  mkCandidate (cd_VideoID c) (cd_AuthorID c)
    (rankScore similarity (cd_HotScore c) freshness hasUserVector) similarity (cd_HotScore c)
    freshness (recommendationReason hasUserVector similarity (cd_HotScore c)) (cd_PublishedAt c).

Definition rankCandidates `{Collation} `{Codec} (userID : Z) (pool : list Candidate)
    : M (list Candidate) :=
  match pool with
  | [] => mret []
  | _ =>
      let videoIDs := filter (fun id => 0 < id) (cd_VideoID <$> pool) in
      vectors ← RecommendationRepo.LoadVideoVectors videoIDs;
      userVector ← RecommendationRepo.LoadUserInterestVector userID;
      now ← service_now;
      mret (sortCandidates (score_candidate now userVector vectors <$> pool))
  end.
End Ranking.

(** ** Spreading over the authors *)

(** The first loop of [interleaveByAuthor]: what is put out and what is delayed. *)
Fixpoint spread_first (previousAuthorID : Z) (candidates : list Candidate)
    : list Candidate * list Candidate :=
  match candidates with
  | [] => ([], [])
  | c :: candidates =>
      if negb (previousAuthorID =? 0) && (cd_AuthorID c =? previousAuthorID)
      then let '(output, delayed) := spread_first previousAuthorID candidates in (output, c :: delayed)
      else let '(output, delayed) := spread_first (cd_AuthorID c) candidates in (c :: output, delayed)
  end.

(** One round over the delayed candidates; [lastAuthor] is the author at the end of the
    output. *)
Fixpoint spread_round (lastAuthor : option Z) (delayed : list Candidate)
    : list Candidate * list Candidate :=
  match delayed with
  | [] => ([], [])
  | c :: delayed =>
      if bool_decide (lastAuthor = Some (cd_AuthorID c))
      then let '(output, remaining) := spread_round lastAuthor delayed in (output, c :: remaining)
      else let '(output, remaining) := spread_round (Some (cd_AuthorID c)) delayed in
           (c :: output, remaining)
  end.

(** The rounds; a round without progress ends them. [None]: the fuel is used up. *)
Fixpoint spread_rounds (fuel : nat) (output delayed : list Candidate) : option (list Candidate) :=
  match fuel, delayed with
  | _, [] => Some output
  | O, _ => None
  | S fuel, _ =>
      let '(more, remaining) := spread_round (cd_AuthorID <$> last output) delayed in
      match more with
      | [] => Some (output ++ remaining)
      | _ => spread_rounds fuel (output ++ more) remaining
      end
  end.

Definition interleave_fuel (fuel : nat) (candidates : list Candidate) : option (list Candidate) :=
  if (length candidates <=? 2)%nat then Some candidates
  else let '(output, delayed) := spread_first 0 candidates in spread_rounds fuel output delayed.

(** Every round but the last puts out a candidate, so one round per candidate is enough
    ([interleave_total]). *)
Definition interleaveByAuthor (candidates : list Candidate) : list Candidate :=
  default candidates (interleave_fuel (S (length candidates)) candidates).

(** ** Cursors *)

Definition sameScore (a b : float64) : bool :=
  float_ltb (float_abs (float_sub a b)) (float_const 1 1000000000).

Definition filterByCursor (candidates : list Candidate) (cursor : option Cursor) : list Candidate :=
  match cursor with
  | None => candidates
  | Some k => filter (fun c =>
      float_ltb (cd_RankScore c) (rc_RankScore k)
      || (sameScore (cd_RankScore c) (rc_RankScore k)
          && time_Before (cd_PublishedAt c) (rc_PublishedAt k))
      || (sameScore (cd_RankScore c) (rc_RankScore k)
          && time_Equal (cd_PublishedAt c) (rc_PublishedAt k)
          && (cd_VideoID c <? rc_VideoID k)) = true) candidates
  end.

Section Service.
Context `{Collation} `{Codec} `{MathLib}.

Definition cursor_shape : list (string * json_kind) :=
  [("rank_score", KFloat); ("published_at", KText); ("video_id", KInt)]%string.

Definition parseCursor (raw : string) : recommendation_error + option Cursor :=
  let raw := TrimSpace raw in
  if String.eqb raw "" then inr None else
  match decode_base64 raw with
  | None => inl ErrInvalidCursor
  | Some content =>
      match json_Unmarshal cursor_shape content with
      | Some [JFloat score; JText text; JInt id] =>
          match ParseRFC3339Nano (TrimSpace text) with
          | None => inl ErrInvalidCursor
          | Some t =>
              let cursor := Some (mkCursor score t id) in
              if negb (Valid cursor) then inl ErrInvalidCursor else inr cursor
          end
      | _ => inl ErrInvalidCursor
      end
  end.

Definition encodeCursor (cursor : option Cursor) : string :=
  match cursor with
  | Some c =>
      if negb (Valid cursor) then "" else
      RawURL_EncodeToString (json_Marshal
        [("rank_score", JFloat (rc_RankScore c));
         ("published_at", JText (FormatRFC3339Nano (rc_PublishedAt c)));
         ("video_id", JInt (rc_VideoID c))])%string
  | None => ""
  end.

(** ** Operations *)

Definition Recommend (input : RecommendInput) : M CandidateResult :=
  let limit := normalizeLimit (rq_Limit input) in
  match parseCursor (rq_Cursor input) with
  | inl err => throw (ERecommendation err)
  | inr cursor =>
      match NewCandidateRequest (rq_UserID input) (rq_Scene input) (rq_RequestID input) cursor limit with
      | inl err => throw (ERecommendation err)
      | inr req =>
          let poolLimit := candidatePoolLimit limit in
          pool ← map_error (fun _ => EApp ErrLoadRecommendationFailed)
                   (RecommendationRepo.ListCandidatePool (cr_UserID req) poolLimit);
          ranked ← map_error (fun _ => EApp ErrLoadRecommendationFailed)
                     (rankCandidates (cr_UserID req) pool);
          let ranked := filterByCursor ranked (cr_Cursor req) in
          let '(ranked, hasMore) := page_of limit ranked in
          let nextCursor := match last ranked with
            | Some c => encodeCursor (Some (mkCursor (cd_RankScore c) (cd_PublishedAt c) (cd_VideoID c)))
            | None => ""%string
            end in
          mret (mkCandidateResult (cr_UserID req) (cr_Scene req) (cr_RequestID req)
                  (interleaveByAuthor ranked) nextCursor hasMore)
      end
  end.

Definition decide_exposure (exposureByVideoID : gmap Z RecExposure) (videoID : Z) : ExposureDecision :=
  match exposureByVideoID !! videoID with
  | Some exposure => RestoreExposureDecision videoID false ExposureDecisionReasonRecentlyExposed
                       (Some (re_LastExposedAt exposure))
  | None => RestoreExposureDecision videoID true ExposureDecisionReasonFresh None
  end.

Definition DecideExposures (userID : Z) (scene requestID : string) (videoIDs : list Z)
    : M ExposureDecisionResult :=
  match NewExposureDecisionRequest userID scene requestID videoIDs with
  | inl err => throw (ERecommendation err)
  | inr req =>
      let result := mkExposureDecisionResult (dr_UserID req) (dr_Scene req) (dr_RequestID req) in
      match dr_VideoIDs req with
      | [] => mret (result [])
      | _ =>
          now ← service_now;
          exposures ← map_error (fun _ => EApp ErrLoadExposureDecisionsFailed)
            (ExposureRepo.ListRecentExposures (dr_UserID req) (dr_VideoIDs req)
               (now - RecentExposureWindow));
          let exposureByVideoID :=
            foldl (fun m x => <[re_VideoID x := x]> m) (∅ : gmap Z RecExposure) exposures in
          mret (result (decide_exposure exposureByVideoID <$> dr_VideoIDs req))
      end
  end.

(** The loop of [SaveExposures]: the first invalid input ends it; of the inputs for one video
    the first is kept. *)
Fixpoint exposure_writes (seen : list Z) (inputs : list ExposureInput)
    : recommendation_error + list ExposureWrite :=
  match inputs with
  | [] => inr []
  | input :: inputs =>
      match NewExposureWrite (xi_UserID input) (xi_VideoID input) (xi_Scene input)
              (xi_RequestID input) with
      | inl err => inl err
      | inr write =>
          if bool_decide (ew_VideoID write ∈ seen) then exposure_writes seen inputs else
          match exposure_writes (ew_VideoID write :: seen) inputs with
          | inl err => inl err
          | inr writes => inr (write :: writes)
          end
      end
  end.

Definition SaveExposures (inputs : list ExposureInput) : M (list RecExposure) :=
  match exposure_writes [] inputs with
  | inl err => throw (ERecommendation err)
  | inr [] => mret []
  | inr writes =>
      map_error (fun err => if errors_Is err (ERecommendation ErrVideoNotFound) then err
                            else EApp ErrSaveRecommendationExposureFailed)
        (ExposureRepo.SaveExposures (Some <$> writes))
  end.
End Service.

(** ** Spreading over the authors: what it does *)

(** No element has the author before it; [prev] is the author before the list. *)
Fixpoint apart (prev : option Z) (l : list Candidate) : Prop :=
  match l with
  | [] => True
  | c :: l => prev <> Some (cd_AuthorID c) /\ apart (Some (cd_AuthorID c)) l
  end.

Definition last_author (prev : option Z) (l : list Candidate) : option Z :=
  match last l with Some c => Some (cd_AuthorID c) | None => prev end.

Lemma last_author_cons prev c l : last_author prev (c :: l) = last_author (Some (cd_AuthorID c)) l.
Proof. unfold last_author. rewrite last_cons. by destruct (last l). Qed.

Lemma apart_app prev a b : apart prev (a ++ b) <-> apart prev a /\ apart (last_author prev a) b.
Proof.
  revert prev. induction a as [|c a IH]; intros prev; simpl.
  - unfold last_author. simpl. tauto.
  - rewrite IH, last_author_cons. tauto.
Qed.

Lemma apart_lookup prev l i c c' :
  apart prev l -> l !! i = Some c -> l !! S i = Some c' -> cd_AuthorID c <> cd_AuthorID c'.
Proof.
  revert prev i. induction l as [|x l IH]; intros prev i Ha Hi Hs; [done|].
  destruct Ha as [_ Ha]. destruct i as [|i]; simpl in *; [|by eapply IH].
  injection Hi as ->. destruct l as [|y l]; [done|]. injection Hs as ->. destruct Ha as [Hn _]. congruence.
Qed.

Lemma spread_first_spec prev cs :
  Forall (fun c => 0 < cd_AuthorID c) cs -> 0 <= prev ->
  let '(output, delayed) := spread_first prev cs in
  output ++ delayed ≡ₚ cs /\ apart (if prev =? 0 then None else Some prev) output /\
  (cs <> [] -> prev = 0 -> output <> []).
Proof.
  intros Hcs. revert prev. induction Hcs as [|c cs Hc Hcs IH]; intros prev Hp; simpl; [done|].
  destruct (negb (prev =? 0) && (cd_AuthorID c =? prev)) eqn:Hsame.
  - specialize (IH prev Hp). destruct (spread_first prev cs) as [o d]. destruct IH as (IH1 & IH2 & _).
    simpl. split_and!; [|exact IH2|].
    + by rewrite <-IH1, Permutation_middle.
    + intros _ ->. by simpl in Hsame.
  - specialize (IH (cd_AuthorID c)). destruct (spread_first (cd_AuthorID c) cs) as [o d].
    destruct IH as (IH1 & IH2 & _); [lia|]. destruct (Z.eqb_spec (cd_AuthorID c) 0); [lia|].
    split_and!; [by rewrite <-IH1| |done]. simpl. split; [|done].
    destruct (prev =? 0); [done|]. simpl in Hsame. intros [= ->]. by rewrite Z.eqb_refl in Hsame.
Qed.

Lemma spread_round_spec la ds :
  let '(more, remaining) := spread_round la ds in
  more ++ remaining ≡ₚ ds /\ apart la more /\
  (more = [] -> remaining = ds /\ Forall (fun c => la = Some (cd_AuthorID c)) ds).
Proof.
  revert la. induction ds as [|c ds IH]; intros la; simpl; [done|].
  case_bool_decide as Hl.
  - specialize (IH la). destruct (spread_round la ds) as [o r]. destruct IH as (IH1 & IH2 & IH3).
    split_and!; [by rewrite <-IH1, Permutation_middle|done|].
    intros Ho. destruct (IH3 Ho) as [-> Hall]. split; [done|]. by constructor.
  - specialize (IH (Some (cd_AuthorID c))). destruct (spread_round (Some (cd_AuthorID c)) ds) as [o r].
    destruct IH as (IH1 & IH2 & _). split_and!; [by rewrite <-IH1|done|done].
Qed.

(** What [spread_rounds] makes of an output that is apart. *)
Definition spread_of (out all : list Candidate) : Prop :=
  out ≡ₚ all /\
  exists a b, out = a ++ b /\ apart None a /\ Forall (fun c => last_author None a = Some (cd_AuthorID c)) b.

Lemma spread_rounds_spec fuel output delayed :
  apart None output -> output <> [] -> (length delayed <= fuel)%nat ->
  exists out, spread_rounds fuel output delayed = Some out /\ spread_of out (output ++ delayed).
Proof.
  revert output delayed. induction fuel as [|fuel IH]; intros output delayed Ha Hne Hf.
  - destruct delayed as [|]; [|simpl in Hf; lia]. exists output. rewrite app_nil_r. split; [done|].
    split; [done|]. exists output, []. by rewrite app_nil_r.
  - destruct delayed as [|d ds] eqn:Hds.
    { exists output. rewrite app_nil_r. split; [done|]. split; [done|].
      exists output, []. by rewrite app_nil_r. }
    rewrite <-Hds in *. assert (spread_rounds (S fuel) output delayed =
      let '(more, remaining) := spread_round (cd_AuthorID <$> last output) delayed in
      match more with
      | [] => Some (output ++ remaining)
      | _ => spread_rounds fuel (output ++ more) remaining
      end) as -> by by rewrite Hds.
    pose proof (spread_round_spec (cd_AuthorID <$> last output) delayed) as Hr.
    assert (cd_AuthorID <$> last output = last_author None output) as Hla.
    { unfold last_author. by destruct (last output). }
    rewrite Hla in *. destruct (spread_round (last_author None output) delayed) as [more rest].
    destruct Hr as (Hperm & Hapart & Hnone). destruct more as [|m more].
    + destruct (Hnone eq_refl) as [-> Hall]. eexists. split; [done|]. split; [done|]. by exists output, delayed.
    + destruct (IH (output ++ m :: more) rest) as (out & Hout & Hp & Hsp).
      * rewrite apart_app. by split.
      * by destruct output.
      * apply Permutation_length in Hperm. rewrite length_app in Hperm. simpl in Hperm. lia.
      * exists out. split; [done|]. split; [|done]. by rewrite Hp, <-app_assoc, Hperm.
Qed.

Lemma interleave_total cs :
  Forall (fun c => 0 < cd_AuthorID c) cs -> (2 < length cs)%nat ->
  exists out, interleave_fuel (S (length cs)) cs = Some out /\ spread_of out cs.
Proof.
  intros Hcs Hlen. unfold interleave_fuel. destruct (Nat.leb_spec (length cs) 2); [lia|].
  pose proof (spread_first_spec 0 cs Hcs) as Hf. destruct (spread_first 0 cs) as [output delayed].
  destruct Hf as (Hperm & Hap & Hne); [lia|]. simpl in Hap.
  destruct (spread_rounds_spec (S (length cs)) output delayed) as (out & Hout & Hp & Hsp).
  - done.
  - apply Hne; [|done]. intros ->. simpl in Hlen. lia.
  - apply Permutation_length in Hperm. rewrite length_app in Hperm. lia.
  - exists out. split; [done|]. split; [|done]. by rewrite Hp.
Qed.

Lemma spread_rounds_Permutation fuel output delayed out :
  spread_rounds fuel output delayed = Some out -> out ≡ₚ output ++ delayed.
Proof.
  revert output delayed. induction fuel as [|fuel IH]; intros output [|d ds]; simpl.
  1,3: intros [= <-]; by rewrite app_nil_r.
  - done.
  - pose proof (spread_round_spec (cd_AuthorID <$> last output) (d :: ds)) as Hr. simpl in Hr.
    destruct (bool_decide _), (spread_round _ ds) as [more rest]; destruct Hr as (Hperm & _).
    + destruct more as [|m more].
      * intros [= <-]. by rewrite Hperm.
      * intros ->%IH. by rewrite <-app_assoc, <-Hperm.
    + intros ->%IH. by rewrite <-app_assoc, <-Hperm.
Qed.

Lemma spread_first_Permutation prev cs :
  let '(output, delayed) := spread_first prev cs in output ++ delayed ≡ₚ cs.
Proof.
  revert prev. induction cs as [|c cs IH]; intros prev; simpl; [done|].
  destruct (negb (prev =? 0) && (cd_AuthorID c =? prev)).
  - specialize (IH prev). destruct (spread_first prev cs) as [o d]. by rewrite <-IH, Permutation_middle.
  - specialize (IH (cd_AuthorID c)). destruct (spread_first (cd_AuthorID c) cs) as [o d]. by rewrite <-IH.
Qed.

Lemma interleaveByAuthor_Permutation cs : interleaveByAuthor cs ≡ₚ cs.
Proof.
  unfold interleaveByAuthor, interleave_fuel. destruct (length cs <=? 2)%nat; [done|].
  pose proof (spread_first_Permutation 0 cs) as Hf. destruct (spread_first 0 cs) as [o d].
  destruct (spread_rounds _ o d) as [out|] eqn:Hs; [|done]. simpl.
  by rewrite (spread_rounds_Permutation _ _ _ _ Hs).
Qed.
