(* ===== verification/FeedService.v ===== *)
(** * Feed service ([internal/application/feed/service.go])

    A scene selects a strategy; a strategy finds a light page, in the cache or in the
    repository, and the page is assembled with cards, counters and the viewer's marks. The
    interfaces the service depends on are records; an interface that may be nil is an
    [option]. The metrics are left out. *)
From S2P Require Import Prelude.
From S2P Require Import GoStd.
From S2P Require Import GoHash.
From S2P Require Import FeedDomain.
From S2P Require Import Errors.
From S2P Require Import Models.
From S2P Require Import Redis.
From S2P Require Import Store.
From S2P Require Import Codec.
From S2P Require Import Ports.
From S2P Require RecommendationDomain.
From S2P Require RecommendationService.

Definition defaultFeedLimit : Z := 10.
Definition timelineFirstPageCacheTTL : Z := 5 * second.
Definition timelinePageCacheTTL : Z := 45 * second.
Definition feedCardCacheTTL : Z := 15 * minute.
Definition feedStatCacheTTL : Z := 15 * second.

Record FeedRequest := mkFeedRequest {
  fq_Scene : string;
  fq_Cursor : string;
  fq_Limit : Z;
  fq_ViewerID : Z;
  fq_ClientContext : gmap string string;
}.

Record FeedResult := mkFeedResult {
  fr_Scene : string;
  fr_Items : list FeedItem;
  fr_NextCursor : string;
  fr_HasMore : bool;
}.

(** ** Interfaces *)

(** [domainfeed.Repository], with [PublishedVideoIDs] when the implementation has it. *)
Record FeedRepository := {
  rp_ListTimelinePage : option TimelineCursor -> Z -> M (list FeedPageItem);
  rp_ListHotPage : option HotCursor -> Z -> M (list FeedPageItem);
  rp_ListFollowingPage : Z -> option TimelineCursor -> Z -> M (list FeedPageItem);
  rp_ListFollowingPullAuthorIDs : Z -> M (list Z);
  rp_BatchGetFeedCards : list Z -> M (gmap Z FeedCard);
  rp_BatchGetFeedStats : list Z -> M (gmap Z FeedStat);
  rp_BatchGetViewerActionStates : Z -> list Z -> M (gmap Z ViewerActionState);
  rp_PublishedVideoIDs : option (list Z -> M (gmap Z bool));
}.

(** [ListFollowingIndexPage] of [FollowingIndexCache]; [None]: the index does not exist. *)
Definition FollowingIndex : Type :=
  Z -> list Z -> option TimelineCursor -> Z -> M (option (list FeedPageItem)).

(** [FeedCache], with [FollowingIndexCache] when the implementation has it. *)
Record FeedCache := {
  ca_GetPage : string -> M (option FeedPage);
  ca_SetPage : string -> FeedPage -> Z -> M unit;
  ca_GetCards : list Z -> M (gmap Z FeedCard);
  ca_SetCards : gmap Z FeedCard -> Z -> M unit;
  ca_GetStats : list Z -> M (gmap Z FeedStat);
  ca_SetStats : gmap Z FeedStat -> Z -> M unit;
  ca_ListHotWindowPage : Time -> Z -> Z -> M (list (option FeedPageItem));
  ca_FollowingIndex : option FollowingIndex;
}.

Definition Recommender : Type :=
  RecommendationService.RecommendInput -> M RecommendationService.CandidateResult.

(** [singleflight.Group.Do] *)
Definition Group : Type := string -> M FeedPage -> M FeedPage.

Record TimelineStrategy := mkTimelineStrategy {
  ts_scene : string;
  ts_repo : FeedRepository;
  ts_cache : option FeedCache;
  ts_firstPageTTL : Z;
  ts_pageTTL : Z;
  ts_group : option Group;
}.

Record HotStrategy := mkHotStrategy { hs_repo : FeedRepository; hs_cache : option FeedCache }.

Record FollowingStrategy := mkFollowingStrategy {
  ws_repo : FeedRepository;
  ws_cache : option FeedCache;
  ws_followingIndex : option FollowingIndex;
}.

Record RecommendStrategy := mkRecommendStrategy {
  es_repo : FeedRepository;
  es_cache : option FeedCache;
  es_recommender : Recommender;
}.

(** The implementations of [Strategy] in the package, and any other. *)
Inductive Strategy :=
  | Timeline (s : TimelineStrategy)
  | Hot (s : HotStrategy)
  | Following (s : FollowingStrategy)
  | RecommendBy (s : RecommendStrategy)
  | Other (scene : string) (list_ : FeedRequest -> M FeedResult).

(** ** Pages *)

Definition normalizeLimit (limit : Z) : Z := normalize_limit defaultFeedLimit MaxLimit limit.

Definition clientContextValue (context : gmap string string) (key : string) : string :=
  default ""%string (context !! key).

Definition feedPageVideoIDs (items : list (option FeedPageItem)) : list Z :=
  dedup (filter (fun id => 0 < id) (omap (fmap pi_VideoID) items)).

Definition missingIDs {A} (videoIDs : list Z) (found : gmap Z A) : list Z :=
  filter (fun id => found !! id = None) videoIDs.

Definition missingCardIDs : list Z -> gmap Z FeedCard -> list Z := missingIDs.
Definition missingStatIDs : list Z -> gmap Z FeedStat -> list Z := missingIDs.

(** The loaded entries replace those of the target. *)
Definition mergeCards (target source : gmap Z FeedCard) : gmap Z FeedCard := source ∪ target.
Definition mergeStats (target source : gmap Z FeedStat) : gmap Z FeedStat := source ∪ target.

(** The loop that builds the items of [assembleFeedItems]. *)
Definition assemble_item (cards : gmap Z FeedCard) (stats : gmap Z FeedStat)
    (viewerActions : gmap Z ViewerActionState) (pageItem : option FeedPageItem) : option FeedItem :=
  pageItem ← pageItem;
  card ← cards !! pi_VideoID pageItem;
  let stat := default (mkFeedStat (pi_VideoID pageItem) 0 0 0) (stats !! pi_VideoID pageItem) in
  let publishedAt := if time_IsZero (pi_PublishedAt pageItem) then fc_PublishedAt card
                     else pi_PublishedAt pageItem in
  let item := RestoreFeedItem (fc_VideoID card) (fc_AuthorID card) (fc_AuthorNickname card)
    (fc_AuthorAvatarURL card) (fc_Title card) (fc_Description card) (fc_MediaURL card)
    (fc_CoverURL card) (fs_LikeCount stat) (fs_CommentCount stat) (fs_FavoriteCount stat)
    publishedAt in
  let '(liked, favorited) := match viewerActions !! fi_VideoID item with
    | Some a => (va_Liked a, va_Favorited a)
    | None => (fi_Liked item, fi_Favorited item)
    end in
  Some (mkFeedItem (fi_VideoID item) (fi_AuthorID item) (fi_AuthorNickname item)
    (fi_AuthorAvatarURL item) (fi_Title item) (fi_Description item) (fi_MediaURL item)
    (fi_CoverURL item) (fi_LikeCount item) (fi_CommentCount item) (fi_FavoriteCount item)
    liked favorited (pi_HotScore pageItem) (fi_PublishedAt item)).

(** A read of the cache that may fail: then nothing is found. *)
Definition from_cache {A} (cache : option FeedCache) (get : FeedCache -> M (gmap Z A)) : M (gmap Z A) :=
  match cache with
  | None => mret ∅
  | Some cache =>
      r ← attempt (get cache);
      match r with inr found => mret found | inl _ => mret ∅ end
  end.

Definition to_cache (cache : option FeedCache) (set : FeedCache -> M unit) : M unit :=
  match cache with Some cache => ignore (set cache) | None => mret tt end.

Definition load_cards (repo : FeedRepository) (cache : option FeedCache) (missing : list Z)
    (cards : gmap Z FeedCard) : M (gmap Z FeedCard) :=
  match missing with
  | [] => mret cards
  | _ =>
      loadedCards ← rp_BatchGetFeedCards repo missing;
      _ ← to_cache cache (fun c => ca_SetCards c loadedCards feedCardCacheTTL);
      mret (mergeCards cards loadedCards)
  end.

Definition load_stats (repo : FeedRepository) (cache : option FeedCache) (missing : list Z)
    (stats : gmap Z FeedStat) : M (gmap Z FeedStat) :=
  match missing with
  | [] => mret stats
  | _ =>
      loadedStats ← rp_BatchGetFeedStats repo missing;
      _ ← to_cache cache (fun c => ca_SetStats c loadedStats feedStatCacheTTL);
      mret (mergeStats stats loadedStats)
  end.

Definition assembleFeedItems (repo : FeedRepository) (cache : option FeedCache)
    (pageItems : list (option FeedPageItem)) (viewerID : Z) : M (list FeedItem) :=
  let videoIDs := feedPageVideoIDs pageItems in
  match videoIDs with
  | [] => mret []
  | _ =>
      cards ← from_cache cache (fun c => ca_GetCards c videoIDs);
      stats ← from_cache cache (fun c => ca_GetStats c videoIDs);
      cards ← load_cards repo cache (missingCardIDs videoIDs cards) cards;
      stats ← load_stats repo cache (missingStatIDs videoIDs stats) stats;
      viewerActions ← (if 0 <? viewerID then rp_BatchGetViewerActionStates repo viewerID videoIDs
                       else mret ∅);
      mret (omap (assemble_item cards stats viewerActions) pageItems)
  end.

(** ** The page cache *)

Definition feedPageCacheKey (scene cursor : string) (limit : Z) : string :=
  let scene := NormalizeScene scene in
  let cursor := TrimSpace cursor in
  if String.eqb cursor ""
  then "feed:page:v1:" +:+ scene +:+ ":limit:" +:+ fmt_d limit +:+ ":first"
  else "feed:page:v1:" +:+ scene +:+ ":limit:" +:+ fmt_d limit +:+ ":cursor:"
       +:+ hex_EncodeToString (sha1_sum cursor).

Definition feedPageCacheTTL (cursor cacheKey : string) (firstPageTTL pageTTL : Z) : Z :=
  let ttl := if String.eqb (TrimSpace cursor) "" then firstPageTTL else pageTTL in
  if ttl <=? 0 then 0 else
  let jitterPercent := 10 + fnv32a cacheKey mod 11 in
  int64_of (ttl + Z.quot (int64_of (jitterPercent * ttl)) 100).

Definition cached_page (cache : FeedCache) (cacheKey : string) (otherwise : M FeedPage) : M FeedPage :=
  r ← attempt (ca_GetPage cache cacheKey);
  match r with
  | inr (Some page) => mret page
  | _ => otherwise
  end.

Definition loadFeedPage (cache : option FeedCache) (scene cursor : string) (limit firstPageTTL pageTTL : Z)
    (group : option Group) (load : M FeedPage) : M FeedPage :=
  match cache, group with
  | Some cache, Some group_Do =>
      let cacheKey := feedPageCacheKey scene cursor limit in
      cached_page cache cacheKey (group_Do cacheKey (cached_page cache cacheKey (
        page ← load;
        _ ← ignore (ca_SetPage cache cacheKey page
              (feedPageCacheTTL cursor cacheKey firstPageTTL pageTTL));
        mret page)))
  | _, _ => load
  end.

Section FeedService.
Context `{Codec}.

(** ** Cursors *)

Definition parseTimelineCursor (raw : string) : feed_error + option TimelineCursor :=
  match parse_cursor "published_at" "video_id" raw with
  | inl _ => inl ErrInvalidCursor
  | inr cursor => inr ((fun p => mkTimelineCursor p.1 p.2) <$> cursor)
  end.

Definition encodeTimelineCursor (cursor : option TimelineCursor) : string :=
  encode_cursor "published_at" "video_id" ((fun c => (tc_PublishedAt c, tc_VideoID c)) <$> cursor).

Definition hotCursorPayload : list (string * json_kind) :=
  [("hot_score", KInt); ("published_at", KText); ("video_id", KInt); ("window_end", KText);
   ("offset", KInt)]%string.

Definition parseHotCursor (raw : string) : feed_error + option HotCursor :=
  let raw := TrimSpace raw in
  if String.eqb raw "" then inr None else
  match decode_base64 raw with
  | None => inl ErrInvalidCursor
  | Some content =>
      match json_Unmarshal hotCursorPayload content with
      | Some [JInt hotScore; JText publishedAt; JInt videoID; JText windowEnd; JInt offset] =>
          if negb (String.eqb (TrimSpace windowEnd) "") then
            match ParseRFC3339Nano (TrimSpace windowEnd) with
            | None => inl ErrInvalidCursor
            | Some windowEnd =>
                if offset <? 0 then inl ErrInvalidCursor
                else inr (Some (mkHotCursor 0 0 0 windowEnd offset))
            end
          else
            match ParseRFC3339Nano (TrimSpace publishedAt) with
            | None => inl ErrInvalidCursor
            | Some publishedAt =>
                if videoID <=? 0 then inl ErrInvalidCursor
                else inr (Some (mkHotCursor hotScore publishedAt videoID 0 0))
            end
      | _ => inl ErrInvalidCursor
      end
  end.

(** [omitempty]: an empty window end and a zero offset are not written. *)
Definition marshal_hot (hotScore : Z) (publishedAt : string) (videoID : Z) (windowEnd : string)
    (offset : Z) : string :=
  json_Marshal ([("hot_score"%string, JInt hotScore); ("published_at"%string, JText publishedAt);
                 ("video_id"%string, JInt videoID)]
    ++ (if String.eqb windowEnd "" then [] else [("window_end"%string, JText windowEnd)])
    ++ (if offset =? 0 then [] else [("offset"%string, JInt offset)])).

Definition encodeHotWindowCursor (windowEnd : Time) (offset : Z) : string :=
  if time_IsZero windowEnd || (offset <? 0) then ""
  else RawURL_EncodeToString (marshal_hot 0 "" 0 (FormatRFC3339Nano windowEnd) offset).

Definition encodeHotCursor (hotScore : Z) (publishedAt : Time) (videoID : Z) : string :=
  if (videoID <=? 0) || time_IsZero publishedAt then ""
  else RawURL_EncodeToString (marshal_hot hotScore (FormatRFC3339Nano publishedAt) videoID "" 0).

(** ** Strategies *)

(** The light page made of [limit + 1] rows. *)
Definition page_from (scene : string) (limit : Z) (cursor_of : FeedPageItem -> string)
    (items : list FeedPageItem) : FeedPage :=
  let '(items, hasMore) := page_of limit items in
  mkFeedPage scene (Some <$> items) (match last items with Some i => cursor_of i | None => "" end)
    hasMore.

Definition timeline_cursor_of (i : FeedPageItem) : string :=
  encodeTimelineCursor (Some (mkTimelineCursor (pi_PublishedAt i) (pi_VideoID i))).

Definition hot_cursor_of (i : FeedPageItem) : string :=
  encodeHotCursor (pi_HotScore i) (pi_PublishedAt i) (pi_VideoID i).

Definition load_failed {A} (m : M A) : M A := map_error (fun _ => EApp ErrLoadFeedFailed) m.

(** Assemble the page: the end of every [List]. *)
Definition finish (scene : string) (repo : FeedRepository) (cache : option FeedCache)
    (viewerID : Z) (page : FeedPage) : M FeedResult :=
  items ← load_failed (assembleFeedItems repo cache (fp_Items page) viewerID);
  mret (mkFeedResult scene items (fp_NextCursor page) (fp_HasMore page)).

Definition TimelineStrategy_listPageFromRepo (s : TimelineStrategy)
    (parsedCursor : option TimelineCursor) (limit : Z) : M FeedPage :=
  items ← load_failed (rp_ListTimelinePage (ts_repo s) parsedCursor (limit + 1));
  mret (page_from (ts_scene s) limit timeline_cursor_of items).

Definition TimelineStrategy_List (s : TimelineStrategy) (req : FeedRequest) : M FeedResult :=
  match parseTimelineCursor (fq_Cursor req) with
  | inl err => throw (EFeed err)
  | inr parsedCursor =>
      let limit := normalizeLimit (fq_Limit req) in
      page ← loadFeedPage (ts_cache s) (ts_scene s) (fq_Cursor req) limit (ts_firstPageTTL s)
               (ts_pageTTL s) (ts_group s) (TimelineStrategy_listPageFromRepo s parsedCursor limit);
      finish (ts_scene s) (ts_repo s) (ts_cache s) (fq_ViewerID req) page
  end.

Definition listPageFromHotWindow (cache : FeedCache) (parsedCursor : option HotCursor) (limit : Z)
    : M FeedPage :=
  now ← time_now;
  let '(windowEnd, offset) := match parsedCursor with
    | Some c => if time_IsZero (hc_WindowEnd c) then (time_Truncate now minute, 0)
                else (time_Truncate (hc_WindowEnd c) minute, hc_Offset c)
    | None => (time_Truncate now minute, 0)
    end in
  items ← load_failed (ca_ListHotWindowPage cache windowEnd offset (limit + 1));
  let '(items, hasMore) := page_of limit items in
  mret (mkFeedPage SceneHot items
          (match items with
           | [] => ""
           | _ => encodeHotWindowCursor windowEnd (offset + len_z items)
           end) hasMore).

Definition HotStrategy_listPageFromRepo (s : HotStrategy) (parsedCursor : option HotCursor) (limit : Z)
    : M FeedPage :=
  items ← load_failed (rp_ListHotPage (hs_repo s) parsedCursor (limit + 1));
  mret (page_from SceneHot limit hot_cursor_of items).

Definition HotStrategy_List (s : HotStrategy) (req : FeedRequest) : M FeedResult :=
  match parseHotCursor (fq_Cursor req) with
  | inl err => throw (EFeed err)
  | inr parsedCursor =>
      let limit := normalizeLimit (fq_Limit req) in
      let of_window := match parsedCursor with
        | None => true
        | Some c => negb (time_IsZero (hc_WindowEnd c))
        end in
      page ← match hs_cache s with
             | Some cache =>
                 if of_window then
                   page ← attempt (listPageFromHotWindow cache parsedCursor limit);
                   match parsedCursor, page with
                   | None, inl _ => HotStrategy_listPageFromRepo s None limit
                   | None, inr page =>
                       match fp_Items page with
                       | [] => HotStrategy_listPageFromRepo s None limit
                       | _ => mret page
                       end
                   | Some _, inl err => throw err
                   | Some _, inr page => mret page
                   end
                 else HotStrategy_listPageFromRepo s parsedCursor limit
             | None => HotStrategy_listPageFromRepo s parsedCursor limit
             end;
      finish SceneHot (hs_repo s) (hs_cache s) (fq_ViewerID req) page
  end.

Definition listFollowingItems (s : FollowingStrategy) (viewerID : Z)
    (parsedCursor : option TimelineCursor) (limit : Z) : M (list FeedPageItem) :=
  match ws_followingIndex s with
  | Some ListFollowingIndexPage =>
      authorIDs ← rp_ListFollowingPullAuthorIDs (ws_repo s) viewerID;
      found ← ListFollowingIndexPage viewerID authorIDs parsedCursor limit;
      match found with
      | Some items => mret items
      | None => rp_ListFollowingPage (ws_repo s) viewerID parsedCursor limit
      end
  | None => rp_ListFollowingPage (ws_repo s) viewerID parsedCursor limit
  end.

Definition FollowingStrategy_listPageFromRepo (s : FollowingStrategy) (viewerID : Z)
    (parsedCursor : option TimelineCursor) (limit : Z) : M FeedPage :=
  items ← load_failed (listFollowingItems s viewerID parsedCursor (limit + 1));
  mret (page_from SceneFollowing limit timeline_cursor_of items).

Definition FollowingStrategy_List (s : FollowingStrategy) (req : FeedRequest) : M FeedResult :=
  if fq_ViewerID req <=? 0 then throw (EFeed ErrViewerRequired) else
  match parseTimelineCursor (fq_Cursor req) with
  | inl err => throw (EFeed err)
  | inr parsedCursor =>
      let limit := normalizeLimit (fq_Limit req) in
      page ← FollowingStrategy_listPageFromRepo s (fq_ViewerID req) parsedCursor limit;
      finish SceneFollowing (ws_repo s) (ws_cache s) (fq_ViewerID req) page
  end.

Definition candidate_item (c : RecommendationDomain.Candidate) : FeedPageItem :=
  mkFeedPageItem (RecommendationDomain.cd_VideoID c) (RecommendationDomain.cd_AuthorID c)
    (RecommendationDomain.cd_PublishedAt c) (RecommendationDomain.cd_HotScore c).

Definition RecommendStrategy_List (s : RecommendStrategy) (req : FeedRequest) : M FeedResult :=
  if fq_ViewerID req <=? 0 then throw (EFeed ErrViewerRequired) else
  let limit := normalizeLimit (fq_Limit req) in
  result ← map_error (fun err => if errors_Is err (EApp ErrLoadRecommendationFailed)
                                 then EApp ErrLoadFeedFailed else err)
    (es_recommender s (RecommendationService.mkRecommendInput (fq_ViewerID req) SceneRecommend
       (clientContextValue (fq_ClientContext req) "request_id") (fq_Cursor req) limit));
  finish SceneRecommend (es_repo s) (es_cache s) (fq_ViewerID req)
    (mkFeedPage SceneRecommend
       ((fun c => Some (candidate_item c)) <$> RecommendationService.rr_Candidates result)
       (RecommendationService.rr_NextCursor result) (RecommendationService.rr_HasMore result)).

Definition Strategy_Scene (s : Strategy) : string :=
  match s with
  | Timeline s => ts_scene s
  | Hot _ => SceneHot
  | Following _ => SceneFollowing
  | RecommendBy _ => SceneRecommend
  | Other scene _ => scene
  end.

Definition Strategy_List (s : Strategy) : FeedRequest -> M FeedResult :=
  match s with
  | Timeline s => TimelineStrategy_List s
  | Hot s => HotStrategy_List s
  | Following s => FollowingStrategy_List s
  | RecommendBy s => RecommendStrategy_List s
  | Other _ list_ => list_
  end.

(** ** The service *)

Record Service := mkService {
  sv_repo : FeedRepository;
  sv_strategies : gmap string Strategy;
  sv_defaultScene : string;
}.

Definition Option_ : Type := Service -> Service.

Definition RegisterStrategy (s : Service) (strategy : option Strategy) : Service :=
  match strategy with
  | None => s
  | Some strategy =>
      mkService (sv_repo s)
        (<[NormalizeScene (Strategy_Scene strategy) := strategy]> (sv_strategies s))
        (sv_defaultScene s)
  end.

Definition WithStrategy (strategy : option Strategy) : Option_ := fun s => RegisterStrategy s strategy.

(** [group] is the zero [singleflight.Group] of the new strategy. *)
Definition NewTimelineStrategy (group : Group) (scene : string) (repo : FeedRepository) : TimelineStrategy :=
  mkTimelineStrategy (NormalizeScene scene) repo None timelineFirstPageCacheTTL
    timelinePageCacheTTL (Some group).
Definition NewHotStrategy (repo : FeedRepository) : HotStrategy := mkHotStrategy repo None.
Definition NewFollowingStrategy (repo : FeedRepository) : FollowingStrategy :=
  mkFollowingStrategy repo None None.
Definition NewRecommendStrategy (repo : FeedRepository) (recommender : Recommender) : RecommendStrategy :=
  mkRecommendStrategy repo None recommender.

(** The type switch of [WithFeedCache]. *)
Definition use_cache (cache : FeedCache) (strategy : Strategy) : Strategy :=
  match strategy with
  | Timeline s => Timeline (mkTimelineStrategy (ts_scene s) (ts_repo s) (Some cache)
                    (ts_firstPageTTL s) (ts_pageTTL s) (ts_group s))
  | Hot s => Hot (mkHotStrategy (hs_repo s) (Some cache))
  | Following s => Following (mkFollowingStrategy (ws_repo s) (Some cache)
                     (match ca_FollowingIndex cache with
                      | Some index => Some index | None => ws_followingIndex s end))
  | RecommendBy s => RecommendBy (mkRecommendStrategy (es_repo s) (Some cache) (es_recommender s))
  | Other _ _ => strategy
  end.

Definition WithFeedCache (cache : FeedCache) : Option_ := fun s =>
  mkService (sv_repo s) (use_cache cache <$> sv_strategies s) (sv_defaultScene s).

Definition WithRecommender (recommender : option Recommender) : Option_ := fun s =>
  match recommender with
  | Some recommender =>
      RegisterStrategy s (Some (RecommendBy (NewRecommendStrategy (sv_repo s) recommender)))
  | None => s
  end.

Definition New (group : Group) (repo : FeedRepository) (options : list Option_) : Service :=
  let service := mkService repo ∅ DefaultScene in
  let service := RegisterStrategy service (Some (Timeline (NewTimelineStrategy group SceneTimeline repo))) in
  let service := RegisterStrategy service (Some (Hot (NewHotStrategy repo))) in
  let service := RegisterStrategy service (Some (Following (NewFollowingStrategy repo))) in
  foldl (fun s option_ => option_ s) service options.

(** The items whose video is still published, by the repository's word. *)
Definition recheck (repo : FeedRepository) (result : FeedResult) : M FeedResult :=
  match rp_PublishedVideoIDs repo, fr_Items result with
  | Some PublishedVideoIDs, _ :: _ =>
      visible ← PublishedVideoIDs (fi_VideoID <$> fr_Items result);
      mret (mkFeedResult (fr_Scene result)
        (filter (fun i => visible !! fi_VideoID i = Some true) (fr_Items result))
        (fr_NextCursor result) (fr_HasMore result))
  | _, _ => mret result
  end.

Definition GetFeed (s : Service) (req : FeedRequest) : M FeedResult :=
  let scene := NormalizeScene (fq_Scene req) in
  let scene := if String.eqb scene "" then sv_defaultScene s else scene in
  let req := mkFeedRequest scene (fq_Cursor req) (fq_Limit req) (fq_ViewerID req)
               (fq_ClientContext req) in
  match sv_strategies s !! scene with
  | None => throw (EFeed ErrUnsupportedScene)
  | Some strategy =>
      result ← Strategy_List strategy req;
      recheck (sv_repo s) result
  end.

Definition GetTimelineFeed (s : Service) (cursor : string) (limit : Z) : M FeedResult :=
  GetFeed s (mkFeedRequest SceneTimeline cursor limit 0 ∅).

Definition RefreshFeed (s : Service) (limit : Z) : M FeedResult := GetTimelineFeed s "" limit.

End FeedService.
