(* ===== verification/FeedCache.v ===== *)
(** * Feed cache ([internal/infra/cache/feed_cache.go])

    The keys of Redis the feed and the likes use: cached pages, cards and counters, the
    inboxes of the following feed, the minute buckets of the hot list, and the fast path of
    likes and favourites. The metrics are left out. *)
From S2P Require Import Prelude.
From S2P Require Import GoStd.
From S2P Require Import GoConv.
From S2P Require Import InteractionDomain.
From S2P Require Import FeedDomain.
From S2P Require Import Errors.
From S2P Require Import Models.
From S2P Require Import Redis.
From S2P Require Import Store.
From S2P Require Import RedisClient.
From S2P Require Import Codec.
From S2P Require Import Ports.
From S2P Require FeedService.

Definition hotWindowMinutes : nat := 60.
Definition hotMinuteBucketTTL : Z := 2 * hour.
Definition hotWindowCacheTTL : Z := 2 * minute.
Definition actionStateTTL : Z := 30 * 24 * hour.
Definition actionStatTTL : Z := 24 * hour.
Definition actionStatJSONTTL : Z := 15 * second.
Definition actionStatCounterShardCount : Z := 16.
Definition followingIndexKeyTTL : Z := 30 * 24 * hour.

(** ** Keys and members *)

Definition feedCardKey (videoID : Z) : string := "video:card:v1:" +:+ fmt_d videoID.
Definition feedStatKey (videoID : Z) : string := "video:stat:v1:" +:+ fmt_d videoID.
Definition followingInboxKey (userID : Z) : string := "feed:following:inbox:v1:" +:+ fmt_d userID.
Definition followingAuthorOutboxKey (authorID : Z) : string :=
  "feed:following:author:v1:" +:+ fmt_d authorID.

Definition interactionActionKey (userID videoID : Z) (actionType : string) : string :=
  "interaction:action:v1:" +:+ fmt_d userID +:+ ":" +:+ fmt_d videoID +:+ ":" +:+ ToLower actionType.

Definition interactionStatCounterKey (videoID : Z) : string :=
  "video:stat:counter:v1:" +:+ fmt_d videoID.
Definition interactionStatCounterBaseKey (videoID : Z) : string :=
  interactionStatCounterKey videoID +:+ ":base".
Definition interactionStatCounterShardKey (videoID shard : Z) : string :=
  interactionStatCounterKey videoID +:+ ":shard:" +:+ fmt_0d 2 shard.
Definition interactionStatCounterShardKeys (videoID : Z) : list string :=
  interactionStatCounterShardKey videoID <$> seqZ 0 actionStatCounterShardCount.

Definition interactionStatCounterShardIndex (userID : Z) : Z :=
  if userID <=? 0 then 0 else userID mod actionStatCounterShardCount.

Definition interactionStatField (actionType : string) : string :=
  if String.eqb actionType ActionTypeLike then "like_count" else "favorite_count".

Definition clampRedisCount (value : Z) : Z := if value <? 0 then 0 else value.

Definition hotMinuteKey (at_ : Time) : string :=
  "feed:hot:minute:v1:" +:+ FormatMinute (time_Truncate at_ minute).
Definition hotWindowKey (windowEnd : Time) : string :=
  "feed:hot:window:v1:" +:+ fmt_d (time_Unix (time_Truncate windowEnd minute)).

(** The loop counts down from 59 to 0. *)
Definition hotWindowMinuteKeys (windowEnd : Time) : list string :=
  (fun index => hotMinuteKey (windowEnd - Z.of_nat index * minute)) <$> reverse (seq 0 hotWindowMinutes).

Definition hotRankMember (videoID : Z) : string := fmt_0d 20 videoID.

Definition hotRankVideoID (member : string) : option Z :=
  let value := trim_zeros member in
  if String.eqb value "" then None else
  let '(videoID, ok) := ParseInt value in
  if ok && (0 <? videoID) then Some videoID else None.

(** Unix seconds times a million, and the id: far below 2^53. *)
Definition followingIndexScore (publishedAt : Time) (videoID : Z) : Z :=
  time_Unix publishedAt * 1000000 + Z.rem videoID 1000000.

(** ** Pages, cards and counters *)

(** [json.Unmarshal] into the struct of the caller: only the fields of the same name are
    taken from the text of another struct; a text that is not JSON is an error. *)
Definition json_stat (v : json_value) : option FeedStat :=
  match v with
  | JStat s => Some s
  | JCard c => Some (mkFeedStat (fc_VideoID c) 0 0 0)
  | JRaw _ => None
  | _ => Some (mkFeedStat 0 0 0 0)
  end.

Definition json_card (v : json_value) : option FeedCard :=
  match v with
  | JCard c => Some c
  | JStat s => Some (mkFeedCard (fs_VideoID s) 0 "" "" "" "" "" "" 0)
  | JRaw _ => None
  | _ => Some (mkFeedCard 0 0 "" "" "" "" "" "" 0)
  end.

Definition json_page (v : json_value) : option FeedPage :=
  match v with
  | JPage p => Some p
  | JRaw _ => None
  | _ => Some (mkFeedPage "" [] "" false)
  end.

(** [json.Marshal] fails for a time whose year has not four digits. *)
Definition marshal_failed : error := EDriver "json: error calling MarshalJSON for type time.Time".

Definition unmarshal_failed : error := EDriver "invalid character looking for beginning of value".

Definition GetPage (key : string) : M (option FeedPage) :=
  content ← redis_read (fun now r => string_at now r key);
  match content with
  | None => mret None
  | Some value => match json_page value with Some p => mret (Some p) | None => throw unmarshal_failed end
  end.

Definition SetPage (key : string) (page : FeedPage) (ttl : Z) : M unit :=
  if forallb (fun i => match i with Some i => json_time (pi_PublishedAt i) | None => true end)
       (fp_Items page)
  then redis_write (fun now r => Some (redis_set now key (JPage page) ttl r))
  else throw marshal_failed.

(** [MGET]: a key of another type reads as absent. *)
Definition mget (keys : list string) : M (list (option json_value)) :=
  redis_read (fun now r => Some ((fun key => default None (string_at now r key)) <$> keys)).

(** The loops over the values of [MGET]; a value without an id gets the id of its place. *)
Definition read_card (cards : gmap Z FeedCard) (vc : Z * option json_value) : gmap Z FeedCard :=
  match vc.2 ≫= json_card with
  | None => cards
  | Some c =>
      let c := if fc_VideoID c <=? 0 then
        mkFeedCard vc.1 (fc_AuthorID c) (fc_AuthorNickname c) (fc_AuthorAvatarURL c) (fc_Title c)
          (fc_Description c) (fc_MediaURL c) (fc_CoverURL c) (fc_PublishedAt c) else c in
      <[fc_VideoID c := c]> cards
  end.

Definition read_stat (stats : gmap Z FeedStat) (vs : Z * option json_value) : gmap Z FeedStat :=
  match vs.2 ≫= json_stat with
  | None => stats
  | Some s =>
      let s := if fs_VideoID s <=? 0 then
        mkFeedStat vs.1 (fs_LikeCount s) (fs_CommentCount s) (fs_FavoriteCount s) else s in
      <[fs_VideoID s := s]> stats
  end.

Definition GetCards (videoIDs : list Z) : M (gmap Z FeedCard) :=
  match videoIDs with
  | [] => mret ∅
  | _ =>
      values ← mget (feedCardKey <$> videoIDs);
      mret (foldl read_card ∅ (zip videoIDs values))
  end.

Definition SetCards (cards : gmap Z FeedCard) (ttl : Z) : M unit :=
  let cards := filter (fun c => 0 < fc_VideoID c) ((map_to_list cards).*2) in
  if forallb (fun c => json_time (fc_PublishedAt c)) cards
  then redis_pipe ((fun c => pipe_set (feedCardKey (fc_VideoID c)) (JCard c) ttl) <$> cards)
  else throw marshal_failed.

Definition SetStats (stats : gmap Z FeedStat) (ttl : Z) : M unit :=
  let stats := filter (fun s => 0 < fs_VideoID s) ((map_to_list stats).*2) in
  redis_pipe ((fun s => pipe_set (feedStatKey (fs_VideoID s)) (JStat s) ttl) <$> stats).

Definition setActionStatJSON (jsonKey : string) (stat : FeedStat) : M unit :=
  redis_write (fun now r => Some (redis_set now jsonKey (JStat stat) actionStatJSONTTL r)).

Definition videoStatToFeedStat (stat : VideoStat) : FeedStat :=
  mkFeedStat (vs_VideoID stat) (vs_LikeCount stat) (vs_CommentCount stat) (vs_FavoriteCount stat).

(** ** Counters: a base and the deltas of sixteen shards *)

Definition actionStatFieldInt (values : gmap string string) (field : string) : Z :=
  Atoi (default ""%string (values !! field)).

Definition applyActionStatFields (videoID : Z) (values : gmap string string) : FeedStat :=
  mkFeedStat videoID (actionStatFieldInt values "like_count")
    (actionStatFieldInt values "comment_count") (actionStatFieldInt values "favorite_count").

Definition stat_of_initial (videoID : Z) (s : VideoStat) : FeedStat :=
  mkFeedStat videoID (vs_LikeCount s) (vs_CommentCount s) (vs_FavoriteCount s).

Definition actionStatFallback (jsonKey : string) (videoID : Z) (initialStat : option VideoStat)
    : M (option FeedStat) :=
  content ← redis_read (fun now r => string_at now r jsonKey);
  mret (match content with
        | None => stat_of_initial videoID <$> initialStat
        | Some value =>
            s ← json_stat value;
            Some (mkFeedStat (if fs_VideoID s <=? 0 then videoID else fs_VideoID s) (fs_LikeCount s)
                    (fs_CommentCount s) (fs_FavoriteCount s))
        end).

Definition loadActionStatShardValues (shardKeys : list string) : M (list (gmap string string)) :=
  redis_read (fun now r => mapM (hash_at now r) shardKeys).

(** An [int] sum. *)
Definition sum_field (shardValues : list (gmap string string)) (field : string) : Z :=
  foldl (fun n values => int64_of (n + actionStatFieldInt values field)) 0 shardValues.

(** The new counters, and whether a shard exists. *)
Definition applyActionStatShardDeltas (stat : FeedStat) (shardKeys : list string) : M (FeedStat * bool) :=
  match shardKeys with
  | [] => mret (stat, false)
  | _ =>
      shardValues ← loadActionStatShardValues shardKeys;
      let likeDelta := sum_field shardValues "like_count" in
      let favoriteDelta := sum_field shardValues "favorite_count" in
      mret (mkFeedStat (fs_VideoID stat)
              (clampRedisCount (int64_of (fs_LikeCount stat + likeDelta))) (fs_CommentCount stat)
              (clampRedisCount (int64_of (fs_FavoriteCount stat + favoriteDelta))),
            existsb (fun values => negb (bool_decide (values = ∅))) shardValues)
  end.

Definition actionStatWithPresence (counterBaseKey : string) (counterShardKeys : list string)
    (jsonKey : string) (videoID : Z) (initialStat : option VideoStat) : M (option FeedStat) :=
  values ← redis_read (fun now r => hash_at now r counterBaseKey);
  base ← (if decide (values = ∅) then actionStatFallback jsonKey videoID initialStat
          else mret (Some (applyActionStatFields videoID values)));
  '(stat, shardFound) ← applyActionStatShardDeltas (default (mkFeedStat videoID 0 0 0) base)
                          counterShardKeys;
  mret (if bool_decide (is_Some base) || shardFound then Some stat else None).

Definition actionStat (counterBaseKey : string) (counterShardKeys : list string) (jsonKey : string)
    (videoID : Z) (initialStat : option VideoStat) : M FeedStat :=
  stat ← actionStatWithPresence counterBaseKey counterShardKeys jsonKey videoID initialStat;
  mret (default (mkFeedStat videoID 0 0 0) stat).

Definition actionStatFromCache (videoID : Z) : M (option FeedStat) :=
  actionStatWithPresence (interactionStatCounterBaseKey videoID)
    (interactionStatCounterShardKeys videoID) (feedStatKey videoID) videoID None.

(** The second loop of [getStats]. *)
Fixpoint fill_stats (videoIDs : list Z) (stats : gmap Z FeedStat) : M (gmap Z FeedStat) :=
  match videoIDs with
  | [] => mret stats
  | videoID :: videoIDs =>
      match stats !! videoID with
      | Some _ => fill_stats videoIDs stats
      | None =>
          found ← actionStatFromCache videoID;
          match found with
          | None => fill_stats videoIDs stats
          | Some stat =>
              _ ← ignore (setActionStatJSON (feedStatKey videoID) stat);
              fill_stats videoIDs (<[videoID := stat]> stats)
          end
      end
  end.

Definition GetStats (videoIDs : list Z) : M (gmap Z FeedStat) :=
  match videoIDs with
  | [] => mret ∅
  | _ =>
      values ← mget (feedStatKey <$> videoIDs);
      fill_stats videoIDs (foldl read_stat ∅ (zip videoIDs values))
  end.

Definition SetVideoStat (stat : option VideoStat) : M unit :=
  match stat with
  | None => mret tt
  | Some stat =>
      if vs_VideoID stat <=? 0 then mret tt
      else setActionStatJSON (feedStatKey (vs_VideoID stat)) (videoStatToFeedStat stat)
  end.

(** ** Likes and favourites *)

Definition actionStatBaseInit (videoID : Z) (initialStat : option VideoStat) : VideoStat :=
  default (mkVideoStat videoID 0 0 0) initialStat.

Definition queueActionStatBaseInit (counterBaseKey : string) (stat : VideoStat) : list pipe_command :=
  [fun now => redis_hsetnx now counterBaseKey "like_count" (fmt_d (vs_LikeCount stat));
   fun now => redis_hsetnx now counterBaseKey "comment_count" (fmt_d (vs_CommentCount stat));
   fun now => redis_hsetnx now counterBaseKey "favorite_count" (fmt_d (vs_FavoriteCount stat))].

(** What a request does to the stored state of a user's action: the state that takes effect,
    its status, and the change of the counter. *)
Definition action_decision (values : gmap string string) (active : bool) (idempotencyKey : string)
    : bool * Z * Z :=
  let storedStatus := actionStatFieldInt values "status" in
  let storedIDKey := default ""%string (values !! "idempotency_key"%string) in
  let targetStatus := if active then ActionStatusActive else ActionStatusCanceled in
  if String.eqb storedIDKey idempotencyKey && negb (String.eqb idempotencyKey "")
  then (storedStatus =? ActionStatusActive, storedStatus, 0)
  else
    (active, targetStatus,
     if storedStatus =? 0 then (if active then 1 else 0)
     else if negb (storedStatus =? targetStatus) then (if active then 1 else -1)
     else 0).

(** [HSET] of the three fields of an action. *)
Definition pipe_action (actionKey : string) (status : Z) (idempotencyKey updatedAt : string) : pipe_command :=
  fun now r =>
    h ← hash_at now r actionKey;
    Some (redis_put now actionKey (RHash
      (<["status"%string := fmt_d status]> (<["idempotency_key"%string := idempotencyKey]>
        (<["updated_at"%string := updatedAt]> h)))) r).

(** The commands of the transaction. *)
Definition action_commands (actionKey counterBaseKey counterShardKey actionType : string)
    (baseStat : VideoStat) (status delta : Z) (idempotencyKey updatedAt : string) : list pipe_command :=
  [pipe_action actionKey status idempotencyKey updatedAt; pipe_expire actionKey actionStateTTL]
  ++ queueActionStatBaseInit counterBaseKey baseStat
  ++ [pipe_expire counterBaseKey actionStatTTL]
  ++ (if delta =? 0 then []
      else [fun now => redis_hincrby now counterShardKey (interactionStatField actionType) delta])
  ++ [pipe_expire counterShardKey actionStatTTL].

Section FeedCache.
Context `{Codec}.

Definition SetActionState (userID videoID : Z) (actionType : string) (active : bool)
    (idempotencyKey : string) (initialStat : option VideoStat) : M ActionStateResult :=
  match NormalizeActionType actionType with
  | inl err => throw (EInteraction err)
  | inr actionType =>
      let idempotencyKey := TrimSpace idempotencyKey in
      let actionKey := interactionActionKey userID videoID actionType in
      let counterBaseKey := interactionStatCounterBaseKey videoID in
      let counterShardKey :=
        interactionStatCounterShardKey videoID (interactionStatCounterShardIndex userID) in
      let jsonKey := feedStatKey videoID in
      values ← redis_read (fun now r => hash_at now r actionKey);
      let '(effectiveActive, effectiveStatus, delta) := action_decision values active idempotencyKey in
      let baseStat := actionStatBaseInit videoID initialStat in
      now ← time_now;
      _ ← redis_watch_exec actionKey values
            (action_commands actionKey counterBaseKey counterShardKey actionType baseStat
               effectiveStatus delta idempotencyKey (FormatRFC3339Nano now));
      stat ← actionStat counterBaseKey (interactionStatCounterShardKeys videoID) jsonKey videoID
               initialStat;
      _ ← ignore (setActionStatJSON jsonKey stat);
      mret (mkActionStateResult videoID actionType effectiveActive (fs_LikeCount stat)
              (fs_FavoriteCount stat) delta idempotencyKey)
  end.

(** ** The following index *)

Definition followingIndexMember (videoID authorID : Z) (publishedAt : Time) : string :=
  fmt_d videoID +:+ ":" +:+ fmt_d authorID +:+ ":" +:+ FormatRFC3339Nano publishedAt.

Definition feedPageItemFromFollowingMember (member : string) : option FeedPageItem :=
  let item video author at_ :=
    let '(videoID, ok) := ParseInt video in
    if negb ok || (videoID <=? 0) then None else
    match ParseRFC3339Nano at_ with
    | None => None
    | Some publishedAt =>
        if time_IsZero publishedAt then None else Some (mkFeedPageItem videoID author publishedAt 0)
    end in
  match split3_colon member with
  | [video; at_] => item video 0 at_
  | [video; author; at_] => item video (Atoi author) at_
  | _ => None
  end.

(** The three commands that put an item into an index of at most [maxLen] items. *)
Definition index_commands (key member : string) (score maxLen : Z) : list pipe_command :=
  [fun now => redis_zadd now key member score;
   fun now => redis_zkeep now key maxLen;
   pipe_expire key followingIndexKeyTTL].

Definition AddInboxItems (authorID : Z) (userIDs : list Z) (item : option FeedPageItem) (maxLen : Z)
    : M unit :=
  match item with
  | None => mret tt
  | Some item =>
      if (authorID <=? 0) || (pi_VideoID item <=? 0) || time_IsZero (pi_PublishedAt item)
         || bool_decide (userIDs = []) then mret tt else
      let maxLen := if maxLen <=? 0 then 1000 else maxLen in
      let score := followingIndexScore (pi_PublishedAt item) (pi_VideoID item) in
      let member := followingIndexMember (pi_VideoID item) authorID (pi_PublishedAt item) in
      redis_pipe (flat_map (fun userID => if userID <=? 0 then []
                    else index_commands (followingInboxKey userID) member score maxLen) userIDs)
  end.

Definition AddAuthorOutboxItem (authorID : Z) (item : option FeedPageItem) (maxLen : Z) : M unit :=
  match item with
  | None => mret tt
  | Some item =>
      if (authorID <=? 0) || (pi_VideoID item <=? 0) || time_IsZero (pi_PublishedAt item)
      then mret tt else
      let maxLen := if maxLen <=? 0 then 500 else maxLen in
      let score := followingIndexScore (pi_PublishedAt item) (pi_VideoID item) in
      let member := followingIndexMember (pi_VideoID item) authorID (pi_PublishedAt item) in
      redis_pipe (index_commands (followingAuthorOutboxKey authorID) member score maxLen)
  end.

(** The [less] of [sortFeedPageItemsByTimeline]. *)
Definition timeline_less (a b : FeedPageItem) : bool :=
  if time_Equal (pi_PublishedAt a) (pi_PublishedAt b) then pi_VideoID b <? pi_VideoID a
  else time_After (pi_PublishedAt a) (pi_PublishedAt b).

Definition sortFeedPageItemsByTimeline (items : list FeedPageItem) : list FeedPageItem :=
  stable_sort timeline_less items.

(** The items of one answer that count: an author's outbox holds only what its author may
    show ([own] is the viewer's inbox). *)
Definition index_items (authorIDs : list Z) (own : bool) (members : list (string * Z)) : list FeedPageItem :=
  filter (fun i => own || (pi_AuthorID i <=? 0) || bool_decide (pi_AuthorID i ∈ authorIDs) = true)
    (omap (fun ms => feedPageItemFromFollowingMember ms.1) members).

(** [seen]: the first item of a video is kept. *)
Fixpoint unseen (seen : list Z) (items : list FeedPageItem) : list FeedPageItem :=
  match items with
  | [] => []
  | i :: items =>
      if bool_decide (pi_VideoID i ∈ seen) then unseen seen items
      else i :: unseen (pi_VideoID i :: seen) items
  end.

Definition merge_index (authorIDs : list Z) (limit : Z) (answers : list (list (string * Z)))
    : list FeedPageItem :=
  let items := unseen [] (concat (imap (fun i => index_items authorIDs (Nat.eqb i 0)) answers)) in
  let items := sortFeedPageItemsByTimeline items in
  if limit <? len_z items then take_z limit items else items.

Definition ListFollowingIndexPage (viewerID : Z) (authorIDs : list Z) (cursor : option TimelineCursor)
    (limit : Z) : M (option (list FeedPageItem)) :=
  if (viewerID <=? 0) || (limit <=? 0) then mret None else
  let keys := followingInboxKey viewerID
    :: (followingAuthorOutboxKey <$> filter (fun id => 0 < id) authorIDs) in
  let maxScore := (fun c => followingIndexScore (tc_PublishedAt c) (tc_VideoID c)) <$> cursor in
  answers ← redis_read (fun now r => mapM (fun key =>
              z ← zset_at now r key;
              below ← redis_zbelow now r key maxScore limit;
              Some (size z, below)) keys);
  if existsb (fun a => Nat.ltb 0 a.1) answers
  then mret (Some (merge_index authorIDs limit answers.*2)) else mret None.

(** ** The hot list *)

Definition AddHotScore (videoID scoreDelta : Z) (at_ : Time) : M unit :=
  if (videoID <=? 0) || (scoreDelta =? 0) then mret tt else
  let key := hotMinuteKey at_ in
  _ ← redis_write (fun now => redis_zincrby now key (hotRankMember videoID) scoreDelta);
  redis_write (fun now r => Some (redis_expire now key hotMinuteBucketTTL r)).

Definition rebuildHotWindow (windowKey : string) (windowEnd : Time) : M unit :=
  _ ← redis_write (fun now => redis_zunionstore now windowKey (hotWindowMinuteKeys windowEnd));
  redis_pipe [fun now => redis_zremabove now windowKey 0; pipe_expire windowKey hotWindowCacheTTL].

Definition hot_item (value : string * Z) : option FeedPageItem :=
  videoID ← hotRankVideoID value.1;
  Some (mkFeedPageItem videoID 0 0 value.2).

Definition listHotWindowPage (windowKey : string) (offset limit : Z) : M (list FeedPageItem) :=
  values ← redis_read (fun now r => redis_zrevrange now r windowKey offset (offset + limit - 1));
  mret (omap hot_item values).

Definition ListHotWindowPage (windowEnd : Time) (offset limit : Z) : M (list FeedPageItem) :=
  if limit <=? 0 then mret [] else
  let offset := if offset <? 0 then 0 else offset in
  let windowEnd := time_Truncate windowEnd minute in
  let windowKey := hotWindowKey windowEnd in
  exists_ ← redis_read (fun now r => Some (bool_decide (is_Some (redis_get now r windowKey))));
  _ ← (if (exists_ : bool) then mret tt else rebuildHotWindow windowKey windowEnd);
  listHotWindowPage windowKey offset limit.

(** ** The interfaces the cache implements *)

Definition feed_cache : FeedService.FeedCache := {|
  FeedService.ca_GetPage := GetPage;
  FeedService.ca_SetPage := SetPage;
  FeedService.ca_GetCards := GetCards;
  FeedService.ca_SetCards := SetCards;
  FeedService.ca_GetStats := GetStats;
  FeedService.ca_SetStats := SetStats;
  FeedService.ca_ListHotWindowPage w o l := items ← ListHotWindowPage w o l; mret (Some <$> items);
  FeedService.ca_FollowingIndex := Some ListFollowingIndexPage;
|}.

Definition hot_score_recorder : HotScoreRecorder := {| Ports.AddHotScore := AddHotScore |}.
Definition stat_cache : StatCache := {| Ports.SetVideoStat s := SetVideoStat (Some s) |}.
Definition action_state_store : ActionStateStore := {| Ports.SetActionState := SetActionState |}.
Definition following_index : FollowingIndexCache := {|
  ix_AddInboxItems a us i n := AddInboxItems a us (Some i) n;
  ix_AddAuthorOutboxItem a i n := AddAuthorOutboxItem a (Some i) n;
|}.
Definition feed_cache_writer : FeedCacheWriter := {| cw_SetCards := SetCards; cw_SetStats := SetStats |}.

End FeedCache.
