(* ===== verification/ActionLedger.v ===== *)
(** * The ledger of likes and favourites

    What the fast path of likes and favourites promises ([SetActionState] of
    [internal/infra/cache/feed_cache.go]): a ledger with one row per user, video and kind of
    action, and for each video the counters it began with. The counters shown are those and
    the number of active rows. Then the relation between the keys of Redis and the ledger. *)
From S2P Require Import Prelude.
From S2P Require Import GoStd.
From S2P Require Import GoConv.
From S2P Require Import InteractionDomain.
From S2P Require Import Redis.
From S2P Require Import Store.
From S2P Require Import RedisClient.
From S2P Require Import Ports.
From S2P Require Import FeedCache.

(** ** The ledger *)

Record ActionRow := mkActionRow {
  ar_User : Z; ar_Video : Z; ar_Type : string; ar_Active : bool; ar_Key : string }.

Record Ledger := mkLedger {
  lg_rows : gmap (Z * Z * string) ActionRow;
  lg_base : gmap Z VideoStat;
}.

Definition was_active (o : option ActionRow) : bool := match o with Some r => ar_Active r | None => false end.

(** A request that repeats the key of the row has no effect: it is answered with the state of
    the row. *)
Definition ledger_decision (o : option ActionRow) (active : bool) (key : string) : bool * Z :=
  match o with
  | Some r => if String.eqb (ar_Key r) key && negb (String.eqb key "") then (ar_Active r, 0)
              else (active, b2z active - b2z (ar_Active r))
  | None => (active, b2z active)
  end.

Definition record_action (L : Ledger) (user video : Z) (type : string) (active : bool) (key : string)
    (initialStat : option VideoStat) : Ledger * (bool * Z) :=
  let '(effective, delta) := ledger_decision (lg_rows L !! (user, video, type)) active key in
  (mkLedger (<[(user, video, type) := mkActionRow user video type effective key]> (lg_rows L))
     (<[video := default (actionStatBaseInit video initialStat) (lg_base L !! video)]> (lg_base L)),
   (effective, delta)).

Definition row_counts (video : Z) (type : string) (r : ActionRow) : bool :=
  (ar_Video r =? video) && String.eqb (ar_Type r) type && ar_Active r.

Definition active_count (L : Ledger) (video : Z) (type : string) : Z :=
  map_count (row_counts video type) (lg_rows L).

Definition base_count (L : Ledger) (video : Z) (type : string) : Z :=
  match lg_base L !! video with
  | Some s => if String.eqb type ActionTypeLike then vs_LikeCount s else vs_FavoriteCount s
  | None => 0
  end.

(** The counter that is shown; it never goes below zero. *)
Definition ledger_count (L : Ledger) (video : Z) (type : string) : Z :=
  Z.max 0 (base_count L video type + active_count L video type).

Definition action_type (type : string) : Prop := type = ActionTypeLike \/ type = ActionTypeFavorite.

(** ** Counting by shard *)

Definition shard_counts (video : Z) (type : string) (shard : Z) (r : ActionRow) : bool :=
  row_counts video type r && (interactionStatCounterShardIndex (ar_User r) =? shard).

Definition shard_count (L : Ledger) (video : Z) (type : string) (shard : Z) : Z :=
  map_count (shard_counts video type shard) (lg_rows L).

Definition shards : list Z := seqZ 0 actionStatCounterShardCount.

Definition sum_Z (l : list Z) : Z := foldr Z.add 0 l.

Lemma sum_Z_cons x l : sum_Z (x :: l) = x + sum_Z l.
Proof. done. Qed.

Lemma sum_Z_add {A} (f g : A -> Z) (l : list A) :
  sum_Z ((fun x => f x + g x) <$> l) = sum_Z (f <$> l) + sum_Z (g <$> l).
Proof. induction l as [|x l IH]; [done|]. rewrite !fmap_cons, !sum_Z_cons, IH. lia. Qed.

Lemma sum_Z_indicator (b : bool) (g : Z) (l : list Z) : NoDup l ->
  sum_Z ((fun s => b2z (b && (g =? s))) <$> l) = b2z (b && bool_decide (g ∈ l)).
Proof.
  induction 1 as [|s l Hs Hl IH]; [by destruct b|]. rewrite fmap_cons, sum_Z_cons, IH.
  destruct b; [|done]. simpl. destruct (Z.eqb_spec g s) as [->|Hne].
  - rewrite (bool_decide_true (s ∈ s :: l)) by left. by rewrite bool_decide_false by done.
  - simpl. erewrite bool_decide_ext; [done|]. rewrite elem_of_cons. naive_solver.
Qed.

Lemma shard_index_range user : interactionStatCounterShardIndex user ∈ shards.
Proof.
  apply elem_of_seqZ. unfold interactionStatCounterShardIndex, actionStatCounterShardCount.
  destruct (user <=? 0); [lia|]. pose proof (Z.mod_pos_bound user 16). lia.
Qed.

(** The shards count every active row once. *)
Lemma shards_sum L video type :
  sum_Z (shard_count L video type <$> shards) = active_count L video type.
Proof.
  unfold shard_count, active_count. induction (lg_rows L) as [|k r m Hk IH] using map_ind.
  - rewrite map_count_empty. by vm_compute.
  - rewrite map_count_insert_new, <-IH by done.
    rewrite (list_fmap_ext _ (fun s => map_count (shard_counts video type s) m
      + b2z (row_counts video type r && (interactionStatCounterShardIndex (ar_User r) =? s)))).
    2: { intros i s _. by rewrite map_count_insert_new. }
    rewrite sum_Z_add, sum_Z_indicator by apply NoDup_seqZ.
    rewrite (bool_decide_true _ (shard_index_range _)). by rewrite andb_true_r.
Qed.

Lemma map_count_set {K A} `{Countable K} (P : A -> bool) (m : gmap K A) k x :
  map_count P (<[k := x]> m)
  = map_count P m - b2z (match m !! k with Some y => P y | None => false end) + b2z (P x).
Proof.
  destruct (m !! k) as [y|] eqn:Hk; [by apply map_count_insert|]. rewrite map_count_insert_new by done.
  simpl. lia.
Qed.

Lemma map_count_le_size {K A} `{Countable K} (P : A -> bool) (m : gmap K A) :
  map_count P m <= Z.of_nat (size m).
Proof. unfold map_count. apply Nat2Z.inj_le, map_size_filter. Qed.

(** ** The keys *)

Lemma action_key_inj u v ty u' v' ty' : action_type ty -> action_type ty' ->
  interactionActionKey u v ty = interactionActionKey u' v' ty' -> (u, v, ty) = (u', v', ty').
Proof.
  unfold interactionActionKey. intros Ht Ht' Heq%(inj (String.app _)).
  apply colon_split in Heq as [->%fmt_d_inj Heq]; [|apply fmt_d_no_colon..].
  apply colon_split in Heq as [->%fmt_d_inj Heq]; [|apply fmt_d_no_colon..].
  by destruct Ht as [-> | ->], Ht' as [-> | ->].
Qed.

Lemma counter_key_split v s v' s' :
  interactionStatCounterKey v +:+ (":" +:+ s) = interactionStatCounterKey v' +:+ (":" +:+ s') ->
  v = v' /\ s = s'.
Proof.
  change ("video:stat:counter:v1:" +:+ (fmt_d v +:+ ":" +:+ s) = "video:stat:counter:v1:" +:+ (fmt_d v' +:+ ":" +:+ s')
    -> v = v' /\ s = s'). intros Heq%(inj (String.app _)).
  by apply colon_split in Heq as [->%fmt_d_inj Heq]; [|apply fmt_d_no_colon..].
Qed.

Lemma fmt_shard_inj s s' : s ∈ shards -> s' ∈ shards -> fmt_0d 2 s = fmt_0d 2 s' -> s = s'.
Proof.
  assert (forallb (fun s => forallb (fun s' => implb (String.eqb (fmt_0d 2 s) (fmt_0d 2 s')) (s =? s'))
    shards) shards = true) as Hall by (vm_compute; reflexivity).
  intros Hs%list_elem_of_In Hs'%list_elem_of_In Heq. rewrite forallb_forall in Hall.
  specialize (Hall s Hs). rewrite forallb_forall in Hall. specialize (Hall s' Hs').
  rewrite Heq, String.eqb_refl in Hall. by apply Z.eqb_eq.
Qed.

Lemma base_key_inj v v' : interactionStatCounterBaseKey v = interactionStatCounterBaseKey v' -> v = v'.
Proof. by intros [? _]%(counter_key_split _ "base" _ "base"). Qed.

Lemma shard_key_inj v s v' s' : s ∈ shards -> s' ∈ shards ->
  interactionStatCounterShardKey v s = interactionStatCounterShardKey v' s' -> v = v' /\ s = s'.
Proof.
  intros Hs Hs' [-> Heq]%(counter_key_split _ ("shard:" +:+ _) _ ("shard:" +:+ _)).
  apply (inj (String.app _)) in Heq. split; [done|by apply fmt_shard_inj].
Qed.

Lemma base_not_shard v v' s : interactionStatCounterBaseKey v <> interactionStatCounterShardKey v' s.
Proof. intros [_ Heq]%(counter_key_split _ "base" _ ("shard:" +:+ _)). discriminate Heq. Qed.

Lemma action_not_base u v ty v' : interactionActionKey u v ty <> interactionStatCounterBaseKey v'.
Proof. discriminate. Qed.

Lemma action_not_shard u v ty v' s : interactionActionKey u v ty <> interactionStatCounterShardKey v' s.
Proof. discriminate. Qed.

(** ** Redis holds the ledger *)

Definition status_of (active : bool) : Z := if active then ActionStatusActive else ActionStatusCanceled.

Definition action_hash (h : gmap string string) (o : option ActionRow) : Prop :=
  match o with
  | None => h = ∅
  | Some r => h !! "status"%string = Some (fmt_d (status_of (ar_Active r))) /\
      h !! "idempotency_key"%string = Some (ar_Key r)
  end.

Definition base_hash (h : gmap string string) (o : option VideoStat) : Prop :=
  match o with
  | None => h = ∅
  | Some s => h !! "like_count"%string = Some (fmt_d (vs_LikeCount s)) /\
      h !! "comment_count"%string = Some (fmt_d (vs_CommentCount s)) /\
      h !! "favorite_count"%string = Some (fmt_d (vs_FavoriteCount s))
  end.

(** A counter of a shard; it may not be there yet. *)
Definition counter_field (h : gmap string string) (field : string) (n : Z) : Prop :=
  match h !! field with Some s => s = fmt_d n | None => n = 0 end.

Definition shard_hash (h : gmap string string) (L : Ledger) (video shard : Z) : Prop :=
  forall type, action_type type -> counter_field h (interactionStatField type) (shard_count L video type shard).

(** From [t] until [until], the keys of [r] hold the ledger. *)
Record tracks (t until : Time) (r : Redis) (L : Ledger) : Prop := {
  tk_rows : forall u v ty row, lg_rows L !! (u, v, ty) = Some row ->
    ar_User row = u /\ ar_Video row = v /\ ar_Type row = ty;
  tk_action : forall u v ty, action_type ty -> exists h,
    holds t until r (interactionActionKey u v ty) h /\ action_hash h (lg_rows L !! (u, v, ty));
  tk_base : forall v, exists h,
    holds t until r (interactionStatCounterBaseKey v) h /\ base_hash h (lg_base L !! v);
  tk_shard : forall v s, s ∈ shards -> exists h,
    holds t until r (interactionStatCounterShardKey v s) h /\ shard_hash h L v s;
}.

Lemma tracks_later t t' until r L : t <= t' -> tracks t until r L -> tracks t' until r L.
Proof.
  intros Ht [H1 H2 H3 H4]. split; [exact H1|..].
  - intros u v ty (h & Hh & Ha)%(H2 u v). exists h. split; [by eapply holds_weaken|done].
  - intros v. destruct (H3 v) as (h & Hh & Ha). exists h. split; [by eapply holds_weaken|done].
  - intros v s (h & Hh & Ha)%(H4 v). exists h. split; [by eapply holds_weaken|done].
Qed.

(** A cache without keys of the ledger is the empty ledger; a new cache is one. *)
Definition empty_ledger : Ledger := mkLedger ∅ ∅.

Lemma empty_tracks t until : tracks t until no_redis empty_ledger.
Proof.
  assert (forall key, holds t until no_redis key ∅) as Hh by (intros key now _; done).
  split; simpl.
  - intros u v ty row Hl. by rewrite lookup_empty in Hl.
  - intros u v ty _. exists ∅. by rewrite lookup_empty.
  - intros v. exists ∅. by rewrite lookup_empty.
  - intros v s _. exists ∅. split; [done|]. intros ty _. unfold counter_field, shard_count. simpl.
    rewrite lookup_empty. apply map_count_empty.
Qed.

(** Another key changes. *)
Lemma tracks_other t until r r' L key : only key r r' ->
  (forall u v ty, key <> interactionActionKey u v ty) ->
  (forall v s, key <> interactionStatCounterKey v +:+ s) -> tracks t until r L -> tracks t until r' L.
Proof.
  intros Ho Hk Hc [H1 H2 H3 H4]. split; [exact H1|..].
  - intros u v ty (h & Hh & Ha)%(H2 u v). exists h. split; [|done].
    eapply holds_only; [exact Ho|apply not_eq_sym, Hk|exact Hh].
  - intros v. destruct (H3 v) as (h & Hh & Ha). exists h. split; [|done].
    eapply holds_only; [exact Ho|apply not_eq_sym, Hc|exact Hh].
  - intros v s (h & Hh & Ha)%(H4 v). exists h. split; [|done].
    eapply holds_only; [exact Ho|apply not_eq_sym, Hc|exact Hh].
Qed.

(** ** One request *)

Lemma decision_delta o active key :
  (ledger_decision o active key).2 = b2z (ledger_decision o active key).1 - b2z (was_active o).
Proof. unfold ledger_decision, was_active. repeat case_match; simpl; lia. Qed.

Lemma field_of_fmt (h : gmap string string) field n :
  - 2 ^ 63 <= n < 2 ^ 63 -> h !! field = Some (fmt_d n) -> actionStatFieldInt h field = n.
Proof. intros Hn Hh. unfold actionStatFieldInt. rewrite Hh. by apply Atoi_fmt_d. Qed.

Lemma field_of_counter (h : gmap string string) field n :
  - 2 ^ 63 <= n < 2 ^ 63 -> counter_field h field n -> actionStatFieldInt h field = n.
Proof.
  unfold counter_field. intros Hn. destruct (h !! field) as [s|] eqn:Hs.
  - intros ->. by apply field_of_fmt.
  - intros ->. unfold actionStatFieldInt. by rewrite Hs.
Qed.

(** The code decides as the ledger does. *)
Lemma action_decision_ledger h o active key : action_hash h o ->
  let '(effective, delta) := ledger_decision o active key in
  action_decision h active key = (effective, status_of effective, delta).
Proof.
  unfold action_hash, ledger_decision, action_decision. destruct o as [r|].
  - intros [Hs Hk]. rewrite (field_of_fmt _ _ (status_of (ar_Active r))); [|by destruct (ar_Active r)|done].
    rewrite Hk. simpl. destruct (String.eqb (ar_Key r) key && negb (String.eqb key "")).
    + by destruct (ar_Active r).
    + by destruct (ar_Active r), active.
  - intros ->. unfold actionStatFieldInt. rewrite !lookup_empty.
    assert (String.eqb (default ""%string None) key && negb (String.eqb key "") = false) as ->.
    { by destruct key. }
    by destruct active.
Qed.

Definition request_of (L : Ledger) user video type active key (initialStat : option VideoStat) : Ledger :=
  (record_action L user video type active key initialStat).1.

Definition answer_of (L : Ledger) user video type active key (initialStat : option VideoStat) : bool * Z :=
  (record_action L user video type active key initialStat).2.

Lemma request_rows L u v ty active key init :
  lg_rows (request_of L u v ty active key init) =
  <[(u, v, ty) := mkActionRow u v ty (answer_of L u v ty active key init).1 key]> (lg_rows L).
Proof. unfold request_of, answer_of, record_action. by case_match. Qed.

Lemma request_base L u v ty active key init :
  lg_base (request_of L u v ty active key init) =
  <[v := default (actionStatBaseInit v init) (lg_base L !! v)]> (lg_base L).
Proof. unfold request_of, record_action. by case_match. Qed.

Lemma answer_decision L u v ty active key init :
  answer_of L u v ty active key init = ledger_decision (lg_rows L !! (u, v, ty)) active key.
Proof. unfold answer_of, record_action. by case_match. Qed.

Lemma answer_delta L u v ty active key init :
  (answer_of L u v ty active key init).2
  = b2z (answer_of L u v ty active key init).1 - b2z (was_active (lg_rows L !! (u, v, ty))).
Proof. rewrite answer_decision. apply decision_delta. Qed.

(** How the counters of the shards move. *)
Lemma request_shard t until r L u v ty active key init v' ty' s' :
  tracks t until r L -> action_type ty' ->
  shard_count (request_of L u v ty active key init) v' ty' s'
  = shard_count L v' ty' s' +
    (if (v =? v') && String.eqb ty ty' && (interactionStatCounterShardIndex u =? s')
     then (answer_of L u v ty active key init).2 else 0).
Proof.
  intros Ht Hty. unfold shard_count. rewrite request_rows, map_count_set, answer_delta.
  unfold shard_counts at 2 3, row_counts. simpl.
  destruct (lg_rows L !! (u, v, ty)) as [row|] eqn:Hrow; simpl.
  - destruct (tk_rows _ _ _ _ Ht _ _ _ _ Hrow) as (-> & -> & ->).
    destruct (v =? v'), (String.eqb ty ty'), (interactionStatCounterShardIndex u =? s');
      rewrite ?andb_false_r, ?andb_true_r; simpl; rewrite ?andb_false_r, ?andb_true_r; simpl; lia.
  - destruct (v =? v'), (String.eqb ty ty'), (interactionStatCounterShardIndex u =? s');
      rewrite ?andb_false_r, ?andb_true_r; simpl; rewrite ?andb_false_r, ?andb_true_r; simpl; lia.
Qed.

Lemma shard_count_range L v ty s : Z.of_nat (size (lg_rows L)) < 2 ^ 62 -> 0 <= shard_count L v ty s < 2 ^ 62.
Proof.
  intros Hs. unfold shard_count. pose proof (map_count_nonneg (shard_counts v ty s) (lg_rows L)).
  pose proof (map_count_le_size (shard_counts v ty s) (lg_rows L)). lia.
Qed.

(** ** The transaction *)

Definition action_fields (status : Z) (key updatedAt : string) (h : gmap string string) : gmap string string :=
  <["status"%string := fmt_d status]> (<["idempotency_key"%string := key]>
    (<["updated_at"%string := updatedAt]> h)).

Lemma on_action now key status id at_ h :
  on_hash now key [pipe_action key status id at_] h (action_fields status id at_ h).
Proof.
  eapply on_hash_cons; [|apply on_hash_nil]. intros r Hr. unfold pipe_action. rewrite Hr. simpl.
  eexists. split; [done|]. split; [apply hash_at_put|apply put_only].
Qed.

Lemma action_fields_hash h u v ty active key at_ :
  action_hash (action_fields (status_of active) key at_ h) (Some (mkActionRow u v ty active key)).
Proof.
  unfold action_fields. split; simpl; [by rewrite lookup_insert_eq|].
  rewrite lookup_insert_ne by done. by rewrite lookup_insert_eq.
Qed.

Definition base_fields (s : VideoStat) (h : gmap string string) : gmap string string :=
  let h := <["like_count"%string := default (fmt_d (vs_LikeCount s)) (h !! "like_count"%string)]> h in
  let h := <["comment_count"%string := default (fmt_d (vs_CommentCount s)) (h !! "comment_count"%string)]> h in
  <["favorite_count"%string := default (fmt_d (vs_FavoriteCount s)) (h !! "favorite_count"%string)]> h.

Lemma on_base now key s h :
  on_hash now key (queueActionStatBaseInit key s) h (base_fields s h).
Proof.
  unfold queueActionStatBaseInit.
  eapply on_hash_cons; [intros r Hr; exact (hsetnx_hash _ _ _ _ _ _ Hr)|].
  eapply on_hash_cons; [intros r Hr; exact (hsetnx_hash _ _ _ _ _ _ Hr)|].
  eapply on_hash_cons; [intros r Hr; exact (hsetnx_hash _ _ _ _ _ _ Hr)|]. apply on_hash_nil.
Qed.

Lemma base_fields_hash h o s : base_hash h o -> base_hash (base_fields s h) (Some (default s o)).
Proof.
  unfold base_fields, base_hash. destruct o as [s'|]; simpl.
  - intros (Hl & Hc & Hf). rewrite Hl. simpl.
    rewrite (insert_id h _ _ Hl), Hc. simpl. rewrite (insert_id h _ _ Hc), Hf. simpl.
    by rewrite (insert_id h _ _ Hf).
  - intros ->. split_and!; by vm_compute.
Qed.

Lemma on_shard now key ty n delta h : action_type ty -> counter_field h (interactionStatField ty) n ->
  - 2 ^ 63 <= n < 2 ^ 63 -> - 2 ^ 63 <= n + delta < 2 ^ 63 ->
  exists h', on_hash now key
      (if delta =? 0 then [] else [fun now => redis_hincrby now key (interactionStatField ty) delta]) h h' /\
    counter_field h' (interactionStatField ty) (n + delta) /\
    forall f, f <> interactionStatField ty -> h' !! f = h !! f.
Proof.
  intros Hty Hn Hb Hd. destruct (Z.eqb_spec delta 0) as [->|Hne].
  - exists h. rewrite Z.add_0_r. split; [apply on_hash_nil|done].
  - exists (<[interactionStatField ty := fmt_d (n + delta)]> h). split_and!.
    + eapply on_hash_cons; [|apply on_hash_nil]. intros r Hr.
      apply (hincrby_hash now key (interactionStatField ty) n delta h r Hr); [|exact Hd].
      unfold counter_field in Hn. destruct (h !! interactionStatField ty); [subst; by apply ParseInt_fmt_d|by subst].
    + unfold counter_field. by rewrite lookup_insert_eq.
    + intros f Hf. by rewrite lookup_insert_ne.
Qed.

Section transaction.
Context (until now : Time) (r : Redis) (L : Ledger) (user video : Z) (type : string)
  (active : bool) (key updatedAt : string) (init : option VideoStat).
Context (Htracks : tracks now until r L) (Htype : action_type type)
  (Hsize : Z.of_nat (size (lg_rows L)) < 2 ^ 62) (Hnow : now < until) (Huntil : until <= now + actionStatTTL).

Let L' := request_of L user video type active key init.
Let shard := interactionStatCounterShardIndex user.
Let actionKey := interactionActionKey user video type.
Let baseKey := interactionStatCounterBaseKey video.
Let shardKey := interactionStatCounterShardKey video shard.

Lemma shard_hash_after h : shard_hash h L video shard -> exists h',
  on_hash now shardKey
    (if (answer_of L user video type active key init).2 =? 0 then []
     else [fun now => redis_hincrby now shardKey (interactionStatField type)
             (answer_of L user video type active key init).2]) h h' /\
  shard_hash h' L' video shard.
Proof.
  intros Hh. pose proof (request_shard _ _ _ _ user video type active key init video type shard Htracks Htype) as Hcount.
  rewrite Z.eqb_refl, String.eqb_refl in Hcount. unfold shard in Hcount at 3. rewrite Z.eqb_refl in Hcount.
  cbn [andb] in Hcount. fold L' in Hcount.
  assert (- 2 ^ 63 <= shard_count L' video type shard < 2 ^ 63) as Hrange.
  { pose proof (shard_count_range L video type shard Hsize). rewrite Hcount, answer_delta.
    destruct (answer_of L user video type active key init).1, (was_active _); simpl; lia. }
  rewrite Hcount in Hrange. pose proof (shard_count_range L video type shard Hsize) as Hold.
  destruct (on_shard now shardKey type _ _ h Htype (Hh type Htype) ltac:(lia) Hrange)
    as (h' & Hc & Hfield & Hother).
  exists h'. split; [exact Hc|]. intros ty Hty. destruct (decide (ty = type)) as [->|Hne]; [by rewrite Hcount|].
  unfold counter_field. rewrite Hother by (by destruct Hty as [-> | ->], Htype as [-> | ->]).
  unfold L'. rewrite (request_shard now until r) by done.
  destruct (String.eqb_spec type ty) as [->|_]; [done|]. rewrite andb_false_r, Z.add_0_r. by apply Hh.
Qed.

(** The keys after the transaction. *)
Definition after_request (r' : Redis) : Prop :=
  (exists h, holds now until r' actionKey h /\ action_hash h (lg_rows L' !! (user, video, type))) /\
  (exists h, holds now until r' baseKey h /\ base_hash h (lg_base L' !! video)) /\
  (exists h, holds now until r' shardKey h /\ shard_hash h L' video shard) /\
  forall k h, k <> actionKey -> k <> baseKey -> k <> shardKey -> holds now until r k h -> holds now until r' k h.

Lemma run_request : exists r',
  run_pipe now (action_commands actionKey baseKey shardKey type (actionStatBaseInit video init)
      (status_of (answer_of L user video type active key init).1)
      (answer_of L user video type active key init).2 key updatedAt) r = (true, r') /\ after_request r'.
Proof.
  destruct Htracks as [_ Hacts Hbases Hshards].
  destruct (Hacts user video type Htype) as (ha & Hha & Haction).
  destruct (Hbases video) as (hb & Hhb & Hbase).
  destruct (Hshards video shard (shard_index_range user)) as (hs & Hhs & Hshard).
  destruct (shard_hash_after hs Hshard) as (hs' & Hons & Hshard').
  destruct (three_hashes now r actionKey baseKey shardKey _ _ _ actionStateTTL actionStatTTL actionStatTTL
    ha hb hs _ _ _ ltac:(discriminate) ltac:(discriminate) (base_not_shard _ _ _)
    (Hha now ltac:(lia)) (Hhb now ltac:(lia)) (Hhs now ltac:(lia))
    (on_action now actionKey (status_of (answer_of L user video type active key init).1) key updatedAt ha)
    (on_base now baseKey (actionStatBaseInit video init) hb) Hons)
    as (r' & Hrun & Hd1 & Hd2 & Hd3 & Hframe).
  exists r'. split; [exact Hrun|]. unfold after_request, L'. rewrite request_rows, request_base, !lookup_insert_eq.
  split_and!.
  - eexists. split; [|apply action_fields_hash]. eapply holds_weaken; [done| |exact Hd1].
    unfold actionStateTTL, actionStatTTL, hour in *. lia.
  - eexists. split; [|by apply base_fields_hash]. by eapply holds_weaken; [| |exact Hd2].
  - exists hs'. split; [by eapply holds_weaken; [| |exact Hd3]|done].
  - intros k h N1 N2 N3. by apply Hframe.
Qed.

Lemma after_tracks r' : after_request r' -> tracks now until r' L'.
Proof.
  destruct Htracks as [Hrows Hacts Hbases Hshards]. intros (Hact & Hbase & Hshard & Hframe). split.
  - intros u v ty row. unfold L'. rewrite request_rows, lookup_insert_Some.
    intros [[[= <- <- <-] <-]|[_ Hrow]]; [done|by apply Hrows].
  - intros u v ty Hty. destruct (decide ((user, video, type) = (u, v, ty))) as [[= <- <- <-]|Hne]; [exact Hact|].
    unfold L'. rewrite request_rows, lookup_insert_ne by done.
    destruct (Hacts u v ty Hty) as (h & Hh & Hah). exists h. split; [|done].
    apply Hframe; [|discriminate..|done]. intros Heq%action_key_inj; [|done..]. congruence.
  - intros v. destruct (decide (video = v)) as [<-|Hne]; [exact Hbase|].
    unfold L'. rewrite request_base, lookup_insert_ne by done.
    destruct (Hbases v) as (h & Hh & Hbh). exists h. split; [|done].
    apply Hframe; [discriminate| |apply base_not_shard|done]. by intros ?%base_key_inj.
  - intros v s Hsin. destruct (decide ((video, shard) = (v, s))) as [[= <- <-]|Hne]; [exact Hshard|].
    destruct (Hshards v s Hsin) as (h & Hh & Hsh). exists h. split.
    + apply Hframe; [discriminate|apply not_eq_sym, base_not_shard| |done].
      intros [-> ->]%shard_key_inj; [done..|apply shard_index_range].
    + intros ty Hty. unfold L'. rewrite (request_shard now until r) by done. fold shard.
      destruct (Z.eqb_spec video v) as [->|_]; [|by rewrite Z.add_0_r; apply Hsh].
      destruct (Z.eqb_spec shard s) as [->|_]; [done|]. rewrite andb_false_r, Z.add_0_r. by apply Hsh.
Qed.
End transaction.
