(* ===== verification/MessageService.v ===== *)
(** * Message service ([internal/application/message/service.go]) *)
From S2P Require Import Prelude.
From S2P Require Import GoStd.
From S2P Require Import MessageDomain.
From S2P Require Import Errors.
From S2P Require Import Models.
From S2P Require Import Store.
From S2P Require Import Codec.
From S2P Require MessageRepo.

Section MessageService.
Context `{Collation} `{Codec}.

Record CreateResult := mkCreateResult { cr_Message : Message; cr_Created : bool }.
Record ListResult := mkListResult { lr_Items : list Message; lr_NextCursor : string; lr_HasMore : bool }.

Definition defaultMessageLimit : Z := 20.

Definition CreateFromActorEvent (userID : Z) (messageType title content eventID idempotencyKey : string)
    (actorID : Z) (actorNickname actorAvatarURL : string) : M CreateResult :=
  let idempotencyKey := TrimSpace idempotencyKey in
  if MaxIdempotencyKeyLength <? len idempotencyKey then throw (EMessage ErrIdempotencyKeyTooLong) else
  match NewMessage userID messageType title content eventID with
  | inl err => throw (EMessage err)
  | inr message =>
      let message := WithActor message actorID actorNickname actorAvatarURL in
      r ← attempt (MessageRepo.Create message idempotencyKey);
      match r with
      | inl _ => throw (EApp ErrSaveMessageFailed)
      | inr (created, inserted) => mret (mkCreateResult created inserted)
      end
  end.

Definition CreateFromEvent (userID : Z) (messageType title content eventID idempotencyKey : string)
    : M CreateResult :=
  CreateFromActorEvent userID messageType title content eventID idempotencyKey 0 "" "".

Definition normalizeLimit (limit : Z) : Z := normalize_limit defaultMessageLimit MaxLimit limit.

Definition parseCursor (raw : string) : message_error + option MessageCursor :=
  match parse_cursor "created_at" "message_id" raw with
  | inl _ => inl ErrInvalidCursor
  | inr c => inr ((fun p => mkMessageCursor p.1 p.2) <$> c)
  end.

Definition encodeCursor (cursor : option MessageCursor) : string :=
  encode_cursor "created_at" "message_id" ((fun c => (mc_CreatedAt c, mc_MessageID c)) <$> cursor).

Definition List (userID : Z) (cursor : string) (limit : Z) : M ListResult :=
  if userID <=? 0 then throw (EMessage ErrInvalidUserID) else
  match parseCursor cursor with
  | inl err => throw (EMessage err)
  | inr parsedCursor =>
      let limit := normalizeLimit limit in
      r ← attempt (MessageRepo.ListByUser userID parsedCursor (limit + 1));
      match r with
      | inl _ => throw (EApp ErrLoadMessageFailed)
      | inr items =>
          let '(items, hasMore) := page_of limit items in
          let nextCursor := match last items with
            | Some m => encodeCursor (Some (mkMessageCursor (m_CreatedAt m) (m_ID m)))
            | None => ""%string
            end in
          mret (mkListResult items nextCursor hasMore)
      end
  end.

Definition CountUnread (userID : Z) : M Z :=
  if userID <=? 0 then throw (EMessage ErrInvalidUserID) else
  r ← attempt (MessageRepo.CountUnread userID);
  match r with
  | inl _ => throw (EApp ErrLoadMessageFailed)
  | inr count => mret count
  end.

(** The loop of [MarkRead]: the ids without repetition, or the error of a bad one. *)
Fixpoint dedup_ids (seen : list Z) (messageIDs : list Z) : message_error + list Z :=
  match messageIDs with
  | [] => inr []
  | id :: messageIDs =>
      if id <=? 0 then inl ErrInvalidMessageID else
      if bool_decide (id ∈ seen) then dedup_ids seen messageIDs else
      match dedup_ids (id :: seen) messageIDs with
      | inl err => inl err
      | inr ids => inr (id :: ids)
      end
  end.

Definition MarkRead (userID : Z) (messageIDs : list Z) : M Z :=
  if userID <=? 0 then throw (EMessage ErrInvalidUserID) else
  match dedup_ids [] messageIDs with
  | inl err => throw (EMessage err)
  | inr ids =>
      r ← attempt (MessageRepo.MarkRead userID ids);
      match r with
      | inl _ => throw (EApp ErrUpdateMessageFailed)
      | inr count => mret count
      end
  end.

End MessageService.
