(* ===== verification/InteractionService.v ===== *)
(** * Interaction service ([internal/application/interaction/service.go], [worker.go])

    Likes, favourites and comments as the API offers them: validation, idempotent replays,
    the synchronous path through the database, the asynchronous one through Redis and the
    queue, hot scores, and notifications to the author of the video. *)
From S2P Require Import Prelude.
From S2P Require Import GoStd.
From S2P Require Import InteractionDomain.
From S2P Require MessageDomain.
From S2P Require Import Errors.
From S2P Require Import Models.
From S2P Require Import Redis.
From S2P Require Import Store.
From S2P Require Import Codec.
From S2P Require Import Ports.
From S2P Require InteractionRepo.

Record InteractionService := mkInteractionService {
  hotScoreRecorder : option HotScoreRecorder;
  statCache : option StatCache;
  actionStateStore : option ActionStateStore;
  actionPublisher : option ActionEventPublisher;
  messageWriter : option MessageWriter;
}.

Record ActionResult := mkActionResult {
  ar_VideoID : Z;
  ar_ActionType : string;
  ar_Active : bool;
  ar_LikeCount : Z;
  ar_FavoriteCount : Z;
}.

Record CreateCommentResult := mkCreateCommentResult { cc_Comment : Comment; cc_Count : Z }.
Record DeleteCommentResult := mkDeleteCommentResult { dc_CommentID : Z; dc_Status : Z; dc_Count : Z }.
Record CommentListResult := mkCommentListResult {
  cl_Items : list Comment; cl_NextCursor : string; cl_HasMore : bool }.

Definition defaultCommentLimit : Z := 20.
Definition hotScoreLikeWeight : Z := 3.
Definition hotScoreFavoriteWeight : Z := 4.
Definition hotScoreCommentWeight : Z := 5.

Definition recordHotScore (recorder : option HotScoreRecorder) (videoID scoreDelta : Z) : M unit :=
  match recorder with
  | None => mret tt
  | Some recorder =>
      if scoreDelta =? 0 then mret tt
      else now ← time_now; ignore (AddHotScore recorder videoID scoreDelta now)
  end.

Definition recordActionHotScore (recorder : option HotScoreRecorder) (videoID : Z)
    (actionType : string) (delta : Z) : M unit :=
  if String.eqb actionType ActionTypeLike
  then recordHotScore recorder videoID (delta * hotScoreLikeWeight)
  else recordHotScore recorder videoID (delta * hotScoreFavoriteWeight).

Definition NewActionChangedEvent (userID videoID : Z) (actionType : string) (active : bool)
    (idempotencyKey : string) : M ActionChangedEvent :=
  id ← new_event_id;
  now ← time_now;
  mret {| ae_EventID := id; ae_UserID := userID; ae_VideoID := videoID;
          ae_ActionType := actionType; ae_Active := active;
          ae_IdempotencyKey := TrimSpace idempotencyKey; ae_OccurredAt := now |}.

(** [fmt.Sprintf("interaction:like:%d:%d", …)] and [fmt.Sprintf("interaction:comment:%d", …)]. *)
Definition like_event_id (videoID userID : Z) : string :=
  ("interaction:like:" +:+ fmt_d videoID +:+ ":" +:+ fmt_d userID)%string.

Definition comment_event_id (commentID : Z) : string :=
  ("interaction:comment:" +:+ fmt_d commentID)%string.

Section InteractionService.
Context `{Collation} `{Codec}.
Variable s : InteractionService.

Definition createInteractionMessage (writer : MessageWriter) (userID : Z)
    (messageType title content eventID : string) (actorID : Z) : M unit :=
  r ← attempt (InteractionRepo.GetUserProfile actorID);
  let actor := match r with inr p => Some p | inl _ => None end in
  match CreateFromActorEvent writer with
  | Some create =>
      let actorNickname := match actor with Some p => up_Nickname p | None => ""%string end in
      let actorAvatarURL := match actor with Some p => up_AvatarURL p | None => ""%string end in
      ignore (create userID messageType title content eventID eventID actorID actorNickname actorAvatarURL)
  | None =>
      let actorName := match actor with
        | Some p => if String.eqb (up_Nickname p) "" then ("用户 " +:+ fmt_d actorID)%string else up_Nickname p
        | None => ("用户 " +:+ fmt_d actorID)%string
        end in
      ignore (CreateFromEvent writer userID messageType title
                (actorName +:+ " " +:+ content)%string eventID eventID)
  end.

Definition notifyLike (action : Action) : M unit :=
  match messageWriter s with
  | None => mret tt
  | Some writer =>
      r ← attempt (InteractionRepo.GetVideoAuthorID (a_VideoID action));
      match r with
      | inl _ => mret tt
      | inr authorID =>
          if authorID =? a_UserID action then mret tt else
          createInteractionMessage writer authorID MessageDomain.TypeLike "收到点赞" "点赞了你的视频"
            (like_event_id (a_VideoID action) (a_UserID action)) (a_UserID action)
      end
  end.

Definition notifyComment (comment : Comment) : M unit :=
  match messageWriter s with
  | None => mret tt
  | Some writer =>
      r ← attempt (InteractionRepo.GetVideoAuthorID (c_VideoID comment));
      match r with
      | inl _ => mret tt
      | inr authorID =>
          if authorID =? c_UserID comment then mret tt else
          createInteractionMessage writer authorID MessageDomain.TypeComment "收到评论"
            (c_Content comment) (comment_event_id (c_ID comment)) (c_UserID comment)
      end
  end.

Definition syncCommentCount (videoID commentCount : Z) : M unit :=
  match statCache s with
  | None => mret tt
  | Some cache =>
      if videoID <=? 0 then mret tt else
      r ← attempt (InteractionRepo.GetVideoStat videoID);
      let stat := match r with inr st => st | inl _ => mkVideoStat videoID 0 0 0 end in
      ignore (SetVideoStat cache (mkVideoStat (vs_VideoID stat) (vs_LikeCount stat) commentCount
                                    (vs_FavoriteCount stat)))
  end.

Definition setActionSync (userID videoID : Z) (actionType : string) (active : bool)
    (idempotencyKey : string) : M ActionResult :=
  r ← attempt (InteractionRepo.SetAction userID videoID actionType active idempotencyKey);
  match r with
  | inl err =>
      if errors_Is err (EInteraction ErrVideoNotFound) then throw (EInteraction ErrVideoNotFound)
      else throw (EApp ErrUpdateInteractionFailed)
  | inr (action, count, delta) =>
      let is_like := String.eqb (a_ActionType action) ActionTypeLike in
      let result := mkActionResult (a_VideoID action) (a_ActionType action) (Active action)
                      (if is_like then count else 0) (if is_like then 0 else count) in
      _ ← recordActionHotScore (hotScoreRecorder s) (a_VideoID action) (a_ActionType action) delta;
      _ ← (if is_like && Active action && (0 <? delta) then notifyLike action else mret tt);
      mret result
  end.

Definition setActionAsync (store : ActionStateStore) (publisher : ActionEventPublisher)
    (userID videoID : Z) (actionType : string) (active : bool) (idempotencyKey : string)
    : M ActionResult :=
  r ← attempt (InteractionRepo.GetVideoStat videoID);
  match r with
  | inl err =>
      if errors_Is err (EInteraction ErrVideoNotFound) then throw (EInteraction ErrVideoNotFound)
      else throw (EApp ErrUpdateInteractionFailed)
  | inr initialStat =>
      r ← attempt (SetActionState store userID videoID actionType active idempotencyKey (Some initialStat));
      match r with
      | inl _ => throw (EApp ErrUpdateInteractionFailed)
      | inr state =>
          let result := mkActionResult (st_VideoID state) (st_ActionType state) (st_Active state)
                          (st_LikeCount state) (st_FavoriteCount state) in
          if st_Delta state =? 0 then mret result else
          event ← NewActionChangedEvent userID videoID actionType active idempotencyKey;
          r ← attempt (PublishActionChanged publisher event);
          match r with
          | inl _ => setActionSync userID videoID actionType active idempotencyKey
          | inr _ =>
              _ ← recordActionHotScore (hotScoreRecorder s) (st_VideoID state) (st_ActionType state)
                    (st_Delta state);
              _ ← (if String.eqb (st_ActionType state) ActionTypeLike && st_Active state
                      && (0 <? st_Delta state)
                   then notifyLike (mkAction 0 userID (st_VideoID state) (st_ActionType state)
                                      ActionStatusActive "" 0 0)
                   else mret tt);
              mret result
          end
      end
  end.

Definition setAction (userID videoID : Z) (actionType : string) (active : bool)
    (idempotencyKey : string) : M ActionResult :=
  if userID <=? 0 then throw (EInteraction ErrInvalidUserID) else
  if videoID <=? 0 then throw (EInteraction ErrInvalidVideoID) else
  if MaxIdempotencyKeyLength <? len (TrimSpace idempotencyKey)
  then throw (EInteraction ErrIdempotencyKeyTooLong) else
  match NormalizeActionType actionType with
  | inl err => throw (EInteraction err)
  | inr actionType =>
      match actionStateStore s, actionPublisher s with
      | Some store, Some publisher =>
          setActionAsync store publisher userID videoID actionType active idempotencyKey
      | _, _ => setActionSync userID videoID actionType active idempotencyKey
      end
  end.

Definition Like (userID videoID : Z) (key : string) := setAction userID videoID ActionTypeLike true key.
Definition Unlike (userID videoID : Z) (key : string) := setAction userID videoID ActionTypeLike false key.
Definition Favorite (userID videoID : Z) (key : string) :=
  setAction userID videoID ActionTypeFavorite true key.
Definition Unfavorite (userID videoID : Z) (key : string) :=
  setAction userID videoID ActionTypeFavorite false key.

(** The part of [CreateComment] after the lookup of the idempotency key. *)
Definition create_new_comment (userID videoID : Z) (content idempotencyKey : string)
    : M CreateCommentResult :=
  match NewComment videoID userID content idempotencyKey with
  | inl err => throw (EInteraction err)
  | inr comment =>
      r ← attempt (InteractionRepo.CreateComment comment);
      match r with
      | inl err =>
          if errors_Is err (EInteraction ErrVideoNotFound) then throw (EInteraction ErrVideoNotFound)
          else throw (EApp ErrSaveInteractionFailed)
      | inr (created, count, delta) =>
          _ ← recordHotScore (hotScoreRecorder s) (c_VideoID created) (delta * hotScoreCommentWeight);
          _ ← syncCommentCount (c_VideoID created) count;
          _ ← (if 0 <? delta then notifyComment created else mret tt);
          mret (mkCreateCommentResult created count)
      end
  end.

Definition CreateComment (userID videoID : Z) (content idempotencyKey : string)
    : M CreateCommentResult :=
  let idempotencyKey := TrimSpace idempotencyKey in
  if MaxIdempotencyKeyLength <? len idempotencyKey
  then throw (EInteraction ErrIdempotencyKeyTooLong) else
  if String.eqb idempotencyKey "" then create_new_comment userID videoID content idempotencyKey
  else
    r ← attempt (InteractionRepo.FindCommentByUserAndIdempotencyKey userID idempotencyKey);
    match r with
    | inr (comment, count) => mret (mkCreateCommentResult comment count)
    | inl err =>
        if negb (errors_Is err (EInteraction ErrCommentNotFound))
        then throw (EApp ErrLoadInteractionFailed)
        else create_new_comment userID videoID content idempotencyKey
    end.

Definition DeleteComment (commentID userID : Z) (role : string) : M DeleteCommentResult :=
  if commentID <=? 0 then throw (EInteraction ErrInvalidCommentID) else
  if userID <=? 0 then throw (EInteraction ErrInvalidUserID) else
  r ← attempt (InteractionRepo.DeleteComment commentID userID role);
  match r with
  | inl err =>
      if errors_Is err (EInteraction ErrCommentNotFound)
         || errors_Is err (EInteraction ErrCommentPermissionDenied)
      then throw err else throw (EApp ErrUpdateInteractionFailed)
  | inr (comment, count, delta) =>
      _ ← recordHotScore (hotScoreRecorder s) (c_VideoID comment) (delta * hotScoreCommentWeight);
      _ ← syncCommentCount (c_VideoID comment) count;
      mret (mkDeleteCommentResult (c_ID comment) (c_Status comment) count)
  end.

Definition normalizeCommentLimit (limit : Z) : Z := normalize_limit defaultCommentLimit MaxLimit limit.

Definition parseCommentCursor (raw : string) : interaction_error + option CommentCursor :=
  match parse_cursor "created_at" "comment_id" raw with
  | inl _ => inl ErrInvalidCursor
  | inr c => inr ((fun p => mkCommentCursor p.1 p.2) <$> c)
  end.

Definition encodeCommentCursor (cursor : option CommentCursor) : string :=
  encode_cursor "created_at" "comment_id" ((fun c => (cc_CreatedAt c, cc_CommentID c)) <$> cursor).

Definition ListComments (videoID : Z) (cursor : string) (limit : Z) : M CommentListResult :=
  if videoID <=? 0 then throw (EInteraction ErrInvalidVideoID) else
  match parseCommentCursor cursor with
  | inl err => throw (EInteraction err)
  | inr parsedCursor =>
      let limit := normalizeCommentLimit limit in
      r ← attempt (InteractionRepo.ListComments videoID parsedCursor (limit + 1));
      match r with
      | inl _ => throw (EApp ErrLoadInteractionFailed)
      | inr items =>
          let '(items, hasMore) := page_of limit items in
          let nextCursor := match last items with
            | Some c => encodeCommentCursor (Some (mkCommentCursor (c_CreatedAt c) (c_ID c)))
            | None => ""%string
            end in
          mret (mkCommentListResult items nextCursor hasMore)
      end
  end.

(** [ActionWorker.HandleActionChanged]: the database write behind the asynchronous path. *)
Definition HandleActionChanged (event : option ActionChangedEvent) : M unit :=
  match event with
  | None => mret tt
  | Some event =>
      _ ← InteractionRepo.SetAction (ae_UserID event) (ae_VideoID event) (ae_ActionType event)
            (ae_Active event) (ae_IdempotencyKey event);
      mret tt
  end.

End InteractionService.
