(* ===== verification/RelationService.v ===== *)
(** * Relation service ([internal/application/relation/service.go]) *)
From S2P Require Import Prelude.
From S2P Require Import GoStd.
From S2P Require Import FeedDomain.
From S2P Require Import RelationDomain.
From S2P Require MessageDomain.
From S2P Require Import Errors.
From S2P Require Import Models.
From S2P Require Import Store.
From S2P Require Import Codec.
From S2P Require Import Ports.
From S2P Require RelationRepo.

Record RelationService := mkRelationService {
  backfiller : option FollowFeedBackfiller;
  rel_messageWriter : option MessageWriter;
}.

Record FollowResult := mkFollowResult {
  fl_UserID : Z;
  fl_TargetUserID : Z;
  fl_Status : Z;
  fl_Following : bool;
  fl_FollowingCount : Z;
  fl_FollowerCount : Z;
}.

Record RelationListResult := mkRelationListResult {
  rl_Items : list UserItem; rl_NextCursor : string; rl_HasMore : bool }.

Definition defaultListLimit : Z := 20.
Definition defaultBackfillVideoLimit : Z := 100.
Definition defaultBackfillInboxMaxLen : Z := 1000.

Definition follow_event_id (targetUserID userID : Z) : string :=
  ("relation:follow:" +:+ fmt_d targetUserID +:+ ":" +:+ fmt_d userID)%string.

Section RelationService.
Context `{Codec}.
Variable s : RelationService.

Definition notifyFollow (userID targetUserID : Z) : M unit :=
  match rel_messageWriter s with
  | None => mret tt
  | Some writer =>
      let eventID := follow_event_id targetUserID userID in
      r ← attempt (RelationRepo.GetUserProfile userID);
      let actor := match r with inr p => Some p | inl _ => None end in
      match CreateFromActorEvent writer with
      | Some create =>
          let actorNickname := match actor with Some p => rp_Nickname p | None => ""%string end in
          let actorAvatarURL := match actor with Some p => rp_AvatarURL p | None => ""%string end in
          ignore (create targetUserID MessageDomain.TypeFollow "新增关注" "关注了你" eventID eventID
                    userID actorNickname actorAvatarURL)
      | None =>
          let actorName := match actor with
            | Some p => if String.eqb (rp_Nickname p) "" then ("用户 " +:+ fmt_d userID)%string else rp_Nickname p
            | None => ("用户 " +:+ fmt_d userID)%string
            end in
          ignore (CreateFromEvent writer targetUserID MessageDomain.TypeFollow "新增关注"
                    (actorName +:+ " 关注了你")%string eventID eventID)
      end
  end.

Fixpoint backfill_items (bf : FollowFeedBackfiller) (userID targetUserID : Z)
    (items : list (option FeedPageItem)) : M unit :=
  match items with
  | [] => mret tt
  | None :: items => backfill_items bf userID targetUserID items
  | Some item :: items =>
      _ ← bf_AddInboxItems bf targetUserID [userID] item defaultBackfillInboxMaxLen;
      backfill_items bf userID targetUserID items
  end.

Definition backfillFollowFeed (userID targetUserID : Z) : M unit :=
  match backfiller s with
  | None => mret tt
  | Some bf =>
      followerCount ← bf_CountFollowers bf targetUserID;
      if BigCreatorFollowerThreshold <=? followerCount then mret tt else
      items ← bf_ListAuthorRecentVideos bf targetUserID defaultBackfillVideoLimit;
      backfill_items bf userID targetUserID items
  end.

Definition setFollow (userID targetUserID : Z) (active : bool) (idempotencyKey : string)
    : M FollowResult :=
  match NewFollow userID targetUserID idempotencyKey with
  | inl err => throw (ERelation err)
  | inr _ =>
      r ← attempt (RelationRepo.SetFollow userID targetUserID active idempotencyKey);
      match r with
      | inl err =>
          if errors_Is err (ERelation ErrTargetUserNotFound) then throw (ERelation ErrTargetUserNotFound)
          else throw (EApp ErrUpdateRelationFailed)
      | inr (follow, userStat, targetStat) =>
          _ ← (if active && FollowActive follow then
                 _ ← map_error (fun _ => EApp ErrBackfillFollowFeedFailed)
                       (backfillFollowFeed userID targetUserID);
                 notifyFollow userID targetUserID
               else mret tt);
          mret (mkFollowResult (f_UserID follow) (f_TargetUserID follow) (f_Status follow)
                  (FollowActive follow) (rs_FollowingCount userStat) (rs_FollowerCount targetStat))
      end
  end.

Definition Follow (userID targetUserID : Z) (key : string) := setFollow userID targetUserID true key.
Definition Unfollow (userID targetUserID : Z) (key : string) := setFollow userID targetUserID false key.

Definition normalizeLimit (limit : Z) : Z := normalize_limit defaultListLimit MaxLimit limit.

Definition parseListCursor (raw : string) : relation_error + option ListCursor :=
  match parse_cursor "followed_at" "user_id" raw with
  | inl _ => inl ErrInvalidCursor
  | inr c => inr ((fun p => mkListCursor p.1 p.2) <$> c)
  end.

Definition encodeListCursor (cursor : option ListCursor) : string :=
  encode_cursor "followed_at" "user_id" ((fun c => (lc_FollowedAt c, lc_UserID c)) <$> cursor).

Definition listResult (items : list UserItem) (limit : Z) : RelationListResult :=
  let '(items, hasMore) := page_of limit items in
  let nextCursor := match last items with
    | Some i => encodeListCursor (Some (mkListCursor (ui_FollowedAt i) (ui_UserID i)))
    | None => ""%string
    end in
  mkRelationListResult items nextCursor hasMore.

Definition list_relation (fetch : Z -> option ListCursor -> Z -> M (list UserItem))
    (userID : Z) (cursor : string) (limit : Z) : M RelationListResult :=
  if userID <=? 0 then throw (ERelation ErrInvalidUserID) else
  match parseListCursor cursor with
  | inl err => throw (ERelation err)
  | inr parsedCursor =>
      let limit := normalizeLimit limit in
      r ← attempt (fetch userID parsedCursor (limit + 1));
      match r with
      | inl _ => throw (EApp ErrLoadRelationFailed)
      | inr items => mret (listResult items limit)
      end
  end.

Definition ListFollowing := list_relation RelationRepo.ListFollowing.
Definition ListFollowers := list_relation RelationRepo.ListFollowers.

End RelationService.
