(* ===== verification/VideoService.v ===== *)
(** * Video service ([internal/application/video]: [service.go], [event.go],
    [fanout_worker.go])

    Publishing with an idempotency key, reading, deleting, and the worker that copies a
    published video into the inboxes of the author's followers, batch by batch. *)
From S2P Require Import Prelude.
From S2P Require Import GoStd.
From S2P Require Import FeedDomain.
From S2P Require Import VideoDomain.
From S2P Require Import Errors.
From S2P Require Import Models.
From S2P Require Import Redis.
From S2P Require Import Store.
From S2P Require Import Ports.
From S2P Require VideoRepo.

Record VideoCreateResult := mkVideoCreateResult { vc_Video : Video; vc_Created : bool }.

Definition NewPublishedEvent (v : Video) : M (option PublishedEvent) :=
  match v_PublishedAt v with
  | None => mret None
  | Some publishedAt =>
      id ← new_event_id;
      now ← time_now;
      mret (Some {| pe_EventID := id; pe_VideoID := v_ID v; pe_AuthorID := v_AuthorID v;
                    pe_Title := TrimSpace (v_Title v); pe_Description := TrimSpace (v_Description v);
                    pe_MediaURL := TrimSpace (v_MediaURL v); pe_CoverURL := TrimSpace (v_CoverURL v);
                    pe_PublishedAt := publishedAt; pe_OccurredAt := now |})
  end.

Section VideoService.
Context `{Collation}.
Variable publisher : option PublishedEventPublisher.

Definition publishCreatedVideo (v : Video) : M unit :=
  match publisher with
  | None => mret tt
  | Some p =>
      event ← NewPublishedEvent v;
      match event with
      | None => mret tt
      | Some event => ignore (PublishVideoPublished p event)
      end
  end.

(** The part of [CreatePublished] after the lookup of the idempotency key. *)
Definition create_new_video (authorID : Z) (title description mediaURL coverURL idempotencyKey : string)
    : M VideoCreateResult :=
  now ← time_now;
  match NewPublished now authorID title description mediaURL coverURL idempotencyKey with
  | inl err => throw (EVideo err)
  | inr v =>
      r ← attempt (VideoRepo.Save v);
      match r with
      | inl err =>
          if negb (String.eqb idempotencyKey "") && errors_Is err (EVideo ErrDuplicateIdempotencyKey) then
            existing ← attempt (VideoRepo.FindByAuthorAndIdempotencyKey authorID idempotencyKey);
            match existing with
            | inr existing => mret (mkVideoCreateResult existing false)
            | inl _ => throw (EApp ErrLoadVideoFailed)
            end
          else throw (EApp ErrSaveVideoFailed)
      | inr v =>
          _ ← publishCreatedVideo v;
          mret (mkVideoCreateResult v true)
      end
  end.

Definition CreatePublished (authorID : Z) (title description mediaURL coverURL idempotencyKey : string)
    : M VideoCreateResult :=
  let idempotencyKey := TrimSpace idempotencyKey in
  if MaxIdempotencyKeyLength <? len idempotencyKey then throw (EVideo ErrIdempotencyKeyTooLong) else
  if String.eqb idempotencyKey ""
  then create_new_video authorID title description mediaURL coverURL idempotencyKey
  else
    existing ← attempt (VideoRepo.FindByAuthorAndIdempotencyKey authorID idempotencyKey);
    match existing with
    | inr existing => mret (mkVideoCreateResult existing false)
    | inl err =>
        if negb (errors_Is err (EVideo ErrVideoNotFound)) then throw (EApp ErrLoadVideoFailed)
        else create_new_video authorID title description mediaURL coverURL idempotencyKey
    end.

Definition Get (videoID : Z) : M Video :=
  if videoID <=? 0 then throw (EVideo ErrInvalidVideoID) else
  r ← attempt (VideoRepo.FindByID videoID);
  match r with
  | inl err =>
      if errors_Is err (EVideo ErrVideoNotFound) then throw (EVideo ErrVideoNotFound)
      else throw (EApp ErrLoadVideoFailed)
  | inr v => mret v
  end.

Definition ListByAuthor (authorID limit offset : Z) : M (list Video) :=
  if authorID <=? 0 then throw (EVideo ErrInvalidAuthorID) else
  if limit <=? 0 then throw (EVideo ErrInvalidLimit) else
  if offset <? 0 then throw (EVideo ErrInvalidOffset) else
  let limit := if 100 <? limit then 100 else limit in
  r ← attempt (VideoRepo.ListByAuthor authorID limit offset);
  match r with
  | inl _ => throw (EApp ErrLoadVideoFailed)
  | inr videos => mret videos
  end.

Definition Delete (authorID videoID : Z) : M unit :=
  if authorID <=? 0 then throw (EVideo ErrInvalidAuthorID) else
  if videoID <=? 0 then throw (EVideo ErrInvalidVideoID) else
  r ← attempt (VideoRepo.FindByIDAnyStatus videoID);
  match r with
  | inl err =>
      if errors_Is err (EVideo ErrVideoNotFound) then throw (EVideo ErrVideoNotFound)
      else throw (EApp ErrLoadVideoFailed)
  | inr v =>
      let alreadyDeleted := v_Status v =? StatusDeleted in
      match DeleteBy v authorID with
      | inl err => throw (EVideo err)
      | inr v =>
          if alreadyDeleted then mret tt else
          r ← attempt (VideoRepo.UpdateStatus v);
          match r with
          | inl err =>
              if errors_Is err (EVideo ErrVideoNotFound) then throw (EVideo ErrVideoNotFound)
              else throw (EApp ErrUpdateVideoFailed)
          | inr _ => mret tt
          end
      end
  end.

End VideoService.

(** ** The fan-out worker *)

Record FanoutWorker := mkFanoutWorker {
  fw_repo : option FanoutRepository;
  fw_index : option FollowingIndexCache;
  fw_preheater : option FeedPreheater;
  fw_batchSize : Z;
  fw_inboxMaxLen : Z;
  fw_outboxMaxLen : Z;
  fw_preheatTTL : Z;
}.

Definition defaultFollowerBatchSize : Z := 500.

Definition NewFanoutWorker (repo : option FanoutRepository) (index : option FollowingIndexCache)
    (preheater : option FeedPreheater) : FanoutWorker :=
  mkFanoutWorker repo index preheater defaultFollowerBatchSize 1000 500 (15 * minute).

Definition WithFanoutBatchSize (size : Z) (w : FanoutWorker) : FanoutWorker :=
  if 0 <? size
  then mkFanoutWorker (fw_repo w) (fw_index w) (fw_preheater w) size (fw_inboxMaxLen w)
         (fw_outboxMaxLen w) (fw_preheatTTL w)
  else w.

(** [FeedPreheaterAdapter.PreheatFeedVideo]. *)
Definition preheat_video (source : option FanoutRepository) (cache : option FeedCacheWriter)
    (videoID ttl : Z) : M unit :=
  match source, cache with
  | Some source, Some cache =>
      if videoID <=? 0 then mret tt else
      cards ← fr_BatchGetFeedCards source [videoID];
      _ ← (if 0 <? Z.of_nat (size cards) then cw_SetCards cache cards ttl else mret tt);
      stats ← fr_BatchGetFeedStats source [videoID];
      if 0 <? Z.of_nat (size stats) then cw_SetStats cache stats (15 * second) else mret tt
  | _, _ => mret tt
  end.

(** The loop over the followers; [None] when [fuel] rounds are not enough. *)
Fixpoint fanout_loop (fuel : nat) (repo : FanoutRepository) (index : FollowingIndexCache)
    (w : FanoutWorker) (authorID : Z) (item : FeedPageItem) (cursor : Z) : M (option unit) :=
  match fuel with
  | O => mret None
  | S fuel =>
      followerIDs ← fr_ListFollowerIDs repo authorID cursor (fw_batchSize w);
      match last followerIDs with
      | None => mret (Some tt)
      | Some lastID =>
          _ ← ix_AddInboxItems index authorID followerIDs item (fw_inboxMaxLen w);
          if Z.of_nat (length followerIDs) <? fw_batchSize w then mret (Some tt)
          else fanout_loop fuel repo index w authorID item lastID
      end
  end.

Definition HandleVideoPublished (fuel : nat) (w : FanoutWorker) (event : option PublishedEvent)
    : M (option unit) :=
  match event with
  | None => mret (Some tt)
  | Some event =>
      if (pe_VideoID event <=? 0) || (pe_AuthorID event <=? 0) then mret (Some tt) else
      _ ← (match fw_preheater w with
           | None => mret tt
           | Some p => PreheatFeedVideo p (pe_VideoID event) (fw_preheatTTL w)
           end);
      match fw_repo w, fw_index w with
      | Some repo, Some index =>
          let item := mkFeedPageItem (pe_VideoID event) (pe_AuthorID event) (pe_PublishedAt event) 0 in
          followerCount ← fr_CountFollowers repo (pe_AuthorID event);
          if BigCreatorFollowerThreshold <=? followerCount then
            _ ← ix_AddAuthorOutboxItem index (pe_AuthorID event) item (fw_outboxMaxLen w);
            mret (Some tt)
          else fanout_loop fuel repo index w (pe_AuthorID event) item 0
      | _, _ => mret (Some tt)
      end
  end.
