(* ===== verification/OtherServices.v ===== *)
(** * Exposure, playback, account and embedding services ([internal/application/exposure],
    [internal/application/playback], [internal/application/account],
    [internal/application/embedding]) *)
From S2P Require Import Prelude.
From S2P Require Import GoStd.
From S2P Require ExposureDomain.
From S2P Require PlaybackDomain.
From S2P Require AccountDomain.
From S2P Require EmbeddingDomain.
From S2P Require Import Errors.
From S2P Require Import Models.
From S2P Require Import Redis.
From S2P Require Import Store.
From S2P Require Import Codec.
From S2P Require Import Ports.
From S2P Require RecommendationRepo.
From S2P Require ExposureRepo.
From S2P Require PlaybackRepo.
From S2P Require AccountRepo.

Module ExposureService.
Import ExposureDomain.

Record RecordViewEventResult := mkRecordViewEventResult {
  rv_Event : ViewEvent; rv_Exposure : option Exposure }.

Definition NewViewEventRecordedEvent (event : ViewEvent) (exposure : option Exposure)
    : M ViewEventRecordedEvent :=
  id ← new_event_id;
  now ← time_now;
  mret {| ve_EventID := id; ve_ViewEventID := e_ID event; ve_UserID := e_UserID event;
          ve_VideoID := e_VideoID event; ve_Scene := e_Scene event;
          ve_RequestID := e_RequestID event; ve_EventType := e_EventType event;
          ve_WatchMs := e_WatchMs event; ve_Completed := e_Completed event;
          ve_RecordedAt := e_CreatedAt event; ve_OccurredAt := now;
          ve_ExposureCount := match exposure with Some x => x_ExposureCount x | None => 0 end |}.

Definition publishViewEventRecorded (publisher : option ViewEventPublisher) (event : ViewEvent)
    (exposure : option Exposure) : M unit :=
  match publisher with
  | None => mret tt
  | Some p =>
      message ← NewViewEventRecordedEvent event exposure;
      ignore (PublishViewEventRecorded p message)
  end.

Definition RecordViewEvent (publisher : option ViewEventPublisher) (userID videoID : Z)
    (scene requestID eventType : string) (watchMs : Z) (completed : bool) : M RecordViewEventResult :=
  match NewViewEvent userID videoID scene requestID eventType watchMs completed with
  | inl err => throw (EExposure err)
  | inr event =>
      r ← attempt (ExposureRepo.SaveViewEvent event);
      match r with
      | inl err =>
          if errors_Is err (EExposure ErrVideoNotFound) then throw err
          else throw (EApp ErrSaveExposureFailed)
      | inr (savedEvent, exposure) =>
          _ ← publishViewEventRecorded publisher savedEvent exposure;
          mret (mkRecordViewEventResult savedEvent exposure)
      end
  end.
End ExposureService.

Module PlaybackService.
Import PlaybackDomain.

Definition normalizeConfig (config : Config) (platform networkType : string) : Config :=
  let p := NormalizePlatform (cf_Platform config) in
  let n := NormalizeNetworkType (cf_NetworkType config) in
  let preload := if cf_PreloadCount config <=? 0 then DefaultPreloadCount else cf_PreloadCount config in
  {| cf_ID := cf_ID config;
     cf_Platform := if String.eqb p "" then platform else p;
     cf_NetworkType := if String.eqb n "" then networkType else n;
     cf_PreloadCount := if MaxPreloadLimit <? preload then MaxPreloadLimit else preload;
     cf_BufferMs := if cf_BufferMs config <=? 0 then DefaultBufferMs else cf_BufferMs config;
     cf_UpdatedAt := cf_UpdatedAt config |}.

Definition normalizeLimit (limit : Z) : Z := normalize_limit DefaultPreloadCount MaxPreloadLimit limit.

Section PlaybackService.
Context `{Collation}.

Definition find_config (platform networkType : string) : M (option Config) :=
  map_error (fun _ => EApp ErrLoadPlaybackFailed) (PlaybackRepo.FindConfig platform networkType).

Definition GetConfig (platform networkType : string) : M Config :=
  let platform := NormalizePlatform platform in
  let networkType := NormalizeNetworkType networkType in
  if MaxPlatformLength <? len platform then throw (EPlayback ErrInvalidPlatform) else
  if MaxNetworkTypeLength <? len networkType then throw (EPlayback ErrInvalidNetworkType) else
  config ← find_config platform networkType;
  config ← (match config with
            | None => if negb (String.eqb networkType NetworkDefault)
                      then find_config platform NetworkDefault else mret None
            | Some c => mret (Some c)
            end);
  config ← (match config with
            | None => now ← time_now; mret (DefaultConfig now platform networkType)
            | Some c => mret c
            end);
  mret (normalizeConfig config platform networkType).

Definition ListPreloadVideos (currentVideoID limit : Z) : M (list PreloadVideo) :=
  if currentVideoID <? 0 then throw (EPlayback ErrInvalidVideoID) else
  let limit := normalizeLimit limit in
  map_error (fun _ => EApp ErrLoadPlaybackFailed) (PlaybackRepo.ListPreloadVideos currentVideoID limit).

Definition CreateQoSReport (userID videoID : Z) (firstFrameMs : option Z) (stutterCount watchMs : Z)
    (idempotencyKey : string) : M (QoSReport * bool) :=
  let idempotencyKey := TrimSpace idempotencyKey in
  match NewQoSReport userID videoID firstFrameMs stutterCount watchMs idempotencyKey with
  | inl err => throw (EPlayback err)
  | inr report =>
      map_error (fun _ => EApp ErrSaveQoSReportFailed) (PlaybackRepo.CreateQoSReport report)
  end.
End PlaybackService.
End PlaybackService.

Module AccountService.
Import AccountDomain.

Record LoginResult := mkLoginResult {
  lg_AccessToken : string; lg_TokenType : string; lg_ExpiresInSeconds : Z }.

(** A user without the password hash. *)
Record Profile := mkProfile {
  p_ID : Z;
  p_Account : string;
  p_Nickname : string;
  p_AvatarURL : string;
  p_Bio : string;
  p_Status : Z;
  p_Role : string;
  p_FollowingCount : Z;
  p_FollowerCount : Z;
  p_WorkCount : Z;
}.

Definition profileFromUser (u : User) : Profile :=
  {| p_ID := u_ID u; p_Account := u_Account u; p_Nickname := u_Nickname u;
     p_AvatarURL := u_AvatarURL u; p_Bio := u_Bio u; p_Status := u_Status u; p_Role := u_Role u;
     p_FollowingCount := u_FollowingCount u; p_FollowerCount := u_FollowerCount u;
     p_WorkCount := u_WorkCount u |}.

Section AccountService.
Context `{Collation} `{Bcrypt}.
Variable signer : TokenSigner.

(** [salt] is what bcrypt draws. *)
Definition Register (salt acct password nickname : string) : M Profile :=
  match NewUser salt acct password nickname with
  | inl err => throw (EAccount err)
  | inr user =>
      r ← attempt (AccountRepo.Save user);
      match r with
      | inl err =>
          if errors_Is err (EAccount ErrAccountAlreadyExists) then throw (EAccount ErrAccountAlreadyExists)
          else throw (EApp ErrSaveAccountFailed)
      | inr user => mret (profileFromUser user)
      end
  end.

Definition Login (acct password : string) : M LoginResult :=
  let acct := TrimSpace acct in
  if String.eqb acct "" then throw (EAccount ErrEmptyAccount) else
  r ← attempt (AccountRepo.FindByAccount acct);
  match r with
  | inl err =>
      if errors_Is err (EAccount ErrUserNotFound) then throw (EAccount ErrInvalidCredentials)
      else throw (EApp ErrLoadAccountFailed)
  | inr user =>
      match Authenticate user password with
      | inl err => throw (EAccount err)
      | inr _ =>
          token ← map_error (fun _ => EApp ErrSignAccessTokenFailed)
                    (SignAccessToken signer (u_ID user) (u_Role user));
          mret (mkLoginResult token "Bearer" (AccessTTL signer `quot` second))
      end
  end.

Definition load_user (userID : Z) : M User :=
  if userID <=? 0 then throw (EAccount ErrInvalidUserID) else
  r ← attempt (AccountRepo.FindByID userID);
  match r with
  | inl err =>
      if errors_Is err (EAccount ErrUserNotFound) then throw (EAccount ErrUserNotFound)
      else throw (EApp ErrLoadAccountFailed)
  | inr user => mret user
  end.

Definition GetProfile (userID : Z) : M Profile := user ← load_user userID; mret (profileFromUser user).

Definition GetPublicProfile (userID : Z) : M Profile :=
  user ← load_user userID; mret (profileFromUser user).

Definition UpdateProfile (userID : Z) (nickname avatarURL bio : option string) : M Profile :=
  user ← load_user userID;
  match AccountDomain.UpdateProfile user nickname avatarURL bio with
  | inl err => throw (EAccount err)
  | inr user =>
      r ← attempt (AccountRepo.UpdateProfile user);
      match r with
      | inl err =>
          if errors_Is err (EAccount ErrUserNotFound) then throw (EAccount ErrUserNotFound)
          else throw (EApp ErrUpdateAccountFailed)
      | inr _ => mret (profileFromUser user)
      end
  end.
End AccountService.
End AccountService.

Module EmbeddingService.
Import EmbeddingDomain.

Record GenerateVideoEmbeddingResult := mkGenerated {
  gv_Embedding : option VideoEmbedding; gv_CreatedOrUpdated : bool }.

Section EmbeddingService.
Context `{Collation} `{Codec}.
Variable vectorizer : Vectorizer.

Definition GenerateForPublishedVideo (event : option PublishedEvent) : M GenerateVideoEmbeddingResult :=
  match event with
  | None => mret (mkGenerated None false)
  | Some event =>
      if pe_VideoID event <=? 0 then mret (mkGenerated None false) else
      let text := BuildVideoText (pe_Title event) (pe_Description event) in
      let vector := vz_Vectorize vectorizer text in
      match json_MarshalFloats vector with
      | None => throw (EApp ErrMarshalEmbeddingFailed)
      | Some content =>
          let embedding := NewVideoEmbedding (pe_VideoID event) (vz_Model vectorizer) vector
                             (TextHash text) content in
          _ ← map_error (fun _ => EApp ErrSaveVideoEmbeddingFailed) (RecommendationRepo.SaveVideoEmbedding embedding);
          mret (mkGenerated (Some embedding) true)
      end
  end.

Definition HandleVideoPublished (event : option PublishedEvent) : M unit :=
  match event with
  | None => mret tt
  | Some _ => _ ← GenerateForPublishedVideo event; mret tt
  end.
End EmbeddingService.
End EmbeddingService.
