(* ===== verification/MessageBroker.v ===== *)
(** * The message broker's client ([internal/infra/mq/rabbitmq.go])

    The names it uses, the exchanges, queues and bindings it declares, what it publishes
    where, and how its consumers settle a delivery. A consumer's delivery is the event its
    body decodes to, [None] if it does not decode. The connection itself is left out. *)
From S2P Require Import Prelude.
From S2P Require Import GoStd.
From S2P Require Import GoConv.
From S2P Require Import Errors.
From S2P Require Import Models.
From S2P Require Import Redis.
From S2P Require Import Store.
From S2P Require Import Ports.

(** ** Names *)

Record RabbitMQConfig := mkRabbitMQConfig {
  rm_URL : string;
  rm_InteractionExchange : string;
  rm_ActionChangedQueue : string;
  rm_ActionChangedRouting : string;
  rm_VideoExchange : string;
  rm_VideoPublishedQueue : string;
  rm_VideoEmbeddingQueue : string;
  rm_VideoPublishedRouting : string;
  rm_ExposureExchange : string;
  rm_ViewEventRecordedQueue : string;
  rm_ViewEventRecordedRouting : string;
}.

Definition defaultInteractionExchange : string := "gcfeed.interaction".
Definition defaultActionChangedQueue : string := "gcfeed.interaction.action_changed".
Definition defaultActionChangedRouting : string := "interaction.action_changed".
Definition defaultVideoExchange : string := "gcfeed.video".
Definition defaultVideoPublishedQueue : string := "gcfeed.video.published".
Definition defaultVideoEmbeddingQueue : string := "gcfeed.video.embedding".
Definition defaultVideoPublishedRouting : string := "video.published".
Definition defaultExposureExchange : string := "gcfeed.exposure".
Definition defaultViewEventRecordedQueue : string := "gcfeed.exposure.view_event_recorded".
Definition defaultViewEventRecordedRouting : string := "exposure.view_event_recorded".

Definition or_default (name fallback : string) : string := if String.eqb name "" then fallback else name.

(** Some of the names are trimmed first. *)
Definition normalizeRabbitMQConfig (c : RabbitMQConfig) : RabbitMQConfig :=
  {| rm_URL := TrimSpace (rm_URL c);
     rm_InteractionExchange := or_default (TrimSpace (rm_InteractionExchange c)) defaultInteractionExchange;
     rm_ActionChangedQueue := or_default (TrimSpace (rm_ActionChangedQueue c)) defaultActionChangedQueue;
     rm_ActionChangedRouting := or_default (TrimSpace (rm_ActionChangedRouting c)) defaultActionChangedRouting;
     rm_VideoExchange := or_default (rm_VideoExchange c) defaultVideoExchange;
     rm_VideoPublishedQueue := or_default (rm_VideoPublishedQueue c) defaultVideoPublishedQueue;
     rm_VideoEmbeddingQueue := or_default (TrimSpace (rm_VideoEmbeddingQueue c)) defaultVideoEmbeddingQueue;
     rm_VideoPublishedRouting := or_default (rm_VideoPublishedRouting c) defaultVideoPublishedRouting;
     rm_ExposureExchange := or_default (TrimSpace (rm_ExposureExchange c)) defaultExposureExchange;
     rm_ViewEventRecordedQueue :=
       or_default (TrimSpace (rm_ViewEventRecordedQueue c)) defaultViewEventRecordedQueue;
     rm_ViewEventRecordedRouting :=
       or_default (TrimSpace (rm_ViewEventRecordedRouting c)) defaultViewEventRecordedRouting |}.

(** ** Topology *)

(** A durable topic exchange, a durable queue, a binding of a queue to an exchange. *)
Inductive declaration :=
  | ExchangeDeclare (name : string)
  | QueueDeclare (name : string)
  | QueueBind (queue key exchange : string).

(** The declarations in their order; the first that fails ends them. *)
Definition ensureTopology (c : RabbitMQConfig) : list declaration :=
  [ ExchangeDeclare (rm_InteractionExchange c);
    QueueDeclare (rm_ActionChangedQueue c);
    QueueBind (rm_ActionChangedQueue c) (rm_ActionChangedRouting c) (rm_InteractionExchange c);
    ExchangeDeclare (rm_VideoExchange c);
    QueueDeclare (rm_VideoPublishedQueue c);
    QueueBind (rm_VideoPublishedQueue c) (rm_VideoPublishedRouting c) (rm_VideoExchange c);
    QueueDeclare (rm_VideoEmbeddingQueue c);
    QueueBind (rm_VideoEmbeddingQueue c) (rm_VideoPublishedRouting c) (rm_VideoExchange c);
    ExchangeDeclare (rm_ExposureExchange c);
    QueueDeclare (rm_ViewEventRecordedQueue c);
    QueueBind (rm_ViewEventRecordedQueue c) (rm_ViewEventRecordedRouting c) (rm_ExposureExchange c) ].

(** ** Publishing *)

(** The exchange and the routing key of an event; the outbox has a connection of its own. *)
Definition address (c : RabbitMQConfig) (ev : Event) : option (string * string) :=
  match ev with
  | EvActionChanged _ => Some (rm_InteractionExchange c, rm_ActionChangedRouting c)
  | EvVideoPublished _ => Some (rm_VideoExchange c, rm_VideoPublishedRouting c)
  | EvViewEventRecorded _ => Some (rm_ExposureExchange c, rm_ViewEventRecordedRouting c)
  | EvOutbox _ => None
  end.

(** [publish]: the message is sent, and its confirmation awaited; it may have arrived although
    the confirmation did not. *)
Definition broker_publish (ev : Event) : M unit :=
  _ ← call;
  _ ← push_event ev;
  call.

(** [json.Marshal] of the event fails if one of its times does not fit. *)
Definition marshalled (times : list Time) (m : M unit) : M unit :=
  if forallb json_time times then m else throw (EDriver "json: error calling MarshalJSON for type time.Time").

Definition PublishActionChanged (e : ActionChangedEvent) : M unit :=
  marshalled [ae_OccurredAt e] (broker_publish (EvActionChanged e)).

Definition PublishVideoPublished (e : PublishedEvent) : M unit :=
  marshalled [pe_PublishedAt e; pe_OccurredAt e] (broker_publish (EvVideoPublished e)).

Definition PublishViewEventRecorded (e : ViewEventRecordedEvent) : M unit :=
  marshalled [ve_RecordedAt e; ve_OccurredAt e] (broker_publish (EvViewEventRecorded e)).

(** The ports of the services that the client implements. *)
Definition action_publisher : ActionEventPublisher := {| Ports.PublishActionChanged := PublishActionChanged |}.
Definition published_publisher : PublishedEventPublisher := {| Ports.PublishVideoPublished := PublishVideoPublished |}.
Definition view_event_publisher : ViewEventPublisher :=
  {| Ports.PublishViewEventRecorded := PublishViewEventRecorded |}.

(** ** Consuming *)

Inductive settlement := Ack | NackDrop | NackRequeue.

(** The body of the loops of the consumers. *)
Definition settle {A} (delivery : option A) (handler : A -> M unit) : M settlement :=
  match delivery with
  | None => mret NackDrop
  | Some event =>
      r ← attempt (handler event);
      mret (match r with inl _ => NackRequeue | inr _ => Ack end)
  end.

Definition ConsumeActionChanged (delivery : option ActionChangedEvent)
    (handler : ActionChangedEvent -> M unit) : M settlement := settle delivery handler.

Definition consumeVideoPublishedQueue (delivery : option PublishedEvent)
    (handler : PublishedEvent -> M unit) : M settlement := settle delivery handler.

Definition ConsumeVideoPublished := consumeVideoPublishedQueue.
Definition ConsumeVideoPublishedForEmbedding := consumeVideoPublishedQueue.

Definition ConsumeViewEventRecorded (delivery : option ViewEventRecordedEvent)
    (handler : ViewEventRecordedEvent -> M unit) : M settlement := settle delivery handler.

(** ** What the broker does with the declarations

    A topic exchange passes a message to the queues bound with its key: the keys have no
    wildcards. A queue keeps its messages in order; a message that is returned keeps its
    place, the others are removed. *)

Definition bound_queues (l : list declaration) (exchange key : string) : list string :=
  omap (fun d => match d with
    | QueueBind q k e => if String.eqb e exchange && String.eqb k key then Some q else None
    | _ => None
    end) l.

Definition settled {A} (s : settlement) (m : A) (rest : list A) : list A :=
  match s with NackRequeue => m :: rest | Ack | NackDrop => rest end.

(** A consumer works on its queue: one delivery after the other, for [fuel] deliveries; the
    queue that is left, and the events that were handled. *)
Fixpoint work {A} (fuel : nat) (handler : A -> M unit) (queue : list (option A)) : M (list (option A)) :=
  match fuel, queue with
  | O, _ | _, [] => mret queue
  | S fuel, m :: rest =>
      s ← settle m handler;
      work fuel handler (settled s m rest)
  end.

(** ** Facts *)

Lemma or_default_nonempty name fallback : fallback <> ""%string -> or_default name fallback <> ""%string.
Proof. unfold or_default. by destruct (String.eqb_spec name ""). Qed.

(** The queues whose consumers want an event. *)
Definition consumers (c : RabbitMQConfig) (ev : Event) : list string :=
  match ev with
  | EvActionChanged _ => [rm_ActionChangedQueue c]
  | EvVideoPublished _ => [rm_VideoPublishedQueue c; rm_VideoEmbeddingQueue c]
  | EvViewEventRecorded _ => [rm_ViewEventRecordedQueue c]
  | EvOutbox _ => []
  end.

Lemma bound_queues_own c ev exchange key : address c ev = Some (exchange, key) ->
  consumers c ev ⊆ bound_queues (ensureTopology c) exchange key.
Proof.
  unfold consumers, bound_queues, ensureTopology, address. intros Ha.
  destruct ev; simplify_eq/=; rewrite ?String.eqb_refl; simpl; repeat case_match; set_solver.
Qed.

Lemma bound_queues_only c ev exchange key : address c ev = Some (exchange, key) ->
  NoDup [rm_InteractionExchange c; rm_VideoExchange c; rm_ExposureExchange c] ->
  bound_queues (ensureTopology c) exchange key = consumers c ev.
Proof.
  unfold consumers, bound_queues, ensureTopology, address. intros Ha Hnd.
  assert (rm_InteractionExchange c <> rm_VideoExchange c /\ rm_InteractionExchange c <> rm_ExposureExchange c /\
    rm_VideoExchange c <> rm_ExposureExchange c) as (H1 & H2 & H3).
  { apply NoDup_cons in Hnd as [Hn1 [Hn2 _]%NoDup_cons]. set_solver. }
  destruct ev; simplify_eq/=; rewrite ?String.eqb_refl; simpl;
    repeat match goal with |- context [String.eqb ?a ?b] => destruct (String.eqb_spec a b); [congruence|] end; done.
Qed.

(** A delivery that left the queue did not decode, or was handled. *)
Definition handled {A} (handler : A -> M unit) (m : option A) : Prop :=
  match m with None => True | Some e => exists w w', handler e w = (inr tt, w') end.

Lemma wp_settle {A} (m : option A) (handler : A -> M unit) w :
  wp (settle m handler)
    (fun s _ => match s with
       | Ack => handled handler m /\ m <> None
       | NackDrop => m = None
       | NackRequeue => exists e err w1 w2, m = Some e /\ handler e w1 = (inl err, w2)
       end)
    (fun _ _ => False) w.
Proof.
  unfold settle. destruct m as [e|]; [|by apply wp_ret].
  apply wp_bind, wp_attempt. unfold wp at 1. destruct (handler e w) as [[err|[]] w'] eqn:He; apply wp_ret.
  - by exists e, err, w, w'.
  - split; [by exists w, w'|done].
Qed.

Lemma wp_work {A} fuel (handler : A -> M unit) queue w :
  wp (work fuel handler queue)
    (fun rest _ => (exists done, queue = done ++ rest /\ Forall (handled handler) done) /\
       ((forall e w err w', handler e w <> (inl err, w')) -> (length queue <= fuel)%nat -> rest = []))
    (fun _ _ => False) w.
Proof.
  revert queue w. induction fuel as [|fuel IH]; intros queue w; simpl.
  { apply wp_ret. split; [by exists []|]. intros _ Hl. by destruct queue; [|simpl in Hl; lia]. }
  destruct queue as [|m rest]; [apply wp_ret; split; [by exists []|done]|].
  apply wp_bind. eapply wp_mono; [apply wp_settle| |done]. intros s w1 Hs.
  eapply wp_mono; [apply IH| |done]. intros left w2 [(l & Hq & Hl) Hd]. destruct s; simpl in Hq, Hd.
  - split; [exists (m :: l); split; [by rewrite Hq|by constructor; [apply Hs|]]|]. intros Hok Hlen.
    apply Hd; [done|simpl in Hlen; lia].
  - subst m. split; [exists (None :: l); split; [by rewrite Hq|by constructor]|]. intros Hok Hlen.
    apply Hd; [done|simpl in Hlen; lia].
  - split; [by exists l|]. intros Hok. destruct Hs as (e & err & w3 & w4 & _ & He). by destruct (Hok _ _ _ _ He).
Qed.

Lemma wp_publish_event times ev w :
  wp (marshalled times (broker_publish ev))
    (fun _ w' => db w' = db w /\ queue w' = queue w ++ [ev])
    (fun _ w' => db w' = db w /\ (queue w' = queue w \/ queue w' = queue w ++ [ev])) w.
Proof.
  unfold marshalled, broker_publish. destruct (forallb _ _); [|apply wp_throw; auto].
  apply wp_bind, wp_call; [intros e|intros t e; auto].
  apply wp_bind. unfold wp at 1, push_event. simpl. apply wp_call; [intros e'; auto|intros t e'; auto].
Qed.
