(* ===== verification/Wiring.v ===== *)
(** * How the services are put together ([router.go], [core.go])

    The implementations of the ports and the services made of them: [Register] of the API of
    [internal/interfaces/http/router], with the parts its configuration turns on, and
    [initCore] of the main package. *)
From S2P Require Import Prelude.
From S2P Require Import GoStd.
From S2P Require Import FeedDomain.
From S2P Require Import Errors.
From S2P Require Import Models.
From S2P Require Import Redis.
From S2P Require Import Store.
From S2P Require Import Codec.
From S2P Require Import Ports.
From S2P Require FeedRepo.
From S2P Require RecommendationService.
From S2P Require FeedService.
From S2P Require FeedCache.
From S2P Require MessageService.
From S2P Require InteractionService.
From S2P Require RelationService.
From S2P Require VideoService.
From S2P Require MessageBroker.

Section Wiring.
Context `{Collation} `{Codec} `{RecommendationService.MathLib}.

(** ** The ports *)

(** [infrafeed.Repository] as the feed service uses it. *)
Definition sql_feed : FeedService.FeedRepository := {|
  FeedService.rp_ListTimelinePage := FeedRepo.ListTimelinePage;
  FeedService.rp_ListHotPage := FeedRepo.ListHotPage;
  FeedService.rp_ListFollowingPage := FeedRepo.ListFollowingPage;
  FeedService.rp_ListFollowingPullAuthorIDs := FeedRepo.ListFollowingPullAuthorIDs;
  FeedService.rp_BatchGetFeedCards := FeedRepo.BatchGetFeedCards;
  FeedService.rp_BatchGetFeedStats := FeedRepo.BatchGetFeedStats;
  FeedService.rp_BatchGetViewerActionStates := FeedRepo.BatchGetViewerActionStates;
  FeedService.rp_PublishedVideoIDs := Some FeedRepo.PublishedVideoIDs;
|}.

(** The feed repository as the fan-out worker uses it. *)
Definition feed_repository : FanoutRepository := {|
  fr_CountFollowers := FeedRepo.CountFollowers;
  fr_ListFollowerIDs := FeedRepo.ListFollowerIDs;
  fr_BatchGetFeedCards := FeedRepo.BatchGetFeedCards;
  fr_BatchGetFeedStats := FeedRepo.BatchGetFeedStats;
|}.

(** [video.NewFeedPreheater] *)
Definition NewFeedPreheater (source : FanoutRepository) (cache : FeedCacheWriter) : FeedPreheater := {|
  PreheatFeedVideo videoID ttl := VideoService.preheat_video (Some source) (Some cache) videoID ttl;
|}.

(** The fan-out worker that [coreWorker] starts. *)
Definition core_fanout : VideoService.FanoutWorker :=
  VideoService.NewFanoutWorker (Some feed_repository) (Some FeedCache.following_index)
    (Some (NewFeedPreheater feed_repository FeedCache.feed_cache_writer)).

(** [router.NewMessageWriter]: the messages go to the message service. *)
Definition NewMessageWriter : MessageWriter := {|
  CreateFromEvent u t ti c e k := _ ← MessageService.CreateFromEvent u t ti c e k; mret tt;
  CreateFromActorEvent := Some (fun u t ti c e k a n av =>
    _ ← MessageService.CreateFromActorEvent u t ti c e k a n av; mret tt);
|}.

(** [router.NewFollowFeedBackfiller], with the feed repository and the cache. *)
Definition NewFollowFeedBackfiller : FollowFeedBackfiller := {|
  bf_CountFollowers := FeedRepo.CountFollowers;
  bf_ListAuthorRecentVideos a n := items ← FeedRepo.ListAuthorRecentVideos a n; mret (Some <$> items);
  bf_AddInboxItems a us i n := FeedCache.AddInboxItems a us (Some i) n;
|}.

(** ** The services *)

(** What the services that have dependencies were given. *)
Record Services := mkServices {
  sv_feed : FeedService.Service;
  sv_interaction : InteractionService.InteractionService;
  sv_relation : RelationService.RelationService;
  sv_video : option PublishedEventPublisher;
  sv_exposure : option ViewEventPublisher;
}.

(** [Register]: [redis] if an address is configured, [rabbit] if the broker is connected too;
    [group] is the [singleflight.Group] of the timeline. *)
Definition register_services (group : FeedService.Group) (redis rabbit : bool) : Services :=
  let on {A} (b : bool) (a : A) : option A := if b then Some a else None in
  {| sv_feed := FeedService.New group sql_feed
       (FeedService.WithRecommender (Some RecommendationService.Recommend)
        :: if redis then [FeedService.WithFeedCache FeedCache.feed_cache] else []);
     sv_interaction := InteractionService.mkInteractionService
       (on redis FeedCache.hot_score_recorder) (on redis FeedCache.stat_cache)
       (on (redis && rabbit) FeedCache.action_state_store) (on (redis && rabbit) MessageBroker.action_publisher)
       (Some NewMessageWriter);
     sv_relation := RelationService.mkRelationService (on redis NewFollowFeedBackfiller) (Some NewMessageWriter);
     sv_video := on rabbit MessageBroker.published_publisher;
     sv_exposure := on rabbit MessageBroker.view_event_publisher |}.

(** [initCore]: everything but the publisher of view events. *)
Definition initCore (group : FeedService.Group) : Services :=
  {| sv_feed := FeedService.New group sql_feed
       [FeedService.WithRecommender (Some RecommendationService.Recommend);
        FeedService.WithFeedCache FeedCache.feed_cache];
     sv_interaction := InteractionService.mkInteractionService
       (Some FeedCache.hot_score_recorder) (Some FeedCache.stat_cache) (Some FeedCache.action_state_store)
       (Some MessageBroker.action_publisher) (Some NewMessageWriter);
     sv_relation := RelationService.mkRelationService (Some NewFollowFeedBackfiller) (Some NewMessageWriter);
     sv_video := Some MessageBroker.published_publisher;
     sv_exposure := None |}.

End Wiring.
