(* ===== verification/HttpDto.v ===== *)
(** * What the handlers under [internal/interfaces/http] read and write

    The structs of the files [dto.go], a module per package, the bodies of the answers, and
    what a handler reads of a request: the parameters of the route, of the query and of the
    header (absent ones are empty), the user and the role that the middleware put in the
    context. The body of a request is what [ShouldBindJSON] binds to the struct of the
    handler, [None] if it refuses. *)
From S2P Require Import Prelude.
From S2P Require Import GoStd.
From S2P Require Import GoConv.
From S2P Require InteractionDomain.
From S2P Require RelationDomain.
From S2P Require VideoDomain.
From S2P Require MessageDomain.
From S2P Require ExposureDomain.
From S2P Require PlaybackDomain.
From S2P Require AccountDomain.
From S2P Require FeedDomain.
From S2P Require RecommendationDomain.
From S2P Require Import Errors.
From S2P Require Import Models.
From S2P Require Import Store.
From S2P Require Import Codec.
From S2P Require Import Ports.
From S2P Require RecommendationService.
From S2P Require FeedService.
From S2P Require MessageService.
From S2P Require InteractionService.
From S2P Require RelationService.
From S2P Require VideoService.
From S2P Require OtherServices.

Module AccountHttp.
Record RegisterRequest := mkRegisterRequest {
  rr_Account : string; rr_Password : string; rr_Nickname : string }.
Record LoginByPasswordRequest := mkLoginByPasswordRequest {
  lr_Account : string; lr_Password : string }.
Record UpdateProfileRequest := mkUpdateProfileRequest {
  ur_Nickname : option string; ur_AvatarURL : option string; ur_Bio : option string }.
Record tokenResponse := mkTokenResponse {
  tr_AccessToken : string; tr_TokenType : string; tr_ExpiresInSeconds : Z }.
Record userProfileResponse := mkUserProfileResponse {
  pr_ID : Z; pr_Account : string; pr_Nickname : string; pr_AvatarURL : string; pr_Bio : string;
  pr_Status : Z; pr_Role : string; pr_FollowingCount : Z; pr_FollowerCount : Z; pr_WorkCount : Z }.
Record publicUserProfileResponse := mkPublicUserProfileResponse {
  ppr_ID : Z; ppr_Nickname : string; ppr_AvatarURL : string; ppr_Bio : string; ppr_FollowingCount : Z;
  ppr_FollowerCount : Z; ppr_WorkCount : Z }.
End AccountHttp.

Module ExposureHttp.
Record createViewEventRequest := mkCreateViewEventRequest {
  vr_VideoID : Z; vr_Scene : string; vr_RequestID : string; vr_EventType : string; vr_WatchMs : Z;
  vr_Completed : bool }.
Record viewEventResponse := mkViewEventResponse {
  ver_ID : Z; ver_UserID : Z; ver_VideoID : Z; ver_Scene : string; ver_RequestID : string;
  ver_EventType : string; ver_WatchMs : Z; ver_Completed : bool; ver_CreatedAt : Time }.
Record exposureResponse := mkExposureResponse {
  xr_UserID : Z; xr_VideoID : Z; xr_FirstExposedAt : Time; xr_LastExposedAt : Time;
  xr_ExposureCount : Z; xr_LastScene : string }.
Record createViewEventResponse := mkCreateViewEventResponse {
  cvr_Event : viewEventResponse; cvr_Exposure : option exposureResponse }.
End ExposureHttp.

Module FeedHttp.
Record feedQueryRequest := mkFeedQueryRequest {
  fq_Scene : string; fq_Cursor : string; fq_Limit : option Z; fq_ClientContext : gmap string string }.
Record feedItemResponse := mkFeedItemResponse {
  fi_VideoID : Z; fi_AuthorID : Z; fi_AuthorNickname : string; fi_AuthorAvatarURL : string;
  fi_Title : string; fi_Description : string; fi_MediaURL : string; fi_CoverURL : string;
  fi_LikeCount : Z; fi_CommentCount : Z; fi_FavoriteCount : Z; fi_Liked : bool; fi_Favorited : bool;
  fi_PublishedAt : Time }.
Record feedItemsResponse := mkFeedItemsResponse {
  fis_Scene : string; fis_Items : list feedItemResponse; fis_NextCursor : string; fis_HasMore : bool }.
End FeedHttp.

Module InteractionHttp.
Record createCommentRequest := mkCreateCommentRequest {
  cr_Content : string }.
Record actionResponse := mkActionResponse {
  ar_VideoID : Z; ar_ActionType : string; ar_Active : bool; ar_LikeCount : Z; ar_FavoriteCount : Z }.
Record commentResponse := mkCommentResponse {
  cm_ID : Z; cm_VideoID : Z; cm_UserID : Z; cm_UserNickname : string; cm_UserAvatarURL : string;
  cm_Content : string; cm_CreatedAt : Time; cm_CommentCount : Z }.
Record commentListResponse := mkCommentListResponse {
  cl_Items : list commentResponse; cl_NextCursor : string; cl_HasMore : bool }.
Record deleteCommentResponse := mkDeleteCommentResponse {
  dc_CommentID : Z; dc_Status : Z; dc_CommentCount : Z }.
End InteractionHttp.

Module MessageHttp.
Record createMessageRequest := mkCreateMessageRequest {
  cmr_UserID : Z; cmr_Type : string; cmr_Title : string; cmr_Content : string; cmr_EventID : string;
  cmr_ActorID : Z; cmr_ActorNickname : string; cmr_ActorAvatarURL : string }.
Record markReadRequest := mkMarkReadRequest {
  mrr_MessageIDs : list Z }.
Record messageResponse := mkMessageResponse {
  mr_ID : Z; mr_UserID : Z; mr_Type : string; mr_Title : string; mr_Content : string;
  mr_EventID : string; mr_ActorID : Z; mr_ActorNickname : string; mr_ActorAvatarURL : string;
  mr_IsRead : bool; mr_CreatedAt : Time; mr_ReadAt : option Time }.
Record messageListResponse := mkMessageListResponse {
  ml_Items : list messageResponse; ml_NextCursor : string; ml_HasMore : bool }.
Record unreadStatResponse := mkUnreadStatResponse {
  us_UnreadCount : Z }.
Record markReadResponse := mkMarkReadResponse {
  mk_UpdatedCount : Z }.
End MessageHttp.

Module PlaybackHttp.
Record playbackConfigResponse := mkPlaybackConfigResponse {
  pc_ID : Z; pc_Platform : string; pc_NetworkType : string; pc_PreloadCount : Z; pc_BufferMs : Z;
  pc_UpdatedAt : Time }.
Record preloadVideoResponse := mkPreloadVideoResponse {
  pv_VideoID : Z; pv_MediaURL : string; pv_CoverURL : string }.
Record preloadVideosResponse := mkPreloadVideosResponse {
  pvs_Items : list preloadVideoResponse }.
Record createQoSReportRequest := mkCreateQoSReportRequest {
  qr_UserID : Z; qr_VideoID : Z; qr_FirstFrameMs : option Z; qr_StutterCount : Z; qr_WatchMs : Z }.
Record qosReportResponse := mkQosReportResponse {
  qs_ID : Z; qs_UserID : Z; qs_VideoID : Z; qs_FirstFrameMs : option Z; qs_StutterCount : Z;
  qs_WatchMs : Z; qs_CreatedAt : Time }.
End PlaybackHttp.

Module RecommendationHttp.
Record candidateRequest := mkCandidateRequest {
  cq_UserID : Z; cq_Scene : string; cq_RequestID : string; cq_Cursor : string; cq_Limit : option Z }.
Record candidateItemResponse := mkCandidateItemResponse {
  ci_VideoID : Z; ci_AuthorID : Z; ci_RankScore : float64; ci_Similarity : float64; ci_HotScore : Z;
  ci_FreshnessScore : float64; ci_Reason : string; ci_PublishedAt : Time }.
Record candidateResponse := mkCandidateResponse {
  cs_UserID : Z; cs_Scene : string; cs_RequestID : string; cs_Candidates : list candidateItemResponse;
  cs_NextCursor : string; cs_HasMore : bool }.
Record exposuresRequest := mkExposuresRequest {
  eq_UserID : Z; eq_Scene : string; eq_RequestID : string; eq_VideoIDs : list Z }.
Record exposureDecisionsRequest := mkExposureDecisionsRequest {
  dq_UserID : Z; dq_Scene : string; dq_RequestID : string; dq_VideoIDs : list Z }.
Record exposureDecisionItemResponse := mkExposureDecisionItemResponse {
  di_VideoID : Z; di_Allowed : bool; di_Reason : string; di_LastExposedAt : option Time }.
Record exposureDecisionsResponse := mkExposureDecisionsResponse {
  ds_UserID : Z; ds_Scene : string; ds_RequestID : string;
  ds_Decisions : list exposureDecisionItemResponse }.
Record exposureItemResponse := mkExposureItemResponse {
  xi_UserID : Z; xi_VideoID : Z; xi_FirstExposedAt : Time; xi_LastExposedAt : Time;
  xi_ExposureCount : Z; xi_LastScene : string }.
Record exposuresResponse := mkExposuresResponse {
  xs_Exposures : list exposureItemResponse }.
End RecommendationHttp.

Module RelationHttp.
Record followResponse := mkFollowResponse {
  fr_UserID : Z; fr_TargetUserID : Z; fr_Status : Z; fr_Following : bool; fr_FollowingCount : Z;
  fr_FollowerCount : Z }.
Record relationUserResponse := mkRelationUserResponse {
  ru_UserID : Z; ru_Nickname : string; ru_AvatarURL : string; ru_Bio : string; ru_FollowedAt : Time }.
Record relationListResponse := mkRelationListResponse {
  rl_Items : list relationUserResponse; rl_NextCursor : string; rl_HasMore : bool }.
End RelationHttp.

Module VideoHttp.
Record CreateVideoRequest := mkCreateVideoRequest {
  cv_Title : string; cv_Description : string; cv_MediaURL : string; cv_CoverURL : string }.
Record videoResponse := mkVideoResponse {
  vr_ID : Z; vr_AuthorID : Z; vr_Title : string; vr_Description : string; vr_MediaURL : string;
  vr_CoverURL : string; vr_Status : Z; vr_LikeCount : Z; vr_CommentCount : Z; vr_FavoriteCount : Z;
  vr_PublishedAt : option Time; vr_CreatedAt : Time; vr_UpdatedAt : Time }.
Record videoListResponse := mkVideoListResponse {
  vl_Items : list videoResponse; vl_Limit : Z; vl_Offset : Z }.
End VideoHttp.

(** ** Requests and answers *)

Record Gin := mkGin {
  g_Param : string -> string;
  g_Query : string -> string;
  g_Header : string -> string;
  g_UserID : option Z;
  g_Role : option string;
}.

Inductive ApiBody :=
  | AError (text : string)
  | AAbort (message : string)      (* the answers of the middleware *)
  | ANone
  | AToken (b : AccountHttp.tokenResponse)
  | AProfile (b : AccountHttp.userProfileResponse)
  | APublicProfile (b : AccountHttp.publicUserProfileResponse)
  | AViewEvent (b : ExposureHttp.createViewEventResponse)
  | AFeed (b : FeedHttp.feedItemsResponse)
  | AAction (b : InteractionHttp.actionResponse)
  | AComment (b : InteractionHttp.commentResponse)
  | AComments (b : InteractionHttp.commentListResponse)
  | ACommentDeleted (b : InteractionHttp.deleteCommentResponse)
  | AMessage (b : MessageHttp.messageResponse)
  | AMessages (b : MessageHttp.messageListResponse)
  | AUnread (b : MessageHttp.unreadStatResponse)
  | AMarked (b : MessageHttp.markReadResponse)
  | AConfig (b : PlaybackHttp.playbackConfigResponse)
  | APreload (b : PlaybackHttp.preloadVideosResponse)
  | AQoS (b : PlaybackHttp.qosReportResponse)
  | ACandidates (b : RecommendationHttp.candidateResponse)
  | ADecisions (b : RecommendationHttp.exposureDecisionsResponse)
  | AExposures (b : RecommendationHttp.exposuresResponse)
  | AFollow (b : RelationHttp.followResponse)
  | ARelations (b : RelationHttp.relationListResponse)
  | AVideo (b : VideoHttp.videoResponse)
  | AVideos (b : VideoHttp.videoListResponse).

Record Answer := mkAnswer { an_Status : Z; an_Body : ApiBody }.

(** * The handlers under [internal/interfaces/http]

    A module per package: the errors it knows, how it parses, and its handlers. A handler
    calls one operation of its service and turns the result, or the error, into an answer;
    it always answers. *)

(** ** What the packages have in common *)

Definition error_answer (status : Z) (text : string) : Answer := mkAnswer status (AError text).

Definition unauthorized : Answer := error_answer 401 "invalid access token".
Definition invalid_request : Answer := error_answer 400 "invalid request".
Definition internal_error : Answer := error_answer 500 "internal server error".

(** The function of this name that seven of the packages declare. *)
Definition user_id_from_context (c : Gin) : Z * bool :=
  match g_UserID c with None => (0, false) | Some userID => (userID, 0 <? userID) end.

(** [strconv.Atoi], or [ParseInt], of the text without the spaces around it. *)
Definition parse_trimmed (raw : string) (ok : Z -> bool) (err : error) : error + Z :=
  let '(value, parsed) := ParseInt (TrimSpace raw) in
  if negb parsed || negb (ok value) then inl err else inr value.

(** The [parseLimit] of five packages. *)
Definition parse_limit (raw : string) (err : error) : error + Z :=
  if String.eqb (TrimSpace raw) "" then inr 0 else parse_trimmed raw (fun limit => 0 <? limit) err.

Definition is_one_of (err : error) (targets : list error) : bool := existsb (errors_Is err) targets.

(** The user, or the answer 401. *)
Definition with_user (user : Z * bool) (handler : Z -> M Answer) : M Answer :=
  let '(userID, ok) := user in if negb ok then mret unauthorized else handler userID.

Definition with_body {A} (body : option A) (handler : A -> M Answer) : M Answer :=
  match body with None => mret invalid_request | Some req => handler req end.

Definition with_value {A} (write : error -> Answer) (r : error + A) (handler : A -> M Answer) : M Answer :=
  match r with inl err => mret (write err) | inr a => handler a end.

(** The call of the service, and what becomes of its result. *)
Definition respond {A} (write : error -> Answer) (call : M A) (ok : A -> Answer) : M Answer :=
  r ← attempt call;
  mret (match r with inl err => write err | inr a => ok a end).

(** ** Accounts *)

Module AccountHandler.
Import AccountDomain AccountHttp.
Import OtherServices.AccountService (Profile, p_ID, p_Account, p_Nickname, p_AvatarURL, p_Bio, p_Status,
  p_Role, p_FollowingCount, p_FollowerCount, p_WorkCount, lg_AccessToken, lg_TokenType, lg_ExpiresInSeconds).

Definition isBadRequestError (err : error) : bool :=
  is_one_of err (EAccount <$> [ErrEmptyAccount; ErrEmptyPassword; ErrEmptyNickname; ErrInvalidUserID;
                               ErrEmptyProfileUpdate]).

Definition writeProfileError (err : error) : Answer :=
  if isBadRequestError err then error_answer 400 (error_text err) else
  if errors_Is err (EAccount ErrUserNotFound) then error_answer 404 "user not found" else
  internal_error.

Definition register_error (err : error) : Answer :=
  if isBadRequestError err then error_answer 400 (error_text err) else
  if errors_Is err (EAccount ErrAccountAlreadyExists) then error_answer 409 "account already exists" else
  internal_error.

Definition login_error (err : error) : Answer :=
  if isBadRequestError err then error_answer 400 (error_text err) else
  if errors_Is err (EAccount ErrInvalidCredentials) then error_answer 401 "invalid credentials" else
  internal_error.

Definition profileResponse (p : Profile) : userProfileResponse :=
  mkUserProfileResponse (p_ID p) (p_Account p) (p_Nickname p) (p_AvatarURL p) (p_Bio p) (p_Status p)
    (p_Role p) (p_FollowingCount p) (p_FollowerCount p) (p_WorkCount p).

Definition publicProfileResponse (p : Profile) : publicUserProfileResponse :=
  mkPublicUserProfileResponse (p_ID p) (p_Nickname p) (p_AvatarURL p) (p_Bio p) (p_FollowingCount p)
    (p_FollowerCount p) (p_WorkCount p).

Definition userIDFromContext (c : Gin) : Z * bool := user_id_from_context c.

Definition parsePositiveUserID (raw : string) : error + Z :=
  parse_trimmed raw (fun value => 0 <? value) (EAccount ErrInvalidUserID).

Section AccountHandler.
Context `{Collation} `{Bcrypt}.

(** [salt] is what bcrypt draws. *)
Definition Register (salt : string) (body : option RegisterRequest) : M Answer :=
  with_body body (fun req =>
    respond register_error
      (OtherServices.AccountService.Register salt (rr_Account req) (rr_Password req) (rr_Nickname req))
      (fun profile => mkAnswer 201 (AProfile (profileResponse profile)))).

Definition Login (signer : TokenSigner) (body : option LoginByPasswordRequest) : M Answer :=
  with_body body (fun req =>
    respond login_error
      (OtherServices.AccountService.Login signer (lr_Account req) (lr_Password req))
      (fun token => mkAnswer 200 (AToken (mkTokenResponse (lg_AccessToken token) (lg_TokenType token)
                                            (lg_ExpiresInSeconds token))))).

Definition Logout : M Answer := mret (mkAnswer 204 ANone).

Definition Me (c : Gin) : M Answer :=
  with_user (userIDFromContext c) (fun userID =>
    respond writeProfileError (OtherServices.AccountService.GetProfile userID)
      (fun profile => mkAnswer 200 (AProfile (profileResponse profile)))).

Definition Get (c : Gin) : M Answer :=
  with_value writeProfileError (parsePositiveUserID (g_Param c "userId")) (fun userID =>
    respond writeProfileError (OtherServices.AccountService.GetPublicProfile userID)
      (fun profile => mkAnswer 200 (APublicProfile (publicProfileResponse profile)))).

Definition UpdateMe (c : Gin) (body : option UpdateProfileRequest) : M Answer :=
  with_user (userIDFromContext c) (fun userID =>
    with_body body (fun req =>
      respond writeProfileError
        (OtherServices.AccountService.UpdateProfile userID (ur_Nickname req) (ur_AvatarURL req) (ur_Bio req))
        (fun profile => mkAnswer 200 (AProfile (profileResponse profile))))).

End AccountHandler.
End AccountHandler.

(** ** Exposures *)

Module ExposureHandler.
Import ExposureDomain ExposureHttp.

Definition isBadRequestError (err : error) : bool :=
  is_one_of err (EExposure <$> [ErrInvalidUserID; ErrInvalidVideoID; ErrEmptyScene; ErrSceneTooLong;
                                ErrInvalidEventType; ErrRequestIDTooLong; ErrWatchMsNegative]).

Definition writeExposureError (err : error) : Answer :=
  if isBadRequestError err then error_answer 400 (error_text err) else
  if errors_Is err (EExposure ErrVideoNotFound) then error_answer 404 "video not found" else
  internal_error.

Definition userIDFromContext (c : Gin) : Z * bool := user_id_from_context c.

Definition responseFromResult (r : OtherServices.ExposureService.RecordViewEventResult)
    : createViewEventResponse :=
  let e := OtherServices.ExposureService.rv_Event r in
  mkCreateViewEventResponse
    (mkViewEventResponse (e_ID e) (e_UserID e) (e_VideoID e) (e_Scene e) (e_RequestID e) (e_EventType e)
       (e_WatchMs e) (e_Completed e) (e_CreatedAt e))
    ((fun x => mkExposureResponse (x_UserID x) (x_VideoID x) (x_FirstExposedAt x) (x_LastExposedAt x)
                 (x_ExposureCount x) (x_LastScene x)) <$> OtherServices.ExposureService.rv_Exposure r).

Definition CreateViewEvent `{Collation} (publisher : option ViewEventPublisher) (c : Gin)
    (body : option createViewEventRequest) : M Answer :=
  with_user (userIDFromContext c) (fun userID =>
    with_body body (fun req =>
      respond writeExposureError
        (OtherServices.ExposureService.RecordViewEvent publisher userID (vr_VideoID req) (vr_Scene req)
           (vr_RequestID req) (vr_EventType req) (vr_WatchMs req) (vr_Completed req))
        (fun result => mkAnswer 201 (AViewEvent (responseFromResult result))))).

End ExposureHandler.

(** ** Feeds *)

Module FeedHandler.
Import FeedDomain FeedHttp.

Definition isBadRequestError (err : error) : bool :=
  is_one_of err (EFeed <$> [ErrInvalidLimit; ErrInvalidCursor; ErrUnsupportedScene]).

Definition writeFeedError (err : error) : Answer :=
  if errors_Is err (EFeed ErrViewerRequired) then error_answer 401 (error_text err) else
  if isBadRequestError err then error_answer 400 (error_text err) else
  internal_error.

Definition viewerIDFromContext (c : Gin) : Z * bool := user_id_from_context c.

Definition parseLimit (raw : string) : error + Z := parse_limit raw (EFeed ErrInvalidLimit).

Definition parseBodyLimit (value : option Z) : error + Z :=
  match value with
  | None => inr 0
  | Some value => if value <=? 0 then inl (EFeed ErrInvalidLimit) else inr value
  end.

Definition item_response (i : FeedItem) : feedItemResponse :=
  mkFeedItemResponse (FeedDomain.fi_VideoID i) (FeedDomain.fi_AuthorID i) (FeedDomain.fi_AuthorNickname i)
    (FeedDomain.fi_AuthorAvatarURL i) (FeedDomain.fi_Title i) (FeedDomain.fi_Description i)
    (FeedDomain.fi_MediaURL i) (FeedDomain.fi_CoverURL i) (FeedDomain.fi_LikeCount i)
    (FeedDomain.fi_CommentCount i) (FeedDomain.fi_FavoriteCount i) (FeedDomain.fi_Liked i)
    (FeedDomain.fi_Favorited i) (FeedDomain.fi_PublishedAt i).

Definition feedItemsResponseFromResult (r : FeedService.FeedResult) : feedItemsResponse :=
  mkFeedItemsResponse (FeedService.fr_Scene r) (item_response <$> FeedService.fr_Items r)
    (FeedService.fr_NextCursor r) (FeedService.fr_HasMore r).

Definition feed_answer (result : FeedService.FeedResult) : Answer :=
  mkAnswer 200 (AFeed (feedItemsResponseFromResult result)).

Section FeedHandler.
Context `{Codec}.
Variable service : FeedService.Service.

(** The viewer is what the context holds, a positive id or not. *)
Definition ListFeedItems (c : Gin) : M Answer :=
  with_value writeFeedError (parseLimit (g_Query c "limit")) (fun limit =>
    respond writeFeedError
      (FeedService.GetFeed service (FeedService.mkFeedRequest (g_Query c "scene") (g_Query c "cursor") limit
         (viewerIDFromContext c).1 ∅))
      feed_answer).

Definition Query (c : Gin) (body : option feedQueryRequest) : M Answer :=
  with_body body (fun req =>
    with_value writeFeedError (parseBodyLimit (fq_Limit req)) (fun limit =>
      respond writeFeedError
        (FeedService.GetFeed service (FeedService.mkFeedRequest (fq_Scene req) (fq_Cursor req) limit
           (viewerIDFromContext c).1 (fq_ClientContext req)))
        feed_answer)).

Definition Refresh (c : Gin) : M Answer :=
  with_value writeFeedError (parseLimit (g_Query c "limit")) (fun limit =>
    respond writeFeedError (FeedService.RefreshFeed service limit) feed_answer).

End FeedHandler.
End FeedHandler.

(** ** Likes, favourites and comments *)

Module InteractionHandler.
Import InteractionDomain InteractionHttp.

Definition isBadRequestError (err : error) : bool :=
  is_one_of err (EInteraction <$> [ErrInvalidUserID; ErrInvalidVideoID; ErrInvalidCommentID;
    ErrInvalidActionType; ErrInvalidLimit; ErrInvalidCursor; ErrEmptyCommentContent;
    ErrCommentContentTooLong; ErrIdempotencyKeyTooLong]).

Definition writeInteractionError (err : error) : Answer :=
  if isBadRequestError err then error_answer 400 (error_text err) else
  if errors_Is err (EInteraction ErrVideoNotFound) || errors_Is err (EInteraction ErrCommentNotFound)
  then error_answer 404 "resource not found" else
  if errors_Is err (EInteraction ErrCommentPermissionDenied)
  then error_answer 403 "comment permission denied" else
  internal_error.

Definition userIDFromContext (c : Gin) : Z * bool := user_id_from_context c.
Definition roleFromContext (c : Gin) : string := default ""%string (g_Role c).

Definition parsePositiveInt64 (raw : string) (fallback : error) : error + Z :=
  parse_trimmed raw (fun value => 0 <? value) fallback.

Definition parseLimit (raw : string) : error + Z := parse_limit raw (EInteraction ErrInvalidLimit).

Definition actionResponseFromResult (r : InteractionService.ActionResult) : actionResponse :=
  mkActionResponse (InteractionService.ar_VideoID r) (InteractionService.ar_ActionType r)
    (InteractionService.ar_Active r) (InteractionService.ar_LikeCount r) (InteractionService.ar_FavoriteCount r).

(** [CommentCount] is left at zero. *)
Definition commentResponseFromDomain (c : Comment) : commentResponse :=
  mkCommentResponse (c_ID c) (c_VideoID c) (c_UserID c) (c_UserNickname c) (c_UserAvatarURL c) (c_Content c)
    (c_CreatedAt c) 0.

Definition commentResponseFromResult (r : InteractionService.CreateCommentResult) : commentResponse :=
  let c := commentResponseFromDomain (InteractionService.cc_Comment r) in
  mkCommentResponse (cm_ID c) (cm_VideoID c) (cm_UserID c) (cm_UserNickname c) (cm_UserAvatarURL c)
    (cm_Content c) (cm_CreatedAt c) (InteractionService.cc_Count r).

Definition commentListResponseFromResult (r : InteractionService.CommentListResult) : commentListResponse :=
  mkCommentListResponse (commentResponseFromDomain <$> InteractionService.cl_Items r)
    (InteractionService.cl_NextCursor r) (InteractionService.cl_HasMore r).

Section InteractionHandler.
Context `{Collation} `{Codec}.
Variable service : InteractionService.InteractionService.

Definition setLike (c : Gin) (active : bool) : M Answer :=
  with_user (userIDFromContext c) (fun userID =>
    with_value writeInteractionError (parsePositiveInt64 (g_Param c "videoId") (EInteraction ErrInvalidVideoID))
      (fun videoID =>
        respond writeInteractionError
          (if active then InteractionService.Like service userID videoID (g_Header c "Idempotency-Key")
           else InteractionService.Unlike service userID videoID (g_Header c "Idempotency-Key"))
          (fun result => mkAnswer 200 (AAction (actionResponseFromResult result))))).

Definition setFavorite (c : Gin) (active : bool) : M Answer :=
  with_user (userIDFromContext c) (fun userID =>
    with_value writeInteractionError (parsePositiveInt64 (g_Param c "videoId") (EInteraction ErrInvalidVideoID))
      (fun videoID =>
        respond writeInteractionError
          (if active then InteractionService.Favorite service userID videoID (g_Header c "Idempotency-Key")
           else InteractionService.Unfavorite service userID videoID (g_Header c "Idempotency-Key"))
          (fun result => mkAnswer 200 (AAction (actionResponseFromResult result))))).

Definition Like (c : Gin) : M Answer := setLike c true.
Definition Unlike (c : Gin) : M Answer := setLike c false.
Definition Favorite (c : Gin) : M Answer := setFavorite c true.
Definition Unfavorite (c : Gin) : M Answer := setFavorite c false.

Definition CreateComment (c : Gin) (body : option createCommentRequest) : M Answer :=
  with_user (userIDFromContext c) (fun userID =>
    with_value writeInteractionError (parsePositiveInt64 (g_Param c "videoId") (EInteraction ErrInvalidVideoID))
      (fun videoID =>
        with_body body (fun req =>
          respond writeInteractionError
            (InteractionService.CreateComment service userID videoID (cr_Content req)
               (g_Header c "Idempotency-Key"))
            (fun result => mkAnswer 201 (AComment (commentResponseFromResult result)))))).

Definition ListComments (c : Gin) : M Answer :=
  with_value writeInteractionError (parsePositiveInt64 (g_Param c "videoId") (EInteraction ErrInvalidVideoID))
    (fun videoID =>
      with_value writeInteractionError (parseLimit (g_Query c "limit")) (fun limit =>
        respond writeInteractionError (InteractionService.ListComments videoID (g_Query c "cursor") limit)
          (fun result => mkAnswer 200 (AComments (commentListResponseFromResult result))))).

Definition DeleteComment (c : Gin) : M Answer :=
  with_user (userIDFromContext c) (fun userID =>
    let role := roleFromContext c in
    with_value writeInteractionError
      (parsePositiveInt64 (g_Param c "commentId") (EInteraction ErrInvalidCommentID))
      (fun commentID =>
        respond writeInteractionError (InteractionService.DeleteComment service commentID userID role)
          (fun r => mkAnswer 200 (ACommentDeleted (mkDeleteCommentResponse (InteractionService.dc_CommentID r)
                      (InteractionService.dc_Status r) (InteractionService.dc_Count r)))))).

End InteractionHandler.
End InteractionHandler.

(** ** Messages *)

Module MessageHandler.
Import MessageDomain MessageHttp.

Definition isBadRequestError (err : error) : bool :=
  is_one_of err (EMessage <$> [ErrInvalidUserID; ErrInvalidMessageID; ErrInvalidLimit; ErrInvalidCursor;
    ErrInvalidMessageType; ErrEmptyTitle; ErrTitleTooLong; ErrEmptyContent; ErrContentTooLong;
    ErrEventIDTooLong; ErrIdempotencyKeyTooLong]).

Definition writeMessageError (err : error) : Answer :=
  if isBadRequestError err then error_answer 400 (error_text err) else internal_error.

Definition userIDFromContext (c : Gin) : Z * bool := user_id_from_context c.

Definition parseLimit (raw : string) : error + Z := parse_limit raw (EMessage ErrInvalidLimit).

Definition responseFromDomain (m : Message) : messageResponse :=
  mkMessageResponse (m_ID m) (m_UserID m) (m_Type m) (m_Title m) (m_Content m) (m_EventID m) (m_ActorID m)
    (m_ActorNickname m) (m_ActorAvatarURL m) (m_IsRead m) (m_CreatedAt m) (m_ReadAt m).

Definition listResponseFromResult (r : MessageService.ListResult) : messageListResponse :=
  mkMessageListResponse (responseFromDomain <$> MessageService.lr_Items r) (MessageService.lr_NextCursor r)
    (MessageService.lr_HasMore r).

Section MessageHandler.
Context `{Collation} `{Codec}.

Definition List (c : Gin) : M Answer :=
  with_user (userIDFromContext c) (fun userID =>
    with_value writeMessageError (parseLimit (g_Query c "limit")) (fun limit =>
      respond writeMessageError (MessageService.List userID (g_Query c "cursor") limit)
        (fun result => mkAnswer 200 (AMessages (listResponseFromResult result))))).

Definition CountUnread (c : Gin) : M Answer :=
  with_user (userIDFromContext c) (fun userID =>
    respond writeMessageError (MessageService.CountUnread userID)
      (fun count => mkAnswer 200 (AUnread (mkUnreadStatResponse count)))).

Definition MarkRead (c : Gin) (body : option markReadRequest) : M Answer :=
  with_user (userIDFromContext c) (fun userID =>
    with_body body (fun req =>
      respond writeMessageError (MessageService.MarkRead userID (mrr_MessageIDs req))
        (fun updated => mkAnswer 200 (AMarked (mkMarkReadResponse updated))))).

Definition Create (c : Gin) (body : option createMessageRequest) : M Answer :=
  with_body body (fun req =>
    respond writeMessageError
      (MessageService.CreateFromActorEvent (cmr_UserID req) (cmr_Type req) (cmr_Title req) (cmr_Content req)
         (cmr_EventID req) (g_Header c "Idempotency-Key") (cmr_ActorID req) (cmr_ActorNickname req)
         (cmr_ActorAvatarURL req))
      (fun r => mkAnswer (if MessageService.cr_Created r then 201 else 200)
                  (AMessage (responseFromDomain (MessageService.cr_Message r))))).

End MessageHandler.
End MessageHandler.

(** ** Playback *)

Module PlaybackHandler.
Import PlaybackDomain PlaybackHttp.

Definition isBadRequestError (err : error) : bool :=
  is_one_of err (EPlayback <$> [ErrInvalidUserID; ErrInvalidVideoID; ErrInvalidPlatform;
    ErrInvalidNetworkType; ErrInvalidLimit; ErrInvalidFirstFrameMs; ErrInvalidStutterCount;
    ErrInvalidWatchMs; ErrIdempotencyKeyTooLong]).

Definition writePlaybackError (err : error) : Answer :=
  if isBadRequestError err then error_answer 400 (error_text err) else internal_error.

Definition userIDFromContext (c : Gin) : Z * bool := user_id_from_context c.

Definition parseOptionalInt64 (raw : string) : error + Z :=
  if String.eqb (TrimSpace raw) "" then inr 0
  else parse_trimmed raw (fun value => 0 <=? value) (EPlayback ErrInvalidVideoID).

Definition parseLimit (raw : string) : error + Z := parse_limit raw (EPlayback ErrInvalidLimit).

Definition configResponseFromResult (config : Config) : playbackConfigResponse :=
  mkPlaybackConfigResponse (cf_ID config) (cf_Platform config) (cf_NetworkType config)
    (cf_PreloadCount config) (cf_BufferMs config) (cf_UpdatedAt config).

Definition preloadResponseFromResult (items : list PreloadVideo) : preloadVideosResponse :=
  mkPreloadVideosResponse
    ((fun i => mkPreloadVideoResponse (PlaybackDomain.pv_VideoID i) (PlaybackDomain.pv_MediaURL i)
                 (PlaybackDomain.pv_CoverURL i)) <$> items).

Definition qosResponseFromResult (report : QoSReport) : qosReportResponse :=
  mkQosReportResponse (q_ID report) (q_UserID report) (q_VideoID report) (q_FirstFrameMs report)
    (q_StutterCount report) (q_WatchMs report) (q_CreatedAt report).

Section PlaybackHandler.
Context `{Collation}.

Definition GetConfig (c : Gin) : M Answer :=
  respond writePlaybackError
    (OtherServices.PlaybackService.GetConfig (g_Query c "platform") (g_Query c "network_type"))
    (fun config => mkAnswer 200 (AConfig (configResponseFromResult config))).

Definition ListPreloadVideos (c : Gin) : M Answer :=
  with_value (fun _ => writePlaybackError (EPlayback ErrInvalidVideoID))
    (parseOptionalInt64 (g_Query c "current_video_id")) (fun currentVideoID =>
      with_value writePlaybackError (parseLimit (g_Query c "limit")) (fun limit =>
        respond writePlaybackError (OtherServices.PlaybackService.ListPreloadVideos currentVideoID limit)
          (fun items => mkAnswer 200 (APreload (preloadResponseFromResult items))))).

Definition createQoSReportWithRequest (c : Gin) (userID : Z) (req : createQoSReportRequest) : M Answer :=
  respond writePlaybackError
    (OtherServices.PlaybackService.CreateQoSReport userID (qr_VideoID req) (qr_FirstFrameMs req)
       (qr_StutterCount req) (qr_WatchMs req) (g_Header c "Idempotency-Key"))
    (fun r => mkAnswer (if r.2 : bool then 201 else 200) (AQoS (qosResponseFromResult r.1))).

Definition createQoSReport (c : Gin) (userID : Z) (body : option createQoSReportRequest) : M Answer :=
  with_body body (createQoSReportWithRequest c userID).

Definition CreateQoSReport (c : Gin) (body : option createQoSReportRequest) : M Answer :=
  with_user (userIDFromContext c) (fun userID => createQoSReport c userID body).

Definition CreateInternalQoSReport (c : Gin) (body : option createQoSReportRequest) : M Answer :=
  with_body body (fun req => createQoSReportWithRequest c (qr_UserID req) req).

End PlaybackHandler.
End PlaybackHandler.

(** ** Recommendations *)

Module RecommendationHandler.
Import RecommendationDomain RecommendationHttp.

Definition isBadRequestError (err : error) : bool :=
  is_one_of err (ERecommendation <$> [ErrInvalidUserID; ErrInvalidVideoID; ErrInvalidLimit; ErrEmptyScene;
    ErrSceneTooLong; ErrRequestIDTooLong; ErrInvalidCursor]).

Definition writeRecommendationError (err : error) : Answer :=
  if isBadRequestError err then error_answer 400 (error_text err) else
  if errors_Is err (ERecommendation ErrVideoNotFound) then error_answer 404 "video not found" else
  internal_error.

Definition candidateResponseFromResult (r : RecommendationService.CandidateResult) : candidateResponse :=
  mkCandidateResponse (RecommendationService.rr_UserID r) (RecommendationService.rr_Scene r)
    (RecommendationService.rr_RequestID r)
    ((fun k => mkCandidateItemResponse (cd_VideoID k) (cd_AuthorID k) (cd_RankScore k) (cd_Similarity k)
                 (cd_HotScore k) (cd_FreshnessScore k) (cd_Reason k) (cd_PublishedAt k))
       <$> RecommendationService.rr_Candidates r)
    (RecommendationService.rr_NextCursor r) (RecommendationService.rr_HasMore r).

Definition exposuresResponseFromResult (exposures : list RecExposure) : exposuresResponse :=
  mkExposuresResponse
    ((fun x => mkExposureItemResponse (re_UserID x) (re_VideoID x) (re_FirstExposedAt x) (re_LastExposedAt x)
                 (re_ExposureCount x) (re_LastScene x)) <$> exposures).

Definition exposureDecisionsResponseFromResult (r : RecommendationService.ExposureDecisionResult)
    : exposureDecisionsResponse :=
  mkExposureDecisionsResponse (RecommendationService.xr_UserID r) (RecommendationService.xr_Scene r)
    (RecommendationService.xr_RequestID r)
    ((fun d => mkExposureDecisionItemResponse (ed_VideoID d) (ed_Allowed d) (ed_Reason d) (ed_LastExposedAt d))
       <$> RecommendationService.xr_Decisions r).

Section RecommendationHandler.
Context `{Collation} `{Codec} `{RecommendationService.MathLib}.

Definition ListCandidates (body : option candidateRequest) : M Answer :=
  with_body body (fun req =>
    respond writeRecommendationError
      (RecommendationService.Recommend (RecommendationService.mkRecommendInput (cq_UserID req) (cq_Scene req)
         (cq_RequestID req) (cq_Cursor req) (default 0 (cq_Limit req))))
      (fun result => mkAnswer 200 (ACandidates (candidateResponseFromResult result)))).

Definition SaveExposures (body : option exposuresRequest) : M Answer :=
  with_body body (fun req =>
    respond writeRecommendationError
      (RecommendationService.SaveExposures
         ((fun videoID => RecommendationService.mkExposureInput (eq_UserID req) videoID (eq_Scene req)
                            (eq_RequestID req)) <$> eq_VideoIDs req))
      (fun result => mkAnswer 201 (AExposures (exposuresResponseFromResult result)))).

Definition DecideExposures (body : option exposureDecisionsRequest) : M Answer :=
  with_body body (fun req =>
    respond writeRecommendationError
      (RecommendationService.DecideExposures (dq_UserID req) (dq_Scene req) (dq_RequestID req)
         (dq_VideoIDs req))
      (fun result => mkAnswer 200 (ADecisions (exposureDecisionsResponseFromResult result)))).

End RecommendationHandler.
End RecommendationHandler.

(** ** Relations *)

Module RelationHandler.
Import RelationDomain RelationHttp.

Definition isBadRequestError (err : error) : bool :=
  is_one_of err (ERelation <$> [ErrInvalidUserID; ErrInvalidTargetUserID; ErrFollowSelfForbidden;
    ErrInvalidLimit; ErrInvalidCursor; ErrIdempotencyKeyTooLong]).

Definition writeRelationError (err : error) : Answer :=
  if isBadRequestError err then error_answer 400 (error_text err) else
  if errors_Is err (ERelation ErrTargetUserNotFound) then error_answer 404 "target user not found" else
  internal_error.

Definition userIDFromContext (c : Gin) : Z * bool := user_id_from_context c.

Definition parsePositiveInt64 (raw : string) (fallback : error) : error + Z :=
  parse_trimmed raw (fun value => 0 <? value) fallback.

Definition parseLimit (raw : string) : error + Z := parse_limit raw (ERelation ErrInvalidLimit).

Definition followResponseFromResult (r : RelationService.FollowResult) : followResponse :=
  mkFollowResponse (RelationService.fl_UserID r) (RelationService.fl_TargetUserID r)
    (RelationService.fl_Status r) (RelationService.fl_Following r) (RelationService.fl_FollowingCount r)
    (RelationService.fl_FollowerCount r).

Definition relationListResponseFromResult (r : RelationService.RelationListResult) : relationListResponse :=
  mkRelationListResponse
    ((fun i => mkRelationUserResponse (ui_UserID i) (ui_Nickname i) (ui_AvatarURL i) (ui_Bio i)
                 (ui_FollowedAt i)) <$> RelationService.rl_Items r)
    (RelationService.rl_NextCursor r) (RelationService.rl_HasMore r).

Section RelationHandler.
Context `{Collation} `{Codec}.
Variable service : RelationService.RelationService.

Definition setFollow (c : Gin) (active : bool) : M Answer :=
  with_user (userIDFromContext c) (fun userID =>
    with_value writeRelationError
      (parsePositiveInt64 (g_Param c "targetUserId") (ERelation ErrInvalidTargetUserID))
      (fun targetUserID =>
        respond writeRelationError
          (if active then RelationService.Follow service userID targetUserID (g_Header c "Idempotency-Key")
           else RelationService.Unfollow service userID targetUserID (g_Header c "Idempotency-Key"))
          (fun result => mkAnswer 200 (AFollow (followResponseFromResult result))))).

Definition Follow (c : Gin) : M Answer := setFollow c true.
Definition Unfollow (c : Gin) : M Answer := setFollow c false.

Definition ListFollowing (c : Gin) : M Answer :=
  with_user (userIDFromContext c) (fun userID =>
    with_value writeRelationError (parseLimit (g_Query c "limit")) (fun limit =>
      respond writeRelationError (RelationService.ListFollowing userID (g_Query c "cursor") limit)
        (fun result => mkAnswer 200 (ARelations (relationListResponseFromResult result))))).

Definition ListFollowers (c : Gin) : M Answer :=
  with_user (userIDFromContext c) (fun userID =>
    with_value writeRelationError (parseLimit (g_Query c "limit")) (fun limit =>
      respond writeRelationError (RelationService.ListFollowers userID (g_Query c "cursor") limit)
        (fun result => mkAnswer 200 (ARelations (relationListResponseFromResult result))))).

End RelationHandler.
End RelationHandler.

(** ** Videos *)

Module VideoHandler.
Import VideoDomain VideoHttp.

Definition defaultListLimit : Z := 20.

Definition isBadRequestError (err : error) : bool :=
  is_one_of err (EVideo <$> [ErrInvalidVideoID; ErrInvalidAuthorID; ErrEmptyTitle; ErrTitleTooLong;
    ErrDescriptionTooLong; ErrEmptyMediaURL; ErrEmptyCoverURL; ErrIdempotencyKeyTooLong; ErrInvalidLimit;
    ErrInvalidOffset]).

Definition writeVideoError (err : error) : Answer :=
  if isBadRequestError err then error_answer 400 (error_text err) else
  if errors_Is err (EVideo ErrVideoNotFound) then error_answer 404 "video not found" else
  if errors_Is err (EVideo ErrVideoPermissionDenied) then error_answer 403 "video permission denied" else
  internal_error.

Definition userIDFromContext (c : Gin) : Z * bool := user_id_from_context c.

Definition parsePositiveInt64 (raw : string) : error + Z :=
  parse_trimmed raw (fun value => 0 <? value) (EVideo ErrInvalidVideoID).

(** The limit and the offset. *)
Definition parsePagination (c : Gin) : error + (Z * Z) :=
  match (if String.eqb (TrimSpace (g_Query c "limit")) "" then inr defaultListLimit
         else parse_trimmed (g_Query c "limit") (fun value => 0 <? value) (EVideo ErrInvalidLimit)) with
  | inl err => inl err
  | inr limit =>
      match (if String.eqb (TrimSpace (g_Query c "offset")) "" then inr 0
             else parse_trimmed (g_Query c "offset") (fun value => 0 <=? value) (EVideo ErrInvalidOffset)) with
      | inl err => inl err
      | inr offset => inr (limit, offset)
      end
  end.

Definition videoResponseFromDomain (v : Video) : videoResponse :=
  mkVideoResponse (v_ID v) (v_AuthorID v) (v_Title v) (v_Description v) (v_MediaURL v) (v_CoverURL v)
    (v_Status v) (v_LikeCount v) (v_CommentCount v) (v_FavoriteCount v) (v_PublishedAt v) (v_CreatedAt v)
    (v_UpdatedAt v).

Definition videoListResponseFromDomain (videos : list Video) (limit offset : Z) : videoListResponse :=
  mkVideoListResponse (videoResponseFromDomain <$> videos) limit offset.

(** The route's own answer to a parameter that is not a positive number. *)
Definition with_id (raw text : string) (handler : Z -> M Answer) : M Answer :=
  with_value (fun _ => error_answer 400 text) (parsePositiveInt64 raw) handler.

Section VideoHandler.
Context `{Collation}.

Definition Create (publisher : option PublishedEventPublisher) (c : Gin) (body : option CreateVideoRequest)
    : M Answer :=
  with_user (userIDFromContext c) (fun userID =>
    with_body body (fun req =>
      respond writeVideoError
        (VideoService.CreatePublished publisher userID (cv_Title req) (cv_Description req) (cv_MediaURL req)
           (cv_CoverURL req) (g_Header c "Idempotency-Key"))
        (fun r => mkAnswer (if VideoService.vc_Created r then 201 else 200)
                    (AVideo (videoResponseFromDomain (VideoService.vc_Video r)))))).

Definition Get (c : Gin) : M Answer :=
  with_id (g_Param c "videoId") "invalid video id" (fun videoID =>
    respond writeVideoError (VideoService.Get videoID)
      (fun video => mkAnswer 200 (AVideo (videoResponseFromDomain video)))).

Definition Delete (c : Gin) : M Answer :=
  with_user (userIDFromContext c) (fun userID =>
    with_id (g_Param c "videoId") "invalid video id" (fun videoID =>
      respond writeVideoError (VideoService.Delete userID videoID) (fun _ => mkAnswer 204 ANone))).

Definition list_of_author (c : Gin) (authorID : Z) : M Answer :=
  with_value writeVideoError (parsePagination c) (fun '(limit, offset) =>
    respond writeVideoError (VideoService.ListByAuthor authorID limit offset)
      (fun videos => mkAnswer 200 (AVideos (videoListResponseFromDomain videos limit offset)))).

Definition ListByAuthor (c : Gin) : M Answer :=
  with_id (g_Param c "userId") "invalid user id" (list_of_author c).

Definition ListMine (c : Gin) : M Answer := with_user (userIDFromContext c) (list_of_author c).

End VideoHandler.
End VideoHandler.
