(* ===== verification/Tokens.v ===== *)
(** * Access tokens ([internal/infra/jwt/jwt.go]) and the middleware that reads them
    ([internal/interfaces/http/middleware/jwt_auth.go])

    A manager signs claims with its secret and reads them back; the JWT library is a
    parameter, with the laws a client of it relies on. A middleware lets a request through,
    with the user and the role it found, or answers itself. *)
From Stdlib Require Import Ascii.
From S2P Require Import Prelude.
From S2P Require Import GoStd.
From S2P Require Import GoConv.
From S2P Require Import GoHash.
From S2P Require Import Errors.
From S2P Require Import Models.
From S2P Require Import Store.
From S2P Require Import Ports.
From S2P Require Import HttpDto.

(** ** The library [golang-jwt/jwt/v5] *)

(** The claims that are signed; a claim that is absent has no time. *)
Record tokenClaims := mkTokenClaims {
  tk_UserID : Z;
  tk_Role : string;
  tk_TokenType : string;
  tk_IssuedAt : option Time;
  tk_ExpiresAt : option Time;
  tk_ID : string;
}.

(** [NewNumericDate], signing with HS256, and parsing at a time, with HS256 as the only valid
    method. *)
Class JWTLib := {
  NewNumericDate : Time -> Time;
  HS256_SignedString : string -> tokenClaims -> option string;
  HS256_ParseWithClaims : string -> Time -> string -> option tokenClaims;
}.

(** A signed text is visible ASCII; it parses to the claims, under the same key, before it
    expires and not after. *)
Class JWTLibLaws (L : JWTLib) := {
  date_precision t : NewNumericDate t = time_Truncate t second;
  signed_visible key c token : HS256_SignedString key c = Some token -> visible token /\ token <> ""%string;
  parse_signed key c token now exp issued :
    HS256_SignedString key c = Some token ->
    tk_IssuedAt c = Some (NewNumericDate issued) -> tk_ExpiresAt c = Some (NewNumericDate exp) ->
    HS256_ParseWithClaims key now token = if now <? NewNumericDate exp then Some c else None;
}.

(** ** The manager *)

Definition defaultAccessTTL : Z := 15 * minute.
Definition TokenTypeAccess : string := "access".

Definition ErrEmptyJWTSecret : error := EMain "jwt secret is required".
Definition ErrParseAccessTTL : error := EMain "parse jwt access_ttl failed".
Definition ErrEmptyToken : error := EMain "token is empty".
Definition ErrParseJWTToken : error := EMain "parse jwt token failed".
Definition ErrInvalidTokenType : error := EMain "token type invalid".
Definition ErrInvalidTokenUserID : error := EMain "token user id invalid".
Definition ErrInvalidUserID : error := EMain "user id must be positive".
Definition ErrSignJWTToken : error := EMain "sign jwt token failed".
Definition ErrInvalidTTL : error := EMain "ttl must be positive".

Record Claims := mkClaims {
  cl_UserID : Z;
  cl_Role : string;
  cl_TokenType : string;
  cl_JWTID : string;
  cl_IssuedAt : Z;
  cl_ExpiresAt : Z;
}.

Record Manager := mkManager { mg_secret : string; mg_accessTTL : Z }.

Definition parseTTL (raw : string) (fallback : Z) : error + Z :=
  let raw := TrimSpace raw in
  if String.eqb raw "" then inr fallback else
  match ParseDuration raw with
  | None => inl (EMain "time: invalid duration")
  | Some ttl => if ttl <=? 0 then inl ErrInvalidTTL else inr ttl
  end.

Definition NewManager (secret accessTTL : string) : error + Manager :=
  let secret := TrimSpace secret in
  if String.eqb secret "" then inl ErrEmptyJWTSecret else
  match parseTTL accessTTL defaultAccessTTL with
  | inl _ => inl ErrParseAccessTTL
  | inr accessDuration => inr (mkManager secret accessDuration)
  end.

Definition AccessTTL (m : Manager) : Z := mg_accessTTL m.

Definition claimTimeUnix (value : option Time) : Z :=
  match value with None => 0 | Some t => time_Unix t end.

(** [crypto/rand] does not fail. *)
Definition randomID (size : nat) : M string := b ← random_bytes size; mret (hex_EncodeToString b).

Section Tokens.
Context `{JWTLib}.

Definition signToken (m : Manager) (userID : Z) (role tokenType : string) (ttl : Z) : M string :=
  if userID <=? 0 then throw ErrInvalidUserID else
  let role := TrimSpace role in
  let role := if String.eqb role "" then "user"%string else role in
  now ← time_now;
  jti ← randomID 16;
  let claims := mkTokenClaims userID role tokenType (Some (NewNumericDate now))
                  (Some (NewNumericDate (now + ttl))) jti in
  match HS256_SignedString (mg_secret m) claims with
  | None => throw ErrSignJWTToken
  | Some signedToken => mret signedToken
  end.

Definition SignAccessToken (m : Manager) (userID : Z) (role : string) : M string :=
  signToken m userID role TokenTypeAccess (mg_accessTTL m).

Definition ParseAndValidateToken (m : Manager) (token expectedType : string) : M Claims :=
  let token := TrimSpace token in
  if String.eqb token "" then throw ErrEmptyToken else
  now ← time_now;
  match HS256_ParseWithClaims (mg_secret m) now token with
  | None => throw ErrParseJWTToken
  | Some c =>
      if negb (String.eqb (tk_TokenType c) expectedType) then throw ErrInvalidTokenType else
      if tk_UserID c <=? 0 then throw ErrInvalidTokenUserID else
      mret (mkClaims (tk_UserID c) (tk_Role c) (tk_TokenType c) (tk_ID c) (claimTimeUnix (tk_IssuedAt c))
              (claimTimeUnix (tk_ExpiresAt c)))
  end.

(** The manager as the signer of the account service. *)
Definition token_signer (m : Manager) : TokenSigner := {|
  Ports.SignAccessToken := SignAccessToken m;
  Ports.AccessTTL := AccessTTL m;
|}.

(** ** The middleware *)

(** [strings.SplitN(s, " ", 2)]: one part, or two. *)
Fixpoint split_space (s : string) : string * option string :=
  match s with
  | EmptyString => (EmptyString, None)
  | String c s =>
      if Ascii.eqb c " " then (EmptyString, Some s)
      else let '(a, b) := split_space s in (String c a, b)
  end.

(** [strings.EqualFold(s, "Bearer")]: the letters of the word have no other foldings. *)
Definition equal_fold_bearer (s : string) : bool := String.eqb (ToLower s) "bearer".

(** What [c.Set] put in the context: nothing, or a user id and a role. *)
Definition identity : Type := option (Z * string).

Definition abort (message : string) : M (Answer + identity) := mret (inl (mkAnswer 401 (AAbort message))).

Definition NewJWTAuth (m : Manager) (authorization : string) : M (Answer + identity) :=
  let header := TrimSpace authorization in
  if String.eqb header "" then abort "authorization header is required" else
  match split_space header with
  | (_, None) => abort "authorization format must be Bearer <token>"
  | (scheme, Some rest) =>
      if negb (equal_fold_bearer (TrimSpace scheme)) then abort "authorization scheme must be Bearer" else
      claims ← attempt (ParseAndValidateToken m (TrimSpace rest) TokenTypeAccess);
      match claims with
      | inl _ => abort "invalid access token"
      | inr claims => mret (inr (Some (cl_UserID claims, cl_Role claims)))
      end
  end.

Definition NewOptionalJWTAuth (m : Manager) (authorization : string) : M (Answer + identity) :=
  let header := TrimSpace authorization in
  if String.eqb header "" then mret (inr None) else
  match split_space header with
  | (_, None) => mret (inr None)
  | (scheme, Some rest) =>
      if negb (equal_fold_bearer (TrimSpace scheme)) then mret (inr None) else
      claims ← attempt (ParseAndValidateToken m (TrimSpace rest) TokenTypeAccess);
      match claims with
      | inl _ => mret (inr None)
      | inr claims => mret (inr (Some (cl_UserID claims, cl_Role claims)))
      end
  end.

Definition NewInternalTokenAuth (token header : string) : M (Answer + identity) :=
  let token := TrimSpace token in
  if String.eqb token "" then abort "internal token is required" else
  let provided := TrimSpace header in
  if negb (String.eqb provided token) then abort "invalid internal token" else mret (inr None).

End Tokens.

(** ** An [Authorization] header *)

Lemma visible_first_trims (l : bytes) b : visible_byte b -> trim_left (b :: l) = b :: l.
Proof.
  intros Hb. unfold trim_left. apply trim_fuel_id. unfold space_at_start. apply visible_space_width. by left.
Qed.

Lemma visible_last_trims (l : bytes) b : visible_byte b -> trim_right (l ++ [b]) = l ++ [b].
Proof.
  intros Hb. apply trim_right_id. rewrite reverse_app. unfold space_at_end. simpl.
  assert (nth_byte 0 (b :: reverse l) = b) as -> by done. unfold visible_byte in Hb.
  assert (forall x y z n, space_width x y z = n -> (n = 1%nat -> 9 <= x <= 13 \/ x = 32) /\
    (n = 2%nat -> y = 133 \/ y = 160) /\ (n = 3%nat -> 128 <= z)) as Hw.
  { intros x y z n <-. unfold space_width. repeat case_match; split_and!; intros [=]; lia. }
  rewrite !bool_decide_eq_false_2; [done|intros Hc; apply Hw in Hc as (Hc1 & Hc2 & Hc3); lia..].
Qed.

Lemma visible_bytes_ends s : visible s -> s <> ""%string ->
  (exists b l, string_bytes s = b :: l /\ visible_byte b) /\ (exists l b, string_bytes s = l ++ [b] /\ visible_byte b).
Proof.
  intros Hs%visible_bytes Hne. assert (string_bytes s <> []) as Hb by by destruct s.
  split.
  - destruct (string_bytes s) as [|b l]; [done|]. apply Forall_cons in Hs as [Hv _]. eauto.
  - destruct (exists_last Hb) as (l & b & Hlb). rewrite Hlb in *. apply Forall_app in Hs as [_ Hv].
    apply Forall_cons in Hv as [Hv _]. exists l, b. split; [done|]. exact Hv.
Qed.

Lemma bearer_trimmed scheme token :
  visible scheme -> scheme <> ""%string -> visible token -> token <> ""%string ->
  TrimSpace (scheme +:+ " " +:+ token) = (scheme +:+ " " +:+ token)%string.
Proof.
  intros Hs Hsn Ht Htn. unfold TrimSpace. rewrite !string_bytes_app.
  destruct (visible_bytes_ends scheme Hs Hsn) as [(b & l & Hl & Hb) _].
  destruct (visible_bytes_ends token Ht Htn) as [_ (k & c & Hk & Hc)].
  rewrite Hl, Hk. rewrite <-app_comm_cons, visible_first_trims by done.
  rewrite app_comm_cons, !app_assoc, visible_last_trims by done.
  rewrite <-!app_assoc, <-Hk, <-Hl, <-!string_bytes_app. apply string_of_bytes_bytes.
Qed.

Lemma split_space_at scheme rest : visible scheme -> split_space (scheme +:+ " " +:+ rest) = (scheme, Some rest).
Proof.
  induction scheme as [|c scheme IH]; intros Hv; [done|]. destruct Hv as [Hc Hv].
  change (split_space (String c (scheme +:+ " " +:+ rest)) = (String c scheme, Some rest)). cbn [split_space].
  destruct (Ascii.eqb_spec c " ") as [->|_]; [by destruct Hc|]. by rewrite IH.
Qed.

(** ** What becomes of a token *)

(** The time that a look at the clock of [w] tells. *)
Definition now_in (w : World) : Time := (clock (env w) + Z.of_N (default 0%N (head (ticks (env w)))))%Z.

Section TokenLemmas.
Context `{JWTLib, !JWTLibLaws _}.

Definition role_or_user (role : string) : string :=
  if String.eqb (TrimSpace role) "" then "user"%string else TrimSpace role.

(** [token] was signed by [m] for the user at the time [t]. *)
Definition signed_at (m : Manager) (userID : Z) (role token : string) (t : Time) : Prop :=
  exists jti, HS256_SignedString (mg_secret m)
    (mkTokenClaims userID (role_or_user role) TokenTypeAccess (Some (NewNumericDate t))
       (Some (NewNumericDate (t + mg_accessTTL m))) jti) = Some token.

Lemma wp_SignAccessToken m userID role w :
  wp (SignAccessToken m userID role)
    (fun token w' => 0 < userID /\ db w' = db w /\ clock (env w) <= clock (env w') /\
       signed_at m userID role token (clock (env w')))
    (fun e w' => db w' = db w /\ (e = ErrInvalidUserID /\ userID <= 0 \/ e = ErrSignJWTToken)) w.
Proof.
  unfold SignAccessToken, signToken, randomID. destruct (Z.leb_spec userID 0) as [Hu|Hu].
  { apply wp_throw. auto. }
  cbv zeta. apply wp_bind, wp_time_now. intros now e Hle Hnow.
  apply wp_bind, wp_bind. unfold wp at 1, random_bytes. apply wp_ret. case_match eqn:Hs.
  - apply wp_ret. simpl. rewrite Hnow. split_and!; [done..|]. eexists. exact Hs.
  - apply wp_throw. auto.
Qed.

Lemma SignAccessToken_keeps_db m userID role : keeps_db (SignAccessToken m userID role).
Proof.
  intros w. unfold SignAccessToken, signToken, randomID. cbv zeta.
  destruct (userID <=? 0); [by split|]. unfold mbind, M_bind. simpl. destruct (HS256_SignedString _ _); (split; [reflexivity|]); intros name; apply Z.le_refl.
Qed.

(** A signed token, behind any spelling of its scheme, gives its user away until it expires. *)
Lemma wp_NewJWTAuth_signed m userID role token t scheme w :
  signed_at m userID role token t -> 0 < userID ->
  visible scheme -> equal_fold_bearer scheme = true ->
  wp (NewJWTAuth m (scheme +:+ " " +:+ token))
    (fun r w' => db w' = db w /\
       r = if now_in w <? time_Truncate (t + mg_accessTTL m) second
           then inr (Some (userID, role_or_user role))
           else inl (mkAnswer 401 (AAbort "invalid access token")))
    (fun _ _ => False) w.
Proof.
  intros [jti Hs] Hu Hv Hb.
  assert (scheme <> ""%string) as Hne by (by intros ->).
  destruct (signed_visible _ _ _ Hs) as [Ht Htn].
  unfold NewJWTAuth. cbv zeta. rewrite bearer_trimmed, split_space_at by done.
  destruct (String.eqb_spec (scheme +:+ " " +:+ token) "") as [He|_]; [by destruct scheme|].
  rewrite (visible_trimmed scheme Hv), Hb. simpl negb. cbv iota.
  unfold ParseAndValidateToken. rewrite (visible_trimmed token Ht), (visible_trimmed token Ht).
  destruct (String.eqb_spec token "") as [?|_]; [done|].
  apply wp_bind, wp_attempt, wp_bind. unfold wp at 1. simpl. fold (now_in w).
  erewrite parse_signed; [|exact Hs|reflexivity|reflexivity]. rewrite date_precision.
  destruct (now_in w <? _).
  - simpl. destruct (Z.leb_spec userID 0); [lia|]. by apply wp_ret.
  - by apply wp_throw.
Qed.

End TokenLemmas.
