(* ===== verification/Requests.v ===== *)
(** * The requests of the API

    [endpoint] lists the operations of the application services, but for [GetFeed] (it only
    reads the tables, see [HttpRouter], and its errors are not all its own), with the ports
    they use behaving as they like as long as they do not write to the database behind the
    services' back. Two things hold of every one of them: it changes the database by steps of
    [System] only, and the errors it reports are the service's own. *)
From S2P Require Import Prelude.
From S2P Require Import GoStd.
From S2P Require InteractionDomain.
From S2P Require RelationDomain.
From S2P Require AccountDomain.
From S2P Require Import Models.
From S2P Require Import Errors.
From S2P Require Import Redis.
From S2P Require Import Store.
From S2P Require Import RedisClient.
From S2P Require Import Paging.
From S2P Require InteractionRepo.
From S2P Require RelationRepo.
From S2P Require MessageRepo.
From S2P Require VideoRepo.
From S2P Require ExposureRepo.
From S2P Require PlaybackRepo.
From S2P Require AccountRepo.
From S2P Require Import System.
From S2P Require Import Codec.
From S2P Require Import Ports.
From S2P Require MessageService.
From S2P Require InteractionService.
From S2P Require RelationService.
From S2P Require VideoService.
From S2P Require OtherServices.
From S2P Require Import Wiring.

Create HintDb reports.

Section Requests.
Context `{Collation, !CollationLaws}.

(** ** Computations that change the world by steps *)

(** [m] leads along steps of [R], wherever it starts. *)
Definition moves (R : relation World) {A} (m : M A) : Prop := forall w, rtc R w (System.after m w).

Section moves.
Variable R : relation World.

Lemma moves_step {A} (m : M A) : (forall w, R w (System.after m w)) -> moves R m.
Proof. intros Hs w. by apply rtc_once. Qed.

Lemma moves_ret {A} (a : A) : moves R (mret a).
Proof. by intros w. Qed.

Lemma moves_throw {A} e : moves R (throw (A := A) e).
Proof. by intros w. Qed.

Lemma moves_bind {A B} (m : M A) (f : A -> M B) : moves R m -> (forall a, moves R (f a)) -> moves R (m ≫= f).
Proof.
  intros Hm Hf w. specialize (Hm w). unfold System.after, mbind, M_bind in *.
  destruct (m w) as [[e|a] w']; [done|]. etrans; [exact Hm|apply Hf].
Qed.

Lemma moves_attempt {A} (m : M A) : moves R m -> moves R (attempt m).
Proof.
  intros Hm w. specialize (Hm w). unfold System.after, attempt in *.
  by destruct (m w) as [[e|a] w'].
Qed.

Lemma moves_map_error {A} f (m : M A) : moves R m -> moves R (map_error f m).
Proof.
  intros Hm w. specialize (Hm w). unfold System.after, map_error in *.
  by destruct (m w) as [[e|a] w'].
Qed.
End moves.

(** The steps leave the disk alone. *)
Definition keeps {A} (m : M A) : Prop := moves plain_step m.

Lemma keeps_step {A} (m : M A) : (forall w, plain_step w (System.after m w)) -> keeps m.
Proof. apply moves_step. Qed.

Lemma keeps_ret {A} (a : A) : keeps (mret a).
Proof. apply moves_ret. Qed.

Lemma keeps_throw {A} e : keeps (throw (A := A) e).
Proof. apply moves_throw. Qed.

Lemma keeps_bind {A B} (m : M A) (f : A -> M B) : keeps m -> (forall a, keeps (f a)) -> keeps (m ≫= f).
Proof. apply moves_bind. Qed.

Lemma keeps_attempt {A} (m : M A) : keeps m -> keeps (attempt m).
Proof. apply moves_attempt. Qed.

Lemma keeps_map_error {A} f (m : M A) : keeps m -> keeps (map_error f m).
Proof. apply moves_map_error. Qed.

Lemma keeps_outside {A} (m : M A) :
  (forall w, exists r q e p, System.after m w = mkWorld (db w) (auto_inc w) r q e p (disk w)) -> keeps m.
Proof. intros Hm. apply keeps_step. intros w. destruct (Hm w) as (r & q & e & p & ->). constructor. Qed.

Lemma keeps_call : keeps call.
Proof.
  apply keeps_outside. intros w. unfold System.after, call.
  destruct (faults (env w)) as [|[t|] fs]; by do 4 eexists.
Qed.

Lemma keeps_time_now : keeps time_now.
Proof. apply keeps_outside. intros w. by do 4 eexists. Qed.

Lemma keeps_random_bytes n : keeps (random_bytes n).
Proof. apply keeps_outside. intros w. by do 4 eexists. Qed.

Lemma keeps_new_event_id : keeps new_event_id.
Proof. apply keeps_bind; [apply keeps_random_bytes|intros b; apply keeps_ret]. Qed.

Lemma keeps_uuid : keeps uuid_NewString.
Proof. apply keeps_bind; [apply keeps_random_bytes|intros b; apply keeps_ret]. Qed.

Lemma keeps_sleep d : keeps (sleep d).
Proof. apply keeps_outside. intros w. by do 4 eexists. Qed.

Lemma keeps_request {A} (f : Time -> Redis -> (error + A) * Redis) : keeps (redis_request f).
Proof.
  unfold redis_request. apply keeps_bind; [apply keeps_time_now|]. intros now.
  apply keeps_bind; [apply keeps_call|]. intros _. apply keeps_bind.
  - apply keeps_outside. intros w. unfold System.after, redis_step. destruct (f now (redis w)). by do 4 eexists.
  - intros a. apply keeps_bind; [apply keeps_call|]. intros _. apply keeps_ret.
Qed.

Lemma keeps_pipe cmds : keeps (redis_pipe cmds).
Proof. unfold redis_pipe. case_match; [apply keeps_ret|apply keeps_request]. Qed.

Lemma keeps_publish ev : keeps (publish ev).
Proof.
  apply keeps_bind; [apply keeps_call|]. intros _. apply keeps_outside. intros w. by do 4 eexists.
Qed.

Lemma keeps_query {A} (f : Tables -> A) : keeps (query f).
Proof. apply keeps_bind; [apply keeps_call|]. by intros [] w. Qed.

Lemma keeps_take_row {A} (f : Tables -> option A) : keeps (take_row f).
Proof.
  apply keeps_bind; [apply keeps_query|]. intros [a|]; [apply keeps_ret|apply keeps_throw].
Qed.

Lemma keeps_ignore {A} (m : M A) : keeps m -> keeps (ignore m).
Proof. intros Hm. apply keeps_bind; [by apply keeps_attempt|]. intros r. apply keeps_ret. Qed.

(** ** Computations whose errors are the services' own *)

(** Not an error of GORM or of the database driver. *)
Definition own_error (e : error) : bool :=
  match e with EMain _ | ERecordNotFound | EDuplicatedKey | EDriver _ => false | _ => true end.

Inductive service :=
  | SInteraction | SRelation | SMessage | SVideo | SExposure | SPlayback | SAccount | SFeed | SRecommendation.

(** The errors a service reports: what failed inside it ([EApp]), and the sentinels of its
    domain but those that only its repository and its entities use. The feed passes on the
    recommendations' errors. *)
Definition reports (s : service) (e : error) : bool :=
  match s, e with
  | _, EApp _ => true
  | SRelation, ERelation RelationDomain.ErrFollowNotFound
  | SMessage, EMessage MessageDomain.ErrMessageNotFound
  | SVideo, EVideo VideoDomain.ErrDuplicateIdempotencyKey => false
  | SInteraction, EInteraction _ | SRelation, ERelation _ | SMessage, EMessage _ | SVideo, EVideo _
  | SExposure, EExposure _ | SPlayback, EPlayback _ | SAccount, EAccount _
  | SFeed, EFeed _ | SFeed, ERecommendation _ | SRecommendation, ERecommendation _ => true
  | _, _ => false
  end.

(** The errors of [m] are among those of [P]. *)
Definition raises (P : error -> bool) {A} (m : M A) : Prop :=
  forall w, wp m (fun _ _ => True) (fun e _ => P e = true) w.

Section raises.
Variable P : error -> bool.

Lemma raises_ret {A} (a : A) : raises P (mret a).
Proof. done. Qed.

Lemma raises_throw {A} e : P e = true -> raises P (throw (A := A) e).
Proof. intros He w. by apply wp_throw. Qed.

Lemma raises_bind {A B} (m : M A) (f : A -> M B) :
  raises P m -> (forall a, raises P (f a)) -> raises P (m ≫= f).
Proof. intros Hm Hf w. apply wp_bind. eapply wp_mono; [apply Hm| |done]. intros a w' _. apply Hf. Qed.

Lemma raises_attempt {A} (m : M A) : raises P (attempt m).
Proof. intros w. apply wp_attempt. unfold wp. by destruct (m w) as [[e|a] w']. Qed.

Lemma raises_map_error {A} f (m : M A) : (forall e, P (f e) = true) -> raises P (map_error f m).
Proof. intros Hf w. apply wp_map_error. unfold wp. destruct (m w) as [[e|a] w']; [apply Hf|done]. Qed.

Lemma raises_time_now : raises P time_now.
Proof. intros w. by apply wp_time_now. Qed.

Lemma raises_new_event_id : raises P new_event_id.
Proof. intros w. by apply wp_new_event_id. Qed.

Lemma raises_ignore {A} (m : M A) : raises P (ignore m).
Proof. apply raises_bind; [apply raises_attempt|]. intros r. apply raises_ret. Qed.

(** An error passed on because it was recognised. *)
Lemma raises_throw_Is {A} e t : errors_Is e t = true -> P t = true -> raises P (throw (A := A) e).
Proof. intros ->%errors_Is_true Ht. by apply raises_throw. Qed.

Lemma raises_weaken (Q : error -> bool) {A} (m : M A) :
  (forall e, P e = true -> Q e = true) -> raises P m -> raises Q m.
Proof. intros HPQ Hm w. eapply wp_mono; [apply Hm|done|]. intros e w' He. by apply HPQ. Qed.
End raises.

Lemma reports_own s e : reports s e = true -> own_error e = true.
Proof. by destruct s, e as [| | |[]| | | | | | | | | |]. Qed.

(** ** The ports *)

Definition if_some {A} (P : A -> Prop) (o : option A) : Prop := forall a, o = Some a -> P a.

(** Ports that write to the database only through the operations of the repositories. *)
Class WriterKeeps (W : MessageWriter) : Prop := {
  writer_event : forall u t ti c e k, keeps (CreateFromEvent W u t ti c e k);
  writer_actor : if_some (fun f => forall u t ti c e k a n av, keeps (f u t ti c e k a n av))
                   (CreateFromActorEvent W);
}.

Class InteractionPorts (s : InteractionService.InteractionService) : Prop := {
  ip_hot : if_some (fun R => forall v d t, keeps (AddHotScore R v d t)) (InteractionService.hotScoreRecorder s);
  ip_stat : if_some (fun C => forall st, keeps (SetVideoStat C st)) (InteractionService.statCache s);
  ip_store : if_some (fun S => forall u v t a k st, keeps (SetActionState S u v t a k st))
               (InteractionService.actionStateStore s);
  ip_publisher : if_some (fun P => forall e, keeps (PublishActionChanged P e))
               (InteractionService.actionPublisher s);
  ip_writer : if_some WriterKeeps (InteractionService.messageWriter s);
}.

Class RelationPorts (s : RelationService.RelationService) : Prop := {
  rp_count : if_some (fun b => forall a, keeps (bf_CountFollowers b a)) (RelationService.backfiller s);
  rp_videos : if_some (fun b => forall a n, keeps (bf_ListAuthorRecentVideos b a n))
                (RelationService.backfiller s);
  rp_inbox : if_some (fun b => forall a us i n, keeps (bf_AddInboxItems b a us i n))
               (RelationService.backfiller s);
  rp_writer : if_some WriterKeeps (RelationService.rel_messageWriter s);
}.

Definition publisher_keeps (p : option PublishedEventPublisher) : Prop :=
  if_some (fun P => forall e, keeps (PublishVideoPublished P e)) p.

Definition view_publisher_keeps (p : option ViewEventPublisher) : Prop :=
  if_some (fun P => forall e, keeps (PublishViewEventRecorded P e)) p.

Definition signer_keeps (s : TokenSigner) : Prop := forall id role, keeps (SignAccessToken s id role).

(** ** The operations of the services that the API offers *)

Context `{Codec} `{AccountDomain.Bcrypt}.

Inductive endpoint : forall A : Type, M A -> Prop :=
  | ep_setAction s u v t active key : InteractionPorts s ->
      endpoint _ (InteractionService.setAction s u v t active key)
  | ep_CreateComment s u v content key : InteractionPorts s ->
      endpoint _ (InteractionService.CreateComment s u v content key)
  | ep_DeleteComment s id u role : InteractionPorts s ->
      endpoint _ (InteractionService.DeleteComment s id u role)
  | ep_ListComments v cursor limit : endpoint _ (InteractionService.ListComments v cursor limit)
  | ep_setFollow s u t active key : RelationPorts s ->
      endpoint _ (RelationService.setFollow s u t active key)
  | ep_ListFollowing u cursor limit : endpoint _ (RelationService.ListFollowing u cursor limit)
  | ep_ListFollowers u cursor limit : endpoint _ (RelationService.ListFollowers u cursor limit)
  | ep_CreateMessage u t ti c e k a n av :
      endpoint _ (MessageService.CreateFromActorEvent u t ti c e k a n av)
  | ep_ListMessages u cursor limit : endpoint _ (MessageService.List u cursor limit)
  | ep_CountUnread u : endpoint _ (MessageService.CountUnread u)
  | ep_MarkRead u ids : endpoint _ (MessageService.MarkRead u ids)
  | ep_CreatePublished p a title desc media cover key : publisher_keeps p ->
      endpoint _ (VideoService.CreatePublished p a title desc media cover key)
  | ep_GetVideo v : endpoint _ (VideoService.Get v)
  | ep_ListByAuthor a limit offset : endpoint _ (VideoService.ListByAuthor a limit offset)
  | ep_DeleteVideo a v : endpoint _ (VideoService.Delete a v)
  | ep_RecordViewEvent p u v scene rid t ms done : view_publisher_keeps p ->
      endpoint _ (OtherServices.ExposureService.RecordViewEvent p u v scene rid t ms done)
  | ep_GetConfig platform network : endpoint _ (OtherServices.PlaybackService.GetConfig platform network)
  | ep_ListPreloadVideos v limit : endpoint _ (OtherServices.PlaybackService.ListPreloadVideos v limit)
  | ep_CreateQoSReport u v ff st ms key :
      endpoint _ (OtherServices.PlaybackService.CreateQoSReport u v ff st ms key)
  | ep_Register salt acct pw nick : endpoint _ (OtherServices.AccountService.Register salt acct pw nick)
  | ep_Login signer acct pw : signer_keeps signer ->
      endpoint _ (OtherServices.AccountService.Login signer acct pw)
  | ep_GetProfile u : endpoint _ (OtherServices.AccountService.GetProfile u)
  | ep_GetPublicProfile u : endpoint _ (OtherServices.AccountService.GetPublicProfile u)
  | ep_UpdateProfile u nick avatar bio :
      endpoint _ (OtherServices.AccountService.UpdateProfile u nick avatar bio).

End Requests.

(** ** Every endpoint reports its own errors *)

Create HintDb reported.

Ltac reported := solve [reflexivity | eauto with reported].

Ltac raises_step :=
  lazymatch goal with
  | |- raises _ (mret _) => apply raises_ret
  | H : (errors_Is ?e _ || errors_Is ?e _) = true |- raises _ (throw ?e) =>
      apply orb_true_iff in H as [H|H]; (eapply raises_throw_Is; [exact H|reported])
  | H : errors_Is ?e _ = true |- raises _ (throw ?e) => eapply raises_throw_Is; [exact H|reported]
  | |- raises _ (throw _) => apply raises_throw; reported
  | |- raises _ (_ ≫= _) => apply raises_bind; [|intros ?]
  | |- raises _ (attempt _) => apply raises_attempt
  | |- raises _ (ignore _) => apply raises_ignore
  | |- raises _ (map_error _ _) => apply raises_map_error; intros ?; repeat case_match; reported
  | |- raises _ time_now => apply raises_time_now
  | |- raises _ new_event_id => apply raises_new_event_id
  | |- raises _ (match ?x with _ => _ end) => destruct x eqn:?
  end.

Ltac raises_solve := repeat (cbv zeta; raises_step).

Section RequestsReport.
Context `{Collation, !CollationLaws} `{Codec} `{AccountDomain.Bcrypt}.

Lemma NewMessage_reported u t ti c e err :
  MessageDomain.NewMessage u t ti c e = inl err -> reports SMessage (EMessage err) = true.
Proof.
  unfold MessageDomain.NewMessage, MessageDomain.NormalizeType. intros Hn.
  repeat case_match; by simplify_eq/=.
Qed.

Lemma parseCursor_reported raw err :
  MessageService.parseCursor raw = inl err -> reports SMessage (EMessage err) = true.
Proof. unfold MessageService.parseCursor. intros Hp. case_match; by simplify_eq/=. Qed.

Lemma dedup_ids_reported ids seen err :
  MessageService.dedup_ids seen ids = inl err -> reports SMessage (EMessage err) = true.
Proof.
  revert seen. induction ids as [|id ids IH]; intros seen; simpl; [done|].
  intros Hn. repeat case_match; simplify_eq/=; eauto.
Qed.

Lemma NewPublished_reported now a t d m c k err :
  VideoDomain.NewPublished now a t d m c k = inl err -> reports SVideo (EVideo err) = true.
Proof. unfold VideoDomain.NewPublished. intros Hn. repeat case_match; by simplify_eq/=. Qed.

Lemma DeleteBy_reported v a err : VideoDomain.DeleteBy v a = inl err -> reports SVideo (EVideo err) = true.
Proof. unfold VideoDomain.DeleteBy. intros Hn. repeat case_match; by simplify_eq/=. Qed.

Lemma NewFollow_reported u t k err :
  RelationDomain.NewFollow u t k = inl err -> reports SRelation (ERelation err) = true.
Proof. unfold RelationDomain.NewFollow. intros Hn. repeat case_match; by simplify_eq/=. Qed.

Lemma parseListCursor_reported raw err :
  RelationService.parseListCursor raw = inl err -> reports SRelation (ERelation err) = true.
Proof. unfold RelationService.parseListCursor. intros Hp. case_match; by simplify_eq/=. Qed.

#[local] Hint Resolve NewMessage_reported parseCursor_reported dedup_ids_reported NewPublished_reported
  DeleteBy_reported NewFollow_reported parseListCursor_reported : reported.

Lemma recordHotScore_reports r v d : raises (reports SInteraction) (InteractionService.recordHotScore r v d).
Proof. unfold InteractionService.recordHotScore. raises_solve. Qed.

Lemma createInteractionMessage_reports W u t ti c e a :
  raises (reports SInteraction) (InteractionService.createInteractionMessage W u t ti c e a).
Proof. unfold InteractionService.createInteractionMessage. raises_solve. Qed.

Lemma notifyLike_reports s a : raises (reports SInteraction) (InteractionService.notifyLike s a).
Proof.
  unfold InteractionService.notifyLike. raises_solve. apply createInteractionMessage_reports.
Qed.

Lemma notifyComment_reports s c : raises (reports SInteraction) (InteractionService.notifyComment s c).
Proof.
  unfold InteractionService.notifyComment. raises_solve. apply createInteractionMessage_reports.
Qed.

Lemma syncCommentCount_reports s v n : raises (reports SInteraction) (InteractionService.syncCommentCount s v n).
Proof. unfold InteractionService.syncCommentCount. raises_solve. Qed.

Lemma recordActionHotScore_reports r v t d : raises (reports SInteraction) (InteractionService.recordActionHotScore r v t d).
Proof. unfold InteractionService.recordActionHotScore. case_match; apply recordHotScore_reports. Qed.

Ltac raises_interaction := raises_solve; auto using recordHotScore_reports, recordActionHotScore_reports,
  notifyLike_reports, notifyComment_reports, syncCommentCount_reports.

Lemma setAction_reports s u v t a k : raises (reports SInteraction) (InteractionService.setAction s u v t a k).
Proof.
  assert (forall t, raises (reports SInteraction) (InteractionService.setActionSync s u v t a k)) as Hs.
  { intros t'. unfold InteractionService.setActionSync. raises_interaction. }
  unfold InteractionService.setAction, InteractionService.setActionAsync,
    InteractionService.NewActionChangedEvent. raises_interaction.
Qed.

Lemma CreateComment_reports s u v c k : raises (reports SInteraction) (InteractionService.CreateComment s u v c k).
Proof.
  unfold InteractionService.CreateComment, InteractionService.create_new_comment. raises_interaction.
Qed.

Lemma DeleteComment_reports s id u role : raises (reports SInteraction) (InteractionService.DeleteComment s id u role).
Proof.
  unfold InteractionService.DeleteComment. raises_interaction.
Qed.

Lemma list_relation_reports f u c l : raises (reports SRelation) (RelationService.list_relation f u c l).
Proof. unfold RelationService.list_relation. raises_solve. Qed.

Lemma notifyFollow_reports s u t : raises (reports SRelation) (RelationService.notifyFollow s u t).
Proof. unfold RelationService.notifyFollow. raises_solve. Qed.

Lemma setFollow_reports s u t a k : raises (reports SRelation) (RelationService.setFollow s u t a k).
Proof. unfold RelationService.setFollow. raises_solve. apply notifyFollow_reports. Qed.

Lemma CreatePublished_reports p a t d m c k : raises (reports SVideo) (VideoService.CreatePublished p a t d m c k).
Proof.
  unfold VideoService.CreatePublished, VideoService.create_new_video, VideoService.publishCreatedVideo,
    VideoService.NewPublishedEvent. raises_solve.
Qed.

Lemma RecordViewEvent_reports p u v sc rid t ms dn :
  raises (reports SExposure) (OtherServices.ExposureService.RecordViewEvent p u v sc rid t ms dn).
Proof.
  unfold OtherServices.ExposureService.RecordViewEvent,
    OtherServices.ExposureService.publishViewEventRecorded,
    OtherServices.ExposureService.NewViewEventRecordedEvent. raises_solve.
Qed.

Lemma load_user_reports u : raises (reports SAccount) (OtherServices.AccountService.load_user u).
Proof. unfold OtherServices.AccountService.load_user. raises_solve. Qed.

Lemma ListComments_reports v c l : raises (reports SInteraction) (InteractionService.ListComments v c l).
Proof. unfold InteractionService.ListComments. raises_solve. Qed.

Lemma CreateFromActorEvent_reports u t ti c e k a n av :
  raises (reports SMessage) (MessageService.CreateFromActorEvent u t ti c e k a n av).
Proof. unfold MessageService.CreateFromActorEvent. raises_solve. Qed.

Lemma ListMessages_reports u c l : raises (reports SMessage) (MessageService.List u c l).
Proof. unfold MessageService.List. raises_solve. Qed.

Lemma CountUnread_reports u : raises (reports SMessage) (MessageService.CountUnread u).
Proof. unfold MessageService.CountUnread. raises_solve. Qed.

Lemma MarkRead_reports u ids : raises (reports SMessage) (MessageService.MarkRead u ids).
Proof. unfold MessageService.MarkRead. raises_solve. Qed.

Lemma GetVideo_reports v : raises (reports SVideo) (VideoService.Get v).
Proof. unfold VideoService.Get. raises_solve. Qed.

Lemma ListByAuthor_reports a l o : raises (reports SVideo) (VideoService.ListByAuthor a l o).
Proof. unfold VideoService.ListByAuthor. raises_solve. Qed.

Lemma DeleteVideo_reports a v : raises (reports SVideo) (VideoService.Delete a v).
Proof. unfold VideoService.Delete. raises_solve. Qed.

Lemma GetConfig_reports p n : raises (reports SPlayback) (OtherServices.PlaybackService.GetConfig p n).
Proof. unfold OtherServices.PlaybackService.GetConfig, OtherServices.PlaybackService.find_config. raises_solve. Qed.

Lemma ListPreloadVideos_reports v l :
  raises (reports SPlayback) (OtherServices.PlaybackService.ListPreloadVideos v l).
Proof. unfold OtherServices.PlaybackService.ListPreloadVideos. raises_solve. Qed.

Lemma CreateQoSReport_reports u v ff st ms k :
  raises (reports SPlayback) (OtherServices.PlaybackService.CreateQoSReport u v ff st ms k).
Proof. unfold OtherServices.PlaybackService.CreateQoSReport. raises_solve. Qed.

Lemma Register_reports salt a pw n :
  raises (reports SAccount) (OtherServices.AccountService.Register salt a pw n).
Proof. unfold OtherServices.AccountService.Register. raises_solve. Qed.

Lemma Login_reports s a pw : raises (reports SAccount) (OtherServices.AccountService.Login s a pw).
Proof. unfold OtherServices.AccountService.Login. raises_solve. Qed.

Lemma GetProfile_reports u : raises (reports SAccount) (OtherServices.AccountService.GetProfile u).
Proof. unfold OtherServices.AccountService.GetProfile. raises_solve. apply load_user_reports. Qed.

Lemma GetPublicProfile_reports u :
  raises (reports SAccount) (OtherServices.AccountService.GetPublicProfile u).
Proof. unfold OtherServices.AccountService.GetPublicProfile. raises_solve. apply load_user_reports. Qed.

Lemma UpdateProfile_reports u n a b :
  raises (reports SAccount) (OtherServices.AccountService.UpdateProfile u n a b).
Proof. unfold OtherServices.AccountService.UpdateProfile. raises_solve. apply load_user_reports. Qed.

#[local] Hint Resolve setAction_reports CreateComment_reports DeleteComment_reports ListComments_reports
  setFollow_reports list_relation_reports CreateFromActorEvent_reports ListMessages_reports
  CountUnread_reports MarkRead_reports CreatePublished_reports GetVideo_reports ListByAuthor_reports
  DeleteVideo_reports RecordViewEvent_reports GetConfig_reports ListPreloadVideos_reports
  CreateQoSReport_reports Register_reports Login_reports GetProfile_reports GetPublicProfile_reports
  UpdateProfile_reports : reports.

Lemma endpoint_clean A (m : M A) : endpoint A m -> raises own_error m.
Proof. destruct 1; (eapply raises_weaken; [apply reports_own|eauto with reports]). Qed.

(** ** Every endpoint keeps the database reachable *)

Lemma keeps_SetAction u v t a k : keeps (InteractionRepo.SetAction u v t a k).
Proof. apply keeps_step. constructor. Qed.

Lemma keeps_CreateComment v u content key c :
  InteractionDomain.NewComment v u content key = inr c -> keeps (InteractionRepo.CreateComment c).
Proof. intros Hc. apply keeps_step. intros w. by eapply step_CreateComment. Qed.

Lemma keeps_SaveVideo now a t d m c k v :
  VideoDomain.NewPublished now a t d m c k = inr v -> keeps (VideoRepo.Save v).
Proof. intros Hv. apply keeps_step. intros w. by eapply step_SaveVideo. Qed.

End RequestsReport.

(** The primitives, the operations of the repositories that are steps, and case analysis. *)
Ltac keeps_step_ :=
  lazymatch goal with
  | |- keeps (mret _) => apply keeps_ret
  | |- keeps (throw _) => apply keeps_throw
  | |- keeps (_ ≫= _) => apply keeps_bind; [|intros ?]
  | |- keeps (attempt _) => apply keeps_attempt
  | |- keeps (map_error _ _) => apply keeps_map_error
  | |- keeps (ignore _) => apply keeps_ignore
  | |- keeps time_now => apply keeps_time_now
  | |- keeps new_event_id => apply keeps_new_event_id
  | |- keeps call => apply keeps_call
  | |- keeps (redis_request _) => apply keeps_request
  | |- keeps (redis_read _) => apply keeps_request
  | |- keeps (redis_write _) => apply keeps_request
  | |- keeps (redis_pipe _) => apply keeps_pipe
  | |- keeps (redis_watch_exec _ _ _) => apply keeps_request
  | |- keeps (query _) => apply keeps_query
  | |- keeps (take_row _) => apply keeps_take_row
  | |- keeps (match ?x with _ => _ end) => destruct x eqn:?
  | H : InteractionDomain.NewComment _ _ _ _ = inr ?c |- keeps (InteractionRepo.CreateComment ?c) =>
      exact (keeps_CreateComment _ _ _ _ _ H)
  | H : VideoDomain.NewPublished _ _ _ _ _ _ _ = inr ?v |- keeps (VideoRepo.Save ?v) =>
      exact (keeps_SaveVideo _ _ _ _ _ _ _ _ H)
  | |- keeps (InteractionRepo.SetAction _ _ _ _ _) => apply keeps_SetAction
  | |- keeps _ => apply keeps_step; solve [intros ?w; constructor]
  end.

Ltac keeps_solve := repeat (cbv zeta; keeps_step_); eauto.

Section RequestsKeep.
Context `{Collation, !CollationLaws} `{Codec} `{AccountDomain.Bcrypt}.

Lemma CreateFromActorEvent_keeps u t ti c e k a n av :
  keeps (MessageService.CreateFromActorEvent u t ti c e k a n av).
Proof. unfold MessageService.CreateFromActorEvent. keeps_solve. Qed.

#[export] Instance NewMessageWriter_keeps : WriterKeeps NewMessageWriter.
Proof.
  split; simpl.
  - intros. apply keeps_bind; [apply CreateFromActorEvent_keeps|intros ?; apply keeps_ret].
  - intros f [= <-] *. apply keeps_bind; [apply CreateFromActorEvent_keeps|intros ?; apply keeps_ret].
Qed.

Section interaction_keeps.
Context (s : InteractionService.InteractionService) `{!InteractionPorts s}.

Lemma GetVideoStat_keeps v : keeps (InteractionRepo.GetVideoStat v).
Proof. unfold InteractionRepo.GetVideoStat. keeps_solve. Qed.

Lemma recordHotScore_keeps v d :
  keeps (InteractionService.recordHotScore (InteractionService.hotScoreRecorder s) v d).
Proof.
  unfold InteractionService.recordHotScore.
  destruct (InteractionService.hotScoreRecorder s) as [R|] eqn:HR; keeps_solve. by apply (ip_hot R HR).
Qed.

Lemma recordActionHotScore_keeps v t d :
  keeps (InteractionService.recordActionHotScore (InteractionService.hotScoreRecorder s) v t d).
Proof. unfold InteractionService.recordActionHotScore. case_match; apply recordHotScore_keeps. Qed.

Lemma createInteractionMessage_keeps W u t ti c e a : InteractionService.messageWriter s = Some W ->
  keeps (InteractionService.createInteractionMessage W u t ti c e a).
Proof.
  intros HW%ip_writer. unfold InteractionService.createInteractionMessage, InteractionRepo.GetUserProfile.
  destruct (CreateFromActorEvent W) as [f|] eqn:Hf; keeps_solve.
  - by apply (writer_actor (W := W) f Hf).
  - apply writer_event.
Qed.

Lemma notifyLike_keeps a : keeps (InteractionService.notifyLike s a).
Proof.
  unfold InteractionService.notifyLike, InteractionRepo.GetVideoAuthorID. keeps_solve.
  by apply createInteractionMessage_keeps.
Qed.

Lemma notifyComment_keeps c : keeps (InteractionService.notifyComment s c).
Proof.
  unfold InteractionService.notifyComment, InteractionRepo.GetVideoAuthorID. keeps_solve.
  by apply createInteractionMessage_keeps.
Qed.

Lemma syncCommentCount_keeps v n : keeps (InteractionService.syncCommentCount s v n).
Proof.
  unfold InteractionService.syncCommentCount. destruct (InteractionService.statCache s) as [C|] eqn:HC;
    keeps_solve; [apply GetVideoStat_keeps|by apply (ip_stat C HC)].
Qed.

Lemma setActionSync_keeps u v t a k : keeps (InteractionService.setActionSync s u v t a k).
Proof.
  unfold InteractionService.setActionSync.
  keeps_solve; auto using recordActionHotScore_keeps, notifyLike_keeps.
Qed.

Lemma setAction_keeps u v t a k : keeps (InteractionService.setAction s u v t a k).
Proof.
  unfold InteractionService.setAction, InteractionService.setActionAsync,
    InteractionService.NewActionChangedEvent.
  destruct (InteractionService.actionStateStore s) as [st|] eqn:HS,
    (InteractionService.actionPublisher s) as [P|] eqn:HP; keeps_solve;
    auto using setActionSync_keeps, recordActionHotScore_keeps, notifyLike_keeps, GetVideoStat_keeps.
  - by apply (ip_store st HS).
  - by apply (ip_publisher P HP).
Qed.

Lemma CreateComment_keeps u v c k : keeps (InteractionService.CreateComment s u v c k).
Proof.
  unfold InteractionService.CreateComment, InteractionService.create_new_comment,
    InteractionRepo.FindCommentByUserAndIdempotencyKey, InteractionRepo.commentCount.
  keeps_solve; auto using recordHotScore_keeps, syncCommentCount_keeps, notifyComment_keeps.
Qed.

Lemma DeleteComment_keeps id u role : keeps (InteractionService.DeleteComment s id u role).
Proof.
  unfold InteractionService.DeleteComment.
  keeps_solve; auto using recordHotScore_keeps, syncCommentCount_keeps.
Qed.
End interaction_keeps.

Section relation_keeps.
Context (s : RelationService.RelationService) `{!RelationPorts s}.

Lemma backfill_items_keeps bf u t items : RelationService.backfiller s = Some bf ->
  keeps (RelationService.backfill_items bf u t items).
Proof.
  intros Hbf. induction items as [|[i|] items IH]; simpl; [apply keeps_ret| |done].
  apply keeps_bind; [by apply (rp_inbox bf Hbf)|done].
Qed.

Lemma backfillFollowFeed_keeps u t : keeps (RelationService.backfillFollowFeed s u t).
Proof.
  unfold RelationService.backfillFollowFeed. destruct (RelationService.backfiller s) as [bf|] eqn:Hbf;
    keeps_solve.
  - by apply (rp_count bf Hbf).
  - by apply (rp_videos bf Hbf).
  - by apply backfill_items_keeps.
Qed.

Lemma notifyFollow_keeps u t : keeps (RelationService.notifyFollow s u t).
Proof.
  unfold RelationService.notifyFollow, RelationRepo.GetUserProfile.
  destruct (RelationService.rel_messageWriter s) as [W|] eqn:HW; [|apply keeps_ret].
  apply rp_writer in HW. destruct (CreateFromActorEvent W) as [f|] eqn:Hf; keeps_solve.
  - by apply (writer_actor (W := W) f Hf).
  - apply writer_event.
Qed.

Lemma setFollow_keeps u t a k : keeps (RelationService.setFollow s u t a k).
Proof.
  unfold RelationService.setFollow.
  keeps_solve; auto using backfillFollowFeed_keeps, notifyFollow_keeps.
Qed.
End relation_keeps.

Lemma list_relation_keeps f u c l :
  (forall u c l, keeps (f u c l)) -> keeps (RelationService.list_relation f u c l).
Proof. intros Hf. unfold RelationService.list_relation. keeps_solve. Qed.

Lemma ListFollowing_keeps u c l : keeps (RelationRepo.ListFollowing u c l).
Proof. unfold RelationRepo.ListFollowing. keeps_solve. Qed.

Lemma ListFollowers_keeps u c l : keeps (RelationRepo.ListFollowers u c l).
Proof. unfold RelationRepo.ListFollowers. keeps_solve. Qed.

Lemma CreatePublished_keeps p a t d m c k :
  publisher_keeps p -> keeps (VideoService.CreatePublished p a t d m c k).
Proof.
  intros Hp. unfold VideoService.CreatePublished, VideoService.create_new_video,
    VideoService.publishCreatedVideo, VideoService.NewPublishedEvent,
    VideoRepo.FindByAuthorAndIdempotencyKey.
  destruct p as [P|] eqn:HP; keeps_solve; by apply (Hp P).
Qed.

Lemma RecordViewEvent_keeps p u v sc rid t ms dn :
  view_publisher_keeps p -> keeps (OtherServices.ExposureService.RecordViewEvent p u v sc rid t ms dn).
Proof.
  intros Hp. unfold OtherServices.ExposureService.RecordViewEvent,
    OtherServices.ExposureService.publishViewEventRecorded,
    OtherServices.ExposureService.NewViewEventRecordedEvent.
  destruct p as [P|] eqn:HP; keeps_solve; by apply (Hp P).
Qed.

Lemma load_user_keeps u : keeps (OtherServices.AccountService.load_user u).
Proof. unfold OtherServices.AccountService.load_user, AccountRepo.FindByID. keeps_solve. Qed.

Lemma endpoint_keeps A (m : M A) : endpoint A m -> keeps m.
Proof.
  destruct 1; auto using setAction_keeps, CreateComment_keeps, DeleteComment_keeps, setFollow_keeps,
    CreateFromActorEvent_keeps, list_relation_keeps, ListFollowing_keeps, ListFollowers_keeps,
    CreatePublished_keeps, RecordViewEvent_keeps.
  all: unfold InteractionService.ListComments, InteractionRepo.ListComments, RelationService.ListFollowing,
    RelationService.ListFollowers, MessageService.List, MessageRepo.ListByUser,
    MessageService.CountUnread, MessageRepo.CountUnread, MessageService.MarkRead, VideoService.Get,
    VideoRepo.FindByID, VideoService.ListByAuthor, VideoRepo.ListByAuthor, VideoService.Delete,
    VideoRepo.FindByIDAnyStatus, OtherServices.PlaybackService.GetConfig,
    OtherServices.PlaybackService.find_config, PlaybackRepo.FindConfig,
    OtherServices.PlaybackService.ListPreloadVideos, PlaybackRepo.ListPreloadVideos,
    PlaybackRepo.findCurrentVideo, OtherServices.PlaybackService.CreateQoSReport,
    OtherServices.AccountService.Register, OtherServices.AccountService.Login,
    AccountRepo.FindByAccount, OtherServices.AccountService.GetProfile,
    OtherServices.AccountService.GetPublicProfile, OtherServices.AccountService.UpdateProfile.
  all: keeps_solve; auto using load_user_keeps, list_relation_keeps, ListFollowing_keeps, ListFollowers_keeps.
Qed.

Lemma HandleVideoPublished_keeps z event :
  keeps (OtherServices.EmbeddingService.HandleVideoPublished z event).
Proof.
  unfold OtherServices.EmbeddingService.HandleVideoPublished,
    OtherServices.EmbeddingService.GenerateForPublishedVideo.
  keeps_solve.
Qed.

(** One request, or a message of the queue that a worker handles. *)
Inductive request : World -> World -> Prop :=
  | request_endpoint w A (m : M A) : endpoint A m -> request w (System.after m w)
  | request_worker w event : request w (System.after (InteractionService.HandleActionChanged event) w)
  | request_embedding w z event :
      request w (System.after (OtherServices.EmbeddingService.HandleVideoPublished z event) w)
  | request_outside w r q e p : request w (mkWorld (db w) (auto_inc w) r q e p (disk w)).

Lemma request_steps w w' : request w w' -> rtc plain_step w w'.
Proof.
  destruct 1 as [w A m Hm|w [event|]|w z event|w r q e p].
  - by apply (endpoint_keeps A m Hm).
  - unfold InteractionService.HandleActionChanged. apply keeps_bind; [apply keeps_SetAction|].
    intros ?. apply keeps_ret.
  - done.
  - apply HandleVideoPublished_keeps.
  - apply rtc_once. constructor.
Qed.

Lemma plain_steps w w' : rtc plain_step w w' -> rtc step w w'.
Proof. apply rtc_subrel. intros x y. apply step_plain. Qed.

Lemma steps_reachable w w' : rtc step w w' -> reachable w -> reachable w'.
Proof. induction 1; eauto using reachable_step. Qed.

End RequestsKeep.

#[export] Hint Resolve setAction_reports CreateComment_reports DeleteComment_reports ListComments_reports
  setFollow_reports list_relation_reports CreateFromActorEvent_reports ListMessages_reports
  CountUnread_reports MarkRead_reports CreatePublished_reports GetVideo_reports ListByAuthor_reports
  DeleteVideo_reports RecordViewEvent_reports GetConfig_reports ListPreloadVideos_reports
  CreateQoSReport_reports Register_reports Login_reports GetProfile_reports GetPublicProfile_reports
  UpdateProfile_reports : reports.
