(* ===== verification/HttpRouter.v ===== *)
(** * The routes of the API ([internal/interfaces/http/router/router.go])

    [route] lists the routes that [Register] declares, with the middleware in front of each
    handler and the service behind it; [serve] runs them on a request. Whatever a request
    does, the database moves by steps of [System] only. *)
From S2P Require Import Prelude.
From S2P Require Import GoStd.
From S2P Require AccountDomain.
From S2P Require Import Errors.
From S2P Require Import Models.
From S2P Require Import Redis.
From S2P Require Import Store.
From S2P Require Import RedisClient.
From S2P Require Import Codec.
From S2P Require Import Ports.
From S2P Require RecommendationRepo.
From S2P Require FeedRepo.
From S2P Require RecommendationService.
From S2P Require Import FeedService.
From S2P Require FeedCache.
From S2P Require MessageBroker.
From S2P Require InteractionService.
From S2P Require RelationService.
From S2P Require VideoService.
From S2P Require OtherServices.
From S2P Require Import Wiring.
From S2P Require Import HttpDto.
From S2P Require Import Tokens.
From S2P Require Import System.
From S2P Require Import Requests.

(** ** A request and the middleware in front of its handler *)

Record HttpRequest := mkHttpRequest {
  hr_Param : string -> string;
  hr_Query : string -> string;
  hr_Header : string -> string;
}.

Inductive guard := Private | OptionalIdentity | Internal.

Definition context_of (rq : HttpRequest) (i : identity) : Gin :=
  mkGin (hr_Param rq) (hr_Query rq) (hr_Header rq) (fst <$> i) (snd <$> i).

(** The handlers in terms of the combinators. *)
Ltac unfold_handlers :=
  unfold AccountHandler.Login, AccountHandler.Logout, AccountHandler.Register, AccountHandler.Me,
    AccountHandler.UpdateMe, AccountHandler.Get, VideoHandler.ListMine, VideoHandler.ListByAuthor,
    VideoHandler.list_of_author, VideoHandler.Create, VideoHandler.Get,
    VideoHandler.Delete, RelationHandler.Follow, RelationHandler.Unfollow, RelationHandler.setFollow,
    RelationHandler.ListFollowing, RelationHandler.ListFollowers, InteractionHandler.Like,
    InteractionHandler.Unlike, InteractionHandler.Favorite, InteractionHandler.Unfavorite,
    InteractionHandler.setLike, InteractionHandler.setFavorite, InteractionHandler.CreateComment,
    InteractionHandler.ListComments, InteractionHandler.DeleteComment, FeedHandler.ListFeedItems,
    FeedHandler.Query, ExposureHandler.CreateViewEvent, MessageHandler.List, MessageHandler.MarkRead,
    MessageHandler.CountUnread, MessageHandler.Create, PlaybackHandler.GetConfig,
    PlaybackHandler.ListPreloadVideos, PlaybackHandler.CreateQoSReport, PlaybackHandler.createQoSReport,
    PlaybackHandler.CreateInternalQoSReport, PlaybackHandler.createQoSReportWithRequest,
    RecommendationHandler.ListCandidates, RecommendationHandler.DecideExposures,
    RecommendationHandler.SaveExposures, VideoHandler.with_id.

Section HttpRouter.
Context `{Collation, !CollationLaws} `{Codec} `{AccountDomain.Bcrypt} `{RecommendationService.MathLib}
  `{JWTLib}.
Variables (manager : Manager) (internalToken : string) (sv : Services).

Definition middleware (rq : HttpRequest) (g : guard) : M (Answer + identity) :=
  match g with
  | Private => NewJWTAuth manager (hr_Header rq "Authorization")
  | OptionalIdentity => NewOptionalJWTAuth manager (hr_Header rq "Authorization")
  | Internal => NewInternalTokenAuth internalToken (hr_Header rq "X-Internal-Token")
  end.

(** One middleware after the other; what a later one puts in the context replaces what was
    there. *)
Fixpoint serve_from (rq : HttpRequest) (i : identity) (guards : list guard) (handler : Gin -> M Answer)
    : M Answer :=
  match guards with
  | [] => handler (context_of rq i)
  | g :: guards =>
      r ← middleware rq g;
      match r with
      | inl answer => mret answer
      | inr found => serve_from rq (match found with Some _ => found | None => i end) guards handler
      end
  end.

Definition serve (rq : HttpRequest) (guards : list guard) (handler : Gin -> M Answer) : M Answer :=
  serve_from rq None guards handler.

(** [HealthCheck] *)
Definition HealthCheck : M Answer := mret (mkAnswer 200 (AAbort "All is well")).

(** ** The routes *)

(** The routes of [router.go], all but [/metrics], the static files and [POST /api/uploads],
    whose handler is not modelled (it answers a failed conversion with 500 and what ffmpeg
    wrote). The body of the request and what bcrypt draws are arguments of the constructors. *)
Inductive route : list guard -> service -> (Gin -> M Answer) -> Prop :=
  | rt_login body : route [] SAccount (fun _ => AccountHandler.Login (token_signer manager) body)
  | rt_logout : route [Private] SAccount (fun _ => AccountHandler.Logout)
  | rt_register salt body : route [] SAccount (fun _ => AccountHandler.Register salt body)
  | rt_me : route [Private] SAccount AccountHandler.Me
  | rt_updateMe body : route [Private] SAccount (fun c => AccountHandler.UpdateMe c body)
  | rt_myVideos : route [Private] SVideo VideoHandler.ListMine
  | rt_follow : route [Private] SRelation (RelationHandler.Follow (sv_relation sv))
  | rt_unfollow : route [Private] SRelation (RelationHandler.Unfollow (sv_relation sv))
  | rt_following : route [Private] SRelation RelationHandler.ListFollowing
  | rt_followers : route [Private] SRelation RelationHandler.ListFollowers
  | rt_user : route [] SAccount AccountHandler.Get
  | rt_userVideos : route [] SVideo VideoHandler.ListByAuthor
  | rt_createVideo body : route [Private] SVideo (fun c => VideoHandler.Create (sv_video sv) c body)
  | rt_video : route [] SVideo VideoHandler.Get
  | rt_deleteVideo : route [Private] SVideo VideoHandler.Delete
  | rt_like : route [Private] SInteraction (InteractionHandler.Like (sv_interaction sv))
  | rt_unlike : route [Private] SInteraction (InteractionHandler.Unlike (sv_interaction sv))
  | rt_favorite : route [Private] SInteraction (InteractionHandler.Favorite (sv_interaction sv))
  | rt_unfavorite : route [Private] SInteraction (InteractionHandler.Unfavorite (sv_interaction sv))
  | rt_createComment body :
      route [Private] SInteraction (fun c => InteractionHandler.CreateComment (sv_interaction sv) c body)
  | rt_comments : route [] SInteraction InteractionHandler.ListComments
  | rt_feed : route [OptionalIdentity] SFeed (FeedHandler.ListFeedItems (sv_feed sv))
  | rt_feedQuery body : route [OptionalIdentity] SFeed (fun c => FeedHandler.Query (sv_feed sv) c body)
  | rt_viewEvent body :
      route [Private] SExposure (fun c => ExposureHandler.CreateViewEvent (sv_exposure sv) c body)
  | rt_deleteComment : route [Private] SInteraction (InteractionHandler.DeleteComment (sv_interaction sv))
  | rt_messages : route [Private] SMessage MessageHandler.List
  | rt_markRead body : route [Private] SMessage (fun c => MessageHandler.MarkRead c body)
  | rt_unread : route [Private] SMessage MessageHandler.CountUnread
  | rt_config : route [Private] SPlayback PlaybackHandler.GetConfig
  | rt_preload : route [Private] SPlayback PlaybackHandler.ListPreloadVideos
  | rt_qos body : route [Private] SPlayback (fun c => PlaybackHandler.CreateQoSReport c body)
  | rt_candidates body : route [Internal] SRecommendation (fun _ => RecommendationHandler.ListCandidates body)
  | rt_decisions body : route [Internal] SRecommendation (fun _ => RecommendationHandler.DecideExposures body)
  | rt_exposures body : route [Internal] SRecommendation (fun _ => RecommendationHandler.SaveExposures body)
  | rt_createMessage body : route [Internal; Internal] SMessage (fun c => MessageHandler.Create c body)
  | rt_internalQoS body :
      route [Internal; Internal] SPlayback (fun c => PlaybackHandler.CreateInternalQoSReport c body).

(** ** The feed and the recommendations only read the database *)

Ltac reads := repeat (cbv zeta; keeps_step_); eauto.

Lemma recommend_keeps input : keeps (RecommendationService.Recommend input).
Proof.
  unfold RecommendationService.Recommend, RecommendationService.rankCandidates,
    RecommendationService.service_now, RecommendationRepo.ListCandidatePool,
    RecommendationRepo.LoadVideoVectors, RecommendationRepo.LoadUserInterestVector. reads.
Qed.

Lemma decide_keeps u scene rid ids : keeps (RecommendationService.DecideExposures u scene rid ids).
Proof.
  unfold RecommendationService.DecideExposures, RecommendationService.service_now,
    ExposureRepo.ListRecentExposures. reads.
Qed.

Lemma save_exposures_keeps inputs : keeps (RecommendationService.SaveExposures inputs).
Proof. unfold RecommendationService.SaveExposures. reads. Qed.

(** The parts a feed service is made of. *)
Class RepositoryKeeps (r : FeedRepository) : Prop := {
  rk_timeline : forall c n, keeps (rp_ListTimelinePage r c n);
  rk_hot : forall c n, keeps (rp_ListHotPage r c n);
  rk_following : forall u c n, keeps (rp_ListFollowingPage r u c n);
  rk_pull : forall u, keeps (rp_ListFollowingPullAuthorIDs r u);
  rk_cards : forall l, keeps (rp_BatchGetFeedCards r l);
  rk_stats : forall l, keeps (rp_BatchGetFeedStats r l);
  rk_actions : forall u l, keeps (rp_BatchGetViewerActionStates r u l);
  rk_published : if_some (fun f => forall l, keeps (f l)) (rp_PublishedVideoIDs r);
}.

Class CacheKeeps (c : FeedCache) : Prop := {
  ck_page : forall k, keeps (ca_GetPage c k);
  ck_setPage : forall k p t, keeps (ca_SetPage c k p t);
  ck_cards : forall l, keeps (ca_GetCards c l);
  ck_setCards : forall m t, keeps (ca_SetCards c m t);
  ck_stats : forall l, keeps (ca_GetStats c l);
  ck_setStats : forall m t, keeps (ca_SetStats c m t);
  ck_window : forall t o n, keeps (ca_ListHotWindowPage c t o n);
  ck_index : if_some (fun f => forall u l c n, keeps (f u l c n)) (ca_FollowingIndex c);
}.

Definition group_keeps (g : Group) : Prop := forall key m, keeps m -> keeps (g key m).

#[export] Instance sql_feed_keeps : RepositoryKeeps sql_feed.
Proof.
  split; simpl; intros; try (intros f [= <-] l);
    unfold FeedRepo.ListTimelinePage, FeedRepo.ListHotPage, FeedRepo.ListFollowingPage,
      FeedRepo.ListFollowingPullAuthorIDs, FeedRepo.BatchGetFeedCards, FeedRepo.BatchGetFeedStats,
      FeedRepo.BatchGetViewerActionStates, FeedRepo.PublishedVideoIDs; reads.
Qed.

Lemma action_stat_keeps base keys json video init :
  keeps (FeedCache.actionStatWithPresence base keys json video init).
Proof.
  unfold FeedCache.actionStatWithPresence, FeedCache.actionStatFallback,
    FeedCache.applyActionStatShardDeltas, FeedCache.loadActionStatShardValues. reads.
Qed.

#[export] Instance feed_cache_keeps : CacheKeeps FeedCache.feed_cache.
Proof.
  assert (forall l stats, keeps (FeedCache.fill_stats l stats)) as Hf.
  { induction l as [|v l IH]; intros stats; simpl; [reads|].
    unfold FeedCache.actionStatFromCache, FeedCache.setActionStatJSON. reads. apply action_stat_keeps. }
  split; simpl; intros; try (intros f [= <-] ? ? ? ?);
    unfold FeedCache.GetPage, FeedCache.SetPage, FeedCache.GetCards, FeedCache.SetCards, FeedCache.GetStats,
      FeedCache.SetStats, FeedCache.ListHotWindowPage, FeedCache.rebuildHotWindow,
      FeedCache.listHotWindowPage, FeedCache.ListFollowingIndexPage, FeedCache.mget; reads.
Qed.

Section feed_keeps.
Context (r : FeedRepository) `{!RepositoryKeeps r} (cache : option FeedCache).
Hypothesis cache_keeps : if_some CacheKeeps cache.

Lemma from_cache_keeps {A} (get : FeedCache -> M (gmap Z A)) :
  (forall c, CacheKeeps c -> keeps (get c)) -> keeps (from_cache cache get).
Proof. intros Hg. unfold from_cache. destruct cache as [c|]; reads. Qed.

Lemma to_cache_keeps (set : FeedCache -> M unit) :
  (forall c, CacheKeeps c -> keeps (set c)) -> keeps (to_cache cache set).
Proof. intros Hs. unfold to_cache. destruct cache as [c|]; reads. Qed.

Lemma finish_keeps scene viewer page : keeps (finish scene r cache viewer page).
Proof.
  unfold finish, load_failed, assembleFeedItems, load_cards, load_stats.
  reads; try apply to_cache_keeps; try apply from_cache_keeps; intros.
  all: eauto using rk_cards, rk_stats, rk_actions, ck_cards, ck_stats, ck_setCards, ck_setStats.
Qed.

Lemma loadFeedPage_keeps scene cursor limit t1 t2 group load :
  if_some group_keeps group -> keeps load -> keeps (loadFeedPage cache scene cursor limit t1 t2 group load).
Proof.
  intros Hg Hl. unfold loadFeedPage. destruct cache as [c|]; [|done]. destruct group as [g|]; [|done].
  specialize (cache_keeps c eq_refl). specialize (Hg g eq_refl).
  assert (forall key m, keeps m -> keeps (cached_page c key m)) as Hc.
  { intros key m Hm. unfold cached_page. reads. apply ck_page. }
  apply Hc, Hg, Hc. reads. apply ck_setPage.
Qed.
End feed_keeps.

(** A strategy whose parts keep the database. *)
Definition strategy_keeps (s : Strategy) : Prop :=
  match s with
  | Timeline s => RepositoryKeeps (ts_repo s) /\ if_some CacheKeeps (ts_cache s) /\ if_some group_keeps (ts_group s)
  | Hot s => RepositoryKeeps (hs_repo s) /\ if_some CacheKeeps (hs_cache s)
  | Following s => RepositoryKeeps (ws_repo s) /\ if_some CacheKeeps (ws_cache s) /\
      if_some (fun f => forall u l c n, keeps (f u l c n)) (ws_followingIndex s)
  | RecommendBy s => RepositoryKeeps (es_repo s) /\ if_some CacheKeeps (es_cache s) /\
      forall i, keeps (es_recommender s i)
  | Other _ l => forall rq, keeps (l rq)
  end.

Definition feed_service_keeps (s : Service) : Prop :=
  RepositoryKeeps (FeedService.sv_repo s) /\
  forall scene st, sv_strategies s !! scene = Some st -> strategy_keeps st.

Lemma strategy_list_keeps st rq : strategy_keeps st -> keeps (Strategy_List st rq).
Proof.
  destruct st as [s|s|s|s|scene l]; simpl.
  - intros (Hr & Hc & Hg). unfold TimelineStrategy_List, TimelineStrategy_listPageFromRepo, load_failed.
    reads; [apply loadFeedPage_keeps; [done..|]; reads; apply rk_timeline|by apply finish_keeps].
  - intros (Hr & Hc). unfold HotStrategy_List, HotStrategy_listPageFromRepo, listPageFromHotWindow, load_failed.
    destruct (hs_cache s) as [c|]; [specialize (Hc c eq_refl)|]; reads; try apply rk_hot; try apply ck_window.
    all: apply finish_keeps; [done|]. all: by intros ? [= <-].
  - intros (Hr & Hc & Hi). unfold FollowingStrategy_List, FollowingStrategy_listPageFromRepo,
      listFollowingItems, load_failed.
    destruct (ws_followingIndex s) as [f|]; [specialize (Hi f eq_refl)|]; reads;
      eauto using rk_pull, rk_following, finish_keeps.
  - intros (Hr & Hc & Hm). unfold RecommendStrategy_List. reads. by apply finish_keeps.
  - done.
Qed.

Lemma GetFeed_keeps s rq : feed_service_keeps s -> keeps (GetFeed s rq).
Proof.
  intros [Hr Hs]. unfold GetFeed, recheck. cbv zeta. destruct (sv_strategies s !! _) as [st|] eqn:Hst; [|reads].
  apply keeps_bind; [by eapply strategy_list_keeps, Hs|]. intros result.
  pose proof rk_published as Hp. destruct (rp_PublishedVideoIDs _) as [f|]; [specialize (Hp f eq_refl)|]; reads.
Qed.

(** The services that [Wiring] puts together. *)
Lemma RegisterStrategy_keeps s st :
  feed_service_keeps s -> if_some strategy_keeps st -> feed_service_keeps (RegisterStrategy s st).
Proof.
  intros [Hr Hs] Hst. destruct st as [st|]; [|done]. split; [done|]. simpl. intros scene st' H'.
  apply lookup_insert_Some in H' as [[_ <-]|[_ H']]; eauto.
Qed.

Lemma use_cache_keeps c st : CacheKeeps c -> strategy_keeps st -> strategy_keeps (use_cache c st).
Proof.
  intros Hc. destruct st as [s|s|s|s|scene l]; simpl.
  - intros (Hr & _ & Hg). split_and!; [done| |done]. by intros ? [= <-].
  - intros (Hr & _). split; [done|]. by intros ? [= <-].
  - intros (Hr & _ & Hi). split_and!; [done|by intros ? [= <-]|].
    pose proof ck_index as Hx. by destruct (ca_FollowingIndex c).
  - intros (Hr & _ & Hm). split_and!; [done| |done]. by intros ? [= <-].
  - done.
Qed.

Lemma New_keeps group options : group_keeps group ->
  (forall o s, o ∈ options -> feed_service_keeps s -> feed_service_keeps (o s)) ->
  feed_service_keeps (New group sql_feed options).
Proof.
  intros Hg Ho. unfold New. cbv zeta.
  assert (feed_service_keeps (RegisterStrategy (RegisterStrategy (RegisterStrategy
    (mkService sql_feed ∅ FeedDomain.DefaultScene)
    (Some (Timeline (NewTimelineStrategy group FeedDomain.SceneTimeline sql_feed))))
    (Some (Hot (NewHotStrategy sql_feed)))) (Some (Following (NewFollowingStrategy sql_feed))))) as Hbase.
  { assert (feed_service_keeps (mkService sql_feed ∅ FeedDomain.DefaultScene)) as H0s.
    { split; [apply _|]. intros scene st. simpl. by rewrite lookup_empty. }
    assert (forall A (P : A -> Prop), if_some P None) as Hnone by (intros A P ? [=]).
    repeat apply RegisterStrategy_keeps; [done|..]; intros ? [= <-]; cbn; split_and!;
      first [exact sql_feed_keeps|exact (Hnone _ _)|by intros ? [= <-]]. }
  revert Hbase. generalize (RegisterStrategy (RegisterStrategy (RegisterStrategy
    (mkService sql_feed ∅ FeedDomain.DefaultScene)
    (Some (Timeline (NewTimelineStrategy group FeedDomain.SceneTimeline sql_feed))))
    (Some (Hot (NewHotStrategy sql_feed)))) (Some (Following (NewFollowingStrategy sql_feed)))).
  induction options as [|o options IH]; intros s Hs; [done|]. simpl. apply IH.
  - intros o' s' Ho'. apply Ho. by right.
  - apply Ho; [by left|done].
Qed.

Lemma with_recommender_keeps s : feed_service_keeps s ->
  feed_service_keeps (WithRecommender (Some RecommendationService.Recommend) s).
Proof.
  intros Hs. apply RegisterStrategy_keeps; [done|]. intros ? [= <-]. simpl. destruct Hs as [Hr _].
  split_and!; [done|by intros ? [=]|apply recommend_keeps].
Qed.

Lemma with_cache_keeps s : feed_service_keeps s -> feed_service_keeps (WithFeedCache FeedCache.feed_cache s).
Proof.
  intros [Hr Hs]. split; [done|]. simpl. intros scene st. rewrite lookup_fmap.
  intros (st' & Hst & ->)%fmap_Some. eapply use_cache_keeps, Hs; [apply _|done].
Qed.

(** What the services need of their parts. *)
Class ServicesKeep (sv : Services) : Prop := {
  sk_feed : feed_service_keeps (sv_feed sv);
  sk_interaction :: InteractionPorts (sv_interaction sv);
  sk_relation :: RelationPorts (sv_relation sv);
  sk_video : publisher_keeps (sv_video sv);
  sk_exposure : view_publisher_keeps (sv_exposure sv);
}.

Lemma broker_keeps times ev : keeps (MessageBroker.marshalled times (MessageBroker.broker_publish ev)).
Proof.
  unfold MessageBroker.marshalled, MessageBroker.broker_publish. reads.
Qed.

Lemma AddInboxItems_keeps a us i n : keeps (FeedCache.AddInboxItems a us i n).
Proof. unfold FeedCache.AddInboxItems. reads. Qed.

Lemma backfiller_keeps : RelationPorts (RelationService.mkRelationService (Some NewFollowFeedBackfiller) (Some NewMessageWriter)).
Proof.
  split; simpl; intros ? [= <-]; simpl; intros; try apply _.
  - unfold FeedRepo.CountFollowers. reads.
  - unfold FeedRepo.ListAuthorRecentVideos. reads.
  - exact (AddInboxItems_keeps a us (Some i) n).
Qed.

Lemma cache_ports_keep store publisher :
  InteractionPorts (InteractionService.mkInteractionService (Some FeedCache.hot_score_recorder)
    (Some FeedCache.stat_cache) (if store : bool then Some FeedCache.action_state_store else None)
    (if publisher : bool then Some MessageBroker.action_publisher else None) (Some NewMessageWriter)).
Proof.
  split; simpl.
  - intros ? [= <-] v d t. simpl. unfold FeedCache.AddHotScore. reads.
  - intros ? [= <-] st. simpl. unfold FeedCache.setActionStatJSON. reads.
  - intros S HS u v t a k st. destruct store; [|done]. injection HS as <-. simpl.
    unfold FeedCache.SetActionState, FeedCache.actionStat, FeedCache.setActionStatJSON. reads.
    apply action_stat_keeps.
  - intros S HS e. destruct publisher; [|done]. injection HS as <-. apply broker_keeps.
  - intros ? [= <-]. apply _.
Qed.

Lemma publisher_parts_keep :
  publisher_keeps (Some MessageBroker.published_publisher) /\
  view_publisher_keeps (Some MessageBroker.view_event_publisher).
Proof. split; intros ? [= <-] e; apply broker_keeps. Qed.

Lemma initCore_keeps group : group_keeps group -> ServicesKeep (initCore group).
Proof.
  intros Hg. split; simpl.
  - apply New_keeps; [done|]. intros o s Ho. repeat apply elem_of_cons in Ho as [->|Ho];
      [apply with_recommender_keeps|apply with_cache_keeps|by apply not_elem_of_nil in Ho].
  - exact (cache_ports_keep true true).
  - apply backfiller_keeps.
  - apply publisher_parts_keep.
  - by intros ? [=].
Qed.

Lemma register_services_keeps group redis rabbit :
  group_keeps group -> ServicesKeep (register_services group redis rabbit).
Proof.
  assert (forall A (P : A -> Prop), if_some P None) as Hnone by (intros A P ? [=]).
  intros Hg. split; simpl.
  - apply New_keeps; [done|]. intros o s Ho. apply elem_of_cons in Ho as [->|Ho];
      [apply with_recommender_keeps|]. destruct redis; [|by apply not_elem_of_nil in Ho].
    apply list_elem_of_singleton in Ho as ->. apply with_cache_keeps.
  - destruct redis; simpl; [apply cache_ports_keep|]. split; simpl; try exact (Hnone _ _).
    intros ? [= <-]. apply _.
  - destruct redis; simpl; [apply backfiller_keeps|]. split; simpl; try exact (Hnone _ _).
    intros ? [= <-]. apply _.
  - destruct rabbit; [apply publisher_parts_keep|exact (Hnone _ _)].
  - destruct rabbit; [apply publisher_parts_keep|exact (Hnone _ _)].
Qed.

(** ** Every route keeps the database reachable *)

Lemma respond_keeps {A} write (m : M A) ok : keeps m -> keeps (respond write m ok).
Proof. intros Hm. unfold respond. reads. Qed.

Lemma with_user_keeps user h : (forall u, keeps (h u)) -> keeps (with_user user h).
Proof. intros Hh. unfold with_user. destruct user as [u [|]]; simpl; [done|apply keeps_ret]. Qed.

Lemma with_body_keeps {A} (body : option A) h : (forall a, keeps (h a)) -> keeps (with_body body h).
Proof. intros Hh. destruct body; simpl; [done|apply keeps_ret]. Qed.

Lemma with_value_keeps {A} write (r : error + A) h : (forall a, keeps (h a)) -> keeps (with_value write r h).
Proof. intros Hh. destruct r; simpl; [apply keeps_ret|done]. Qed.

Lemma signer_manager_keeps : signer_keeps (token_signer manager).
Proof.
  intros id role. simpl. unfold SignAccessToken, signToken, randomID. reads.
Qed.

Ltac route_step :=
  lazymatch goal with
  | |- keeps (respond _ _ _) => apply respond_keeps
  | |- keeps (with_user _ _) => apply with_user_keeps; intros ?
  | |- keeps (with_body _ _) => apply with_body_keeps; intros ?
  | |- keeps (with_value _ _ _) => apply with_value_keeps; intros ?
  | |- keeps (let '(_, _) := ?x in _) => destruct x
  end.

Context `{!ServicesKeep sv}.

Lemma route_keeps guards s h c : route guards s h -> keeps (h c).
Proof.
  destruct 1; unfold_handlers; repeat route_step.
  all: try apply keeps_ret; try apply recommend_keeps; try apply decide_keeps; try apply save_exposures_keeps;
    try (apply GetFeed_keeps, sk_feed).
  all: eapply endpoint_keeps; try constructor; try apply _; eauto using signer_manager_keeps, sk_video, sk_exposure.
Qed.

Lemma middleware_keeps rq g : keeps (middleware rq g).
Proof.
  destruct g; simpl; unfold NewJWTAuth, NewOptionalJWTAuth, NewInternalTokenAuth, abort, ParseAndValidateToken;
    reads.
Qed.

Lemma serve_keeps rq guards s h : route guards s h -> keeps (serve rq guards h).
Proof.
  intros Hr. assert (forall c, keeps (h c)) as Hh by (intros c; by eapply route_keeps).
  assert (forall gs i, keeps (serve_from rq i gs h)) as Hs.
  { induction gs as [|g gs IH]; intros i; simpl; [done|].
    apply keeps_bind; [apply middleware_keeps|]. intros [a|found]; [apply keeps_ret|apply IH]. }
  apply Hs.
Qed.

End HttpRouter.
