(* ===== verification/HttpAnswers.v ===== *)
(** * What the answers of the API say

    An error answer of a route is 500 with a fixed text, and then an operation of the service
    behind the route failed for a reason of its own; or a 4xx with a fixed text or the text of
    a sentinel of the service's domain. *)
From S2P Require Import Prelude.
From S2P Require Import GoStd.
From S2P Require Import GoConv.
From S2P Require InteractionDomain.
From S2P Require RelationDomain.
From S2P Require VideoDomain.
From S2P Require MessageDomain.
From S2P Require ExposureDomain.
From S2P Require PlaybackDomain.
From S2P Require AccountDomain.
From S2P Require FeedDomain.
From S2P Require RecommendationDomain.
From S2P Require Import Errors.
From S2P Require Import Models.
From S2P Require Import Redis.
From S2P Require Import Store.
From S2P Require Import Codec.
From S2P Require Import Ports.
From S2P Require RecommendationRepo.
From S2P Require RecommendationService.
From S2P Require Import FeedService.
From S2P Require InteractionService.
From S2P Require RelationService.
From S2P Require MessageService.
From S2P Require VideoService.
From S2P Require OtherServices.
From S2P Require Import Wiring.
From S2P Require Import HttpDto.
From S2P Require Import Tokens.
From S2P Require Import System.
From S2P Require Import Requests.
From S2P Require Import HttpRouter.

Create HintDb answered.
Create HintDb account.

Section HttpAnswers.
Context `{Collation, !CollationLaws} `{Codec} `{AccountDomain.Bcrypt} `{RecommendationService.MathLib}
  `{JWTLib}.
Variables (manager : Manager) (internalToken : string) (sv : Services).

(** An operation that a route calls. *)
Inductive operation : forall A, M A -> Prop :=
  | op_endpoint A (m : M A) : endpoint A m -> operation A m
  | op_recommend input : operation _ (RecommendationService.Recommend input)
  | op_decide u scene rid ids : operation _ (RecommendationService.DecideExposures u scene rid ids)
  | op_save inputs : operation _ (RecommendationService.SaveExposures inputs)
  | op_feed rq : operation _ (GetFeed (sv_feed sv) rq).

(** A failure inside the service. The feed takes every error that is not its own for one, the
    accounts a password that bcrypt refuses. *)
Definition internal (s : service) (e : error) : bool :=
  match s, e with
  | SFeed, EFeed _ => false
  | SFeed, _ => true
  | SAccount, EAccount AccountDomain.ErrHashPasswordFailed => true
  | _, EApp _ => true
  | _, _ => false
  end.

Definition failed_with (e : error) (w' : World) : Prop :=
  exists A (m : M A) w, operation A m /\ m w = (inl e, w').

(** The texts that the handlers themselves answer. *)
Definition fixed_texts : list string :=
  ["invalid access token"; "invalid request"; "invalid video id"; "invalid user id"; "user not found";
   "account already exists"; "invalid credentials"; "video not found"; "resource not found";
   "comment permission denied"; "target user not found"; "video permission denied"]%string.

Definition client_answer (s : service) (a : Answer) : Prop :=
  an_Status a ∈ [400; 401; 403; 404; 409] /\
  exists text, an_Body a = AError text /\
    (text ∈ fixed_texts \/ exists e, reports s e = true /\ internal s e = false /\ text = error_text e).

Definition well_answered (s : service) (a : Answer) (w' : World) : Prop :=
  match an_Body a with
  | AError _ =>
      client_answer s a \/ a = internal_error /\ exists e, internal s e = true /\ failed_with e w'
  | AAbort _ => an_Status a = 401
  | _ => an_Status a ∈ [200; 201; 204]
  end.

(** ** What the operations report, in more detail *)

Definition login_reports (e : error) : bool :=
  match e with
  | EApp _ | EAccount AccountDomain.ErrEmptyAccount | EAccount AccountDomain.ErrEmptyPassword
  | EAccount AccountDomain.ErrInvalidCredentials => true
  | _ => false
  end.

Definition register_reports (e : error) : bool :=
  match e with
  | EApp _ | EAccount AccountDomain.ErrEmptyAccount | EAccount AccountDomain.ErrEmptyPassword
  | EAccount AccountDomain.ErrEmptyNickname | EAccount AccountDomain.ErrAccountAlreadyExists
  | EAccount AccountDomain.ErrHashPasswordFailed => true
  | _ => false
  end.

Definition profile_reports (e : error) : bool :=
  match e with
  | EApp _ | EAccount AccountDomain.ErrInvalidUserID | EAccount AccountDomain.ErrEmptyProfileUpdate
  | EAccount AccountDomain.ErrEmptyNickname | EAccount AccountDomain.ErrUserNotFound => true
  | _ => false
  end.

Lemma NewUser_register salt a p n err : AccountDomain.NewUser salt a p n = inl err -> register_reports (EAccount err) = true.
Proof. unfold AccountDomain.NewUser. intros Hn. repeat case_match; by simplify_eq/=. Qed.

Lemma Authenticate_login u p err : AccountDomain.Authenticate u p = inl err -> login_reports (EAccount err) = true.
Proof. unfold AccountDomain.Authenticate. intros Hn. repeat case_match; by simplify_eq/=. Qed.

Lemma UpdateProfile_profile u n a b err :
  AccountDomain.UpdateProfile u n a b = inl err -> profile_reports (EAccount err) = true.
Proof. unfold AccountDomain.UpdateProfile. intros Hn. repeat case_match; by simplify_eq/=. Qed.

#[local] Hint Resolve NewUser_register Authenticate_login UpdateProfile_profile : reported.

Lemma Login_raises s a p : raises login_reports (OtherServices.AccountService.Login s a p).
Proof. unfold OtherServices.AccountService.Login. raises_solve. Qed.

Lemma Register_raises salt a p n : raises register_reports (OtherServices.AccountService.Register salt a p n).
Proof. unfold OtherServices.AccountService.Register. raises_solve. Qed.

Lemma load_user_raises u : raises profile_reports (OtherServices.AccountService.load_user u).
Proof. unfold OtherServices.AccountService.load_user. raises_solve. Qed.

Lemma GetProfile_raises u : raises profile_reports (OtherServices.AccountService.GetProfile u).
Proof. unfold OtherServices.AccountService.GetProfile. raises_solve. apply load_user_raises. Qed.

Lemma GetPublicProfile_raises u : raises profile_reports (OtherServices.AccountService.GetPublicProfile u).
Proof. unfold OtherServices.AccountService.GetPublicProfile. raises_solve. apply load_user_raises. Qed.

Lemma UpdateProfile_raises u n a b : raises profile_reports (OtherServices.AccountService.UpdateProfile u n a b).
Proof. unfold OtherServices.AccountService.UpdateProfile. raises_solve. apply load_user_raises. Qed.

Lemma Recommend_reports input : raises (reports SRecommendation) (RecommendationService.Recommend input).
Proof. unfold RecommendationService.Recommend. raises_solve. Qed.

Lemma DecideExposures_reports u scene rid ids :
  raises (reports SRecommendation) (RecommendationService.DecideExposures u scene rid ids).
Proof. unfold RecommendationService.DecideExposures, RecommendationService.service_now. raises_solve. Qed.

Lemma SaveExposures_reports inputs : raises (reports SRecommendation) (RecommendationService.SaveExposures inputs).
Proof.
  unfold RecommendationService.SaveExposures. repeat case_match; try (by apply raises_throw); try apply raises_ret.
  apply raises_map_error. intros err. destruct (errors_Is err _) eqn:He; [|done]. by apply errors_Is_true in He as ->.
Qed.

Lemma raises_any {A} (m : M A) : raises (fun _ => true) m.
Proof. intros w. unfold wp. by destruct (m w) as [[e|a] w']. Qed.

(** ** The combinators of the handlers *)

Definition answers (s : service) (m : M Answer) : Prop :=
  forall w, wp m (fun a w' => well_answered s a w') (fun _ _ => False) w.

Definition success (a : Answer) : Prop :=
  an_Status a ∈ [200; 201; 204] /\ match an_Body a with AError _ | AAbort _ => False | _ => True end.

(** An answer to an error: the client's, or the text of a failure inside. *)
Definition answered (s : service) (e : error) (a : Answer) : Prop :=
  client_answer s a \/ a = internal_error /\ internal s e = true.

Lemma success_well s a w : success a -> well_answered s a w.
Proof. intros [Hs Hb]. unfold well_answered. by destruct (an_Body a). Qed.

Lemma client_well s a w : client_answer s a -> well_answered s a w.
Proof. intros Hc. unfold well_answered. pose proof Hc as (_ & text & -> & _). by left. Qed.

Lemma answers_now s a : client_answer s a -> answers s (mret a).
Proof. intros Hc w. apply wp_ret, client_well, Hc. Qed.

Lemma answers_respond {A} s P write (m : M A) ok :
  operation A m -> raises P m -> (forall e, P e = true -> answered s e (write e)) ->
  (forall a, success (ok a)) -> answers s (respond write m ok).
Proof.
  intros Ho Hm Hw Hok w. unfold respond. apply wp_bind, wp_attempt.
  assert (wp m (fun a w' => success (ok a)) (fun e w' => P e = true /\ failed_with e w') w) as Hr.
  { specialize (Hm w). unfold wp in *. destruct (m w) as [[e|a] w'] eqn:Hmw; [|apply Hok].
    split; [done|]. by exists A, m, w. }
  eapply wp_mono; [exact Hr|..].
  - intros a w' Ha. apply wp_ret, success_well, Ha.
  - intros e w' [He Hf]. apply wp_ret. destruct (Hw e He) as [Hc|[-> Hi]]; [by apply client_well|].
    right. split; [done|]. by exists e.
Qed.

Lemma answers_user s user h : (forall u, answers s (h u)) -> answers s (with_user user h).
Proof.
  intros Hh. unfold with_user. destruct user as [u [|]]; simpl; [apply Hh|]. apply answers_now.
  split; [set_solver|]. eexists. split; [done|]. left. unfold fixed_texts. set_solver.
Qed.

Lemma answers_body {A} s (body : option A) h : (forall a, answers s (h a)) -> answers s (with_body body h).
Proof.
  intros Hh. destruct body; simpl; [apply Hh|]. apply answers_now.
  split; [set_solver|]. eexists. split; [done|]. left. unfold fixed_texts. set_solver.
Qed.

Lemma answers_value {A} s write (r : error + A) h :
  (forall e, r = inl e -> client_answer s (write e)) -> (forall a, answers s (h a)) ->
  answers s (with_value write r h).
Proof. intros Hw Hh. destruct r as [e|a]; simpl; [by apply answers_now, Hw|apply Hh]. Qed.

Lemma parse_trimmed_error raw ok err e : parse_trimmed raw ok err = inl e -> e = err.
Proof. unfold parse_trimmed. destruct (ParseInt _). case_match; congruence. Qed.

Lemma parse_limit_error raw err e : parse_limit raw err = inl e -> e = err.
Proof. unfold parse_limit. case_match; [done|apply parse_trimmed_error]. Qed.

Lemma sentinel_answer s status e :
  status ∈ [400; 401; 403; 404; 409] -> reports s e = true -> internal s e = false ->
  client_answer s (error_answer status (error_text e)).
Proof. intros Hs He Hi. split; [done|]. eexists. split; [done|]. right. by exists e. Qed.

Lemma fixed_answer s status text :
  status ∈ [400; 401; 403; 404; 409] -> text ∈ fixed_texts -> client_answer s (error_answer status text).
Proof. intros Hs Ht. split; [done|]. eexists. split; [done|]. by left. Qed.

(** ** The error writers *)

(** The answer to one error, computed. *)
Ltac answered_one e :=
  first
    [ right; split; reflexivity
    | left; split; [apply (bool_decide_unpack _); vm_compute; exact I|];
      eexists; split; [reflexivity|];
      first [ right; exists e; split_and!; reflexivity
            | left; apply (bool_decide_unpack _); vm_compute; exact I ] ].

Ltac answered_all :=
  let e := fresh "e" in let He := fresh "He" in
  intros e He; destruct e as [[]|[]|[]|[]|[]|[]|[]|[]|[]|a| | | |];
  (discriminate He || match goal with |- answered _ ?e _ => answered_one e end).

Lemma login_answered e : login_reports e = true -> answered SAccount e (AccountHandler.login_error e).
Proof. revert e. answered_all. Qed.

Lemma register_answered e : register_reports e = true -> answered SAccount e (AccountHandler.register_error e).
Proof. revert e. answered_all. Qed.

Lemma profile_answered e : profile_reports e = true -> answered SAccount e (AccountHandler.writeProfileError e).
Proof. revert e. answered_all. Qed.

Lemma exposure_answered e : reports SExposure e = true -> answered SExposure e (ExposureHandler.writeExposureError e).
Proof. revert e. answered_all. Qed.

Lemma feed_answered e : true = true -> answered SFeed e (FeedHandler.writeFeedError e).
Proof. revert e. answered_all. Qed.

Lemma interaction_answered e :
  reports SInteraction e = true -> answered SInteraction e (InteractionHandler.writeInteractionError e).
Proof. revert e. answered_all. Qed.

Lemma message_answered e : reports SMessage e = true -> answered SMessage e (MessageHandler.writeMessageError e).
Proof. revert e. answered_all. Qed.

Lemma playback_answered e : reports SPlayback e = true -> answered SPlayback e (PlaybackHandler.writePlaybackError e).
Proof. revert e. answered_all. Qed.

Lemma recommendation_answered e :
  reports SRecommendation e = true -> answered SRecommendation e (RecommendationHandler.writeRecommendationError e).
Proof. revert e. answered_all. Qed.

Lemma relation_answered e : reports SRelation e = true -> answered SRelation e (RelationHandler.writeRelationError e).
Proof. revert e. answered_all. Qed.

Lemma video_answered e : reports SVideo e = true -> answered SVideo e (VideoHandler.writeVideoError e).
Proof. revert e. answered_all. Qed.

(** ** The routes *)

#[local] Hint Resolve login_answered register_answered profile_answered exposure_answered feed_answered
  interaction_answered message_answered playback_answered recommendation_answered relation_answered
  video_answered : answered.

#[local] Hint Resolve Login_raises Register_raises GetProfile_raises GetPublicProfile_raises UpdateProfile_raises
  : account.
#[local] Hint Resolve Recommend_reports DecideExposures_reports SaveExposures_reports : reports.

(** An operation, the errors it raises, their answers, and the answer to its result. *)
Ltac calls P :=
  eapply (answers_respond _ P);
    [ first [apply op_recommend | apply op_decide | apply op_save | apply op_feed
            | apply op_endpoint; constructor; eauto using signer_manager_keeps, sk_video, sk_exposure; apply _]
    | first [solve [eauto with reports] | solve [eauto with account] | apply raises_any]
    | solve [eauto with answered]
    | intros ?; split; [repeat case_match; simpl; set_solver|done] ].

Lemma parse_optional_error raw e : PlaybackHandler.parseOptionalInt64 raw = inl e -> e = EPlayback PlaybackDomain.ErrInvalidVideoID.
Proof. unfold PlaybackHandler.parseOptionalInt64. case_match; [done|apply parse_trimmed_error]. Qed.

Lemma parse_body_limit_error v e : FeedHandler.parseBodyLimit v = inl e -> e = EFeed FeedDomain.ErrInvalidLimit.
Proof. unfold FeedHandler.parseBodyLimit. repeat case_match; congruence. Qed.

Lemma parsePagination_error c e : VideoHandler.parsePagination c = inl e ->
  e = EVideo VideoDomain.ErrInvalidLimit \/ e = EVideo VideoDomain.ErrInvalidOffset.
Proof.
  unfold VideoHandler.parsePagination. intros He.
  repeat case_match; simplify_eq;
    repeat match goal with Hp : parse_trimmed _ _ _ = inl _ |- _ => apply parse_trimmed_error in Hp as -> end;
    auto.
Qed.

(** A parameter that does not parse. *)
Ltac refused_parameter :=
  let e := fresh "e" in let He := fresh "He" in
  intros e He;
  unfold AccountHandler.parsePositiveUserID, FeedHandler.parseLimit, InteractionHandler.parsePositiveInt64,
    InteractionHandler.parseLimit, MessageHandler.parseLimit, PlaybackHandler.parseLimit,
    RelationHandler.parsePositiveInt64, RelationHandler.parseLimit, VideoHandler.parsePositiveInt64 in He;
  lazymatch type of He with
  | parse_limit _ _ = _ => apply parse_limit_error in He
  | parse_trimmed _ _ _ = _ => apply parse_trimmed_error in He
  | PlaybackHandler.parseOptionalInt64 _ = _ => apply parse_optional_error in He
  | FeedHandler.parseBodyLimit _ = _ => apply parse_body_limit_error in He
  | VideoHandler.parsePagination _ = _ => apply parsePagination_error in He as [He|He]
  end; subst;
  first [ eapply (sentinel_answer _ 400); [set_solver|reflexivity|reflexivity]
        | apply fixed_answer; [set_solver|unfold fixed_texts; set_solver] ].

Context `{!ServicesKeep sv}.

Ltac guards_step :=
  lazymatch goal with
  | |- answers _ (with_user _ _) => apply answers_user; intros ?
  | |- answers _ (with_body _ _) => apply answers_body; intros ?
  | |- answers _ (with_value _ _ _) => apply answers_value; [refused_parameter|intros ?]
  | |- answers _ (let '(_, _) := ?x in _) => destruct x
  end.

Ltac guards := unfold_handlers; repeat guards_step.

Lemma route_answers guards s h c : route manager sv guards s h -> answers s (h c).
Proof.
  destruct 1.
  - guards. calls login_reports.
  - intros w. apply wp_ret, success_well. split; [simpl; set_solver|done].
  - guards. calls register_reports.
  - guards. calls profile_reports.
  - guards. calls profile_reports.
  - guards. calls (reports SVideo).
  - guards. calls (reports SRelation).
  - guards. calls (reports SRelation).
  - guards. calls (reports SRelation).
  - guards. calls (reports SRelation).
  - guards. calls profile_reports.
  - guards. calls (reports SVideo).
  - guards. calls (reports SVideo).
  - guards. calls (reports SVideo).
  - guards. calls (reports SVideo).
  - guards. calls (reports SInteraction).
  - guards. calls (reports SInteraction).
  - guards. calls (reports SInteraction).
  - guards. calls (reports SInteraction).
  - guards. calls (reports SInteraction).
  - guards. calls (reports SInteraction).
  - guards. calls (fun _ : error => true).
  - guards. calls (fun _ : error => true).
  - guards. calls (reports SExposure).
  - guards. calls (reports SInteraction).
  - guards. calls (reports SMessage).
  - guards. calls (reports SMessage).
  - guards. calls (reports SMessage).
  - guards. calls (reports SPlayback).
  - guards. calls (reports SPlayback).
  - guards. calls (reports SPlayback).
  - guards. calls (reports SRecommendation).
  - guards. calls (reports SRecommendation).
  - guards. calls (reports SRecommendation).
  - guards. calls (reports SMessage).
  - guards. calls (reports SPlayback).
Qed.

End HttpAnswers.
