(* ===== verification/CoreHandlers.v ===== *)
(** * The handlers of the core services ([core.go], [social.go], [feed.go], [messaging.go])

    The services of [initCore] behind the sessions of the main package: the feed, likes,
    favourites, comments and follows in the answers of the main package, and the handlers of
    [internal/interfaces/http] that [coreRoutes] mounts. An id of a request is a [uint], the
    services take an [int64]. *)
From S2P Require Import Prelude.
From S2P Require Import GoStd.
From S2P Require Import GoConv.
From S2P Require FeedDomain.
From S2P Require Import Errors.
From S2P Require Import Models.
From S2P Require Import Redis.
From S2P Require Import Store.
From S2P Require Import Codec.
From S2P Require Import Views.
From S2P Require Import Edge.
From S2P Require Import PublishHandlers.
From S2P Require Import SocialHandlers.
From S2P Require RecommendationService.
From S2P Require FeedService.
From S2P Require MessageService.
From S2P Require InteractionService.
From S2P Require RelationService.
From S2P Require VideoService.
From S2P Require Import Wiring.
From S2P Require Import HttpDto.
From S2P Require Tokens.
From S2P Require Import HttpRouter.

(** [uint(n)] of an [int64] *)
Definition uint_of (n : Z) : Z := n mod 2 ^ 64.

Section CoreHandlers.
Context `{Collation} `{Codec} `{JWT} `{Unicode} `{RecommendationService.MathLib}.
Variable cfg : Config.
Variable core : Services.

(** ** Who asks *)

(** [softAuth()] in front of a handler; [refused] is how its answer is sent. *)
Definition softAuthed {A} (rq : Request) (refused : Response -> A) (handler : option Principal -> M A) : M A :=
  who ← authenticate cfg rq true;
  match who with
  | Known p => handler (Some p)
  | Anonymous => handler None
  | Refused r => mret (refused r)
  end.

(** [auth()], for handlers that answer something else than a [Response]. *)
Definition authed_as {A} (rq : Request) (refused : Response -> A) (handler : Principal -> M A) : M A :=
  who ← authenticate cfg rq false;
  match who with
  | Known p => handler p
  | Refused r => mret (refused r)
  | Anonymous => mret (refused (errorJSON 401 "login_required"))
  end.

Definition optionalUser (who : option Principal) : Z :=
  match who with Some p => pr_ID p | None => 0 end.

(** The middleware [identity] of [coreRoutes]: the role is that of a plain user. *)
Definition identity_of (who : option Principal) : Tokens.identity :=
  let id := optionalUser who in if 0 <? id then Some (int64_of id, "user"%string) else None.

(** A handler of [internal/interfaces/http] in the groups [public] and [private]. *)
Definition public_api (rq : Request) (hr : HttpRequest) (handler : Gin -> M Answer) : M (Response + Answer) :=
  softAuthed rq inl (fun who => a ← handler (context_of hr (identity_of who)); mret (inr a)).

Definition private_api (rq : Request) (hr : HttpRequest) (handler : Gin -> M Answer) : M (Response + Answer) :=
  authed_as rq inl (fun p => a ← handler (context_of hr (identity_of (Some p))); mret (inr a)).

(** ** The feed *)

Definition core_item (i : FeedDomain.FeedItem) : VideoView :=
  let author := uint_of (FeedDomain.fi_AuthorID i) in
  {| vv_ID := uint_of (FeedDomain.fi_VideoID i);
     vv_UserID := author;
     vv_User := mkUserView author (FeedDomain.fi_AuthorNickname i) "" "" (FeedDomain.fi_AuthorAvatarURL i) 0;
     vv_Title := FeedDomain.fi_Title i; vv_Description := FeedDomain.fi_Description i;
     vv_FilePath := ""; vv_Size := 0; vv_CoverPath := "";
     vv_PlayURL := FeedDomain.fi_MediaURL i; vv_CoverURL := FeedDomain.fi_CoverURL i;
     vv_LikesCount := FeedDomain.fi_LikeCount i; vv_CommentsCount := FeedDomain.fi_CommentCount i;
     vv_FavoritesCount := FeedDomain.fi_FavoriteCount i; vv_Popularity := 0;
     vv_PublishedAt := FeedDomain.fi_PublishedAt i; vv_CreatedAt := 0 |}.

Definition feed_sorts : list string := ["latest"; "timeline"; "hot"; "following"; "recommend"]%string.

(** [sort] is absent or given. *)
Definition coreFeed (who : option Principal) (sort : option string) (cursor requestID : string) : M Response :=
  let sort := default "latest"%string sort in
  if negb (bool_decide (sort ∈ feed_sorts)) then mret (errorJSON 400 "invalid_sort") else
  let scene := if String.eqb sort "latest" then FeedDomain.SceneTimeline else sort in
  if (String.eqb sort "recommend" || String.eqb sort "following") && (optionalUser who =? 0)
  then mret (errorJSON 401 "login_required") else
  result ← attempt (FeedService.GetFeed (sv_feed core)
    (FeedService.mkFeedRequest scene cursor 20 (int64_of (optionalUser who)) {["request_id"%string := requestID]}));
  match result with
  | inl err => mret (core_error err)
  | inr result =>
      let next := if FeedService.fr_HasMore result then FeedService.fr_NextCursor result else ""%string in
      mret (JSON 200 (BVideoPage (core_item <$> FeedService.fr_Items result) next))
  end.

(** ** Likes, favourites, comments and follows *)

(** The [switch] on the kind of an action. *)
Definition core_action (kind : string) (uid id : Z) (key : string) : M InteractionService.ActionResult :=
  if String.eqb kind "like" then InteractionService.Like (sv_interaction core) uid id key else
  if String.eqb kind "unlike" then InteractionService.Unlike (sv_interaction core) uid id key else
  if String.eqb kind "favorite" then InteractionService.Favorite (sv_interaction core) uid id key else
  InteractionService.Unfavorite (sv_interaction core) uid id key.

Definition setCoreAction (kind : string) (uid id : Z) (key : string) : M Response :=
  out ← attempt (core_action kind uid (int64_of id) key);
  match out with
  | inl err => mret (core_error err)
  | inr out =>
      invalidateVideo id;;
      let active := InteractionService.ar_Active out in
      mret (JSON 200 (BAction active active (InteractionService.ar_LikeCount out)
                        (InteractionService.ar_FavoriteCount out)))
  end.

Definition createCoreComment (uid id : Z) (key : string) (body : option string) : M Response :=
  match body with
  | None => mret (errorJSON 400 "invalid_comment")
  | Some text =>
      out ← attempt (InteractionService.CreateComment (sv_interaction core) uid (int64_of id) text key);
      match out with
      | inl err => mret (core_error err)
      | inr out =>
          result ← attempt (take_row (fun d => comment_author d <$>
            Views.comments d !! InteractionDomain.c_ID (InteractionService.cc_Comment out)));
          match result with
          | inl err => mret (core_error err)
          | inr result => invalidateVideo id;; coreMentions result;; mret (JSON 201 (BComment result))
          end
      end
  end.

(** The row that [First] leaves as it is when it fails has no video. *)
Definition deleteCoreComment (uid id : Z) : M Response :=
  old ← attempt (take_row (fun d => Views.comments d !! id));
  out ← attempt (InteractionService.DeleteComment (sv_interaction core) (int64_of id) uid "user");
  match out with
  | inl err => mret (core_error err)
  | inr _ =>
      invalidateVideo (match old with inr c => vc_VideoID c | inl _ => 0 end);;
      mret (JSON 200 BOk)
  end.

Definition setCoreFollow (follow : bool) (uid id : Z) (key : string) : M Response :=
  out ← attempt (if follow then RelationService.Follow (sv_relation core) uid (int64_of id) key
                 else RelationService.Unfollow (sv_relation core) uid (int64_of id) key);
  match out with
  | inl err => mret (core_error err)
  | inr out => mret (JSON 200 (BFlag "following" (RelationService.fl_Following out)))
  end.

(** [param] is the id of the path, [key] the header [Idempotency-Key], [body] the text of a
    comment. *)
Definition coreInteraction (kind : string) (p : Principal) (param key : string) (body : option string) : M Response :=
  match paramID param with
  | None => mret (errorJSON 400 "invalid_id")
  | Some id =>
      let uid := int64_of (pr_ID p) in
      if bool_decide (kind ∈ ["like"; "unlike"; "favorite"; "unfavorite"]%string) then setCoreAction kind uid id key else
      if String.eqb kind "comment" then createCoreComment uid id key body else
      if String.eqb kind "delete_comment" then deleteCoreComment uid id else
      if String.eqb kind "follow" then setCoreFollow true uid id key else
      if String.eqb kind "unfollow" then setCoreFollow false uid id key else
      mret (errorJSON 400 "invalid_action")
  end.

(** [DELETE /videos/:id] *)
Definition deleteCoreVideo (p : Principal) (param : string) : M Response :=
  match paramID param with
  | None => mret (errorJSON 400 "invalid_id")
  | Some id =>
      r ← attempt (VideoService.Delete (int64_of (pr_ID p)) (int64_of id));
      match r with
      | inl err => mret (core_error err)
      | inr _ => invalidateVideo id;; mret (JSON 200 BOk)
      end
  end.

(** [body] is bound, and holds an id or not. *)
Definition markNotificationsRead (p : Principal) (body : option (option Z)) : M Response :=
  match body with
  | None => mret (errorJSON 400 "invalid_request")
  | Some id =>
      r ← attempt (MessageService.MarkRead (int64_of (pr_ID p)) (match id with Some id => [int64_of id] | None => [] end));
      match r with
      | inl err => mret (core_error err)
      | inr _ => mret (JSON 200 BOk)
      end
  end.

(** ** The routes *)

Inductive core_served : M Response -> Prop :=
  | cs_feed rq sort cursor requestID :
      core_served (softAuthed rq id (fun who => coreFeed who sort cursor requestID))
  | cs_like rq param key :
      core_served (authed cfg rq (fun p => limited "like" 30 minute (Some (pr_ID p)) rq
        (coreInteraction "like" p param key None)))
  | cs_unlike rq param key :
      core_served (authed cfg rq (fun p => limited "like" 30 minute (Some (pr_ID p)) rq
        (coreInteraction "unlike" p param key None)))
  | cs_comment rq param key body :
      core_served (authed cfg rq (fun p => limited "comment" 10 minute (Some (pr_ID p)) rq
        (coreInteraction "comment" p param key body)))
  | cs_deleteComment rq param key :
      core_served (authed cfg rq (fun p => limited "comment" 10 minute (Some (pr_ID p)) rq
        (coreInteraction "delete_comment" p param key None)))
  | cs_follow rq param key :
      core_served (authed cfg rq (fun p => limited "follow" 20 minute (Some (pr_ID p)) rq
        (coreInteraction "follow" p param key None)))
  | cs_unfollow rq param key :
      core_served (authed cfg rq (fun p => limited "follow" 20 minute (Some (pr_ID p)) rq
        (coreInteraction "unfollow" p param key None)))
  | cs_favorite rq param key : core_served (authed cfg rq (fun p => coreInteraction "favorite" p param key None))
  | cs_unfavorite rq param key : core_served (authed cfg rq (fun p => coreInteraction "unfavorite" p param key None))
  | cs_deleteVideo rq param : core_served (authed cfg rq (fun p => deleteCoreVideo p param))
  | cs_markRead rq body : core_served (authed cfg rq (fun p => markNotificationsRead p body)).

Inductive core_api : M (Response + Answer) -> Prop :=
  | ca_feed rq hr : core_api (public_api rq hr (FeedHandler.ListFeedItems (sv_feed core)))
  | ca_query rq hr body : core_api (public_api rq hr (fun c => FeedHandler.Query (sv_feed core) c body))
  | ca_viewEvent rq hr body :
      core_api (private_api rq hr (fun c => ExposureHandler.CreateViewEvent (sv_exposure core) c body))
  | ca_config rq hr : core_api (private_api rq hr PlaybackHandler.GetConfig)
  | ca_preload rq hr : core_api (private_api rq hr PlaybackHandler.ListPreloadVideos)
  | ca_qos rq hr body : core_api (private_api rq hr (fun c => PlaybackHandler.CreateQoSReport c body))
  | ca_messages rq hr : core_api (private_api rq hr MessageHandler.List)
  | ca_markRead rq hr body : core_api (private_api rq hr (fun c => MessageHandler.MarkRead c body))
  | ca_unread rq hr : core_api (private_api rq hr MessageHandler.CountUnread).

End CoreHandlers.
