(* ===== verification/EdgeRequests.v ===== *)
(** * The requests of the main package

    [handler] lists the handlers of [auth.go], [admin.go], [messaging.go], [social.go],
    [feed.go], [cache.go] and the work of [worker.go] and of the commands of [main.go]. Each
    changes the database by steps of [System] only, and leaves the disk alone. *)
From S2P Require Import Prelude.
From S2P Require Import GoStd.
From S2P Require Import GoConv.
From S2P Require AccountDomain.
From S2P Require Import Errors.
From S2P Require Import Files.
From S2P Require Import Models.
From S2P Require Import Redis.
From S2P Require Import Store.
From S2P Require Import FileOps.
From S2P Require Import RedisClient.
From S2P Require Import Codec.
From S2P Require Import Views.
From S2P Require Import Edge.
From S2P Require Import AuthHandlers.
From S2P Require Import OutboxWorker.
From S2P Require Import PublishHandlers.
From S2P Require Import SocialHandlers.
From S2P Require Import VideoDetail.
From S2P Require Import Uploads.
From S2P Require RecommendationService.
From S2P Require InteractionService.
From S2P Require RelationService.
From S2P Require VideoService.
From S2P Require MessageService.
From S2P Require Import Wiring.
From S2P Require Import HttpDto.
From S2P Require Tokens.
From S2P Require Import System.
From S2P Require Import Requests.
From S2P Require Import HttpRouter.
From S2P Require Import CoreHandlers.

Section EdgeRequests.
Context `{Collation, !CollationLaws} `{Codec} `{JWT} `{AccountDomain.Bcrypt} `{Unicode}.
Variable cfg : Config.

(** ** What all handlers do to the database *)

Lemma keeps_withRedis {A} (m : M A) : keeps m -> keeps (withRedis m).
Proof.
  intros Hm. unfold withRedis. apply keeps_bind; [apply keeps_time_now|]. intros now.
  apply keeps_bind.
  { apply keeps_outside. intros w. unfold System.after, breaker_allow.
    destruct (Resilience.Breaker.allow _ _). by do 4 eexists. }
  intros ok. destruct (negb ok); [apply keeps_ret|].
  apply keeps_bind; [by apply keeps_attempt|]. intros r. apply keeps_bind; [apply keeps_time_now|]. intros now'.
  apply keeps_bind; [|intros _; apply keeps_ret]. apply keeps_outside. intros w. by do 4 eexists.
Qed.

Lemma keeps_on_videos {A} f : keeps (on_videos (A := A) f).
Proof.
  apply keeps_outside. intros w. unfold System.after, on_videos. destruct (f _). by do 4 eexists.
Qed.

Lemma keeps_limiter key max window now : keeps (limiter_take key max window now).
Proof.
  apply keeps_outside. intros w. unfold System.after, limiter_take.
  destruct (Resilience.Limiter.take _ _ _ _ _). by do 4 eexists.
Qed.

Ltac keeps_edge_ :=
  lazymatch goal with
  | |- keeps (withRedis _) => apply keeps_withRedis
  | |- keeps (redis_request _) => apply keeps_request
  | |- keeps (redis_read _) => apply keeps_request
  | |- keeps (redis_write _) => apply keeps_request
  | |- keeps (on_videos _) => apply keeps_on_videos
  | |- keeps (limiter_take _ _ _ _) => apply keeps_limiter
  | |- keeps (publish _) => apply keeps_publish
  | |- keeps (sleep _) => apply keeps_sleep
  | |- keeps uuid_NewString => apply keeps_uuid
  | |- keeps call => apply keeps_call
  | |- keeps (mret _) => apply keeps_ret
  | |- keeps (throw _) => apply keeps_throw
  | |- keeps (_ ≫= _) => apply keeps_bind; [|intros ?]
  | |- keeps (attempt _) => apply keeps_attempt
  | |- keeps (map_error _ _) => apply keeps_map_error
  | |- keeps time_now => apply keeps_time_now
  | |- keeps (query _) => apply keeps_query
  | |- keeps (take_row _) => apply keeps_take_row
  | |- keeps (match ?x with _ => _ end) => destruct x eqn:?
  | |- keeps _ => apply keeps_step; solve [intros ?w; constructor]
  end.

Ltac keeps_edge := repeat (cbv zeta; keeps_edge_); eauto.

Lemma signToken_keeps uid sid kind ttl : keeps (signToken cfg uid sid kind ttl).
Proof. unfold signToken. keeps_edge. Qed.

Lemma parseToken_keeps raw kind : keeps (parseToken cfg raw kind).
Proof. unfold parseToken. keeps_edge. Qed.

Lemma invalidateVideo_keeps id : keeps (invalidateVideo id).
Proof.
  unfold invalidateVideo, videos_invalidate, redis_del_keys. apply keeps_bind; [keeps_edge|]. intros [].
  destruct (videoCacheKeys id). keeps_edge.
Qed.

Lemma invalidate_all_keeps ids : keeps (invalidate_all ids).
Proof.
  induction ids as [|id ids IH]; simpl; [keeps_edge|].
  apply keeps_bind; [apply invalidateVideo_keeps|]. intros []. apply keeps_bind; [|done].
  unfold redis_del_keys. keeps_edge.
Qed.

Lemma invalidateAuthor_keeps uid : keeps (invalidateAuthor uid).
Proof. unfold invalidateAuthor. keeps_edge. apply invalidate_all_keeps. Qed.

Lemma retireSessions_keeps ids : keeps (retireSessions ids).
Proof.
  assert (forall failed, keeps (retire_each ids failed)) as Hr.
  { induction ids as [|id ids IH]; intros failed; simpl; [keeps_edge|].
    unfold redis_set_key. apply keeps_bind; [keeps_edge|]. intros r. apply IH. }
  unfold retireSessions. keeps_edge.
Qed.

Lemma loadSession_keeps id : keeps (loadSession id).
Proof.
  assert (keeps (load_row id)) as Hl by (unfold load_row, redis_set_nx; keeps_edge).
  unfold loadSession, redis_get_string. keeps_edge.
Qed.

Lemma authenticate_keeps rq optional : keeps (authenticate cfg rq optional).
Proof.
  assert (forall uid sid, keeps (check_account uid sid)) as Hc by (intros; unfold check_account, accountAccess, refuse; keeps_edge).
  unfold authenticate, check_session, refuse. keeps_edge; eauto using parseToken_keeps, loadSession_keeps.
Qed.

Lemma authed_keeps rq h : (forall p, keeps (h p)) -> keeps (authed cfg rq h).
Proof. intros Hh. unfold authed. apply keeps_bind; [apply authenticate_keeps|]. intros []; [keeps_edge..|apply Hh]. Qed.

Lemma admin_only_keeps rq h : (forall p, keeps (h p)) -> keeps (admin_only cfg rq h).
Proof. intros Hh. apply authed_keeps. intros p. destruct (String.eqb _ _); [apply Hh|apply keeps_ret]. Qed.

Lemma limited_keeps key max window uid rq h : keeps h -> keeps (limited key max window uid rq h).
Proof. intros Hh. unfold limited, rateLimit, limitScript. keeps_edge. Qed.

Create HintDb keeps.
#[local] Hint Resolve signToken_keeps parseToken_keeps invalidateVideo_keeps invalidateAuthor_keeps
  retireSessions_keeps authed_keeps admin_only_keeps limited_keeps : keeps.

Ltac handler_solve := keeps_edge; eauto with keeps.

Lemma register_keeps salt body : keeps (register cfg salt body).
Proof. unfold register. handler_solve. Qed.

Lemma login_keeps body : keeps (login cfg body).
Proof. unfold login. handler_solve. Qed.

Lemma refresh_keeps rq : keeps (refresh cfg rq).
Proof. unfold refresh, refresh_tokens, accountAccess. handler_solve. Qed.

Lemma logout_keeps rq : keeps (logout cfg rq).
Proof.
  assert (forall raw kind, keeps (sid_of cfg raw kind)) by (intros; unfold sid_of; handler_solve).
  unfold logout. handler_solve.
Qed.

Lemma me_keeps p : keeps (me p).
Proof. unfold me, first_user. handler_solve. Qed.

Lemma updateMe_keeps p body : keeps (updateMe cfg p body).
Proof. unfold updateMe. handler_solve; apply me_keeps. Qed.

Lemma changePassword_keeps salt p body : keeps (changePassword salt p body).
Proof. unfold changePassword, first_user. handler_solve. Qed.

Lemma adminUpdateUser_keeps p param body : keeps (adminUpdateUser p param body).
Proof. unfold adminUpdateUser. handler_solve. Qed.

Lemma adminPassword_keeps salt p param body : keeps (adminPassword salt p param body).
Proof. unfold adminPassword. handler_solve. Qed.

Lemma adminUpdateVideo_keeps param body : keeps (adminUpdateVideo param body).
Proof. unfold adminUpdateVideo, redis_del_keys. handler_solve. Qed.

Lemma count_keeps f : keeps (count_or_zero f).
Proof. unfold count_or_zero. keeps_edge. Qed.

#[local] Hint Resolve count_keeps : keeps.

Lemma userProfile_keeps param : keeps (userProfile param).
Proof. unfold userProfile, first_user. handler_solve. Qed.

Lemma conversations_keeps p : keeps (conversations p).
Proof.
  assert (forall l, keeps (load_peers l)) as Hl.
  { induction l as [|x l IH]; simpl; unfold first_user; [keeps_edge|]. keeps_edge. }
  unfold conversations. handler_solve.
Qed.

Lemma thread_keeps p param : keeps (thread p param).
Proof. unfold thread. handler_solve. Qed.

Lemma sendMessage_keeps p param body : keeps (sendMessage p param body).
Proof. unfold sendMessage. handler_solve. Qed.

Lemma reads_keep p param cursor b id :
  keeps (SocialHandlers.notifications p) /\ keeps (unreadCount p) /\ keeps (isLiked p param) /\
  keeps (myLikes p) /\ keeps (SocialHandlers.comments param cursor) /\ keeps (relationList param b) /\
  keeps (tagFeed param cursor) /\ keeps (userVideos id cursor) /\ keeps (coreIsFavorite p param) /\
  keeps (coreFavorites p).
Proof.
  unfold SocialHandlers.notifications, unreadCount, isLiked, myLikes, SocialHandlers.comments, relationList,
    tagFeed, userVideos, coreIsFavorite, coreFavorites.
  split_and!; handler_solve.
Qed.

Lemma coreMentions_keeps c : keeps (coreMentions c).
Proof.
  assert (forall names seen, keeps (notify_mentions c seen names)) as Hn.
  { induction names as [|name names IH]; intros seen; simpl; [keeps_edge|]. keeps_edge. }
  apply Hn.
Qed.

Lemma list_page_keeps {A} (rows : Tables -> list A) page body : keeps (list_page rows page body).
Proof. unfold list_page. handler_solve. Qed.

Lemma admin_pages_keep page q status :
  keeps adminOverview /\ keeps (adminUsers page q status) /\ keeps (adminVideos page q status).
Proof.
  unfold adminOverview, adminUsers, adminVideos. split_and!; handler_solve; apply list_page_keeps.
Qed.

(** ** One video through its caches *)

Lemma readVideoCache_keeps id : keeps (readVideoCache id).
Proof.
  unfold readVideoCache, redis_get_string. destruct (videoCacheKeys id). keeps_edge.
Qed.

Lemma found_keeps id v g : keeps (found id v g).
Proof. unfold found, videos_put. keeps_edge. Qed.

Lemma stale_copy_keeps id : keeps (stale_copy id).
Proof. unfold stale_copy, videos_get. keeps_edge. Qed.

Lemma load_database_keeps id g j token : keeps (load_database id g j token).
Proof.
  assert (forall err, keeps (or_stale id err)) by (intros; unfold or_stale; keeps_edge; apply stale_copy_keeps).
  assert (forall r, keeps (store_result id g j token r)).
  { intros r. unfold store_result, publishVideoCache, videos_put. destruct (videoCacheKeys id). keeps_edge. }
  unfold load_database, dbSlot. keeps_edge.
Qed.

#[local] Hint Resolve readVideoCache_keeps found_keeps stale_copy_keeps load_database_keeps : keeps.

Lemma wait_cache_keeps fuel id g deadline : keeps (wait_cache fuel id g deadline).
Proof. induction fuel; simpl; handler_solve. Qed.

Lemma defer_keeps {A} (m : M A) last : keeps m -> keeps last -> keeps (defer m last).
Proof. intros Hm Hl. unfold defer. keeps_edge. Qed.

Lemma load_missed_keeps id g j ok : keeps (load_missed cfg id g j ok).
Proof.
  unfold load_missed. destruct (videoCacheKeys id) as [key lock]. apply keeps_bind; [keeps_edge|]. intros token.
  apply keeps_bind; [unfold redis_set_nx; keeps_edge|]. intros [err|[|]].
  - apply load_database_keeps.
  - apply defer_keeps; [unfold load_locked|unfold releaseVideoLock]; handler_solve.
  - handler_solve. apply wait_cache_keeps.
Qed.

Lemma videoDetail_keeps param j : keeps (videoDetail cfg param j).
Proof.
  unfold videoDetail, detail, load, videos_get, videos_generation, enter_flight.
  handler_solve; apply load_missed_keeps.
Qed.

(** ** The worker *)

Lemma publishOutbox_round_keeps first notices : keeps (publishOutbox_round first notices).
Proof.
  assert (forall rows, keeps (publish_rows rows)) as Hp by (induction rows; simpl; keeps_edge).
  unfold publishOutbox_round, publishOutboxBatch. handler_solve.
Qed.

Lemma consume_keeps body n confirm : keeps (consume body n confirm).
Proof.
  assert (forall e, keeps (invalidate_event e)) by (intros; unfold invalidate_event; handler_solve).
  unfold consume, processEvent, publishCoreVideo. handler_solve.
Qed.

(** ** The router ([router] of [main.go], [adminRoutes], [coreRoutes]) *)

Inductive served : M Response -> Prop :=
  | sv_register rq salt body : served (limited "register" 20 hour None rq (register cfg salt body))
  | sv_login rq body : served (limited "login" 60 hour None rq (login cfg body))
  | sv_refresh rq : served (refresh cfg rq)
  | sv_logout rq : served (logout cfg rq)
  | sv_me rq : served (authed cfg rq me)
  | sv_userProfile param : served (userProfile param)
  | sv_userVideos id cursor : served (userVideos id cursor)
  | sv_videoDetail param jitter : served (videoDetail cfg param jitter)
  | sv_comments param cursor : served (SocialHandlers.comments param cursor)
  | sv_tagFeed param cursor : served (tagFeed param cursor)
  | sv_relationList param followers : served (relationList param followers)
  | sv_updateMe rq body : served (authed cfg rq (fun p => updateMe cfg p body))
  | sv_changePassword rq salt body : served (authed cfg rq (fun p => changePassword salt p body))
  | sv_isLiked rq param : served (authed cfg rq (fun p => isLiked p param))
  | sv_myLikes rq : served (authed cfg rq myLikes)
  | sv_isFavorite rq param : served (authed cfg rq (fun p => coreIsFavorite p param))
  | sv_favorites rq : served (authed cfg rq coreFavorites)
  | sv_conversations rq : served (authed cfg rq conversations)
  | sv_thread rq param : served (authed cfg rq (fun p => thread p param))
  | sv_sendMessage rq param body : served (authed cfg rq (fun p => sendMessage p param body))
  | sv_notifications rq : served (authed cfg rq SocialHandlers.notifications)
  | sv_unreadCount rq : served (authed cfg rq unreadCount)
  | sv_adminUpdateUser rq param body : served (admin_only cfg rq (fun p => adminUpdateUser p param body))
  | sv_adminPassword rq salt param body :
      served (admin_only cfg rq (fun p =>
        limited "admin-password" 20 hour (Some (pr_ID p)) rq (adminPassword salt p param body)))
  | sv_adminOverview rq : served (admin_only cfg rq (fun _ => adminOverview))
  | sv_adminUsers rq page q status : served (admin_only cfg rq (fun _ => adminUsers page q status))
  | sv_adminVideos rq page q status : served (admin_only cfg rq (fun _ => adminVideos page q status))
  | sv_adminUpdateVideo rq param body : served (admin_only cfg rq (fun p => adminUpdateVideo param body)).

Lemma served_keeps h : served h -> keeps h.
Proof.
  destruct 1; eauto using limited_keeps, register_keeps, login_keeps, refresh_keeps, logout_keeps, authed_keeps,
    admin_only_keeps, me_keeps, userProfile_keeps, updateMe_keeps, changePassword_keeps, adminUpdateUser_keeps,
    adminPassword_keeps, adminUpdateVideo_keeps, conversations_keeps, thread_keeps, sendMessage_keeps,
    videoDetail_keeps.
  all: try (apply admin_only_keeps; intros p; first [apply (admin_pages_keep page q status)
                                                    |apply (admin_pages_keep None "" "")]).
  all: try apply authed_keeps; try intros p.
  all: try apply (reads_keep (mkPrincipal 0 "" "") param cursor true id).
  all: try apply (reads_keep (mkPrincipal 0 "" "") param cursor true 0).
  all: try apply (reads_keep (mkPrincipal 0 "" "") param None followers 0).
  all: try apply (reads_keep (mkPrincipal 0 "" "") "" cursor true id).
  all: try apply (reads_keep p param None true 0).
  all: apply (reads_keep p "" None true 0).
Qed.

(** ** The handlers of the core services *)

Section core.
Context `{RecommendationService.MathLib}.
Context (core : Services) `{!ServicesKeep core}.

Lemma softAuthed_keeps {A} rq (refused : Response -> A) h :
  (forall who, keeps (h who)) -> keeps (softAuthed cfg rq refused h).
Proof.
  intros Hh. unfold softAuthed. apply keeps_bind; [apply authenticate_keeps|].
  intros []; [apply keeps_ret|apply Hh..].
Qed.

Lemma authed_as_keeps {A} rq (refused : Response -> A) h :
  (forall p, keeps (h p)) -> keeps (authed_as cfg rq refused h).
Proof.
  intros Hh. unfold authed_as. apply keeps_bind; [apply authenticate_keeps|].
  intros []; [apply keeps_ret..|apply Hh].
Qed.

(** A service of the core answers a request of its own. *)
Ltac core_endpoint :=
  lazymatch goal with
  | |- keeps (mret _) => apply keeps_ret
  | |- keeps (core_action _ _ _ _ _) => unfold core_action; repeat case_match; eapply endpoint_keeps; constructor; apply _
  | |- keeps (invalidateVideo _) => apply invalidateVideo_keeps
  | |- keeps (coreMentions _) => apply coreMentions_keeps
  | |- keeps (FeedService.GetFeed _ _) => apply GetFeed_keeps, sk_feed
  | |- keeps (take_row _) => apply keeps_take_row
  | |- keeps (attempt _) => apply keeps_attempt
  | |- keeps (_ ≫= _) => apply keeps_bind; [|intros ?]
  | |- keeps (match ?x with _ => _ end) => destruct x eqn:?
  | |- keeps _ => eapply endpoint_keeps; constructor; first [apply _|exact eq_refl]
  end.

Ltac core_solve := repeat (cbv zeta; core_endpoint).

Lemma coreFeed_keeps who sort cursor rid : keeps (coreFeed core who sort cursor rid).
Proof. unfold coreFeed. core_solve. Qed.

Lemma coreInteraction_keeps kind p param key body : keeps (coreInteraction core kind p param key body).
Proof.
  unfold coreInteraction, setCoreAction, createCoreComment, deleteCoreComment, setCoreFollow. core_solve.
Qed.

Lemma deleteCoreVideo_keeps p param : keeps (deleteCoreVideo p param).
Proof. unfold deleteCoreVideo. core_solve. Qed.

Lemma markNotificationsRead_keeps p body : keeps (markNotificationsRead p body).
Proof. unfold markNotificationsRead. core_solve. Qed.

Lemma core_served_keeps h : core_served cfg core h -> keeps h.
Proof.
  destruct 1; (apply softAuthed_keeps || apply authed_keeps); intros p;
    try apply limited_keeps; auto using coreFeed_keeps, coreInteraction_keeps, deleteCoreVideo_keeps,
      markNotificationsRead_keeps.
Qed.

(** Each handler is that of a route of the API; who serves the tokens there does not matter. *)
#[local] Instance no_tokens : Tokens.JWTLib := {|
  Tokens.NewNumericDate t := t;
  Tokens.HS256_SignedString _ _ := None;
  Tokens.HS256_ParseWithClaims _ _ _ := None;
|}.

Lemma route_handler_keeps guards s h :
  route (Tokens.mkManager "" 0) core guards s h ->
  forall hr i, keeps (a ← h (context_of hr i); mret (inr a : Response + Answer)).
Proof.
  intros Hr hr i. apply keeps_bind; [by eapply route_keeps|intros ?; apply keeps_ret].
Qed.

Lemma core_api_keeps h : core_api cfg core h -> keeps h.
Proof.
  destruct 1; (apply softAuthed_keeps || apply authed_as_keeps); intros p.
  - exact (route_handler_keeps _ _ _ (rt_feed _ core) hr _).
  - exact (route_handler_keeps _ _ _ (rt_feedQuery _ core body) hr _).
  - exact (route_handler_keeps _ _ _ (rt_viewEvent _ core body) hr _).
  - exact (route_handler_keeps _ _ _ (rt_config _ core) hr _).
  - exact (route_handler_keeps _ _ _ (rt_preload _ core) hr _).
  - exact (route_handler_keeps _ _ _ (rt_qos _ core body) hr _).
  - exact (route_handler_keeps _ _ _ (rt_messages _ core) hr _).
  - exact (route_handler_keeps _ _ _ (rt_markRead _ core body) hr _).
  - exact (route_handler_keeps _ _ _ (rt_unread _ core) hr _).
Qed.

End core.

(** What the process does apart from uploads: requests to the services and their workers,
    requests to the handlers above, rounds and deliveries of the outbox worker, the commands. *)
Inductive plain_request : World -> World -> Prop :=
  | any_service w w' : request w w' -> plain_request w w'
  | any_served w h : served h -> plain_request w (System.after h w)
  | any_mentions w c : plain_request w (System.after (coreMentions c) w)
  | any_round w first notices : plain_request w (System.after (publishOutbox_round first notices) w)
  | any_delivery w body n confirm : plain_request w (System.after (consume body n confirm) w)
  | any_grant w username : plain_request w (System.after (grantAdmin username) w)
  | any_invite w code : plain_request w (System.after (createInvite code) w)
  | any_core `{RecommendationService.MathLib} group w h :
      group_keeps group -> core_served cfg (initCore group) h -> plain_request w (System.after h w)
  | any_core_api `{RecommendationService.MathLib} group w h :
      group_keeps group -> core_api cfg (initCore group) h -> plain_request w (System.after h w)
  | any_api `{RecommendationService.MathLib} `{Tokens.JWTLib} manager token group redis rabbit w rq guards s h :
      group_keeps group -> route manager (register_services group redis rabbit) guards s h ->
      plain_request w (System.after (serve manager token rq guards h) w).

Lemma plain_request_steps w w' : plain_request w w' -> rtc plain_step w w'.
Proof.
  destruct 1.
  - by apply request_steps.
  - by apply served_keeps.
  - apply coreMentions_keeps.
  - apply publishOutbox_round_keeps.
  - apply consume_keeps.
  - apply rtc_once. constructor.
  - apply rtc_once. constructor.
  - eapply core_served_keeps; [by apply initCore_keeps|done].
  - eapply core_api_keeps; [by apply initCore_keeps|done].
  - eapply serve_keeps; [by apply register_services_keeps|done].
Qed.

End EdgeRequests.

(** * The requests that work on files, and all requests together

    The handlers of [video.go] move between steps that change the disk and steps that change
    the tables. [any_request] is any request the process serves, any message it handles, any
    command it runs. *)

Section UploadRequests.
Context `{Collation, !CollationLaws} `{Codec} `{JWT} `{AccountDomain.Bcrypt} `{Unicode} `{UUID}.
Variable cfg : Config.

(** ** Steps of any kind *)

Definition lands {A} (m : M A) : Prop := moves step m.

Lemma lands_keeps {A} (m : M A) : keeps m -> lands m.
Proof. intros Hm w. apply plain_steps, Hm. Qed.

Lemma lands_bind {A B} (m : M A) (f : A -> M B) : lands m -> (forall a, lands (f a)) -> lands (m ≫= f).
Proof. apply moves_bind. Qed.

Lemma lands_attempt {A} (m : M A) : lands m -> lands (attempt m).
Proof. apply moves_attempt. Qed.

Lemma lands_step {A} (m : M A) : (forall w, step w (System.after m w)) -> lands m.
Proof. apply moves_step. Qed.

Lemma lands_disk_step f : lands (disk_step f).
Proof.
  apply lands_step. intros w. unfold System.after, disk_step. destruct (f (disk w)); simpl; [apply step_disk|].
  apply step_plain. destruct w. constructor.
Qed.

Lemma keeps_read_disk {A} (f : Disk -> option A) : keeps (read_disk f).
Proof. intros w. unfold System.after, read_disk. by destruct (f (disk w)). Qed.

Lemma keeps_look_disk {A} (f : Disk -> option A) : keeps (look_disk f).
Proof. apply keeps_bind; [apply keeps_call|intros _; apply keeps_read_disk]. Qed.

Ltac lands_step_ :=
  lazymatch goal with
  | |- lands (mret _) => apply lands_keeps, keeps_ret
  | |- lands (throw _) => apply lands_keeps, keeps_throw
  | |- lands (_ ≫= _) => apply lands_bind; [|intros ?]
  | |- lands (attempt _) => apply lands_attempt
  | |- lands (disk_step _) => apply lands_disk_step
  | |- lands (look_disk _) => apply lands_keeps, keeps_look_disk
  | |- lands call => apply lands_keeps, keeps_call
  | |- lands time_now => apply lands_keeps, keeps_time_now
  | |- lands new_event_id => apply lands_keeps, keeps_new_event_id
  | |- lands uuid_NewString => apply lands_keeps, keeps_uuid
  | |- lands (random_bytes _) => apply lands_keeps, keeps_random_bytes
  | |- lands (query _) => apply lands_keeps, keeps_query
  | |- lands (take_row _) => apply lands_keeps, keeps_take_row
  | |- lands (withRedis _) => apply lands_keeps, keeps_withRedis
  | |- lands (match ?x with _ => _ end) => destruct x eqn:?
  | |- lands _ => apply lands_step; solve [intros ?w; constructor]
  end.

Ltac lands_solve := repeat (cbv zeta; lands_step_); eauto.

(** ** The calls of [os] *)

Lemma file_call_lands f : lands (file_call f).
Proof. unfold file_call. lands_solve. Qed.

Lemma os_RemoveAll_lands name : lands (os_RemoveAll name).
Proof. unfold os_RemoveAll. lands_solve. Qed.

Lemma file_Write_lands name data : lands (file_Write name data).
Proof. unfold file_Write, path_Write. lands_solve. Qed.

Lemma os_MkdirAll_lands name : lands (os_MkdirAll name).
Proof.
  assert (forall names p, lands (mkdir_each p names)) as Hm.
  { induction names as [|n names IH]; intros p; simpl; [lands_solve|].
    apply lands_bind; [apply file_call_lands|]. intros _. apply IH. }
  unfold os_MkdirAll. lands_solve.
Qed.

Lemma create_temp_lands fuel dir prefix : lands (create_temp fuel dir prefix).
Proof. induction fuel; simpl; unfold temp_number; lands_solve. Qed.

Lemma defer_lands {A} (m : M A) last : lands m -> lands last -> lands (defer m last).
Proof. intros Hm Hl. unfold defer. lands_solve. Qed.

Create HintDb lands.
#[local] Hint Resolve file_call_lands os_RemoveAll_lands file_Write_lands os_MkdirAll_lands create_temp_lands
  defer_lands : lands.

Ltac file_solve := lands_solve; eauto with lands.

(** ** The handlers *)

Lemma cacheUpload_lands u : lands (cacheUpload u).
Proof. unfold cacheUpload. lands_solve. apply keeps_request. Qed.

#[local] Hint Resolve cacheUpload_lands : lands.

Lemma uploadFor_lands get uid id : lands (uploadFor get uid id).
Proof.
  assert (lands (upload_from_db uid id)) as Hd by (unfold upload_from_db; file_solve).
  unfold uploadFor, redis_get_string. lands_solve. apply keeps_request.
Qed.

#[local] Hint Resolve uploadFor_lands : lands.

Lemma initUpload_lands uid body free : lands (initUpload cfg uid body free).
Proof.
  assert (forall hash size chunks, lands (reusable_upload uid hash size chunks)) as Hr.
  { intros. unfold reusable_upload, redis_get_string. lands_solve. apply keeps_request. }
  unfold initUpload. file_solve.
Qed.

Lemma uploadStatus_lands uid id : lands (uploadStatus cfg uid id).
Proof.
  assert (forall dir l, lands (stat_chunks dir l)) as Hs.
  { intros dir l. induction l as [|i l IH]; simpl; unfold os_Stat; lands_solve. }
  unfold uploadStatus. file_solve.
Qed.

Lemma uploadChunk_lands uid id rq : lands (uploadChunk cfg uid id rq).
Proof.
  assert (forall name dest n body md5, lands (store_chunk name dest n body md5)) as Hs.
  { intros. unfold store_chunk, file_Close, os_Rename. file_solve. }
  unfold uploadChunk, receive_chunk, os_CreateTemp, os_Remove. file_solve.
Qed.

Lemma completeUpload_lands uid id : lands (completeUpload cfg uid id).
Proof.
  assert (forall dir name l sofar, lands (assemble dir name l sofar)) as Ha.
  { intros dir name l. induction l as [|i l IH]; intros sofar; simpl; unfold file_open, file_read, file_Close; file_solve. }
  assert (forall r, lands (closing r)) as Hc by (intros; unfold closing, file_Close; lands_solve).
  assert (forall u name, lands (place_upload cfg u name)) as Hp.
  { intros. unfold place_upload, file_Close, os_Rename. file_solve. }
  assert (forall u name, lands (finish_upload cfg u name)) as Hf.
  { intros. unfold finish_upload, file_read. file_solve. }
  unfold completeUpload, complete_owned, os_CreateTemp, os_Remove. file_solve.
Qed.

Lemma saveImage_lands file folder : lands (saveImage cfg file folder).
Proof. unfold saveImage, os_WriteFile. file_solve. Qed.

Lemma uploadAvatar_lands uid file : lands (uploadAvatar cfg uid file).
Proof.
  assert (lands (invalidateAuthor uid)) by apply lands_keeps, invalidateAuthor_keeps.
  unfold uploadAvatar. file_solve. apply saveImage_lands.
Qed.

Lemma uploadCover_lands uid file : lands (uploadCover cfg uid file).
Proof. unfold uploadCover. file_solve. apply saveImage_lands. Qed.

Lemma publishVideo_lands uid body : lands (publishVideo cfg uid body).
Proof.
  assert (forall dest stored r, lands (put_back dest stored r)) as Hb by (intros; unfold put_back, os_Rename; file_solve).
  assert (forall b u rel dest cover, lands (publish_row uid b u rel dest cover)) as Hr.
  { intros. unfold publish_row. file_solve. }
  assert (forall b u cover, lands (publish_files cfg uid b u cover)) as Hf.
  { intros. unfold publish_files, move_cover, os_Chmod, os_Stat, os_Rename. file_solve. }
  unfold publishVideo, check_cover, os_Stat. file_solve.
Qed.

Lemma cleanupUploads_lands : lands (cleanupUploads cfg).
Proof.
  assert (forall l, lands (remove_uploads cfg l)) as Hr.
  { induction l as [|u l IH]; simpl; unfold os_Remove; file_solve. }
  unfold cleanupUploads. file_solve.
Qed.

(** ** All requests *)

(** What the routes of uploads do for a user who is known. *)
Inductive upload_handler : (Z -> M Response) -> Prop :=
  | uh_init body free : upload_handler (fun uid => initUpload cfg uid body free)
  | uh_status id : upload_handler (fun uid => uploadStatus cfg uid id)
  | uh_chunk id rq : upload_handler (fun uid => uploadChunk cfg uid id rq)
  | uh_complete id : upload_handler (fun uid => completeUpload cfg uid id)
  | uh_avatar file : upload_handler (fun uid => uploadAvatar cfg uid file)
  | uh_cover file : upload_handler (fun uid => uploadCover cfg uid file)
  | uh_publish body : upload_handler (fun uid => publishVideo cfg uid body).

Lemma upload_handler_lands h uid : upload_handler h -> lands (h uid).
Proof.
  destruct 1; auto using initUpload_lands, uploadStatus_lands, uploadChunk_lands, completeUpload_lands,
    uploadAvatar_lands, uploadCover_lands, publishVideo_lands.
Qed.

Inductive any_request : World -> World -> Prop :=
  | any_plain w w' : plain_request cfg w w' -> any_request w w'
  | any_upload w rq h : upload_handler h ->
      any_request w (System.after (authed cfg rq (fun p => h (pr_ID p))) w)
  | any_cleanup w : any_request w (System.after (cleanupUploads cfg) w).

Lemma authed_lands rq h : (forall p, lands (h p)) -> lands (authed cfg rq h).
Proof. intros Hh. unfold authed. lands_solve. apply lands_keeps, authenticate_keeps. Qed.

Lemma any_request_steps w w' : any_request w w' -> rtc step w w'.
Proof.
  destruct 1.
  - by apply plain_steps, (plain_request_steps cfg).
  - apply authed_lands. intros p. by apply upload_handler_lands.
  - apply cleanupUploads_lands.
Qed.

Lemma any_requests_steps w w' : rtc any_request w w' -> rtc step w w'.
Proof.
  induction 1 as [|w1 w2 w3 H12 _ IH]; [done|]. etrans; [by apply any_request_steps|done].
Qed.

End UploadRequests.
