(* ===== verification/UploadRules.v ===== *)
(** * What the calls of [os] and the handlers of uploads do to the disk

    The names that the code makes are plain: UUIDs, numbers, and fixed words. The rules of
    [FileOps] as postconditions: a call changes the tree as it says when it succeeds, and
    leaves what the rule names alone when it fails. *)
From Stdlib Require Import Ascii.
From S2P Require Import Prelude.
From S2P Require Import GoStd.
From S2P Require Import GoHash.
From S2P Require Import GoConv.
From S2P Require InteractionDomain.
From S2P Require VideoDomain.
From S2P Require AccountDomain.
From S2P Require Import Errors.
From S2P Require Import Files.
From S2P Require Import Models.
From S2P Require Import Redis.
From S2P Require Import Store.
From S2P Require Import FileOps.
From S2P Require Import RedisClient.
From S2P Require Import Codec.
From S2P Require InteractionRepo.
From S2P Require RelationRepo.
From S2P Require MessageRepo.
From S2P Require VideoRepo.
From S2P Require ExposureRepo.
From S2P Require PlaybackRepo.
From S2P Require AccountRepo.
From S2P Require Import Views.
From S2P Require Import Edge.
From S2P Require Import EdgeRules.
From S2P Require Import AuthHandlers.
From S2P Require Import OutboxWorker.
From S2P Require Import PublishHandlers.
From S2P Require Import SocialHandlers.
From S2P Require Import VideoDetail.
From S2P Require Import Uploads.
From S2P Require Import ExtensionRules.
From S2P Require Import System.
From S2P Require Import Frames.
From S2P Require Import Requests.
From S2P Require Import EdgeRequests.

(** ** Names *)

(** No slash and no dot: such a name is plain, and stays apart from names with a suffix. *)
Definition name_chars : string -> Prop := string_forall (fun c => c <> slash /\ c <> "."%char).

Definition random_name (s : string) : Prop := name_chars s /\ s <> ""%string.

Lemma string_forall_impl (P Q : ascii -> Prop) s : (forall c, P c -> Q c) -> string_forall P s -> string_forall Q s.
Proof. intros HPQ. induction s as [|c s IH]; simpl; [done|]. intros [? ?]. auto. Qed.

Lemma name_chars_no_slash s : name_chars s -> no_slash s.
Proof. apply string_forall_impl. tauto. Qed.

Lemma random_plain s : random_name s -> plain s.
Proof.
  intros [Hc Hn]. split_and!; [by apply name_chars_no_slash|done|..]; intros ->; destruct Hc as [[_ Hc] _]; by destruct Hc.
Qed.

Lemma name_chars_app s t : name_chars (s +:+ t) <-> name_chars s /\ name_chars t.
Proof. apply string_forall_app. Qed.

(** A name with a suffix that has a dot is plain. *)
Lemma suffix_plain s t : random_name s -> no_slash t -> 2 < len t -> plain (s +:+ t).
Proof.
  intros [Hs Hn] Ht Hl. assert (2 < len (s +:+ t)) as Hlen.
  { rewrite len_append. pose proof (len_nonneg s). lia. }
  split; [apply string_forall_app; by split; [apply name_chars_no_slash|]|].
  split_and!; intros E; rewrite E in Hlen; by vm_compute in Hlen.
Qed.

(** The name before a suffix that starts with a dot. *)
Lemma suffix_inj s s' t t' :
  name_chars s -> name_chars s' -> (s +:+ String "." t = s' +:+ String "." t')%string -> s = s'.
Proof.
  unfold String.app. revert s'. induction s as [|c s IH]; intros [|c' s'] Hs Hs' E; simpl in *; [done|..].
  - injection E as <- _. by destruct Hs' as [[_ ?] _].
  - injection E as -> _. by destruct Hs as [[_ ?] _].
  - injection E as <- E. f_equal. apply IH; [apply Hs|apply Hs'|done].
Qed.

Lemma suffix_ne s s' t : name_chars s -> (s <> s' +:+ String "." t)%string.
Proof.
  intros Hs ->. apply name_chars_app in Hs as [_ [[_ Hd] _]]. by destruct Hd.
Qed.

Lemma substring_forall P n m s : string_forall P s -> string_forall P (String.substring n m s).
Proof.
  revert n m. induction s as [|c s IH]; intros n m Hs; [by destruct n, m|]. destruct Hs as [Hc Hs].
  destruct n, m; simpl; [done|split; auto|auto..].
Qed.

Lemma hex_digit_name n : 0 <= n < 16 -> hex_digit n <> slash /\ hex_digit n <> "."%char.
Proof.
  intros Hn. assert (Forall (fun n => hex_digit n <> slash /\ hex_digit n <> "."%char) (seqZ 0 16)) as Hall.
  { apply (bool_decide_unpack _). by vm_compute. }
  eapply (proj1 (Forall_forall _ _) Hall). apply elem_of_seqZ. lia.
Qed.

Lemma hex_name l : Forall is_byte l -> name_chars (hex_EncodeToString l).
Proof.
  unfold hex_EncodeToString, is_byte. induction 1 as [|b l Hb Hl IH]; [done|]. simpl.
  assert (0 <= b / 16 < 16) by (split; [apply Z.div_pos; lia|apply Z.div_lt_upper_bound; lia]).
  assert (0 <= b mod 16 < 16) by (apply Z.mod_pos_bound; lia).
  split; [by apply hex_digit_name|split; [by apply hex_digit_name|exact IH]].
Qed.

Lemma Forall_alter_byte (f : Z -> Z) i l :
  Forall (fun x => is_byte (f x)) (seqZ 0 256) -> Forall is_byte l -> Forall is_byte (alter f i l).
Proof.
  intros Hf Hl. apply Forall_alter; [done|]. intros x _ Hx. eapply (proj1 (Forall_forall _ _) Hf).
  apply elem_of_seqZ. unfold is_byte in Hx. lia.
Qed.

#[local] Instance is_byte_dec z : Decision (is_byte z).
Proof. unfold is_byte. apply _. Defined.

Lemma uuid_text_random b : Forall is_byte b -> random_name (uuid_text b).
Proof.
  intros Hb. split.
  - unfold uuid_text. rewrite !name_chars_app.
    assert (name_chars (hex_EncodeToString (alter (fun x => Z.lor (Z.land x 0x3f) 0x80) 8%nat
      (alter (fun x => Z.lor (Z.land x 0x0f) 0x40) 6%nat b)))) as Hh.
    { apply hex_name. apply Forall_alter_byte; [apply (bool_decide_unpack _); by vm_compute|].
      apply Forall_alter_byte; [apply (bool_decide_unpack _); by vm_compute|done]. }
    assert (name_chars "-") by (repeat split; done).
    split_and!; try done; by apply substring_forall.
  - unfold uuid_text, String.app. by destruct (String.substring 0 8 _).
Qed.

Lemma fmt_d_name z : name_chars (fmt_d z).
Proof. apply fmt_d_forall; [|done]. intros n. unfold pretty_N_char. by repeat case_match. Qed.

Lemma fmt_d_ne z : fmt_d z <> ""%string.
Proof.
  assert (forall x s, s <> ""%string -> pretty_N_go x s <> ""%string) as Hgo.
  { intros x. induction (N.lt_wf_0 x) as [x _ IH]; intros s Hs.
    destruct (decide (x = 0%N)) as [->|Hx]; [done|]. rewrite pretty_N_go_step by lia. apply IH; [|done].
    apply N.div_lt; lia. }
  assert (forall p, pretty (N.pos p) <> ""%string) as Hp.
  { intros p. unfold pretty, pretty_N. rewrite decide_False by done. rewrite pretty_N_go_step by lia. by apply Hgo. }
  destruct z as [|p|p]; [done|apply Hp|done].
Qed.

(** ** Rules of the calls *)

(** Only Redis, the memory of the process, the environment and the disk changed. *)
Definition beside (w w' : World) : Prop := db w' = db w /\ auto_inc w' = auto_inc w /\ queue w' = queue w.

#[export] Instance beside_preorder : PreOrder beside.
Proof. split; [by intros w|]. intros w1 w2 w3 (? & ? & ?) (? & ? & ?). split_and!; congruence. Qed.

Lemma outside_beside w w' : outside w w' -> beside w w'.
Proof. by intros (? & ? & ? & _). Qed.

Lemma quiet_read_disk {A} (f : Disk -> option A) : quiet (read_disk f).
Proof. intros w. unfold wp, read_disk. by destruct (f (disk w)). Qed.

Lemma quiet_look_disk {A} (f : Disk -> option A) : quiet (look_disk f).
Proof. apply quiet_bind; [apply quiet_call|intros _; apply quiet_read_disk]. Qed.

Lemma wp_look_disk {A} (f : Disk -> option A) (Q : A -> World -> Prop) E w :
  (forall a w', f (disk w) = Some a -> outside w w' -> Q a w') -> (forall e w', outside w w' -> E e w') ->
  wp (look_disk f) Q E w.
Proof.
  intros HQ HE. apply wp_bind. eapply wp_quiet; [apply quiet_call| |done]. intros _ w1 Ho.
  unfold wp, read_disk. rewrite (outside_disk _ _ Ho). destruct (f (disk w)) eqn:Hf; auto.
Qed.

Lemma wp_file_call f (Q : unit -> World -> Prop) E w :
  (forall d w', f (disk w) = Some d -> beside w w' -> disk w' = d -> Q tt w') ->
  (forall e w', outside w w' -> E e w') -> wp (file_call f) Q E w.
Proof.
  intros HQ HE. apply wp_bind. eapply wp_quiet; [apply quiet_call| |done]. intros _ w1 Ho.
  unfold wp, disk_step. rewrite (outside_disk _ _ Ho). destruct (f (disk w)) as [d|] eqn:Hf; [|by apply HE].
  apply (HQ d); [done| |done]. by apply outside_beside in Ho.
Qed.

(** [name] and what it resolves to. *)
Lemma resolve_Some name p : resolve name = Some p -> p = path_of name.
Proof. unfold resolve. destruct (String.eqb name ""); [done|]. by intros [= <-]. Qed.

Lemma wp_os_Rename old new (Q : unit -> World -> Prop) E w :
  (forall d w', rename (path_of old) (path_of new) (disk w) = Some d -> beside w w' -> disk w' = d -> Q tt w') ->
  (forall e w', outside w w' -> E e w') -> wp (os_Rename old new) Q E w.
Proof.
  intros HQ HE. apply wp_file_call; [|done]. intros d w' Hf.
  apply bind_Some in Hf as (p & ->%resolve_Some & (q & ->%resolve_Some & Hf)%bind_Some). by apply HQ.
Qed.

Lemma wp_os_Remove name (Q : unit -> World -> Prop) E w :
  (forall d w', remove (path_of name) (disk w) = Some d -> beside w w' -> disk w' = d -> Q tt w') ->
  (forall e w', outside w w' -> E e w') -> wp (os_Remove name) Q E w.
Proof.
  intros HQ HE. apply wp_file_call; [|done]. intros d w' Hf.
  apply bind_Some in Hf as (p & ->%resolve_Some & Hf). by apply HQ.
Qed.

Definition appended (p : Path) (part : string) (d : Disk) : Disk :=
  match d !! p with Some (File c) => <[p := File (c +:+ part)]> d | _ => d end.

Lemma appended_other p part d q : q <> p -> appended p part d !! q = d !! q.
Proof. intros Hq. unfold appended. destruct (d !! p) as [[|c]|]; [done| |done]. by rewrite lookup_insert_ne. Qed.

Lemma wp_path_Write p data (Q : unit -> World -> Prop) E w :
  (forall w', beside w w' -> disk w' = appended p data (disk w) -> Q tt w') ->
  (forall e w' part, beside w w' -> disk w' = appended p part (disk w) -> E e w') ->
  wp (path_Write p data) Q E w.
Proof.
  intros HQ HE. unfold path_Write. apply wp_bind, wp_attempt, wp_call_clock.
  - intros e He. by apply HQ.
  - intros t e He. simpl. eapply HE; done.
Qed.

Lemma wp_file_Write name data (Q : unit -> World -> Prop) E w :
  (forall w', beside w w' -> disk w' = appended (path_of name) data (disk w) -> Q tt w') ->
  (forall e w' part, beside w w' -> disk w' = appended (path_of name) part (disk w) -> E e w') ->
  wp (file_Write name data) Q E w.
Proof. apply wp_path_Write. Qed.

Lemma filter_lookup_keep (P : Path * node -> Prop) `{!forall x, Decision (P x)} (d : Disk) p :
  (forall n, P (p, n)) -> filter P d !! p = d !! p.
Proof. intros HP. apply option_eq. intros n. rewrite map_lookup_filter_Some. naive_solver. Qed.

Lemma wp_os_RemoveAll name (Q : unit -> World -> Prop) (E : error -> World -> Prop) w :
  (forall w', beside w w' -> (forall p, under (path_of name) p = false -> disk w' !! p = disk w !! p) -> Q tt w') ->
  (forall e w', beside w w' -> (forall p, under (path_of name) p = false -> disk w' !! p = disk w !! p) -> E e w') ->
  wp (os_RemoveAll name) Q E w.
Proof.
  intros HQ HE. unfold os_RemoveAll. destruct (resolve name) as [p|] eqn:Hp; [|by apply wp_ret, HQ].
  apply resolve_Some in Hp as ->. apply wp_bind, wp_attempt, wp_call_clock.
  - intros e He. apply HQ; [done|]. intros q Hq. apply filter_lookup_keep. by intros x.
  - intros t e He. simpl. apply HE; [done|]. intros q Hq. apply filter_lookup_keep.
    intros x. unfold removed_of. simpl. by rewrite Hq.
Qed.

(** ** Directories *)

Lemma child_child p a b : child (child p a) b = child p (a ++ b).
Proof. unfold child. simpl. by rewrite app_assoc. Qed.

(** Directories on the way to [p] were made. *)
Definition dirs_added (p : Path) (d d' : Disk) : Prop :=
  forall q, d' !! q = d !! q \/ d !! q = None /\ d' !! q = Some Dir /\ under q p = true.

Lemma dirs_added_refl p d : dirs_added p d d.
Proof. by left. Qed.

Lemma dirs_added_trans p d1 d2 d3 : dirs_added p d1 d2 -> dirs_added p d2 d3 -> dirs_added p d1 d3.
Proof.
  intros H12 H23 q. destruct (H12 q) as [E|(? & E & ?)], (H23 q) as [E'|(? & ? & ?)]; rewrite ?E' in *; auto.
  right. split; [congruence|done].
Qed.

Lemma dirs_added_dir p d d' q : dirs_added p d d' -> is_dir d q = true -> is_dir d' q = true.
Proof.
  intros Hd. unfold is_dir. destruct (forallb is_dots q.2); [done|]. simpl.
  destruct (Hd q) as [->|(-> & _)]; done.
Qed.

Lemma mkdir1_added p names d d' :
  mkdir1 p d = Some d' -> dirs_added (child p names) d d' /\ is_dir d' p = true.
Proof.
  unfold mkdir1. destruct (is_dir d p) eqn:Hd; [intros [= <-]; split; [apply dirs_added_refl|done]|].
  destruct (d !! p) eqn:Hp; [done|]. intros [= <-]. split.
  - intros q. destruct (decide (q = p)) as [->|Hq]; [|left; by rewrite lookup_insert_ne].
    right. rewrite lookup_insert_eq. split_and!; [done..|apply under_child].
  - unfold is_dir. rewrite lookup_insert_eq. apply orb_true_r.
Qed.

Definition all_dirs (p : Path) (names : list string) (d : Disk) : Prop :=
  forall pre suf, names = pre ++ suf -> pre <> [] -> is_dir d (child p pre) = true.

Lemma wp_mkdir_each p names w :
  wp (mkdir_each p names)
    (fun _ w' => beside w w' /\ dirs_added (child p names) (disk w) (disk w') /\ all_dirs p names (disk w'))
    (fun _ w' => beside w w' /\ dirs_added (child p names) (disk w) (disk w')) w.
Proof.
  revert p w. induction names as [|n names IH]; intros p w; simpl.
  - apply wp_ret. split_and!; [done|apply dirs_added_refl|]. intros pre suf E. by destruct pre.
  - assert (child p (n :: names) = child (child p [n]) names) as E by by rewrite child_child.
    apply wp_bind, wp_file_call.
    2: { intros e w' Ho. split; [by apply outside_beside|]. rewrite (outside_disk _ _ Ho). apply dirs_added_refl. }
    intros d w1 Hm Hb <-. apply (mkdir1_added _ names) in Hm as [Ha Hd]. rewrite <-E in Ha.
    eapply wp_mono; [apply IH|..]; rewrite <-E.
    + intros _ w2 (Hb2 & Ha2 & Hall). split_and!; [by etrans|by eapply dirs_added_trans|].
      intros [|m pre] suf Hp Hne; [done|]. injection Hp as <- Hp.
      destruct pre as [|m' pre]; [by eapply dirs_added_dir|].
      pose proof (Hall (m' :: pre) suf Hp) as Hd2. rewrite child_child in Hd2. by apply Hd2.
    + intros e w2 (Hb2 & Ha2). split; [by etrans|by eapply dirs_added_trans].
Qed.

Lemma wp_os_MkdirAll name (Q : unit -> World -> Prop) (E : error -> World -> Prop) w :
  (forall w', beside w w' -> dirs_added (path_of name) (disk w) (disk w') ->
     all_dirs ((path_of name).1, []) (path_of name).2 (disk w') -> Q tt w') ->
  (forall e w', beside w w' -> dirs_added (path_of name) (disk w) (disk w') -> E e w') ->
  wp (os_MkdirAll name) Q E w.
Proof.
  intros HQ HE. unfold os_MkdirAll. destruct (resolve name) as [p|] eqn:Hp.
  2: { apply wp_throw, HE; [done|apply dirs_added_refl]. }
  apply resolve_Some in Hp as ->. assert (child ((path_of name).1, []) (path_of name).2 = path_of name) as E' by done.
  eapply wp_mono; [apply wp_mkdir_each|..]; rewrite E'.
  - intros [] w' (? & ? & ?). by apply HQ.
  - intros e w' (? & ?). by apply HE.
Qed.

(** ** Temporary files *)

(** The name of a temporary file: nothing was there. *)
Definition temp_name (dir prefix name : string) : Prop :=
  exists z, name = (dir +:+ "/" +:+ prefix +:+ fmt_d z)%string.

Lemma wp_create_temp fuel dir prefix (Q : string -> World -> Prop) (E : error -> World -> Prop) w :
  (forall name w', temp_name dir prefix name -> disk w !! path_of name = None -> beside w w' ->
     disk w' = <[path_of name := File ""]> (disk w) -> Q name w') ->
  (forall e w', outside w w' -> E e w') -> wp (create_temp fuel dir prefix) Q E w.
Proof.
  revert w. induction fuel as [|fuel IH]; intros w HQ HE; simpl; [by apply wp_throw, HE|].
  assert (wp temp_number (fun r w' => (exists z, r = fmt_d z) /\ outside w w') (fun _ w' => outside w w') w) as Hr.
  { unfold temp_number, wp. simpl. split; [by eexists|done]. }
  apply wp_bind. eapply wp_mono; [exact Hr| |done]. intros r w1 ((z & ->) & Ho).
  apply wp_bind, wp_look_disk; [|intros e w2 Ho2; apply HE; by etrans]. intros taken w2 [= Ht] Ho2.
  assert (outside w w2) as Hw2 by by etrans. rewrite (outside_disk _ _ Ho) in Ht.
  destruct taken.
  - apply IH; [|intros e w' Ho'; apply HE; by etrans]. rewrite (outside_disk _ _ Hw2).
    intros name w' Hn Hnone Hb Hd. apply HQ; [done..| |done]. etrans; [by apply outside_beside|done].
  - apply wp_bind. unfold wp at 1, disk_step. rewrite (outside_disk _ _ Hw2). unfold create_at.
    destruct (is_dir _ (parent _) && _); [|by apply HE].
    apply wp_ret, HQ; [by eexists| |by apply outside_beside in Hw2|done].
    unfold exists_at in Ht. apply orb_false_iff in Ht as [_ Ht]. by destruct (_ !! _).
Qed.

Lemma wp_defer {A} (m : M A) last (Q : A -> World -> Prop) (E : error -> World -> Prop) w :
  wp m (fun a w' => wp last (fun _ => Q a) (fun _ => Q a) w') (fun e w' => wp last (fun _ => E e) (fun _ => E e) w') w ->
  wp (defer m last) Q E w.
Proof.
  intros Hm. unfold defer. apply wp_bind, wp_attempt. eapply wp_mono; [exact Hm|..]; simpl.
  - intros a w' Hl. apply wp_bind, wp_attempt. eapply wp_mono; [exact Hl|..]; done.
  - intros e w' Hl. apply wp_bind, wp_attempt. eapply wp_mono; [exact Hl|..]; done.
Qed.

(** ** The quiet parts of the handlers *)

Lemma wp_cacheUpload u (Q : unit -> World -> Prop) E w :
  (forall w', outside w w' -> Q tt w') -> wp (cacheUpload u) Q E w.
Proof.
  intros HQ. unfold cacheUpload. apply wp_bind, wp_time_now. intros now e Hn He.
  assert (outside w (with_env w e)) as Ho by (apply outside_env; unfold clock_of; lia).
  cbv zeta. destruct (_ <=? 0); [by apply wp_ret, HQ|]. apply wp_bind, wp_withRedis_quiet; [apply quiet_request|].
  intros r w' Ho'. apply wp_ret, HQ. by etrans.
Qed.

Lemma cacheUpload_quiet u : quiet (cacheUpload u).
Proof. intros w. by apply wp_cacheUpload. Qed.

(** * The files that rows stand for

    [files_ok]: the row of an upload says where its file is, and if there is a file, it is the
    one the client declared; a video that was published here has its file, the one of its
    upload. The files of uploads and videos are the guarded ones; everything else that the
    handlers write stays apart from them. *)

(** ** Guarded paths *)

Section Guarded.
Variable cfg : Config.

Definition base : Path := path_of (cf_DataDir cfg).

Definition mp4 (name : string) : string := (name +:+ ".mp4")%string.
Definition upload_path (id : string) : Path := child base ["tmp"; mp4 id]%string.
Definition video_path (name : string) : Path := child base ["media"; "videos"; mp4 name]%string.

Definition guarded (p : Path) : Prop :=
  exists name, random_name name /\ (p = upload_path name \/ p = video_path name).

(** The first names below the data directory of what is not at, above or below a guarded path. *)
Definition clear_names (names : list string) : Prop :=
  match names with
  | first :: second :: _ =>
      first = "tmp"%string /\ (forall n, random_name n -> second <> mp4 n) \/
      first = "media"%string /\ second <> "videos"%string
  | _ => False
  end.

Definition clear (p : Path) : Prop := exists names, p = child base names /\ clear_names names.

(** A directory that may be made. *)
Definition clear_dir (p : Path) : Prop := clear p \/ p = child base ["media"; "videos"]%string \/ p = child base ["media"]%string.

Lemma under_base names names' : under (child base names) (child base names') = true -> exists rest, names' = names ++ rest.
Proof.
  unfold under, child. simpl. rewrite eqb_reflx. simpl. intros [rest Hr]%bool_decide_eq_true.
  rewrite <-app_assoc in Hr. apply app_inv_head in Hr. by exists rest.
Qed.

Lemma clear_under p q : clear p -> guarded q -> under p q = false.
Proof.
  intros (names & -> & Hc) (n & Hn & Hq). destruct (under _ q) eqn:Hu; [|done]. exfalso.
  destruct names as [|first [|second names]]; [done..|].
  destruct Hq as [-> | ->]; apply under_base in Hu as [rest E]; injection E as <- <- _;
    destruct Hc as [[Hf Hc]|[Hf Hc]]; try done; by apply (Hc n).
Qed.

Lemma clear_dir_under p q : clear_dir p -> guarded q -> under q p = false.
Proof.
  intros Hp (n & Hn & Hq). destruct (under q p) eqn:Hu; [|done]. exfalso.
  destruct Hp as [(names & -> & Hc)|[->| ->]].
  - destruct names as [|first [|second names]]; [done..|].
    destruct Hq as [-> | ->]; apply under_base in Hu as [rest E]; injection E as -> -> _;
      destruct Hc as [[Hf Hc]|[Hf Hc]]; try done; by apply (Hc n).
  - destruct Hq as [-> | ->]; by apply under_base in Hu as [rest E].
  - destruct Hq as [-> | ->]; by apply under_base in Hu as [rest E].
Qed.

Lemma clear_ne p q : clear p -> guarded q -> q <> p.
Proof. intros Hp Hq. by apply under_false_ne, clear_under. Qed.

Lemma name_clear x names : name_chars x -> clear (child base ("tmp" :: x :: names)%string).
Proof. intros Hx. eexists. split; [done|]. left. split; [done|]. intros n _. by apply suffix_ne. Qed.

Lemma media_clear x names : x <> "videos"%string -> clear (child base ("media" :: x :: names)%string).
Proof. intros Hx. eexists. split; [done|]. by right. Qed.

(** ** Disks that agree on the guarded paths *)

Definition same_guarded (d d' : Disk) : Prop := forall p, guarded p -> d' !! p = d !! p.

#[export] Instance same_guarded_preorder : PreOrder same_guarded.
Proof.
  split; [by intros d p|]. intros d1 d2 d3 H12 H23 p Hp. by rewrite H23, H12.
Qed.

(** What does not speak of other paths, nor of Redis and the environment. *)
Definition stable (J : World -> Prop) : Prop :=
  forall w w', J w -> beside w w' -> same_guarded (disk w) (disk w') -> J w'.

Section Stable.
Context (J : World -> Prop) (HJ : stable J).

Lemma stable_outside w w' : J w -> outside w w' -> J w'.
Proof. intros Hw Ho. apply (HJ w); [done|by apply outside_beside|]. by rewrite (outside_disk _ _ Ho). Qed.

Lemma quiet_maintains {A} (m : M A) : quiet m -> maintains J (fun _ => True) m.
Proof.
  intros Hm w Hw. apply wp_quiet; [done|..]; intros ? w' Ho; [split; [|done]|]; by eapply stable_outside.
Qed.

Lemma mkdir_maintains name : clear_dir (path_of name) -> maintains J (fun _ => True) (os_MkdirAll name).
Proof.
  intros Hc w Hw.
  assert (forall w', beside w w' -> dirs_added (path_of name) (disk w) (disk w') -> J w') as Hk.
  { intros w' Hb Hd. apply (HJ w); [done..|]. intros p Hp. destruct (Hd p) as [|(_ & _ & Hu)]; [done|].
    by rewrite (clear_dir_under _ _ Hc Hp) in Hu. }
  apply wp_os_MkdirAll; eauto.
Qed.

Lemma remove_maintains name : clear (path_of name) -> maintains J (fun _ => True) (os_Remove name).
Proof.
  intros Hc w Hw. apply wp_os_Remove; [|intros e w' Ho; by eapply stable_outside].
  intros d w' Hr Hb <-. split; [|done]. apply (HJ w); [done..|]. intros p Hp.
  eapply remove_other; [exact Hr|by apply clear_ne].
Qed.

Lemma write_maintains name data : clear (path_of name) -> maintains J (fun _ => True) (file_Write name data).
Proof.
  intros Hc w Hw.
  assert (forall w' part, beside w w' -> disk w' = appended (path_of name) part (disk w) -> J w') as Hk.
  { intros w' part Hb Hd. apply (HJ w); [done..|]. intros p Hp. rewrite Hd. by apply appended_other, clear_ne. }
  apply wp_file_Write; eauto.
Qed.

Lemma rename_maintains old new :
  clear (path_of old) -> clear (path_of new) -> maintains J (fun _ => True) (os_Rename old new).
Proof.
  intros Ho Hn w Hw. apply wp_os_Rename; [|intros e w' Hw'; by eapply stable_outside].
  intros d w' Hr Hb <-. split; [|done]. apply (HJ w); [done..|]. intros p Hp.
  eapply rename_other; [exact Hr|by apply clear_under..].
Qed.

Lemma removeall_maintains name : clear (path_of name) -> maintains J (fun _ => True) (os_RemoveAll name).
Proof.
  intros Hc w Hw.
  assert (forall w', beside w w' -> (forall p, under (path_of name) p = false -> disk w' !! p = disk w !! p) -> J w') as Hk.
  { intros w' Hb Hd. apply (HJ w); [done..|]. intros p Hp. by apply Hd, clear_under. }
  apply wp_os_RemoveAll; eauto.
Qed.

Lemma create_maintains name : clear (path_of name) -> maintains J (fun _ => True)
  (file_call (fun d => p ← resolve name; create_at p d)).
Proof.
  intros Hc w Hw. apply wp_file_call; [|intros e w' Ho; by eapply stable_outside].
  intros d w' (p & ->%resolve_Some & Hf)%bind_Some Hb <-. split; [|done]. apply (HJ w); [done..|]. intros p Hp.
  unfold create_at in Hf. destruct (_ && _); [|done]. injection Hf as <-.
  by rewrite lookup_insert_ne; [|apply not_eq_sym, clear_ne].
Qed.

Lemma writefile_maintains name data : clear (path_of name) -> maintains J (fun _ => True) (os_WriteFile name data).
Proof.
  intros Hc. eapply maintains_bind; [by apply create_maintains|]. intros _ _. by apply write_maintains.
Qed.

(** A temporary file under a directory whose children with this prefix are clear. *)
Lemma temp_maintains dir prefix :
  (forall name, temp_name dir prefix name -> clear (path_of name)) ->
  maintains J (fun name => temp_name dir prefix name) (os_CreateTemp dir prefix).
Proof.
  intros Hc w Hw. apply wp_create_temp; [|intros e w' Ho; by eapply stable_outside].
  intros name w' Hn _ Hb Hd. split; [|done]. apply (HJ w); [done..|]. intros p Hp. rewrite Hd.
  by rewrite lookup_insert_ne; [|apply not_eq_sym, clear_ne; [apply Hc|]].
Qed.

Lemma defer_maintains {A} (Q : A -> Prop) (m : M A) last :
  maintains J Q m -> maintains J (fun _ => True) last -> maintains J Q (defer m last).
Proof.
  intros Hm Hl w Hw. apply wp_defer. eapply wp_mono; [by apply Hm|..].
  - intros a w' [Hw' Ha]. eapply wp_mono; [by apply Hl|..]; [intros _ w'' [? _]|]; done.
  - intros e w' Hw'. eapply wp_mono; [by apply Hl|..]; [intros _ w'' [? _]|]; done.
Qed.
End Stable.

(** ** The names that the code makes *)

Lemma plain_word s : no_slash s -> 2 < len s -> plain s.
Proof. intros Hs Hl. split; [done|]. split_and!; intros ->; by vm_compute in Hl. Qed.

Lemma tmp_plain : plain "tmp".
Proof. by repeat split. Qed.

Lemma mp4_plain name : random_name name -> plain (mp4 name).
Proof. intros Hn. apply suffix_plain; [done|by repeat split|done]. Qed.

Lemma upload_dir_path u : random_name (ul_ID u) -> path_of (upload_dir cfg u) = child base ["tmp"; ul_ID u]%string.
Proof.
  intros Hu. apply path_of_names; [done|]. constructor; [apply tmp_plain|]. constructor; [by apply random_plain|done].
Qed.

Lemma upload_dir_ne u : upload_dir cfg u <> ""%string.
Proof.
  unfold upload_dir. erewrite Join_filtered; [apply Clean_ne|done|]. rewrite filter_cons.
  destruct (decide (cf_DataDir cfg <> ""%string)); [done|]. rewrite filter_cons_True by done. done.
Qed.

Lemma fmt_0d_random n i : 0 <= i -> random_name (fmt_0d n i).
Proof.
  intros Hi. unfold fmt_0d. destruct (Z.ltb_spec i 0); [lia|]. unfold pad_zeros. split.
  - apply name_chars_app. split; [|apply fmt_d_name]. induction (n - _)%nat; [done|]. by repeat split.
  - intros E. apply (fmt_d_ne i). by destruct (String.string_of_list_ascii _).
Qed.

Lemma chunk_path u i : random_name (ul_ID u) -> 0 <= i ->
  path_of (chunk_name (upload_dir cfg u) i) = child base ["tmp"; ul_ID u; fmt_0d 3 i]%string.
Proof.
  intros Hu Hi. unfold chunk_name. rewrite path_of_names.
  - rewrite upload_dir_path by done. by rewrite child_child.
  - done.
  - constructor; [by apply random_plain, fmt_0d_random|done].
Qed.

(** Temporary files. *)
Lemma prefix_random prefix z : name_chars prefix -> random_name (prefix +:+ fmt_d z).
Proof.
  intros Hp. split; [apply name_chars_app; split; [done|apply fmt_d_name]|].
  intros E. apply (fmt_d_ne z). by destruct prefix.
Qed.

Lemma incoming_path u name : random_name (ul_ID u) -> temp_name (upload_dir cfg u) "incoming-" name ->
  exists z, path_of name = child base ["tmp"; ul_ID u; ("incoming-" +:+ fmt_d z)]%string.
Proof.
  intros Hu (z & ->). exists z. rewrite path_of_slash; [|apply upload_dir_ne|].
  - rewrite upload_dir_path by done. by rewrite child_child.
  - by apply random_plain, prefix_random.
Qed.

Definition tmp_dir : string := filepath_Join [cf_DataDir cfg; "tmp"]%string.

Lemma assembled_path name : temp_name tmp_dir "assembled-" name ->
  exists z, path_of name = child base ["tmp"; ("assembled-" +:+ fmt_d z)]%string.
Proof.
  intros (z & ->). exists z. rewrite path_of_slash.
  - unfold tmp_dir. rewrite path_of_names; [by rewrite child_child|done|by constructor; [apply tmp_plain|]].
  - by apply Join_ne.
  - by apply random_plain, prefix_random.
Qed.

Definition stored_name (id : string) : string := filepath_Join [cf_DataDir cfg; "tmp"; id +:+ ".mp4"]%string.

Lemma stored_path id : random_name id -> path_of (stored_name id) = upload_path id.
Proof.
  intros Hi. apply path_of_names; [done|]. constructor; [apply tmp_plain|]. constructor; [by apply mp4_plain|done].
Qed.

Lemma upload_path_inj i j : random_name i -> random_name j -> upload_path i = upload_path j -> i = j.
Proof.
  intros [Hi _] [Hj _] E. injection E as E. apply app_inv_head in E. injection E as E. by eapply suffix_inj.
Qed.

Lemma video_path_inj i j : random_name i -> random_name j -> video_path i = video_path j -> i = j.
Proof.
  intros [Hi _] [Hj _] E. injection E as E. apply app_inv_head in E. injection E as E. by eapply suffix_inj.
Qed.

Lemma upload_video_ne i j : upload_path i <> video_path j.
Proof. intros E. injection E as E. by apply app_inv_head in E. Qed.

End Guarded.

(** ** The invariant *)

Section FilesOk.
Context `{Collation, !CollationLaws}.
Variable cfg : Config.

(** The file that the row of an upload declares. *)
Definition whole (u : UploadModel) (c : string) : Prop :=
  len c = ul_Size u /\ md5_is c (ul_FileMD5 u) = true /\ is_mp4 c = true.

(** The video has its file: that of a published upload of its author. *)
Definition has_file (d : Tables) (f : Disk) (v : VideoModel) : Prop :=
  exists name u c, random_name name /\ vm_FilePath v = ("videos/" +:+ mp4 name)%string /\
    f !! video_path cfg name = Some (File c) /\ uploads (extension d) !! collate (ul_ID u) = Some u /\
    ul_Published u = true /\ whole u c /\ ul_UserID u = vm_AuthorID v /\ ul_Size u = vm_Size v.

(** What an upload that was completed has stored, if it is there. *)
Definition stored_whole (f : Disk) (u : UploadModel) : Prop :=
  if ul_Completed u
  then ul_StoredPath u = stored_name cfg (ul_ID u) /\
    forall n, f !! upload_path cfg (ul_ID u) = Some n -> exists c, n = File c /\ whole u c
  else ul_StoredPath u = ""%string /\ ul_Published u = false.

Record files_ok (d : Tables) (f : Disk) : Prop := {
  fo_upload : forall k u, uploads (extension d) !! k = Some u -> k = collate (ul_ID u) /\ random_name (ul_ID u);
  fo_stored : forall k u, uploads (extension d) !! k = Some u -> stored_whole f u;
  fo_video : forall id v, video d !! id = Some v -> vm_FilePath v <> ""%string -> has_file d f v;
}.

(** The uploads are as they were, and no video got another file. *)
Definition kept_files (d d' : Tables) : Prop :=
  uploads (extension d') = uploads (extension d) /\
  forall id v', video d' !! id = Some v' -> vm_FilePath v' = ""%string \/
    exists v, video d !! id = Some v /\ vm_FilePath v' = vm_FilePath v /\ vm_AuthorID v' = vm_AuthorID v /\
      vm_Size v' = vm_Size v.

#[export] Instance kept_files_preorder : PreOrder kept_files.
Proof.
  split.
  - intros d. split; [done|]. intros id v Hv. right. by exists v.
  - intros d1 d2 d3 [E1 H1] [E2 H2]. split; [congruence|]. intros id v3 [?|(v2 & Hv2 & F2 & A2 & S2)]%H2; [by left|].
    destruct (H1 _ _ Hv2) as [Hv|(v1 & Hv1 & F1 & A1 & S1)]; [left; congruence|]. right. exists v1.
    split_and!; congruence.
Qed.

Lemma kept_same d d' : uploads (extension d') = uploads (extension d) -> video d' = video d -> kept_files d d'.
Proof. intros E Ev. split; [done|]. intros id v. rewrite Ev. intros Hv. right. by exists v. Qed.

Lemma kept_video d f :
  (forall id v', f (video d) !! id = Some v' -> vm_FilePath v' = ""%string \/
     exists v, video d !! id = Some v /\ vm_FilePath v' = vm_FilePath v /\ vm_AuthorID v' = vm_AuthorID v /\
       vm_Size v' = vm_Size v) -> kept_files d (set_video f d).
Proof. done. Qed.

Lemma kept_alter d g id :
  (forall v, vm_FilePath (g v) = vm_FilePath v /\ vm_AuthorID (g v) = vm_AuthorID v /\ vm_Size (g v) = vm_Size v) ->
  kept_files d (set_video (alter g id) d).
Proof.
  intros Hg. apply kept_video. intros j v'. destruct (decide (j = id)) as [->|Hj].
  - rewrite lookup_alter_eq. intros (v & Hv & ->)%fmap_Some. right. exists v. by destruct (Hg v) as (? & ? & ?).
  - rewrite lookup_alter_ne by done. intros Hv. right. by exists v'.
Qed.

Lemma has_file_kept d d' f f' v :
  has_file d f v -> uploads (extension d') = uploads (extension d) -> same_guarded cfg f f' -> has_file d' f' v.
Proof.
  intros (name & u & c & Hn & Hp & Hf & Hu & Hr) E Hs. exists name, u, c. rewrite E.
  rewrite (Hs (video_path cfg name)) by (exists name; auto). split_and!; try done; apply Hr.
Qed.

Lemma files_frame d d' f f' : files_ok d f -> kept_files d d' -> same_guarded cfg f f' -> files_ok d' f'.
Proof.
  intros [Hu Hst Hv] [E Hk] Hs. split.
  - by rewrite E.
  - rewrite E. intros k u Hku. pose proof (Hst _ _ Hku) as Hw. unfold stored_whole in *.
    destruct (ul_Completed u); [|done]. rewrite (Hs (upload_path cfg (ul_ID u))); [done|].
    exists (ul_ID u). split; [by eapply Hu|auto].
  - intros id v' Hv' Hne. destruct (Hk _ _ Hv') as [|(v & Hid & Fv & Av & Sv)]; [done|].
    rewrite Fv in Hne. destruct (has_file_kept d d' f f' v (Hv _ _ Hid Hne) E Hs)
      as (name & u & c & Hn & Hp & Hf & Hup & Hpu & Hw & Hau & Hsz).
    exists name, u, c. split_and!; try done; congruence.
Qed.

Definition media_ok (w : World) : Prop := files_ok (db w) (disk w).

Lemma media_stable : stable cfg media_ok.
Proof. intros w w' Hw (E & _ & _) Hs. unfold media_ok. rewrite E. by eapply files_frame. Qed.

End FilesOk.

#[export] Hint Extern 1 (kept_files _ _) => apply kept_same; reflexivity : changes.

(** * Every request keeps the files of videos

    The steps that do not work on files leave the uploads, the file names of videos and the
    disk alone; the handlers of uploads keep [files_ok] at every moment. *)

(** ** Steps without files *)
Section Steps.
Context `{Collation, !CollationLaws}.

Notation keeps_files := (changes_by kept_files).

Lemma SaveVideo_files v : keeps_files (VideoRepo.Save v).
Proof.
  changes_solve. apply kept_video. intros id v' [[<- <-]|[_ Hv]]%lookup_insert_Some; [by left|].
  right. by exists v'.
Qed.

Lemma UpdateStatus_files v : keeps_files (VideoRepo.UpdateStatus v).
Proof. changes_solve. by apply kept_alter. Qed.

Lemma SaveExposures_files xs : keeps_files (ExposureRepo.SaveExposures xs).
Proof.
  assert (forall ys, keeps_files (ExposureRepo.save_exposures ys)) as Hs.
  { induction ys as [|[y|] ys IH]; simpl; [apply changes_ret, _| |exact IH].
    apply changes_bind; [apply _|changes_solve|]. intros a. apply changes_bind; [apply _|exact IH|].
    intros b. apply changes_ret, _. }
  unfold ExposureRepo.SaveExposures. destruct xs; [apply changes_ret, _|]. apply changes_transaction; [apply _|apply Hs].
Qed.

Lemma insert_tags_files id tags : keeps_files (insert_tags id tags).
Proof.
  induction tags as [|tag tags IH]; simpl; [apply changes_ret, _|].
  apply changes_bind; [apply _|changes_solve|intros _; exact IH].
Qed.

Lemma moderate_files (U : Unicode) id b : keeps_files (adminUpdateVideo_tx id b).
Proof.
  unfold adminUpdateVideo_tx. apply changes_transaction; [apply _|].
  apply changes_bind; [apply _|changes_solve|]. intros v. apply changes_bind; [apply _|changes_solve|]. intros now.
  cbv zeta. apply changes_bind; [apply _|unfold update; changes_solve; by apply kept_alter|]. intros _.
  apply changes_bind; [apply _| |intros _; changes_solve].
  unfold retag. destruct (vb_Title b), (vb_Description b); try apply changes_ret, _;
    (apply changes_bind; [apply _|changes_solve|intros _; apply insert_tags_files]).
Qed.

Lemma plain_step_files w w' : plain_step w w' -> kept_files (db w) (db w') /\ disk w' = disk w.
Proof.
  destruct 1; try done;
    lazymatch goal with |- _ /\ disk (after ?m ?w) = _ => apply (fun Hm : keeps_files m => Hm w) end;
    first [apply SaveVideo_files|apply UpdateStatus_files|apply SaveExposures_files|apply moderate_files|changes_solve].
Qed.

Lemma plain_steps_files w w' : rtc plain_step w w' -> kept_files (db w) (db w') /\ disk w' = disk w.
Proof.
  induction 1 as [w|w1 w2 w3 [K1 D1]%plain_step_files _ [K2 D2]]; [done|]. split; [by etrans|congruence].
Qed.

End Steps.

(** ** Changes of one upload *)
Section Handlers.
Context `{Collation, !CollationLaws} `{Unicode} `{UUID}.
Variable cfg : Config.

Lemma files_at d g f k :
  files_ok cfg d f ->
  (forall j, j <> k -> g (uploads (extension d)) !! j = uploads (extension d) !! j) ->
  (forall u, uploads (extension d) !! k = Some u -> ul_Published u = false) ->
  (forall u, g (uploads (extension d)) !! k = Some u ->
     k = collate (ul_ID u) /\ random_name (ul_ID u) /\ stored_whole cfg f u) ->
  files_ok cfg (set_extension (set_uploads g) d) f.
Proof.
  intros [Hu Hst Hv] Hother Hold Hnew. split; simpl.
  - intros j u Hj. destruct (decide (j = k)) as [->|Hne]; [by apply Hnew in Hj as (? & ? & _)|].
    rewrite Hother in Hj by done. by apply Hu.
  - intros j u Hj. destruct (decide (j = k)) as [->|Hne]; [by apply Hnew in Hj as (_ & _ & ?)|].
    rewrite Hother in Hj by done. by eapply Hst.
  - intros id v Hid Hne. destruct (Hv _ _ Hid Hne) as (name & u & c & Hn & Hp & Hf & Hup & Hpu & Hr).
    exists name, u, c. split_and!; try done; try apply Hr. simpl.
    rewrite Hother; [done|]. intros E. rewrite <-E in Hold. apply Hold in Hup. congruence.
Qed.

Lemma uuid_maintains J : stable cfg J -> maintains J random_name uuid_NewString.
Proof.
  intros HJ w Hw. unfold wp. cbn. split; [by apply (stable_outside cfg J HJ w)|].
  apply uuid_text_random, Forall_take, Forall_app. split; [apply string_bytes_range|].
  by apply Forall_replicate.
Qed.

(** [uploadFor] for a method that is not GET: the row comes from the database. *)
Lemma wp_uploadFor uid id w :
  wp (uploadFor false uid id)
    (fun r w' => outside w w' /\
       match r with
       | inr u => owned_upload uid id (db w) = Some u
       | inl resp => rs_Status resp ∈ [400; 404; 410]
       end) (fun _ _ => False) w.
Proof.
  unfold uploadFor. destruct (negb (uuid_Parse id)); [apply wp_ret; split; [done|set_solver]|]. simpl.
  unfold upload_from_db. apply wp_bind, wp_attempt, wp_take_row_clock.
  2: { intros e He _. simpl. apply wp_ret. split; [by apply outside_env; unfold clock_of; rewrite He|set_solver]. }
  2: { intros t e He. simpl. apply wp_ret. split; [by apply outside_env; unfold clock_of; rewrite He|set_solver]. }
  intros u e He Hu. simpl. apply wp_bind, wp_time_now. intros now e2 Hn He2.
  set (w2 := with_env _ _). assert (outside w w2) as Ho2.
  { unfold w2. simpl in *. etrans; apply outside_env; unfold clock_of; simpl; lia. }
  destruct (24 * hour <? _); [apply wp_ret; split; [done|set_solver]|].
  apply wp_bind, wp_cacheUpload. intros w3 Ho3. apply wp_ret. split; [by etrans|done].
Qed.

Lemma owned_lookup uid id d u : owned_upload uid id d = Some u ->
  uploads (extension d) !! collate id = Some u /\ ul_UserID u = uid.
Proof.
  unfold owned_upload. intros (x & Hx & Hu)%bind_Some. destruct (Z.eqb_spec (ul_UserID x) uid); [|done].
  by injection Hu as <-.
Qed.

Notation safe := (maintains (media_ok cfg) (fun _ => True)).

Lemma quiet_safe {A} (m : M A) : quiet m -> safe m.
Proof. intros Hm. by apply (quiet_maintains cfg); [apply media_stable|]. Qed.

Lemma update_safe f :
  (forall d k, files_ok cfg d k -> files_ok cfg (f d) k) -> safe (update f).
Proof.
  intros Hf w Hw. apply wp_update; [intros e; split; [by apply Hf|done]|done].
Qed.

(** ** [initUpload], [uploadStatus], images *)

Lemma create_upload_safe uid md5 size chunks id : random_name id -> safe (create_upload uid md5 size chunks id).
Proof.
  intros Hid w Hw. apply wp_insert_keyed; [|done|done]. intros t e _ Hdup. split; [|done].
  simpl in Hdup. apply bool_decide_eq_false, eq_None_not_Some in Hdup.
  apply (files_at _ _ _ (collate id)); [done|..].
  - intros j Hj. by rewrite lookup_insert_ne.
  - simpl. intros u Hu. congruence.
  - intros u. rewrite lookup_insert_eq. by intros [= <-].
Qed.

Lemma reusable_quiet uid hash size chunks : quiet (reusable_upload uid hash size chunks).
Proof. unfold reusable_upload, redis_get_string. quiet_solve. Qed.

Lemma initUpload_safe uid body free : safe (initUpload cfg uid body free).
Proof.
  unfold initUpload. destruct body as [b|]; [|by apply maintains_ret].
  destruct (negb (init_ok b)); [by apply maintains_ret|]. destruct (negb (hex_valid _)); [by apply maintains_ret|].
  cbv zeta. eapply maintains_bind; [apply quiet_safe, reusable_quiet|]. intros [u|] _.
  { apply quiet_safe. apply quiet_bind; [apply cacheUpload_quiet|]. intros _. apply quiet_ret. }
  eapply maintains_bind; [apply quiet_safe; quiet_solve|]. intros used _.
  destruct (_ <? int64_of _); [by apply maintains_ret|]. destruct (match free with Some _ => _ | None => _ end); [by apply maintains_ret|].
  eapply maintains_bind; [apply uuid_maintains, media_stable|]. intros id Hid.
  eapply maintains_bind; [by apply maintains_try, create_upload_safe|]. intros [e|u] _; [by apply maintains_ret|].
  apply quiet_safe. apply quiet_bind; [apply cacheUpload_quiet|]. intros _. apply quiet_ret.
Qed.

Lemma uploadFor_quiet get uid id : quiet (uploadFor get uid id).
Proof.
  assert (quiet (upload_from_db uid id)) as Hd.
  { unfold upload_from_db. quiet_solve. apply cacheUpload_quiet. }
  unfold uploadFor, redis_get_string. quiet_solve.
Qed.

Lemma uploadStatus_safe uid id : safe (uploadStatus cfg uid id).
Proof.
  assert (forall dir l, quiet (stat_chunks dir l)) as Hs.
  { intros dir l. induction l as [|i l IH]; simpl; [apply quiet_ret|].
    apply quiet_bind; [apply quiet_attempt, quiet_look_disk|]. intros r. apply quiet_bind; [done|].
    intros k. apply quiet_ret. }
  apply quiet_safe. unfold uploadStatus. apply quiet_bind; [apply uploadFor_quiet|]. intros [r|u]; [apply quiet_ret|].
  apply quiet_bind; [apply Hs|]. intros l. apply quiet_ret.
Qed.

Lemma saveImage_safe file folder names :
  path_of (filepath_Join [cf_DataDir cfg; folder]) = child (base cfg) names -> names <> [] ->
  clear cfg (child (base cfg) names) ->
  (forall x, clear cfg (child (base cfg) (names ++ [x]))) -> safe (saveImage cfg file folder).
Proof.
  intros Hp Hne Hc Hx. unfold saveImage. destruct file as [b|]; [|apply maintains_throw].
  destruct (_ <? len b); [apply maintains_throw|]. destruct (image_ext b) as [ext|] eqn:Hext; [|apply maintains_throw].
  cbv zeta. eapply maintains_bind.
  { apply (mkdir_maintains cfg); [apply media_stable|]. rewrite Hp. by left. }
  intros _ _. eapply maintains_bind; [apply uuid_maintains, media_stable|]. intros id Hid.
  eapply maintains_bind; [|intros _ _; by apply maintains_ret].
  apply (writefile_maintains cfg); [apply media_stable|]. rewrite path_of_names; [by rewrite Hp, child_child|done|].
  constructor; [|done]. apply suffix_plain; [done|..]; unfold image_ext in Hext; repeat case_match; try done;
    injection Hext as <-; by repeat split.
Qed.

Lemma set_avatar_files uid url d f : files_ok cfg d f -> files_ok cfg (set_avatar uid url d) f.
Proof. intros Hok. eapply files_frame; [exact Hok|by apply kept_same|done]. Qed.

Lemma uploadAvatar_safe uid file : safe (uploadAvatar cfg uid file).
Proof.
  unfold uploadAvatar. eapply maintains_bind.
  { apply maintains_try, (saveImage_safe _ _ ["media"; "avatars"]%string); [|done|by apply media_clear|intros x; by apply media_clear].
    rewrite path_of_parts; [done|done|]. constructor; [|done]. by repeat constructor. }
  intros [e|path] _; [by apply maintains_ret|]. cbv zeta.
  eapply maintains_bind; [apply maintains_try, update_safe; by apply set_avatar_files|]. intros r _.
  destruct (is_err r); [by apply maintains_ret|]. apply quiet_safe.
  apply quiet_bind; [apply invalidateAuthor_quiet|]. intros _. apply quiet_ret.
Qed.

Lemma fmt_d_random z : random_name (fmt_d z).
Proof. split; [apply fmt_d_name|apply fmt_d_ne]. Qed.

Lemma uploadCover_safe uid file : safe (uploadCover cfg uid file).
Proof.
  assert (Forall plain ["tmp"; "covers"; fmt_d uid]%string) as Hp.
  { constructor; [by repeat split|]. constructor; [by repeat split|]. constructor; [|done].
    apply random_plain, fmt_d_random. }
  unfold uploadCover. eapply maintains_bind; [|intros [e|path] _; by apply maintains_ret].
  apply maintains_try, (saveImage_safe _ _ ["tmp"; "covers"; fmt_d uid]%string); [|done|by apply name_clear|intros x; by apply name_clear].
  assert (split_slash (covers_dir uid) = ["tmp"; "covers"; fmt_d uid]%string) as Hs.
  { unfold covers_dir. rewrite Join_plain by done. rewrite split_join by done. by apply plains_split. }
  rewrite path_of_parts; [simpl; rewrite Hs; by rewrite app_nil_r|done|]. constructor; [by rewrite Hs|done].
Qed.

(** ** Chunks *)

Lemma store_chunk_safe name dest n body md5 :
  clear cfg (path_of name) -> clear cfg (path_of dest) -> safe (store_chunk name dest n body md5).
Proof.
  intros Hn Hd. unfold store_chunk. cbv zeta.
  eapply maintains_bind; [apply maintains_try, (write_maintains cfg); [apply media_stable|done]|]. intros written _.
  eapply maintains_bind; [apply quiet_safe, quiet_attempt, quiet_call|]. intros closed _.
  destruct (_ || _); [by apply maintains_ret|].
  eapply maintains_bind; [apply maintains_try, (rename_maintains cfg); [apply media_stable|done..]|]. intros r _.
  destruct (is_err r); by apply maintains_ret.
Qed.

Lemma wp_owned {A} uid id (f : UploadModel -> M A) (g : Response -> M A) Q E w :
  media_ok cfg w ->
  (forall resp w', outside w w' -> rs_Status resp ∈ [400; 404; 410] -> wp (g resp) Q E w') ->
  (forall u w', outside w w' -> media_ok cfg w' -> uploads (extension (db w')) !! collate (ul_ID u) = Some u ->
     owned_upload uid id (db w) = Some u -> random_name (ul_ID u) -> wp (f u) Q E w') ->
  wp (r ← uploadFor false uid id; match r with inl resp => g resp | inr u => f u end) Q E w.
Proof.
  intros Hw Hg Hf. apply wp_bind. eapply wp_mono; [apply wp_uploadFor| |done].
  intros [resp|u] w' [Ho Hr]; [by apply Hg|].
  destruct (owned_lookup _ _ _ _ Hr) as [Hu _]. destruct (fo_upload _ _ _ Hw _ _ Hu) as [Hk Hn].
  apply Hf; [done| |by rewrite (proj1 Ho), <-Hk|done|done].
  eapply (stable_outside cfg); [apply media_stable|exact Hw|exact Ho].
Qed.

Lemma receive_chunk_safe rq u : random_name (ul_ID u) -> safe (receive_chunk cfg rq u).
Proof.
  intros Hid. unfold receive_chunk.
  destruct (ul_Completed u); [by apply maintains_ret|]. destruct (ParseInt _) as [i ok].
  destruct (negb ok || (i <? 0) || _) eqn:Hi; [by apply maintains_ret|]. cbv zeta.
  destruct (negb (_ =? _)); [by apply maintains_ret|].
  assert (clear cfg (path_of (upload_dir cfg u))) as Hdir.
  { rewrite upload_dir_path by done. apply name_clear. apply Hid. }
  eapply maintains_bind.
  { apply maintains_try, (mkdir_maintains cfg); [apply media_stable|]. by left. }
  intros made _. destruct (is_err made); [by apply maintains_ret|].
  assert (forall name, temp_name (upload_dir cfg u) "incoming-" name -> clear cfg (path_of name)) as Hin.
  { intros name Hn. destruct (incoming_path cfg u name Hid Hn) as [z ->]. apply name_clear. apply Hid. }
  eapply maintains_bind; [apply maintains_attempt, (temp_maintains cfg); [apply media_stable|done]|].
  intros [e|name] Hname; [by apply maintains_ret|]. apply defer_maintains.
  - apply store_chunk_safe; [by apply Hin|]. rewrite chunk_path; [apply name_clear, Hid|done|].
    destruct (Z.ltb_spec i 0); [|lia]. destruct ok; simpl in Hi; done.
  - apply (remove_maintains cfg); [apply media_stable|by apply Hin].
Qed.

Lemma uploadChunk_safe uid id rq : safe (uploadChunk cfg uid id rq).
Proof.
  intros w Hw. apply wp_owned; [done|intros resp w' Ho _; apply wp_ret; split; [|done]|].
  - eapply (stable_outside cfg); [apply media_stable|exact Hw|exact Ho].
  - intros u w' _ Hw' _ _ Hid. by apply receive_chunk_safe.
Qed.

End Handlers.
