(* ===== verification/UploadFlow.v ===== *)
(** * From the chunks to the whole file

    What assembly and completion do to the disk and to the tables, outcome by outcome; what is
    stored of a chunk, and that the parts of a file make it. *)
From Stdlib Require Import Ascii.
From S2P Require Import Prelude.
From S2P Require Import GoStd.
From S2P Require Import GoHash.
From S2P Require Import GoConv.
From S2P Require AccountDomain.
From S2P Require Import Errors.
From S2P Require Import Files.
From S2P Require Import Models.
From S2P Require Import Redis.
From S2P Require Import Store.
From S2P Require Import FileOps.
From S2P Require Import RedisClient.
From S2P Require Import Codec.
From S2P Require Import Views.
From S2P Require Import Edge.
From S2P Require Import EdgeRules.
From S2P Require Import OutboxWorker.
From S2P Require Import PublishHandlers.
From S2P Require Import VideoDetail.
From S2P Require Import Uploads.
From S2P Require Import ExtensionRules.
From S2P Require Import System.
From S2P Require Import Frames.
From S2P Require Import Requests.
From S2P Require Import EdgeRequests.
From S2P Require Import UploadRules.

Section UploadFlow.
Context `{Collation, !CollationLaws} `{Unicode} `{UUID}.
Variable cfg : Config.

(** ** Assembly *)

Definition same_but (p : Path) (d d' : Disk) : Prop := forall q, q <> p -> d' !! q = d !! q.

#[export] Instance same_but_preorder p : PreOrder (same_but p).
Proof. split; [by intros d q|]. intros d1 d2 d3 H12 H23 q Hq. by rewrite H23, H12. Qed.

(** The chunks one after the other, if all are there. *)
Fixpoint chunks_content (dir : string) (f : Disk) (l : list Z) : option string :=
  match l with
  | [] => Some ""%string
  | i :: l => part ← file_at f (path_of (chunk_name dir i)); rest ← chunks_content dir f l; Some (part +:+ rest)%string
  end.

Lemma chunks_content_same dir f f' p l :
  same_but p f f' -> (forall i, i ∈ l -> path_of (chunk_name dir i) <> p) ->
  chunks_content dir f' l = chunks_content dir f l.
Proof.
  intros Hs. induction l as [|i l IH]; intros Hne; [done|]. simpl. unfold file_at.
  rewrite (Hs (path_of (chunk_name dir i))) by (apply Hne; by left). rewrite IH; [done|].
  intros j Hj. apply Hne. by right.
Qed.

Lemma string_app_nil (s : string) : (s +:+ "")%string = s.
Proof. unfold String.app. induction s; simpl; congruence. Qed.

Definition assembled (dir name sofar : string) (l : list Z) (w : World) (r : Response + string) (w' : World) : Prop :=
  beside w w' /\ same_but (path_of name) (disk w) (disk w') /\
  match r with
  | inr c => disk w' !! path_of name = Some (File c) /\
      exists rest, chunks_content dir (disk w) l = Some rest /\ c = (sofar +:+ rest)%string
  | inl resp => rs_Status resp ∈ [409; 500]
  end.

Lemma wp_close_ret (r : Response + string) w (Q : Response + string -> World -> Prop) E :
  (forall w', outside w w' -> Q r w') -> wp (_ ← attempt file_Close; mret r) Q E w.
Proof.
  intros HQ. apply wp_bind, wp_attempt. apply wp_quiet; [apply quiet_call|..]; intros ? w' Ho; by apply wp_ret, HQ.
Qed.

Lemma wp_assemble_chunks dir name l sofar w :
  (forall i, i ∈ l -> path_of (chunk_name dir i) <> path_of name) ->
  disk w !! path_of name = Some (File sofar) ->
  wp (assemble dir name l sofar) (assembled dir name sofar l w) (fun _ _ => False) w.
Proof.
  revert sofar w. induction l as [|i l IH]; intros sofar w Hne Hf; simpl.
  { apply wp_ret. split_and!; [done|done|done|]. exists ""%string. split; [done|].
    by rewrite string_app_nil. }
  assert (forall resp w', beside w w' -> same_but (path_of name) (disk w) (disk w') -> rs_Status resp ∈ [409; 500] ->
    wp (_ ← attempt file_Close; mret (inl resp)) (assembled dir name sofar (i :: l) w) (fun _ _ => False) w') as Hend.
  { intros resp w' Hb Hs Hr. apply wp_close_ret. intros w2 Ho. split_and!; [|by rewrite (outside_disk _ _ Ho)|done].
    etrans; [exact Hb|by apply outside_beside]. }
  assert (rs_Status (errorJSON 500 "storage_error") ∈ [409; 500]) as H500 by (simpl; set_solver).
  apply wp_bind, wp_attempt. apply wp_look_disk.
  2: { intros e w' Ho. simpl. apply Hend; [by apply outside_beside|by rewrite (outside_disk _ _ Ho)|simpl; set_solver]. }
  intros [] w1 _ Ho1. simpl. apply wp_bind, wp_attempt, wp_bind.
  apply wp_look_disk.
  2: { intros e w' Ho. assert (outside w w') as Hw' by by etrans.
       apply Hend; [by apply outside_beside|by rewrite (outside_disk _ _ Hw')|done]. }
  intros part w2 (p & ->%resolve_Some & Hpart)%bind_Some Ho2.
  rewrite (outside_disk _ _ Ho1) in Hpart. unfold file_at in Hpart.
  destruct (disk w !! path_of (chunk_name dir i)) as [[|c]|] eqn:Hc; [done| |done]. injection Hpart as ->.
  assert (outside w w2) as Hw2 by by etrans. apply wp_bind, wp_file_Write.
  2: { intros e w3 k Hb Hd. apply Hend; [etrans; [by apply outside_beside|done]| |done].
       intros q Hq. rewrite Hd, (outside_disk _ _ Hw2). by apply appended_other. }
  intros w3 Hb Hd. apply wp_ret. rewrite (outside_disk _ _ Hw2) in Hd. unfold appended in Hd. rewrite Hf in Hd.
  assert (beside w w3) as Hbw by (etrans; [by apply outside_beside|done]).
  assert (same_but (path_of name) (disk w) (disk w3)) as Hsw.
  { intros q Hq. rewrite Hd. by rewrite lookup_insert_ne. }
  eapply wp_mono; [apply IH| |done].
  - intros j Hj. apply Hne. by right.
  - by rewrite Hd, lookup_insert_eq.
  - intros r w4 (Hb4 & Hs4 & Hr). split_and!; [by etrans|by etrans|]. destruct r as [resp|c]; [done|].
    destruct Hr as (Hc4 & rest & Hrest & ->). split; [done|]. exists (part +:+ rest)%string.
    split; [|by rewrite string_app_assoc]. simpl. unfold file_at at 1. rewrite Hc. simpl.
    rewrite <-(chunks_content_same dir (disk w) (disk w3) (path_of name) l), Hrest; [done|done|].
    intros j Hj. apply Hne. by right.
Qed.

(** ** The file of one upload *)

(** The disk changes at the file of one upload only. *)
Lemma files_at_upload d f f' id :
  files_ok cfg d f -> random_name id ->
  (forall p, guarded cfg p -> p <> upload_path cfg id -> f' !! p = f !! p) ->
  (forall k u n, uploads (extension d) !! k = Some u -> ul_ID u = id -> ul_Completed u = true ->
     f' !! upload_path cfg id = Some n -> exists c, n = File c /\ whole u c) ->
  files_ok cfg d f'.
Proof.
  intros [Hu Hst Hv] Hid Hsame Hat. split; [done|..].
  - intros k u Hk. pose proof (Hst _ _ Hk) as Hw. unfold stored_whole in *.
    destruct (ul_Completed u) eqn:Hc; [|done]. destruct Hw as [Hp Hw]. split; [done|]. intros n Hn.
    destruct (decide (ul_ID u = id)) as [E|Hne]; [rewrite E in Hn; by eapply Hat|].
    apply Hw. rewrite <-Hn. symmetry. apply Hsame; [exists (ul_ID u); split; [by eapply Hu|by left]|].
    intros E. apply upload_path_inj in E; [done|by eapply Hu|done].
  - intros i v Hi Hne. destruct (Hv _ _ Hi Hne) as (name & u & c & Hn & Hp & Hf & Hr).
    exists name, u, c. split_and!; try done; try apply Hr. rewrite Hsame; [done|exists name; auto|].
    intros E. symmetry in E. by apply upload_video_ne in E.
Qed.

(** Of the rows of an upload there is one. *)
Lemma same_upload d f k u u' :
  files_ok cfg d f -> uploads (extension d) !! collate (ul_ID u) = Some u ->
  uploads (extension d) !! k = Some u' -> ul_ID u' = ul_ID u -> u' = u.
Proof. intros Hok Hu Hk E. apply (fo_upload _ _ _ Hok) in Hk as Hid. destruct Hid as [-> _]. congruence. Qed.

(** ** Completion *)

(** Where [finish_upload] works: its temporary file is no other file of ours. *)
Definition temp_at (p : Path) : Prop := exists x, p = child (base cfg) ["tmp"; x]%string /\ name_chars x.

Lemma temp_clear p : temp_at p -> clear cfg p.
Proof. intros (x & -> & Hx). by apply name_clear. Qed.

Lemma temp_upload p id : temp_at p -> p <> upload_path cfg id.
Proof. intros (x & -> & Hx) E. injection E as E. apply app_inv_head in E. injection E as E. by eapply suffix_ne. Qed.

(** The row of [u] is there, and not completed. *)
Definition open_upload (u : UploadModel) (w : World) : Prop :=
  media_ok cfg w /\ uploads (extension (db w)) !! collate (ul_ID u) = Some u /\ ul_Completed u = false.

Lemma open_stable u : stable cfg (open_upload u).
Proof.
  intros w w' (Hm & Hu & Hc) Hb Hs. split; [by eapply media_stable|]. by rewrite (proj1 Hb).
Qed.

Lemma open_random u w : open_upload u w -> random_name (ul_ID u).
Proof. intros (Hm & Hu & _). by eapply (fo_upload _ _ _ Hm). Qed.

(** Nothing was completed: the tables and the other files are as they were. *)
Definition not_completed (u : UploadModel) (p : Path) (w w' : World) : Prop :=
  db w' = db w /\ forall q, q <> p -> q <> upload_path cfg (ul_ID u) -> disk w' !! q = disk w !! q.

(** The file is in its place and the row says so. *)
Definition is_completed (u : UploadModel) (c : string) (w w' : World) : Prop :=
  db w' = complete_upload (ul_ID u) (stored_name cfg (ul_ID u)) (db w) /\
  disk w' !! upload_path cfg (ul_ID u) = Some (File c).

Lemma complete_files u c d f :
  files_ok cfg d f -> uploads (extension d) !! collate (ul_ID u) = Some u -> ul_Completed u = false -> whole u c ->
  f !! upload_path cfg (ul_ID u) = Some (File c) ->
  files_ok cfg (complete_upload (ul_ID u) (stored_name cfg (ul_ID u)) d) f.
Proof.
  intros Hok Hu Hc Hw Hf. apply (files_at _ _ _ _ (collate (ul_ID u))); [done|..].
  - intros j Hj. by rewrite lookup_alter_ne.
  - intros u' Hu'. assert (u' = u) as -> by congruence. pose proof (fo_stored _ _ _ Hok _ _ Hu) as Hst.
    unfold stored_whole in Hst. rewrite Hc in Hst. by destruct Hst.
  - intros u'. rewrite lookup_alter_eq, Hu. intros [= <-]. split_and!; [done|exact (proj2 (fo_upload _ _ _ Hok _ _ Hu))|].
    unfold stored_whole. simpl. split; [done|]. intros n. rewrite Hf. intros [= <-]. by exists c.
Qed.

Lemma wp_place_upload u name c w :
  open_upload u w -> temp_at (path_of name) -> disk w !! path_of name = Some (File c) -> whole u c ->
  wp (place_upload cfg u name)
    (fun r w' => media_ok cfg w' /\
       (r = JSON 200 (BUpload (ul_ID u)) /\ is_completed u c w w' \/
        rs_Status r = 500 /\ not_completed u (path_of name) w w')) (fun _ _ => False) w.
Proof.
  intros Hopen Htemp Hc Hw. pose proof (open_random _ _ Hopen) as Hid. unfold place_upload. cbv zeta.
  fold (stored_name cfg (ul_ID u)). set (up := upload_path cfg (ul_ID u)).
  assert (forall code w', outside w w' -> media_ok cfg w' /\
    (errorJSON 500 code = JSON 200 (BUpload (ul_ID u)) /\ is_completed u c w w' \/
     rs_Status (errorJSON 500 code) = 500 /\ not_completed u (path_of name) w w')) as Hearly.
  { intros code w' Ho. split; [by apply (stable_outside cfg (media_ok cfg) (media_stable cfg) w); [apply Hopen|]|].
    right. split; [done|]. split; [apply Ho|]. by rewrite (outside_disk _ _ Ho). }
  apply wp_bind, wp_attempt. apply wp_quiet; [apply quiet_call| |intros e w' Ho; by apply wp_ret, Hearly].
  intros [] w1 Ho1. simpl. apply wp_bind, wp_attempt, wp_os_Rename.
  2: { intros e w' Ho. apply wp_ret, Hearly. by etrans. }
  intros d w2 Hr Hb2 Hd. rewrite (outside_disk _ _ Ho1) in Hr. rewrite stored_path in Hr by done.
  rewrite (rename_file _ _ _ _ _ Hr Hc) in Hd. fold up in Hd. simpl.
  assert (db w2 = db w) as Hdb2 by (rewrite (proj1 Hb2); apply Ho1).
  assert (disk w2 !! up = Some (File c)) as Hup by by rewrite Hd, lookup_insert_eq.
  assert (forall q, q <> path_of name -> q <> up -> disk w2 !! q = disk w !! q) as Hother.
  { intros q Hq Hqu. by rewrite Hd, lookup_insert_ne, lookup_delete_ne. }
  assert (media_ok cfg w2) as Hok2.
  { unfold media_ok. rewrite Hdb2. apply (files_at_upload _ (disk w) _ (ul_ID u)); [apply Hopen|done|..].
    - intros p Hp Hpu. apply Hother; [by eapply clear_ne; [apply temp_clear|]|done].
    - intros k u' n Hk E Hcu. apply (same_upload _ (disk w) _ u) in Hk; [|apply Hopen..|done]. subst u'.
      destruct Hopen as (_ & _ & Hno). congruence. }
  apply wp_bind, wp_attempt, wp_update.
  2: { intros t e. simpl. apply wp_ret. split; [done|]. right. split; [done|]. by split. }
  intros e3. simpl. set (w3 := with_db _ _).
  assert (is_completed u c w w3) as Hdone by (split; [simpl; by rewrite Hdb2|done]).
  assert (media_ok cfg w3) as Hok3.
  { destruct Hopen as (Hm & Hu & Hno). apply (complete_files u c); try done; by rewrite Hdb2. }
  clearbody w3.
  assert (forall w', beside w3 w' -> same_guarded cfg (disk w3) (disk w') ->
    media_ok cfg w' /\ is_completed u c w w') as Hend.
  { intros w' Hb Hs. split; [by eapply media_stable|]. destruct Hdone as [D F]. split; [by rewrite (proj1 Hb)|].
    rewrite Hs; [done|]. exists (ul_ID u). auto. }
  apply wp_bind, wp_cacheUpload. intros w4 Ho4. apply wp_bind, wp_attempt.
  assert (clear cfg (path_of (upload_dir cfg u))) as Hdir by (rewrite upload_dir_path by done; apply name_clear, Hid).
  assert (forall w', beside w4 w' -> (forall p, under (path_of (upload_dir cfg u)) p = false -> disk w' !! p = disk w4 !! p) ->
    wp (mret (JSON 200 (BUpload (ul_ID u))) : M Response) (fun r w' => media_ok cfg w' /\
       (r = JSON 200 (BUpload (ul_ID u)) /\ is_completed u c w w' \/
        rs_Status r = 500 /\ not_completed u (path_of name) w w')) (fun _ _ => False) w') as Hret.
  { intros w' Hb Hk. apply wp_ret. destruct (Hend w') as [Hm Hi]; [|intros p Hp; rewrite Hk by (by apply (clear_under cfg));
      by rewrite (outside_disk _ _ Ho4)|by auto]. etrans; [by apply outside_beside|done]. }
  apply wp_os_RemoveAll; auto.
Qed.

(** ** [finish_upload]: the answers and what they mean *)

Definition completion (u : UploadModel) (p : Path) (w : World) (r : Response) (w' : World) : Prop :=
  media_ok cfg w' /\
  ((exists c, r = JSON 200 (BUpload (ul_ID u)) /\ whole u c /\
      chunks_content (upload_dir cfg u) (disk w) (seqZ 0 (ul_Chunks u)) = Some c /\ is_completed u c w w') \/
   rs_Status r ∈ [400; 409; 500] /\ not_completed u p w w').

Lemma wp_finish_upload u name w :
  open_upload u w -> temp_at (path_of name) -> disk w !! path_of name = Some (File "") ->
  wp (finish_upload cfg u name) (completion u (path_of name) w) (fun _ _ => False) w.
Proof.
  intros Hopen Htemp Hempty. pose proof (open_random _ _ Hopen) as Hid. unfold finish_upload.
  assert (forall resp w', beside w w' -> same_but (path_of name) (disk w) (disk w') ->
    rs_Status resp ∈ [400; 409; 500] -> completion u (path_of name) w resp w') as Hno.
  { intros resp w' Hb Hs Hr. split.
    - apply (media_stable cfg w); [apply Hopen|done|]. intros p Hp. by apply Hs, (clear_ne cfg); [apply temp_clear|].
    - right. split; [done|]. split; [apply Hb|]. intros q Hq _. by apply Hs. }
  apply wp_bind. eapply wp_mono; [apply wp_assemble_chunks; [|done]| |done].
  { intros i [Hi _]%elem_of_seqZ E. rewrite chunk_path in E by done. destruct Htemp as (x & Ht & _).
    rewrite Ht in E. injection E as E. by apply app_inv_head in E. }
  intros [resp|c] w1 (Hb1 & Hs1 & Hr).
  { apply wp_ret, Hno; [done..|]. set_solver. }
  destruct Hr as (Hfile & rest & Hrest & ->). change ("" +:+ rest)%string with rest in *.
  assert (forall resp w', outside w1 w' -> rs_Status resp ∈ [400; 409; 500] ->
    wp (closing resp) (completion u (path_of name) w) (fun _ _ => False) w') as Hclose.
  { intros resp w' Ho Hr. unfold closing. apply wp_bind, wp_attempt.
    apply wp_quiet; [apply quiet_call|..]; intros ? w2 Ho2; apply wp_ret, Hno; try done;
      assert (outside w1 w2) as Hw2 by (by etrans);
      [etrans; [exact Hb1|by apply outside_beside]|by rewrite (outside_disk _ _ Hw2)
      |etrans; [exact Hb1|by apply outside_beside]|by rewrite (outside_disk _ _ Hw2)]. }
  destruct (negb (len rest =? ul_Size u) || negb (md5_is rest (ul_FileMD5 u))) eqn:Hsum.
  { apply Hclose; [done|simpl; set_solver]. }
  apply orb_false_iff in Hsum as [Hlen Hmd5]. apply negb_false_iff in Hlen, Hmd5.
  apply wp_bind, wp_attempt.
  apply wp_quiet; [apply quiet_call| |intros e w2 Ho2; apply Hclose; [done|simpl; set_solver]].
  intros [] w2 Ho2. simpl. apply wp_bind, wp_attempt, wp_look_disk.
  2: { intros e w3 Ho3. simpl. apply Hclose; [by etrans|simpl; set_solver]. }
  intros header w3 (p & ->%resolve_Some & Hh)%bind_Some Ho3. rewrite (outside_disk _ _ Ho2) in Hh.
  unfold file_at in Hh. rewrite Hfile in Hh. injection Hh as <-. simpl.
  assert (outside w1 w3) as Hw3 by by etrans.
  destruct (is_mp4 rest) eqn:Hmp4; simpl; [|apply Hclose; [done|simpl; set_solver]].
  assert (whole u rest) as Hwhole by (split_and!; [lia|done|done]).
  assert (open_upload u w3) as Hopen3.
  { apply (open_stable u w); [done|etrans; [exact Hb1|by apply outside_beside]|].
    intros q Hq. rewrite (outside_disk _ _ Hw3). by apply Hs1, (clear_ne cfg); [apply temp_clear|]. }
  assert (db w3 = db w) as Hdb3 by (rewrite (proj1 Hw3); apply Hb1).
  eapply wp_mono; [apply (wp_place_upload u name rest); [done|done|by rewrite (outside_disk _ _ Hw3)|done]| |done].
  intros r w4 [Hm4 Hr4]. split; [done|]. destruct Hr4 as [[-> [Hd Hf]]|[Hs4 [Hd Hf]]].
  - left. exists rest. split_and!; try done. split; [by rewrite Hd, Hdb3|done].
  - right. split; [rewrite Hs4; set_solver|]. split; [by rewrite Hd|]. intros q Hq Hqu.
    rewrite Hf by done. rewrite (outside_disk _ _ Hw3). by apply Hs1.
Qed.

(** Removing the temporary file leaves the rest. *)
Lemma completion_removed u p w r w1 w2 :
  completion u p w r w1 -> temp_at p -> beside w1 w2 -> same_but p (disk w1) (disk w2) -> completion u p w r w2.
Proof.
  intros [Hm Hr] Ht Hb Hs. split.
  - apply (media_stable cfg w1); [done..|]. intros q Hq. by apply Hs, (clear_ne cfg); [apply temp_clear|].
  - destruct Hr as [(c & Hc & Hw & Hch & [Hd Hf])|[Hst [Hd Hf]]]; [left; exists c|right]; (split; [done|]).
    + split_and!; [done..|]. split; [by rewrite (proj1 Hb)|]. rewrite Hs; [done|]. apply not_eq_sym. by apply temp_upload.
    + split; [by rewrite (proj1 Hb)|]. intros q Hq Hqu. by rewrite Hs, Hf.
Qed.

(** What [completeUpload] does for an upload that is not completed. *)
Definition completes (u : UploadModel) (w : World) (r : Response) (w' : World) : Prop :=
  media_ok cfg w' /\
  ((exists c, r = JSON 200 (BUpload (ul_ID u)) /\ whole u c /\
      chunks_content (upload_dir cfg u) (disk w) (seqZ 0 (ul_Chunks u)) = Some c /\ is_completed u c w w') \/
   rs_Status r ∈ [400; 409; 500] /\ db w' = db w /\
     forall q n, q <> upload_path cfg (ul_ID u) -> disk w !! q = Some n -> disk w' !! q = Some n).

Lemma wp_complete_owned u w :
  open_upload u w -> wp (complete_owned cfg u) (completes u w) (fun _ _ => False) w.
Proof.
  intros Hopen. pose proof (open_random _ _ Hopen) as Hid. unfold complete_owned.
  rewrite (proj2 (proj2 Hopen)). apply wp_bind, wp_attempt, wp_create_temp.
  2: { intros e w' Ho. simpl. apply wp_ret. split.
       - apply (stable_outside cfg (media_ok cfg) (media_stable cfg) w); [apply Hopen|done].
       - right. split; [simpl; set_solver|]. split; [apply Ho|]. by rewrite (outside_disk _ _ Ho). }
  intros name w1 Hname Hnone Hb1 Hd1. simpl. fold (tmp_dir cfg) in Hname.
  assert (temp_at (path_of name)) as Htemp.
  { destruct (assembled_path cfg name Hname) as [z ->]. eexists. split; [done|].
    apply name_chars_app. split; [by repeat split|apply fmt_d_name]. }
  set (p := path_of name) in *.
  assert (same_but p (disk w) (disk w1)) as Hs1.
  { intros q Hq. rewrite Hd1. by rewrite lookup_insert_ne. }
  assert (open_upload u w1) as Hopen1.
  { apply (open_stable u w); [done..|]. intros q Hq. by apply Hs1, (clear_ne cfg); [apply temp_clear|]. }
  assert (chunks_content (upload_dir cfg u) (disk w1) (seqZ 0 (ul_Chunks u)) =
    chunks_content (upload_dir cfg u) (disk w) (seqZ 0 (ul_Chunks u))) as Hch.
  { apply (chunks_content_same _ _ _ p); [done|]. intros i [Hi _]%elem_of_seqZ E.
    rewrite chunk_path in E by done. destruct Htemp as (x & Ht & _).
    rewrite Ht in E. injection E as E. by apply app_inv_head in E. }
  assert (forall r w', completion u p w1 r w' -> completes u w r w') as Hend.
  { intros r w' [Hm Hr]. split; [done|]. destruct Hr as [(c & Hc & Hw & Hcc & [Hd Hf])|[Hst [Hd Hf]]]; [left|right].
    - exists c. split_and!; [done|done|by rewrite <-Hch|]. split; [by rewrite Hd, (proj1 Hb1)|done].
    - split_and!; [done|by rewrite Hd; apply Hb1|]. intros q n Hq Hn.
      assert (q <> p) as Hqp by congruence. by rewrite Hf, Hs1. }
  apply wp_defer. eapply wp_mono; [apply wp_finish_upload; [done|done|by rewrite Hd1, lookup_insert_eq]| |done].
  intros r w2 Hc. apply wp_os_Remove.
  - intros d w3 Hr Hb <-. apply Hend. eapply completion_removed; [exact Hc|done|done|].
    intros q Hq. by eapply remove_other.
  - intros e w3 Ho. apply Hend. eapply completion_removed; [exact Hc|done|by apply outside_beside|].
    by rewrite (outside_disk _ _ Ho).
Qed.

End UploadFlow.

(** * Chunks: what is stored, and what they make together

    [receive_chunk] writes to a temporary file and renames it when length and MD5 are those
    that were announced. The parts of a file, one after the other, are the file. *)

(** ** Parts of a text *)

Lemma substring_all n s : (String.length s <= n)%nat -> String.substring 0 n s = s.
Proof.
  revert n. induction s as [|c s IH]; intros n Hn; [by destruct n|]. simpl in Hn.
  destruct n as [|n]; [lia|]. simpl. by rewrite IH by lia.
Qed.

Lemma substring_length n s : (n <= String.length s)%nat -> String.length (String.substring 0 n s) = n.
Proof.
  revert n. induction s as [|c s IH]; intros n Hn; simpl in *; [by destruct n; [|lia]|].
  destruct n as [|n]; [done|]. simpl. by rewrite IH by lia.
Qed.

Lemma substring_app k n m s : (String.substring k n s +:+ String.substring (k + n) m s = String.substring k (n + m) s)%string.
Proof.
  unfold String.app. revert k n. induction s as [|c s IH]; intros k n.
  { destruct k, n; simpl; by destruct m. }
  destruct k as [|k]; [|simpl; apply IH]. destruct n as [|n]; [done|]. simpl. f_equal. apply (IH 0%nat).
Qed.

(** The first bytes of a body, up to one more than announced, have the announced length only if
    they are the body. *)
Lemma limited_whole n body : len (String.substring 0 (Z.to_nat (n + 1)) body) = n -> String.substring 0 (Z.to_nat (n + 1)) body = body.
Proof.
  intros Hl. assert (0 <= n) by (rewrite <-Hl; apply len_nonneg).
  destruct (decide (String.length body <= Z.to_nat (n + 1))%nat) as [Hs|Hs]; [by apply substring_all|].
  unfold len in Hl. rewrite substring_length in Hl by lia. lia.
Qed.

Section UploadChunks.
Context `{Collation, !CollationLaws} `{Unicode} `{UUID}.
Variable cfg : Config.

(** ** Names *)

Definition no_dash : string -> Prop := string_forall (fun c => c <> "-"%char).

Lemma fmt_0d_no_dash n i : 0 <= i -> no_dash (fmt_0d n i).
Proof.
  intros Hi. unfold fmt_0d. destruct (Z.ltb_spec i 0); [lia|]. unfold pad_zeros. apply string_forall_app. split.
  - induction (n - _)%nat; [done|]. by split.
  - unfold fmt_d, pretty, pretty_Z. destruct i as [|p|p]; [by split|apply pretty_N_forall|lia].
    intros k. unfold pretty_N_char. by repeat case_match.
Qed.

Lemma incoming_chunk_ne u i name : random_name (ul_ID u) -> 0 <= i -> temp_name (upload_dir cfg u) "incoming-" name ->
  path_of (chunk_name (upload_dir cfg u) i) <> path_of name.
Proof.
  intros Hu Hi Hn. destruct (incoming_path cfg u name Hu Hn) as [z ->]. rewrite chunk_path by done. intros E.
  injection E as E. apply app_inv_head in E. injection E as E. pose proof (fmt_0d_no_dash 3 i Hi) as Hd.
  rewrite E in Hd. apply string_forall_app in Hd as [Hd _]. simpl in Hd. tauto.
Qed.

(** ** One chunk *)

(** What was there is still there. *)
Definition nothing_lost (w w' : World) : Prop :=
  db w' = db w /\ forall q n, disk w !! q = Some n -> disk w' !! q = Some n.

(** The chunk is the body, and what was anywhere else is still there. *)
Definition chunk_stored (p : Path) (body : string) (w w' : World) : Prop :=
  db w' = db w /\ disk w' !! p = Some (File body) /\
  forall q n, q <> p -> disk w !! q = Some n -> disk w' !! q = Some n.

(** After [store_chunk] and the removal of the temporary file at [t]. *)
Definition chunk_outcome (t p : Path) (expected : Z) (body md5 : string) (w : World) (r : Response) (w' : World) : Prop :=
  db w' = db w /\ (forall q, q <> t -> q <> p -> disk w' !! q = disk w !! q) /\
  (r = JSON 200 BOk /\ len body = expected /\ md5_is body md5 = true /\ disk w' !! p = Some (File body) \/
   rs_Status r ∈ [400; 500] /\ disk w' !! p = disk w !! p).

Lemma wp_store_chunk name dest expected body md5 w :
  path_of dest <> path_of name -> disk w !! path_of name = Some (File "") ->
  wp (store_chunk name dest expected body md5) (chunk_outcome (path_of name) (path_of dest) expected body md5 w)
    (fun _ _ => False) w.
Proof.
  intros Hne Hf. unfold store_chunk. cbv zeta. set (data := String.substring 0 _ body).
  assert (forall w1 part code status, db w1 = db w -> disk w1 = appended (path_of name) part (disk w) ->
    status ∈ [400; 500] -> chunk_outcome (path_of name) (path_of dest) expected body md5 w (errorJSON status code) w1) as Hno.
  { intros w1 part code st Hdb Hd Hst. split_and!; [done|intros q Hq _; rewrite Hd; by apply appended_other|].
    right. split; [done|]. rewrite Hd. by apply appended_other. }
  assert (forall (written : error + unit) w1 part, db w1 = db w -> disk w1 = appended (path_of name) part (disk w) ->
    is_err written = false -> part = data ->
    wp (closed ← attempt file_Close;
        if is_err written || is_err closed || negb (len data =? expected) || negb (md5_is data md5)
        then mret (errorJSON 400 "chunk_checksum_mismatch") else
        r ← attempt (os_Rename name dest);
        if is_err r then mret (errorJSON 500 "storage_error") else mret (JSON 200 BOk))
      (chunk_outcome (path_of name) (path_of dest) expected body md5 w) (fun _ _ => False) w1) as Hgo.
  { intros written w1 part Hdb Hd -> ->. simpl. apply wp_bind, wp_attempt.
    apply wp_quiet; [apply quiet_call| |intros e w2 Ho; simpl; apply wp_ret; apply (Hno _ data);
      [by rewrite (proj1 Ho)|by rewrite (outside_disk _ _ Ho)|set_solver]].
    intros [] w2 Ho. simpl. assert (db w2 = db w) as Hdb2 by by rewrite (proj1 Ho).
    assert (disk w2 = appended (path_of name) data (disk w)) as Hd2 by by rewrite (outside_disk _ _ Ho).
    destruct (negb (len data =? expected) || negb (md5_is data md5)) eqn:Hbad; [apply wp_ret, (Hno _ data); [done..|set_solver]|].
    apply orb_false_iff in Hbad as [Hlen%negb_false_iff%Z.eqb_eq Hmd5%negb_false_iff].
    pose proof (limited_whole _ _ Hlen) as Hwhole. fold data in Hwhole.
    apply wp_bind, wp_attempt, wp_os_Rename.
    2: { intros e w3 Ho3. apply wp_ret, (Hno _ data); [by rewrite (proj1 Ho3)|by rewrite (outside_disk _ _ Ho3)|set_solver]. }
    intros d w3 Hr Hb3 Hd3. apply wp_ret. unfold appended in Hd2. rewrite Hf in Hd2.
    rewrite (rename_file _ _ _ _ ("" +:+ data)%string Hr) in Hd3 by by rewrite Hd2, lookup_insert_eq.
    split_and!; [by rewrite (proj1 Hb3)| |].
    - intros q Hq Hqp. by rewrite Hd3, lookup_insert_ne, lookup_delete_ne, Hd2, lookup_insert_ne.
    - left. rewrite Hwhole in *. split_and!; [done..|]. by rewrite Hd3, lookup_insert_eq. }
  apply wp_bind, wp_attempt, wp_file_Write.
  - intros w1 Hb Hd. eapply Hgo; [apply Hb|exact Hd|done|done].
  - intros e w1 part Hb Hd. simpl. apply wp_bind, wp_attempt.
    apply wp_quiet; [apply quiet_call|..]; intros ? w2 Ho; apply wp_ret, (Hno _ part);
      try (by rewrite (proj1 Ho); apply Hb); try (by rewrite (outside_disk _ _ Ho)); set_solver.
Qed.

(** What [uploadChunk] did with the body, or that nothing was lost. *)
Definition chunk_answer (rq : chunk_request) (u : UploadModel) (w : World) (r : Response) (w' : World) : Prop :=
  (exists i, r = JSON 200 BOk /\ ul_Completed u = false /\ ParseInt (cr_Index rq) = (i, true) /\ 0 <= i < ul_Chunks u /\
     len (cr_Body rq) = expected_size u i /\ md5_is (cr_Body rq) (cr_MD5 rq) = true /\
     chunk_stored (path_of (chunk_name (upload_dir cfg u) i)) (cr_Body rq) w w') \/
  rs_Status r ∈ [400; 409; 500] /\ nothing_lost w w'.

(** Directories were added, a file that was not there came and went. *)
Lemma chunk_answer_end rq u i w w1 w2 w3 t r :
  ul_Completed u = false -> ParseInt (cr_Index rq) = (i, true) -> 0 <= i < ul_Chunks u -> random_name (ul_ID u) ->
  db w1 = db w -> dirs_added (path_of (upload_dir cfg u)) (disk w) (disk w1) -> disk w1 !! t = None ->
  t <> path_of (chunk_name (upload_dir cfg u) i) ->
  chunk_outcome t (path_of (chunk_name (upload_dir cfg u) i)) (expected_size u i) (cr_Body rq) (cr_MD5 rq) w1 r w2 ->
  db w3 = db w2 -> same_but t (disk w2) (disk w3) -> chunk_answer rq u w r w3.
Proof.
  intros Hc Hpi Hi Hid Hdb Hdirs Ht Hne (Hdb2 & Hrest & Hr) Hdb3 Hs.
  assert (forall q n, disk w !! q = Some n -> disk w1 !! q = Some n) as Hold.
  { intros q n Hq. destruct (Hdirs q) as [->|(Hn & _)]; [done|congruence]. }
  assert (forall q n, q <> path_of (chunk_name (upload_dir cfg u) i) -> disk w !! q = Some n -> disk w3 !! q = Some n) as Hkeep.
  { intros q n Hq Hn%Hold. assert (q <> t) by congruence. rewrite Hs, Hrest by done. done. }
  destruct Hr as [(-> & Hlen & Hmd5 & Hf)|[Hst Hf]]; [left; exists i|right].
  - split_and!; try done; try lia. split_and!; [congruence|by rewrite Hs by done|done].
  - split; [set_solver|]. split; [congruence|]. intros q n Hq.
    destruct (decide (q = path_of (chunk_name (upload_dir cfg u) i))) as [->|Hqp]; [|by apply Hkeep].
    rewrite Hs, Hf by done. by apply Hold.
Qed.

Lemma wp_receive_chunk rq u w :
  random_name (ul_ID u) -> wp (receive_chunk cfg rq u) (chunk_answer rq u w) (fun _ _ => False) w.
Proof.
  intros Hid. unfold receive_chunk.
  assert (forall st code w', beside w w' -> dirs_added (path_of (upload_dir cfg u)) (disk w) (disk w') -> st ∈ [400; 409; 500] ->
    chunk_answer rq u w (errorJSON st code) w') as Hno.
  { intros st code w' Hb Hd Hst. right. split; [done|]. split; [apply Hb|]. intros q n Hq.
    destruct (Hd q) as [->|(Hn & _)]; [done|congruence]. }
  destruct (ul_Completed u) eqn:Hc; [apply wp_ret, Hno; [done|apply dirs_added_refl|set_solver]|].
  destruct (ParseInt (cr_Index rq)) as [i ok] eqn:Hpi.
  destruct (negb ok || (i <? 0) || _) eqn:Hi; [apply wp_ret, Hno; [done|apply dirs_added_refl|set_solver]|].
  assert (ok = true /\ 0 <= i < ul_Chunks u) as [-> Hrange] by (destruct ok; simpl in Hi; lia).
  cbv zeta. destruct (negb (_ =? _)); [apply wp_ret, Hno; [done|apply dirs_added_refl|set_solver]|].
  apply wp_bind, wp_attempt, wp_os_MkdirAll.
  2: { intros e w' Hb Hd. apply wp_ret, Hno; [done|done|set_solver]. }
  intros w1 Hb1 Hd1 _. simpl. apply wp_bind, wp_attempt, wp_create_temp.
  2: { intros e w' Ho. apply wp_ret, Hno; [etrans; [done|by apply outside_beside]|by rewrite (outside_disk _ _ Ho)|set_solver]. }
  intros name w2 Hname Hnone Hb2 Hd2. simpl.
  pose proof (incoming_chunk_ne u i name Hid (proj1 Hrange) Hname) as Hne.
  assert (forall r w3 w4, chunk_outcome (path_of name) (path_of (chunk_name (upload_dir cfg u) i)) (expected_size u i)
      (cr_Body rq) (cr_MD5 rq) w2 r w3 -> beside w3 w4 -> same_but (path_of name) (disk w3) (disk w4) ->
      chunk_answer rq u w r w4) as Hend.
  { intros r w3 w4 (Hdb & Hrest & Hr) Hb4 Hs4. eapply (chunk_answer_end rq u i w w1 w3 w4 (path_of name));
      [done|done|done|done|apply Hb1|done|done|by apply not_eq_sym| |apply Hb4|done].
    assert (forall q, q <> path_of name -> disk w2 !! q = disk w1 !! q) as Hq2.
    { intros q Hq. rewrite Hd2. by rewrite lookup_insert_ne. }
    split_and!; [rewrite Hdb; apply Hb2|intros q Hq Hqp; by rewrite Hrest, Hq2|].
    destruct Hr as [Hr|[Hst Hr]]; [by left|right]. split; [done|]. by rewrite Hr, Hq2. }
  apply wp_defer. eapply wp_mono; [apply wp_store_chunk; [done|by rewrite Hd2, lookup_insert_eq]| |done].
  intros r w3 Hout. apply wp_os_Remove.
  - intros d w4 Hr Hb4 <-. eapply Hend; [exact Hout|done|]. intros q Hq. by eapply remove_other.
  - intros e w4 Ho. eapply Hend; [exact Hout|by apply outside_beside|]. by rewrite (outside_disk _ _ Ho).
Qed.

(** ** The parts of a file *)

(** Chunk [i] of a file of [size] bytes in [n] chunks. *)
Definition part_of (file : string) (n i : Z) : string :=
  String.substring (Z.to_nat (i * chunkSize)) (Z.to_nat (if i =? n - 1 then len file - i * chunkSize else chunkSize)) file.

Lemma chunks_are_parts dir f file n k j :
  0 <= j -> 0 <= k -> j + k = n -> 0 < k -> (n - 1) * chunkSize <= len file ->
  (forall i, j <= i < n -> file_at f (path_of (chunk_name dir i)) = Some (part_of file n i)) ->
  chunks_content dir f (seqZ j k) =
    Some (String.substring (Z.to_nat (j * chunkSize)) (Z.to_nat (len file - j * chunkSize)) file).
Proof.
  intros Hj Hk Hn Hpos Hsize. revert j Hj Hn Hpos. pattern k. apply natlike_ind; [lia| |done].
  clear k Hk. intros k Hk IH j Hj Hn _ Hf. rewrite seqZ_cons by lia. simpl chunks_content.
  rewrite (Hf j) by lia. simpl. unfold part_of.
  destruct (decide (k = 0)) as [->|Hk0].
  - replace (Z.succ j) with (j + 1) by lia. simpl. rewrite string_app_nil. destruct (Z.eqb_spec j (n - 1)); [done|lia].
  - replace (Z.pred (Z.succ k)) with k by lia. rewrite IH; [|lia|lia|lia|intros i Hi; apply Hf; lia].
    destruct (Z.eqb_spec j (n - 1)); [lia|]. simpl. f_equal.
    assert (Z.to_nat (Z.succ j * chunkSize) = (Z.to_nat (j * chunkSize) + Z.to_nat chunkSize)%nat) as -> by (unfold chunkSize; lia).
    rewrite substring_app. f_equal. unfold chunkSize in *. nia.
Qed.

End UploadChunks.

(** * Publication of an uploaded file, and what is removed

    Publication moves the file of a completed upload to its place under [media], then runs the
    transaction; when anything fails it moves the file back. [fresh_name]: the UUID to be drawn
    is not the name of a file that exists. [media_run]: the worlds that requests lead to. *)

Section UploadPublish.
Context `{Collation, !CollationLaws} `{Unicode} `{UUID}.
Variable cfg : Config.

(** ** Files that move *)

(** No video has the file of this name. *)
Definition unused (name : string) (d : Tables) : Prop :=
  forall id v, video d !! id = Some v -> vm_FilePath v <> ("videos/" +:+ mp4 name)%string.

(** The disk changes at the file of one upload, and at the file of no video. *)
Lemma files_moved d f f' id name :
  files_ok cfg d f -> random_name id -> random_name name -> unused name d ->
  (forall p, guarded cfg p -> p <> upload_path cfg id -> p <> video_path cfg name -> f' !! p = f !! p) ->
  (forall k u n, uploads (extension d) !! k = Some u -> ul_ID u = id -> ul_Completed u = true ->
     f' !! upload_path cfg id = Some n -> exists c, n = File c /\ whole u c) ->
  files_ok cfg d f'.
Proof.
  intros [Hu Hst Hv] Hid Hname Hun Hsame Hat. split; [done|..].
  - intros k u Hk. pose proof (Hst _ _ Hk) as Hw. unfold stored_whole in *.
    destruct (ul_Completed u) eqn:Hc; [|done]. destruct Hw as [Hp Hw]. split; [done|]. intros n Hn.
    destruct (decide (ul_ID u = id)) as [E|Hne]; [rewrite E in Hn; by eapply Hat|].
    apply Hw. rewrite <-Hn. symmetry. apply Hsame; [exists (ul_ID u); split; [by eapply Hu|by left]| |].
    + intros E. apply upload_path_inj in E; [done|by eapply Hu|done].
    + apply upload_video_ne.
  - intros i v Hi Hne. destruct (Hv _ _ Hi Hne) as (nm & u & c & Hn & Hp & Hf & Hr).
    exists nm, u, c. split_and!; try done; try apply Hr. rewrite Hsame; [done|exists nm; auto|..].
    + intros E. symmetry in E. by apply upload_video_ne in E.
    + intros E. apply video_path_inj in E; [|done..]. subst nm. by apply Hun in Hi.
Qed.

Lemma unused_fresh d f name :
  files_ok cfg d f -> random_name name -> f !! video_path cfg name = None -> unused name d.
Proof.
  intros Hok Hn Hf id v Hv E. assert (vm_FilePath v <> ""%string) as Hne by by rewrite E.
  destruct (fo_video _ _ _ Hok _ _ Hv Hne) as (nm & u & c & Hnm & Hp & Hc & _).
  rewrite E in Hp. apply (inj (String.app "videos/")) in Hp. unfold mp4 in Hp.
  apply suffix_inj in Hp; [|apply Hn|apply Hnm]. subst nm. congruence.
Qed.

(** ** Names of videos *)

Definition video_rel (name : string) : string := filepath_Join ["videos"; mp4 name]%string.

Lemma videos_plain name : random_name name -> Forall plain ["videos"; mp4 name]%string.
Proof. intros Hn. constructor; [by repeat split|]. constructor; [by apply mp4_plain|done]. Qed.

Lemma video_rel_eq name : random_name name -> video_rel name = ("videos/" +:+ mp4 name)%string.
Proof. intros Hn. unfold video_rel. by rewrite Join_plain by (done || by apply videos_plain). Qed.

Lemma media_name_path name : random_name name -> path_of (media_name cfg (video_rel name)) = video_path cfg name.
Proof.
  intros Hn. pose proof (videos_plain name Hn) as Hp. unfold media_name.
  assert (split_slash (video_rel name) = ["videos"; mp4 name]%string) as Hs.
  { unfold video_rel. rewrite Join_plain by done. rewrite split_join by done. by apply plains_split. }
  rewrite path_of_parts; [simpl; by rewrite Hs|done|]. constructor; [by repeat constructor|].
  constructor; [by rewrite Hs|done].
Qed.

Lemma media_dir_path name : random_name name ->
  path_of (filepath_Dir (media_name cfg (video_rel name))) = child (base cfg) ["media"; "videos"]%string.
Proof.
  intros Hn. pose proof (media_name_path name Hn) as Hp.
  assert (media_name cfg (video_rel name) = path_string (video_path cfg name)) as ->.
  { rewrite <-Hp. unfold media_name. erewrite Join_filtered; [|done|rewrite filter_cons; case_decide; [done|];
      by rewrite filter_cons_True].
    unfold filepath_Clean. by rewrite path_of_string by apply path_of_clean. }
  pose proof (path_of_clean (media_name cfg (video_rel name))) as Hc. rewrite Hp in Hc.
  rewrite (path_of_Dir _ ((base cfg).2 ++ ["media"; "videos"]%string) (mp4 name)); [done|exact Hc|].
  unfold video_path, child. simpl. by rewrite <-app_assoc.
Qed.

(** ** Covers *)

Lemma no_separator id : has_separator id = false -> no_slash id.
Proof.
  unfold has_separator, string_bytes. induction id as [|c id IH]; simpl; [done|].
  intros [Hc Hr]%orb_false_iff. split; [|by apply IH]. intros ->. done.
Qed.

Lemma cover_cases id : no_slash id -> id <> ""%string -> id = "."%string \/ id = ".."%string \/ plain id.
Proof.
  intros Hs Hn. destruct (decide (id = "."%string)); [auto|]. destruct (decide (id = ".."%string)); [auto|].
  right. right. by repeat split.
Qed.

(** Three plain names and one more, below the data directory. *)
Lemma path_of_last dir names id :
  names <> [] -> Forall plain names -> no_slash id -> id <> ""%string ->
  path_of (filepath_Join (dir :: names ++ [id])) =
    if decide (id = "."%string) then child (path_of dir) names
    else if decide (id = ".."%string) then child (path_of dir) (removelast names)
    else child (path_of dir) (names ++ [id]).
Proof.
  intros Hne Hp Hs Hid.
  assert ((names ++ [id]) ≫= split_slash = names ++ [id]) as Hsplit.
  { rewrite bind_app, plains_split by done. simpl. by rewrite split_slash_one. }
  rewrite path_of_Join.
  - rewrite Hsplit, foldl_app, (push_plain _ _ names) by done. simpl. unfold clean_part, is_dots.
    rewrite (proj2 (String.eqb_neq id "")) by done. simpl. unfold child.
    destruct (String.eqb_spec id "."), (decide (id = "."%string)); try done.
    { f_equal. by rewrite reverse_app, !reverse_involutive. }
    destruct (String.eqb_spec id ".."), (decide (id = ".."%string)); try done.
    + destruct names as [|x names _] using rev_ind; [done|]. rewrite removelast_last, reverse_app. simpl.
      apply Forall_app in Hp as [_ Hx]. apply Forall_cons in Hx as [(_ & _ & _ & Hx) _].
      rewrite (proj2 (String.eqb_neq x "..")) by done. f_equal. by rewrite reverse_app, !reverse_involutive.
    + f_equal. by rewrite reverse_cons, reverse_app, !reverse_involutive, app_assoc.
  - by destruct names.
  - apply Forall_app. split; [|by repeat constructor]. eapply Forall_impl; [exact Hp|]. by intros n (_ & ? & _).
  - destruct Hp as [|n names [Hn [Hn2 _]] _]; [done|]. apply rooted_join; [|done].
    destruct n as [|c n]; [done|]. apply Ascii.eqb_neq. apply Hn.
Qed.

Lemma cover_source_clear uid id : no_slash id -> id <> ""%string -> clear cfg (path_of (cover_source cfg uid id)).
Proof.
  intros Hs Hn. pose proof (fmt_d_random uid) as Hu.
  assert (Forall plain ["tmp"; "covers"; fmt_d uid]%string) as Hp.
  { repeat (constructor; [by repeat split|]). constructor; [by apply random_plain|done]. }
  unfold cover_source. pose proof (path_of_last (cf_DataDir cfg) ["tmp"; "covers"; fmt_d uid]%string id ltac:(done) Hp Hs Hn) as E.
  simpl app in E. rewrite E. fold (base cfg). repeat case_decide; by apply (name_clear cfg "covers").
Qed.

(** The cover below [media]; the name that leads to [media] itself is refused by [Rename]. *)
Lemma cover_dest_path id : no_slash id -> id <> ""%string ->
  path_of (media_name cfg (filepath_Join ["covers"; id]%string)) =
    if decide (id = "."%string) then child (base cfg) ["media"; "covers"]%string
    else if decide (id = ".."%string) then child (base cfg) ["media"]%string
    else child (base cfg) ["media"; "covers"; id]%string.
Proof.
  intros Hs Hn. unfold media_name. destruct (decide (id = "."%string)) as [->|Hd1].
  { change (filepath_Join ["covers"; "."]%string) with "covers"%string.
    apply (path_of_names _ ["media"; "covers"]%string); [done|]. by repeat constructor. }
  destruct (decide (id = ".."%string)) as [->|Hd2].
  { change (filepath_Join ["covers"; ".."]%string) with "."%string.
    by apply (path_of_last (cf_DataDir cfg) ["media"]%string "."%string); repeat constructor. }
  assert (Forall plain ["covers"; id]%string) as Hp by (repeat constructor; done).
  rewrite (Join_plain ["covers"; id]%string) by done.
  assert (split_slash (join_slash ["covers"; id]%string) = ["covers"; id]%string) as Hsplit.
  { rewrite split_join by done. by rewrite plains_split. }
  rewrite path_of_parts; [by rewrite !bind_cons, Hsplit|done|].
  constructor; [by repeat constructor|]. constructor; [by rewrite Hsplit|done].
Qed.

(** ** The file between the two places *)

(** The upload of [w] whose file [c] is to be published under the name. *)
Record ready (u : UploadModel) (c name : string) (w : World) : Prop := {
  rd_media : media_ok cfg w;
  rd_ext : extension_ok w;
  rd_row : uploads (extension (db w)) !! collate (ul_ID u) = Some u;
  rd_done : ul_Completed u = true;
  rd_open : ul_Published u = false;
  rd_file : disk w !! upload_path cfg (ul_ID u) = Some (File c);
  rd_name : random_name name;
  rd_free : disk w !! video_path cfg name = None;
}.

Definition media_dir : Path := child (base cfg) ["media"]%string.

(** The file was moved, and nothing else that is guarded changed. *)
Record moved (u : UploadModel) (c name : string) (w w' : World) : Prop := {
  mv_db : db w' = db w;
  mv_grows : grows w w';
  mv_dest : disk w' !! video_path cfg name = Some (File c);
  mv_gone : disk w' !! upload_path cfg (ul_ID u) = None;
  mv_rest : forall p, guarded cfg p -> p <> upload_path cfg (ul_ID u) -> p <> video_path cfg name -> disk w' !! p = disk w !! p;
}.

(** Nothing is published, and the file is at one of the two places. *)
Definition not_published (u : UploadModel) (c name : string) (w w' : World) : Prop :=
  db w' = db w /\
  (disk w' !! upload_path cfg (ul_ID u) = Some (File c) \/ disk w' !! video_path cfg name = Some (File c)).

Section Moving.
Variables (u : UploadModel) (c name : string) (w : World).
Hypothesis Hready : ready u c name w.

Lemma ready_random : random_name (ul_ID u).
Proof. eapply (fo_upload cfg); apply Hready. Qed.

Lemma ready_whole : whole u c.
Proof.
  pose proof (fo_stored _ _ _ (rd_media _ _ _ _ Hready) _ _ (rd_row _ _ _ _ Hready)) as Hst. unfold stored_whole in Hst.
  rewrite (rd_done _ _ _ _ Hready) in Hst. destruct Hst as [_ Hst].
  destruct (Hst _ (rd_file _ _ _ _ Hready)) as (c' & [= <-] & Hw). exact Hw.
Qed.

Lemma ready_stored : ul_StoredPath u = stored_name cfg (ul_ID u).
Proof.
  pose proof (fo_stored _ _ _ (rd_media _ _ _ _ Hready) _ _ (rd_row _ _ _ _ Hready)) as Hst. unfold stored_whole in Hst.
  rewrite (rd_done _ _ _ _ Hready) in Hst. apply Hst.
Qed.

(** The disk at the two places, with the rest as it was. *)
Lemma two_places f :
  (forall p, guarded cfg p -> p <> upload_path cfg (ul_ID u) -> p <> video_path cfg name -> f !! p = disk w !! p) ->
  (f !! upload_path cfg (ul_ID u) = None \/ f !! upload_path cfg (ul_ID u) = Some (File c)) ->
  files_ok cfg (db w) f.
Proof.
  intros Hrest Hat. eapply files_moved; [apply Hready|apply ready_random|apply Hready| |exact Hrest|].
  - eapply unused_fresh; [apply Hready|apply Hready|apply Hready].
  - intros k u' n Hk E _ Hn. destruct Hat as [Hat|Hat]; [congruence|].
    apply (same_upload cfg _ (disk w) _ u) in Hk; [|apply Hready|apply Hready|done]. subst u'.
    rewrite Hn in Hat. injection Hat as ->. exists c. split; [done|apply ready_whole].
Qed.

Lemma moved_ok w' : moved u c name w w' -> media_ok cfg w'.
Proof.
  intros Hm. unfold media_ok. rewrite (mv_db _ _ _ _ _ Hm). apply two_places; [apply Hm|].
  left. apply Hm.
Qed.

Lemma moved_on w1 w2 :
  moved u c name w w1 -> db w2 = db w1 -> grows w1 w2 -> same_guarded cfg (disk w1) (disk w2) -> moved u c name w w2.
Proof.
  intros [Hb Hg Hd Hu Hr] Hdb Hg2 Hs. split.
  - congruence.
  - by etrans.
  - rewrite Hs; [done|]. exists name. split; [apply Hready|auto].
  - rewrite Hs; [done|]. exists (ul_ID u). split; [apply ready_random|auto].
  - intros p Hp Hpu Hpv. rewrite Hs by done. by apply Hr.
Qed.

Lemma moved_beside w1 w2 :
  moved u c name w w1 -> beside w1 w2 -> same_guarded cfg (disk w1) (disk w2) -> moved u c name w w2.
Proof. intros Hm Hb. eapply moved_on; [done|apply Hb|]. by apply grows_auto_inc, Hb. Qed.

Lemma moved_outside w1 w2 : moved u c name w w1 -> outside w1 w2 -> moved u c name w w2.
Proof.
  intros Hm Ho. eapply moved_beside; [done|by apply outside_beside|]. by rewrite (outside_disk _ _ Ho).
Qed.

(** Putting the file back may fail: then it stays where it is. *)
Lemma wp_put_back rel r w' :
  path_of (media_name cfg rel) = video_path cfg name -> moved u c name w w' ->
  wp (put_back (media_name cfg rel) (ul_StoredPath u) r)
    (fun r' w'' => r' = r /\ media_ok cfg w'' /\ not_published u c name w w'') (fun _ _ => False) w'.
Proof.
  intros Hrel Hm. unfold put_back. apply wp_bind, wp_attempt, wp_os_Rename.
  - intros d w2 Hr Hb <-. apply wp_ret. split; [done|]. rewrite Hrel, ready_stored, stored_path in Hr by apply ready_random.
    assert (disk w2 = <[upload_path cfg (ul_ID u) := File c]> (delete (video_path cfg name) (disk w'))) as Hd
      by (eapply rename_file; [exact Hr|apply Hm]).
    assert (db w2 = db w) as Hdb by (rewrite (proj1 Hb); apply Hm). split.
    + unfold media_ok. rewrite Hdb, Hd. apply two_places; [|right; by rewrite lookup_insert_eq].
      intros p Hp Hpu Hpv. rewrite lookup_insert_ne, lookup_delete_ne by done. by apply Hm.
    + split; [done|]. left. by rewrite Hd, lookup_insert_eq.
  - intros e w2 Ho. apply wp_ret. split; [done|]. pose proof (moved_outside _ _ Hm Ho) as Hm2.
    split; [by apply moved_ok|]. split; [apply Hm2|]. right. apply Hm2.
Qed.

(** ** The cover *)

(** What [check_cover] lets through. *)
Definition cover_ok (id cover : string) : Prop :=
  cover = ""%string \/ no_slash id /\ id <> ""%string /\ cover = filepath_Join ["covers"; id]%string.

Lemma rename_dir old new d : is_dir d new = true -> rename old new d = None.
Proof. intros Hd. unfold rename. destruct (d !! old); simpl; [|done]. by rewrite Hd, orb_true_r. Qed.

Lemma wp_move_cover uid id cover w' :
  cover_ok id cover -> moved u c name w w' -> is_dir (disk w') media_dir = true ->
  wp (move_cover cfg uid id cover) (fun _ w'' => moved u c name w w'') (fun _ _ => False) w'.
Proof.
  intros Hcov Hm Hdir. unfold move_cover. destruct (String.eqb_spec cover "") as [|Hne]; [by apply wp_ret|].
  destruct Hcov as [|(Hs & Hid & ->)]; [done|].
  assert (path_of (filepath_Join [cf_DataDir cfg; "media"; "covers"]%string) = child (base cfg) ["media"; "covers"]%string) as Hp.
  { apply (path_of_names _ ["media"; "covers"]%string); [done|]. by repeat constructor. }
  assert (forall w2, beside w' w2 -> dirs_added (child (base cfg) ["media"; "covers"]%string) (disk w') (disk w2) ->
    wp (attempt (os_Rename (cover_source cfg uid id) (media_name cfg (filepath_Join ["covers"; id]%string))))
      (fun _ w'' => moved u c name w w'') (fun _ _ => False) w2) as Hrename.
  { intros w2 Hb Hd.
    assert (moved u c name w w2) as Hm2.
    { eapply moved_beside; [done..|]. intros p Hg. destruct (Hd p) as [|(_ & _ & Hu)]; [done|].
      rewrite (clear_dir_under cfg) in Hu; [done| |done]. left. by apply media_clear. }
    apply wp_attempt, wp_os_Rename; [|intros e w3 Ho; by eapply moved_outside].
    intros d w3 Hr Hb3 <-. eapply moved_beside; [done..|]. rewrite cover_dest_path in Hr by done.
    intros p Hg. repeat case_decide.
    3: { eapply rename_other; [exact Hr|..]; apply (clear_under cfg); try done; [by apply cover_source_clear|by apply media_clear]. }
    - eapply rename_other; [exact Hr|..]; apply (clear_under cfg); try done; [by apply cover_source_clear|by apply media_clear].
    - rewrite rename_dir in Hr; [done|]. by eapply dirs_added_dir. }
  apply wp_bind, wp_attempt, wp_os_MkdirAll; rewrite Hp; auto.
Qed.

(** ** The transaction *)

Definition row_published (p : publication) (row : VideoModel) (d d' : Tables) : Prop :=
  (exists now, row = core_video_row p (vm_ID row) now) /\ video_stat d !! vm_ID row = None /\
  exists now m r,
    tags_added (vm_ID row) (publication_tags p) (video_tags (extension d)) m /\
    announces (vm_ID row) (pu_UserID p) r /\ outbox (extension d) !! collate (ob_ID r) = None /\
    d' = published_tables p row now m r d.

Lemma row_published_ok p row f d' :
  row_published p row (db w) d' -> pu_UploadID p = ul_ID u -> pu_UserID p = ul_UserID u -> pu_Size p = ul_Size u ->
  pu_FilePath p = ("videos/" +:+ mp4 name)%string ->
  files_ok cfg (db w) f -> f !! video_path cfg name = Some (File c) -> files_ok cfg d' f.
Proof.
  intros ([now Hrow] & _ & now' & m & r & _ & _ & _ & ->) Hid Huid Hsz Hfp [Hu Hst Hv] Hf.
  pose proof (rd_row _ _ _ _ Hready) as Hk. pose proof (rd_open _ _ _ _ Hready) as Hopen.
  pose proof (rd_done _ _ _ _ Hready) as Hdone.
  assert (forall k u', alter (fun x => if ul_Published x then x else upload_published x) (collate (ul_ID u))
    (uploads (extension (db w))) !! k = Some u' -> exists x, uploads (extension (db w)) !! k = Some x /\
      (u' = x \/ k = collate (ul_ID u) /\ x = u /\ u' = upload_published u)) as Hinv.
  { intros k u' Hk'. destruct (decide (k = collate (ul_ID u))) as [->|Hne].
    - rewrite lookup_alter_eq, Hk in Hk'. simpl in Hk'. rewrite Hopen in Hk'. injection Hk' as <-. exists u. auto.
    - rewrite lookup_alter_ne in Hk' by done. exists u'. auto. }
  split; simpl; rewrite ?Hid.
  - intros k u' (x & Hx & [->|(-> & -> & ->)])%Hinv; by apply Hu in Hx.
  - intros k u' (x & Hx & [->|(-> & -> & ->)])%Hinv; [by eapply Hst|]. apply Hst in Hx. unfold stored_whole in *. simpl.
    by rewrite Hdone in *.
  - intros i v [[<- <-]|[Hne Hi]]%lookup_insert_Some Hfull.
    + exists name, (upload_published u), c. rewrite Hrow. simpl. rewrite Hid. split_and!; try done; [apply Hready| |apply ready_whole].
      rewrite lookup_alter_eq, Hk. simpl. by rewrite Hopen.
    + destruct (Hv _ _ Hi Hfull) as (nm & x & c' & Hn & Hp & Hc' & Hx & Hpx & Hr). exists nm, x, c'.
      split_and!; try done; try apply Hr. simpl. rewrite Hid. destruct (decide (collate (ul_ID x) = collate (ul_ID u))) as [E|Hd].
      * rewrite E, Hk in Hx. injection Hx as <-. congruence.
      * by rewrite lookup_alter_ne.
Qed.

Lemma publish_tx_disk p w0 : disk (System.after (publish_tx p) w0) = disk w0.
Proof.
  assert (PreOrder (fun _ _ : Tables => True)) as Hpre by by split.
  assert (forall id tags, changes_by (fun _ _ => True) (insert_tags id tags)) as Ht.
  { intros id tags. induction tags as [|t tags IH]; simpl; [by apply changes_ret|].
    apply changes_bind; [done|changes_solve|intros _; exact IH]. }
  assert (changes_by (fun _ _ => True) (publish_tx p)) as Hc; [|by apply Hc].
  unfold publish_tx, createCoreVideo. apply changes_transaction; [done|].
  repeat (apply changes_bind; [done|first [apply Ht|changes_solve]|intros ?]). changes_solve.
Qed.

Lemma wp_publish_disk p w0 :
  extension_ok w0 ->
  wp (publish_tx p) (fun row w' => published w0 p row w' /\ disk w' = disk w0)
    (fun _ w' => db w' = db w0 /\ grows w0 w' /\ disk w' = disk w0) w0.
Proof.
  intros Hx. pose proof (wp_publish_tx p w0 Hx) as Hp. pose proof (publish_tx_disk p w0) as Hd.
  unfold wp, System.after in *. destruct (publish_tx p w0) as [[e|row] w']; simpl in *; [by destruct Hp|done].
Qed.

(** ** From the upload to the answer *)

(** What [publishVideo] answers for the file [c], and what it has done then. *)
Definition publishes (uid : Z) (b : publish_body) (r : Response) (w' : World) : Prop :=
  media_ok cfg w' /\
  ((exists row cover now,
      r = JSON 201 (BVideo (hydrateVideo (created_view row))) /\
      row_published (mkPublication uid (TrimSpace (pb_Title b)) (pb_Description b) ("videos/" +:+ mp4 name)%string
        cover (ul_Size u) now (ul_ID u) (pb_Title b)) row (db w) (db w') /\
      disk w' !! video_path cfg name = Some (File c)) \/
   rs_Status r = 500 /\ not_published u c name w w').

Lemma wp_publish_row uid b cover w' :
  ul_UserID u = uid -> moved u c name w w' ->
  wp (publish_row uid b u (video_rel name) (media_name cfg (video_rel name)) cover) (publishes uid b)
    (fun _ _ => False) w'.
Proof.
  intros Huid Hm. pose proof (rd_name _ _ _ _ Hready) as Hn. unfold publish_row.
  apply wp_bind, wp_time_now. intros now e Ht He. set (w1 := with_env w' e).
  assert (outside w' w1) as Ho1 by (apply outside_env; unfold clock_of; lia).
  pose proof (moved_outside _ _ Hm Ho1) as Hm1. clearbody w1.
  assert (extension_ok w1) as Hx.
  { apply (extension_frame w); [apply Hready|apply Hm1|by rewrite (mv_db _ _ _ _ _ Hm1)]. }
  apply wp_bind, wp_attempt. eapply wp_mono; [by apply wp_publish_disk|..].
  - intros row w2 [Hp Hd2]. apply wp_bind, wp_cacheUpload. intros w3 Ho3. apply wp_ret.
    assert (row_published (mkPublication uid (TrimSpace (pb_Title b)) (pb_Description b) ("videos/" +:+ mp4 name)%string
        cover (ul_Size u) now (ul_ID u) (pb_Title b)) row (db w) (db w3)) as Hrow.
    { rewrite (proj1 Ho3). destruct Hp as [[t Hr] Hs Hdb _ _ _]. rewrite (mv_db _ _ _ _ _ Hm1), video_rel_eq in * by done.
      split_and!; [|done|done]. exists t. by rewrite Hr. }
    assert (disk w3 = disk w1) as Hd3 by by rewrite (outside_disk _ _ Ho3).
    split; [|left; exists row, cover, now; split_and!; [done|done|rewrite Hd3; apply Hm1]].
    unfold media_ok. rewrite Hd3. eapply row_published_ok; [exact Hrow|done..| |apply Hm1].
    pose proof (moved_ok _ Hm1) as Hok. unfold media_ok in Hok. by rewrite (mv_db _ _ _ _ _ Hm1) in Hok.
  - intros err w2 (Hdb2 & Hg2 & Hd2).
    assert (moved u c name w w2) as Hm2 by (eapply moved_on; [exact Hm1|done|done|by rewrite Hd2]).
    eapply wp_mono; [apply wp_put_back; [by apply media_name_path|done]| |done].
    intros r w3 (-> & Hok & Hnp). split; [done|]. by right.
Qed.

Lemma wp_place_video uid b cover w' :
  ul_UserID u = uid -> cover_ok (pb_CoverID b) cover -> moved u c name w w' -> is_dir (disk w') media_dir = true ->
  wp (allowed ← attempt (os_Chmod (media_name cfg (video_rel name)));
      if is_err allowed then put_back (media_name cfg (video_rel name)) (ul_StoredPath u) (errorJSON 500 "storage_error") else
      covered ← move_cover cfg uid (pb_CoverID b) cover;
      if is_err covered then put_back (media_name cfg (video_rel name)) (ul_StoredPath u) (errorJSON 500 "storage_error") else
      publish_row uid b u (video_rel name) (media_name cfg (video_rel name)) cover)
    (publishes uid b) (fun _ _ => False) w'.
Proof.
  intros Huid Hcov Hm Hdir. pose proof (rd_name _ _ _ _ Hready) as Hn.
  assert (forall w2, moved u c name w w2 ->
    wp (put_back (media_name cfg (video_rel name)) (ul_StoredPath u) (errorJSON 500 "storage_error"))
      (publishes uid b) (fun _ _ => False) w2) as Hback.
  { intros w2 Hm2. eapply wp_mono; [apply wp_put_back; [by apply media_name_path|done]| |done].
    intros r w3 (-> & Hok & Hnp). split; [done|]. by right. }
  apply wp_bind, wp_attempt. apply wp_look_disk; [|intros e w2 Ho; apply Hback; by eapply moved_outside].
  intros [] w2 _ Ho. simpl. pose proof (moved_outside _ _ Hm Ho) as Hm2.
  apply wp_bind. eapply wp_mono; [apply wp_move_cover; [done..|by rewrite (outside_disk _ _ Ho)]| |done].
  intros covered w3 Hm3. destruct (is_err covered); [by apply Hback|]. by apply wp_publish_row.
Qed.

Lemma wp_publish_moved uid b cover w1 :
  ul_UserID u = uid -> cover_ok (pb_CoverID b) cover -> outside w w1 ->
  wp (let rel := video_rel name in
      let dest := media_name cfg rel in
      made ← attempt (os_MkdirAll (filepath_Dir dest));
      if is_err made then mret (errorJSON 500 "storage_error") else
      moved ← attempt (os_Rename (ul_StoredPath u) dest);
      if is_err moved then mret (errorJSON 500 "storage_error") else
      allowed ← attempt (os_Chmod dest);
      if is_err allowed then put_back dest (ul_StoredPath u) (errorJSON 500 "storage_error") else
      covered ← move_cover cfg uid (pb_CoverID b) cover;
      if is_err covered then put_back dest (ul_StoredPath u) (errorJSON 500 "storage_error") else
      publish_row uid b u rel dest cover)
    (publishes uid b) (fun _ _ => False) w1.
Proof.
  intros Huid Hcov Ho1. pose proof (rd_name _ _ _ _ Hready) as Hn. cbv zeta.
  assert (forall w2, beside w w2 -> same_guarded cfg (disk w) (disk w2) ->
    publishes uid b (errorJSON 500 "storage_error") w2) as Hno.
  { intros w2 Hb Hs. split; [eapply media_stable; [apply Hready|done..]|]. right. split; [done|]. split; [apply Hb|]. left.
    rewrite Hs; [apply Hready|]. exists (ul_ID u). split; [apply ready_random|auto]. }
  assert (forall w2, beside w1 w2 -> dirs_added (child (base cfg) ["media"; "videos"]%string) (disk w1) (disk w2) ->
    beside w w2 /\ same_guarded cfg (disk w) (disk w2)) as Hmade.
  { intros w2 Hb Hd. split; [etrans; [by apply outside_beside|done]|]. intros p Hp.
    rewrite <-(outside_disk _ _ Ho1). destruct (Hd p) as [|(_ & _ & Hu)]; [done|].
    rewrite (clear_dir_under cfg) in Hu; [done| |done]. right. by left. }
  apply wp_bind, wp_attempt, wp_os_MkdirAll; rewrite media_dir_path by done.
  2: { intros e w2 Hb Hd. apply wp_ret, Hno; by apply Hmade. }
  intros w2 Hb Hd Hall. simpl. destruct (Hmade _ Hb Hd) as [Hb2 Hs2]. clear Hmade.
  assert (is_dir (disk w2) media_dir = true) as Hdir.
  { unfold all_dirs in Hall. specialize (Hall ((base cfg).2 ++ ["media"]%string) ["videos"]%string).
    unfold child in Hall at 1. simpl in Hall. rewrite <-app_assoc in Hall. simpl in Hall. apply Hall; [done|].
    intros E. apply (f_equal length) in E. rewrite length_app in E. simpl in E. lia. }
  apply wp_bind, wp_attempt, wp_os_Rename.
  2: { intros e w3 Ho3. apply wp_ret, Hno; [etrans; [done|by apply outside_beside]|]. by rewrite (outside_disk _ _ Ho3). }
  intros d w3 Hr Hb3 Hd3. rewrite ready_stored, stored_path, media_name_path in Hr by (done || apply ready_random).
  assert (disk w2 !! upload_path cfg (ul_ID u) = Some (File c)) as Hfile.
  { rewrite Hs2; [apply Hready|]. exists (ul_ID u). split; [apply ready_random|auto]. }
  rewrite (rename_file _ _ _ _ _ Hr Hfile) in Hd3. simpl. apply wp_place_video; [done..| |].
  - split; [by rewrite (proj1 Hb3), (proj1 Hb2)|by apply grows_auto_inc; rewrite (proj1 (proj2 Hb3)); apply Hb2|..].
    + by rewrite Hd3, lookup_insert_eq.
    + rewrite Hd3, lookup_insert_ne by (apply not_eq_sym, upload_video_ne). by rewrite lookup_delete_eq.
    + intros p Hp Hpu Hpv. rewrite Hd3, lookup_insert_ne, lookup_delete_ne by done. by apply Hs2.
  - unfold is_dir in *. destruct (forallb is_dots media_dir.2); [done|]. simpl in *. rewrite Hd3.
    rewrite lookup_insert_ne, lookup_delete_ne; [done|..]; unfold media_dir, upload_path, video_path; intros E;
      injection E as E; by apply app_inv_head in E.
Qed.

End Moving.

(** ** The name that is drawn *)

(** The UUID that the next call of [uuid.NewString] makes. *)
Definition next_name (w : World) : string :=
  uuid_text (take 16 (string_bytes (default ""%string (head (entropy (env w)))) ++ replicate 16 0)).

(** No file has the name yet. *)
Definition fresh_name (w : World) : Prop := disk w !! video_path cfg (next_name w) = None.

Lemma next_draws {A} (m : M A) Q E w :
  draws_none m -> wp m (fun a w' => next_name w' = next_name w -> Q a w') (fun e w' => next_name w' = next_name w -> E e w') w ->
  wp m Q E w.
Proof.
  intros Hm Hw. specialize (Hm w). unfold wp, next_name, System.after in *. destruct (m w) as [[e|a] w']; simpl in *; rewrite Hm in Hw; auto.
Qed.

Lemma next_random w : random_name (next_name w).
Proof.
  apply uuid_text_random, Forall_take, Forall_app. split; [apply string_bytes_range|]. by apply Forall_replicate.
Qed.

Lemma wp_next_name (Q : string -> World -> Prop) E w :
  (forall w', outside w w' -> Q (next_name w) w') -> wp uuid_NewString Q E w.
Proof. intros HQ. apply HQ. by apply outside_env. Qed.

(** ** [publishVideo] *)

Lemma wp_check_cover uid id w (Q : Response + string -> World -> Prop) E :
  (forall r w', outside w w' -> rs_Status r = 400 -> Q (inl r) w') ->
  (forall cover w', outside w w' -> cover_ok id cover -> Q (inr cover) w') ->
  wp (check_cover cfg uid id) Q E w.
Proof.
  intros Hl Hr. unfold check_cover. destruct (String.eqb_spec id "") as [->|Hne]; [apply wp_ret, Hr; [done|by left]|].
  destruct (_ || _) eqn:Hbad; [by apply wp_ret, Hl|]. apply orb_false_iff in Hbad as [Hsep _].
  apply wp_bind, wp_attempt, wp_look_disk; simpl.
  - intros _ w' _ Ho. apply wp_ret, Hr; [done|]. right. split_and!; [by apply no_separator|done|done].
  - intros err w' Ho. by apply wp_ret, Hl.
Qed.

(** What was done for the file [c] of upload [u], or that nothing was. *)
Definition publish_outcome (uid : Z) (body : option publish_body) (w : World) (r : Response) (w' : World) : Prop :=
  (exists b u c, body = Some b /\ publish_body_ok b = true /\ ready_upload uid (pb_UploadID b) (db w) = Some u /\ whole u c /\
     disk w !! upload_path cfg (ul_ID u) = Some (File c) /\ publishes u c (next_name w) w uid b r w') \/
  rs_Status r ∈ [400; 404; 409] /\ media_ok cfg w' /\ db w' = db w /\ disk w' = disk w.

Lemma ready_lookup uid id d u : ready_upload uid id d = Some u ->
  uploads (extension d) !! collate id = Some u /\ ul_UserID u = uid /\ ul_Completed u = true /\ ul_Published u = false.
Proof.
  unfold ready_upload. intros (x & Hx & Hu)%bind_Some.
  destruct (_ && _) eqn:Hc; [|done]. injection Hu as ->. apply andb_true_iff in Hc as [[Hid Hc]%andb_true_iff Hp].
  apply negb_true_iff in Hp. split_and!; [done|lia|done|done].
Qed.

(** There is something at the place of the file: the file. *)
Lemma stored_there w u : media_ok cfg w -> uploads (extension (db w)) !! collate (ul_ID u) = Some u -> ul_Completed u = true ->
  random_name (ul_ID u) ->
  (p ← resolve (ul_StoredPath u); if exists_at (disk w) p then Some tt else None) = Some tt ->
  exists c, disk w !! upload_path cfg (ul_ID u) = Some (File c) /\ whole u c.
Proof.
  intros Hok Hu Hc Hid (p & ->%resolve_Some & He)%bind_Some.
  pose proof (fo_stored _ _ _ Hok _ _ Hu) as Hst. unfold stored_whole in Hst. rewrite Hc in Hst. destruct Hst as [Hp Hst].
  rewrite Hp, stored_path in He by done.
  destruct (disk w !! upload_path cfg (ul_ID u)) as [n|] eqn:Hn; [destruct (Hst _ eq_refl) as (c & -> & ?); by exists c|].
  exfalso. unfold exists_at, is_dir in He. rewrite Hn in He. unfold upload_path, child in He. simpl in He.
  rewrite forallb_app in He. simpl in He. by rewrite andb_false_r in He.
Qed.

Lemma wp_publishVideo uid body w :
  media_ok cfg w -> extension_ok w -> fresh_name w ->
  wp (publishVideo cfg uid body) (publish_outcome uid body w) (fun _ _ => False) w.
Proof.
  intros Hok Hx Hfresh. unfold publishVideo.
  assert (forall r w', outside w w' -> rs_Status r ∈ [400; 404; 409] -> publish_outcome uid body w r w') as Hno.
  { intros r w' Ho Hr. right. split_and!; [done|by eapply (stable_outside cfg); [apply media_stable|exact Hok|]|apply Ho|by apply outside_disk]. }
  destruct body as [b|]; [|apply wp_ret, Hno; [done|simpl; set_solver]].
  destruct (publish_body_ok b) eqn:Hb; [|apply wp_ret, Hno; [done|simpl; set_solver]].
  destruct (uuid_Parse _); [|apply wp_ret, Hno; [done|simpl; set_solver]]. simpl.
  apply wp_bind, next_draws; [draws_solve|]. apply wp_attempt, wp_take_row_clock.
  2-3: intros; apply wp_ret, Hno; [by apply outside_env; unfold clock_of; lia|simpl; set_solver].
  intros u e He Hready Hn1. set (w1 := with_env _ _) in *.
  assert (outside w w1) as Ho1 by (apply outside_env; unfold clock_of; lia). clearbody w1.
  destruct (ready_lookup _ _ _ _ Hready) as (Hu & Huid & Hc & Hp).
  destruct (fo_upload _ _ _ Hok _ _ Hu) as [Hk Hid]. rewrite Hk in Hu.
  apply wp_bind, next_draws; [draws_solve|]. apply wp_attempt, wp_look_disk.
  2: { intros e2 w2 Ho2 _. apply wp_ret, Hno; [by etrans|simpl; set_solver]. }
  intros [] w2 Hthere Ho2 Hn2. rewrite (outside_disk _ _ Ho1) in Hthere.
  destruct (stored_there w u) as (c & Hfile & Hwhole); [done..|]. simpl.
  apply wp_bind, next_draws; [draws_solve|].
  apply wp_check_cover; [intros r w3 Ho3 Hr _; apply wp_ret, Hno; [by etrans; [|etrans]|rewrite Hr; set_solver]|].
  intros cover w3 Ho3 Hcover Hn3. assert (outside w w3) as Hw3 by (by etrans; [|etrans]).
  apply wp_bind, wp_next_name. rewrite Hn3, Hn2, Hn1. intros w4 Ho4.
  assert (ready u c (next_name w) w) as Hrd by (split; try done; apply next_random).
  eapply wp_mono; [eapply (wp_publish_moved u c (next_name w) w Hrd uid b cover w4); [done|done|by etrans]| |done].
  intros r w5 Hpub. left. exists b, u, c. by split_and!.
Qed.

End UploadPublish.

(** * Files and rows agree in every world of a run

    [cleanupUploads] and the upload routes keep [files_ok]. For [publishVideo] this needs that
    the UUID it draws is not the name of a file that exists. *)

Section MediaRequests.
Context `{Collation, !CollationLaws} `{Unicode} `{UUID}.
Variable cfg : Config.

Notation safe := (maintains (media_ok cfg) (fun _ => True)).

Lemma completeUpload_safe uid id : safe (completeUpload cfg uid id).
Proof.
  intros w Hw. apply (wp_owned cfg); [done|intros resp w' Ho _; apply wp_ret; split; [|done]|].
  - by eapply (stable_outside cfg); [apply media_stable|exact Hw|].
  - intros u w' _ Hw' Hu _ _. destruct (ul_Completed u) eqn:Hc.
    + unfold complete_owned. rewrite Hc. by apply wp_ret.
    + eapply wp_mono; [apply wp_complete_owned; by split_and!|by intros r w2 [? _]|done].
Qed.

(** ** Abandoned uploads *)

(** The rows that are still to be removed: none of them is published. *)
Definition abandons (l : list UploadModel) (w : World) : Prop :=
  media_ok cfg w /\ Forall (fun u => random_name (ul_ID u) /\
    (ul_StoredPath u = ""%string \/ ul_StoredPath u = stored_name cfg (ul_ID u)) /\
    forall u', uploads (extension (db w)) !! collate (ul_ID u) = Some u' -> ul_Published u' = false) l.

Lemma abandons_stable l : stable cfg (abandons l).
Proof.
  intros w w' [Hm Hl] Hb Hs. split; [by eapply media_stable|]. by rewrite (proj1 Hb).
Qed.

Lemma wp_remove_stored u l w :
  abandons (u :: l) w ->
  wp (if String.eqb (ul_StoredPath u) "" then mret (inr tt) else attempt (os_Remove (ul_StoredPath u)))
    (fun _ => abandons (u :: l)) (fun _ _ => False) w.
Proof.
  intros Ha. destruct (String.eqb_spec (ul_StoredPath u) "") as [|Hne]; [by apply wp_ret|].
  destruct Ha as [Hok Hall]. pose proof Hall as Hl. apply Forall_cons in Hl as [(Hid & [|Hp] & Hno) Hl]; [done|].
  apply wp_attempt, wp_os_Remove.
  - intros d w' Hr Hb <-. rewrite Hp, stored_path in Hr by done. split.
    + unfold media_ok. rewrite (proj1 Hb). eapply (files_at_upload cfg); [exact Hok|exact Hid|..].
      * intros p _ Hpu. by eapply remove_other.
      * intros k u' n _ _ _ Hn. unfold remove in Hr. destruct (disk w !! upload_path cfg (ul_ID u)) as [[|c]|]; [..|done].
        -- simpl in Hr. case_bool_decide; [|done]. injection Hr as Hr. by rewrite <-Hr, lookup_delete_eq in Hn.
        -- simpl in Hr. injection Hr as Hr. by rewrite <-Hr, lookup_delete_eq in Hn.
    + by rewrite (proj1 Hb).
  - intros e w' Ho. eapply (stable_outside cfg); [apply abandons_stable| |exact Ho]. by split.
Qed.

Lemma delete_upload_ok u l w e :
  abandons (u :: l) w -> abandons l (with_db (with_env w e) (delete_upload (ul_ID u) (db w))).
Proof.
  intros [Hok Hall]. apply Forall_cons in Hall as [(Hid & Hp & Hno) Hl]. split.
  - apply (files_at cfg _ _ _ (collate (ul_ID u))); [done|..].
    + intros j Hj. by rewrite lookup_delete_ne.
    + done.
    + intros u'. by rewrite lookup_delete_eq.
  - eapply Forall_impl; [exact Hl|]. intros x (Hx & Hpx & Hnox). split_and!; [done..|]. simpl.
    intros u' [_ Hu']%lookup_delete_Some. by apply Hnox.
Qed.

Lemma wp_remove_uploads l w :
  abandons l w -> wp (remove_uploads cfg l) (fun _ w' => media_ok cfg w') (fun _ w' => media_ok cfg w') w.
Proof.
  revert w. induction l as [|u l IH]; intros w Ha; simpl; [apply wp_ret, Ha|].
  assert (random_name (ul_ID u)) as Hid by (destruct Ha as [_ Hall]; by apply Forall_cons in Hall as [[? _] _]).
  assert (clear cfg (path_of (upload_dir cfg u))) as Hdir by (rewrite upload_dir_path by done; apply name_clear, Hid).
  apply wp_bind. eapply wp_mono.
  { eapply maintains_try, Ha. apply (removeall_maintains cfg); [apply abandons_stable|exact Hdir]. }
  2: { intros e w' Hx. apply Hx. }
  intros r w1 [Ha1 _]. apply wp_bind. eapply wp_mono; [by apply wp_remove_stored| |done]. intros r2 w2 Ha2.
  apply wp_bind, wp_update; [|intros t e; apply Ha2]. intros e. by apply IH, delete_upload_ok.
Qed.

Lemma abandoned_rows w before : media_ok cfg w ->
  abandons (select_rows (abandoned before) (uploads (extension (db w)))) w.
Proof.
  intros Hok. split; [done|]. apply Forall_forall. intros u (k & Hk & Hab)%elem_of_select_rows.
  destruct (fo_upload _ _ _ Hok _ _ Hk) as [-> Hid]. split_and!; [done| |].
  - pose proof (fo_stored _ _ _ Hok _ _ Hk) as Hst. unfold stored_whole in Hst. destruct (ul_Completed u); destruct Hst; auto.
  - intros u' Hu'. assert (u' = u) as -> by congruence. apply andb_true_iff in Hab as [_ Hp]. by apply negb_true_iff in Hp.
Qed.

Lemma cleanupUploads_ok w :
  media_ok cfg w -> wp (cleanupUploads cfg) (fun _ w' => media_ok cfg w') (fun _ w' => media_ok cfg w') w.
Proof.
  intros Hok. unfold cleanupUploads. apply wp_bind, wp_time_now. intros now e1 _ _. apply wp_bind, wp_query; [|done].
  intros e2. exact (wp_remove_uploads _ _ (abandoned_rows (with_env (with_env w e1) e2) _ Hok)).
Qed.

End MediaRequests.

(** ** Requests *)

Section Runs.
Context `{Collation, !CollationLaws} `{Codec} `{JWT} `{AccountDomain.Bcrypt} `{Unicode} `{UUID}.
Variable cfg : Config.

Lemma authenticate_draws rq : draws_none (authenticate cfg rq false).
Proof. draws_solve. Qed.

Lemma upload_handler_ok h uid w :
  upload_handler cfg h -> media_ok cfg w -> extension_ok w -> fresh_name cfg w ->
  wp (h uid) (fun _ w' => media_ok cfg w') (fun _ w' => media_ok cfg w') w.
Proof.
  intros Hh Hok Hx Hf.
  assert (forall m : M Response, maintains (media_ok cfg) (fun _ => True) m ->
    wp m (fun _ w' => media_ok cfg w') (fun _ w' => media_ok cfg w') w) as Hsafe.
  { intros m Hm. eapply wp_mono; [by apply Hm|by intros r w' [? _]|done]. }
  destruct Hh; try solve [apply Hsafe; auto using initUpload_safe, uploadStatus_safe, uploadChunk_safe, completeUpload_safe,
    uploadAvatar_safe, uploadCover_safe].
  eapply wp_mono; [by apply wp_publishVideo| |done].
  intros r w' [(b & u & c & _ & _ & _ & _ & _ & Hm & _)|(_ & Hm & _)]; exact Hm.
Qed.

Lemma any_request_media w w' :
  any_request cfg w w' -> media_ok cfg w -> extension_ok w -> fresh_name cfg w -> media_ok cfg w'.
Proof.
  intros Hr Hok Hx Hf. destruct Hr as [w w' Hr|w rq h Hh|w].
  - apply plain_request_steps in Hr. apply plain_steps_files in Hr as [Hk Hd].
    unfold media_ok. rewrite Hd. by eapply files_frame.
  - eapply after_wp; [|intros r w'; exact id|intros e w'; exact id].
    unfold authed. apply wp_bind, next_draws; [apply authenticate_draws|].
    eapply wp_mono; [apply wp_authenticate| |done]. intros who w' [Ho _] Hn.
    assert (media_ok cfg w') as Hok' by (eapply (stable_outside cfg); [apply media_stable|exact Hok|exact Ho]).
    destruct who as [r| |p]; [by apply wp_ret..|]. apply upload_handler_ok; [done..| |].
    + eapply extension_frame; [exact Hx|apply grows_auto_inc, Ho|by rewrite (proj1 Ho)].
    + unfold fresh_name. by rewrite Hn, (outside_disk _ _ Ho).
  - eapply after_wp; [by apply cleanupUploads_ok|done|done].
Qed.

(** Worlds that requests lead to, when the UUIDs that name videos are new. *)
Inductive media_run : World -> Prop :=
  | run_init e p f : media_run (mkWorld no_tables ∅ no_redis [] e p f)
  | run_request w w' : media_run w -> fresh_name cfg w -> any_request cfg w w' -> media_run w'.

Lemma media_run_reachable w : media_run w -> reachable w.
Proof.
  induction 1 as [|w w' _ IH _ Hr]; [constructor|]. apply any_request_steps in Hr.
  clear -IH Hr. induction Hr as [|w1 w2 w3 Hs _ IH2]; [done|]. apply IH2. by eapply reachable_step.
Qed.

Lemma media_run_ok w : media_run w -> media_ok cfg w.
Proof.
  induction 1 as [e p f|w w' Hw IH Hf Hr].
  - by split; intros k u; simpl; rewrite lookup_empty.
  - eapply any_request_media; [done|done| |done]. by apply reachable_ok, media_run_reachable.
Qed.

End Runs.
