(* ===== verification/CoreMedia.v ===== *)
(** * Copying the media of a legacy installation ([core_media.go])

    The walk over the source makes a manifest of digests; what is at the target must be part
    of it; missing files are copied, read back and compared. Symbolic links are not modelled,
    so that the refusals of links are never taken. The order of a walk and of a manifest only
    decides which error comes first. *)
From S2P Require Import Prelude.
From S2P Require Import GoStd.
From S2P Require Import GoHash.
From S2P Require Import Errors.
From S2P Require Import Files.
From S2P Require Import Models.
From S2P Require Import Redis.
From S2P Require Import Store.
From S2P Require Import FileOps.
From S2P Require Import RedisClient.
From S2P Require Import Edge.
From S2P Require Import EdgeRules.
From S2P Require Import UploadRules.

(** ** Paths *)

(** [filepath.Abs], with the working directory. *)
Definition filepath_Abs (wd s : string) : Path :=
  path_of (if rooted s then s else (wd +:+ "/" +:+ s)%string).

(** The names of [filepath.Rel] between absolute paths; none is the path ["."]. *)
Fixpoint rel_names (base targ : list string) : list string :=
  match base, targ with
  | b :: base', t :: targ' =>
      if String.eqb b t then rel_names base' targ'
      else replicate (length base) ".."%string ++ targ
  | _, _ => replicate (length base) ".."%string ++ targ
  end.

(** The relative path does not leave the directory it starts in. *)
Definition stays_inside (rel : list string) : bool :=
  match rel with name :: _ => negb (is_dots name) | [] => true end.

(** ** Walks *)

(** The regular files at and below a path: their names from there on, and their contents. *)
Definition tree_files (d : Disk) (root : Path) : list (list string * string) :=
  omap (fun kn => match kn.2 with
    | File c => if under root kn.1 then Some (drop (length root.2) (kn.1).2, c) else None
    | Dir => None
    end) (map_to_list d).

(** [filepath.WalkDir] up to its first call of the function: the root must be there. *)
Definition walk (root : Path) : M (list (list string)) :=
  look_disk (fun d => if exists_at d root then Some ((tree_files d root).*1) else None).

Definition open_path (p : Path) : M unit := look_disk (fun d => if exists_at d p then Some tt else None).

Definition coreFileDigest (p : Path) : M string :=
  _ ← open_path p;
  content ← look_disk (fun d => file_at d p);
  mret (hex_EncodeToString (sha256_sum content)).

Notation Manifest := (gmap (list string) string).

(** [d.Info()] and the digest of each file of the source. *)
Fixpoint make_manifest (source : Path) (files : list (list string)) (manifest : Manifest) : M Manifest :=
  match files with
  | [] => mret manifest
  | rel :: files =>
      _ ← call;
      digest ← coreFileDigest (child source rel);
      make_manifest source files (<[rel := digest]> manifest)
  end.

Definition about_file (text : string) (rel : list string) : error :=
  EMain (text +:+ path_string (false, rel)).

Fixpoint check_target (target : Path) (manifest : Manifest) (files : list (list string)) : M unit :=
  match files with
  | [] => mret tt
  | rel :: files =>
      match manifest !! rel with
      | None => throw (about_file "target contains unrelated file " rel)
      | Some want =>
          got ← coreFileDigest (child target rel);
          if negb (String.eqb got want) then throw (about_file "target file differs: " rel) else
          check_target target manifest files
      end
  end.

(** ** Copying *)

(** [os.OpenFile(name, O_CREATE|O_EXCL|O_WRONLY)] *)
Definition create_new (p : Path) (d : Disk) : option Disk := if exists_at d p then None else create_at p d.

Definition copy_file (from dest : Path) : M unit :=
  _ ← mkdir_each (dest.1, []) (parent dest).2;
  _ ← open_path from;
  _ ← file_call (create_new dest);
  copied ← attempt (content ← look_disk (fun d => file_at d from); path_Write dest content);
  synced ← attempt call;
  closed ← attempt file_Close;
  match copied, synced, closed with
  | inl err, _, _ | _, inl err, _ | _, _, inl err => throw err
  | inr _, inr _, inr _ => mret tt
  end.

(** A look that finds nothing is [os.IsNotExist]; a fault is any other error. *)
Definition stat_path (p : Path) : M bool := look_disk (fun d => Some (exists_at d p)).

Fixpoint copy_each (source target : Path) (entries : list (list string * string)) : M unit :=
  match entries with
  | [] => mret tt
  | (rel, want) :: entries =>
      let dest := child target rel in
      there ← stat_path dest;
      _ ← (if there : bool then mret tt else copy_file (child source rel) dest);
      got ← coreFileDigest dest;
      if negb (String.eqb got want) then throw (about_file "copied file checksum mismatch: " rel) else
      copy_each source target entries
  end.

Fixpoint recheck_source (source : Path) (entries : list (list string * string)) : M unit :=
  match entries with
  | [] => mret tt
  | (rel, want) :: entries =>
      got ← coreFileDigest (child source rel);
      if negb (String.eqb got want) then throw (about_file "source file changed while copying: " rel) else
      recheck_source source entries
  end.

(** [os.Lstat] of a root and of every directory above it. *)
Fixpoint lstat_each (names : list string) : M unit :=
  match names with
  | [] => call
  | _ :: names => _ ← call; lstat_each names
  end.

Definition disjoint_roots (source target : Path) : bool :=
  negb (stays_inside (rel_names source.2 target.2)) && negb (stays_inside (rel_names target.2 source.2)).

Definition copyCoreMedia (wd sourceRoot targetRoot : string) : M unit :=
  if String.eqb sourceRoot "" || String.eqb targetRoot ""
  then throw (EMain "SOURCE_DATA_DIR and TARGET_DATA_DIR are required for apply") else
  let source := filepath_Abs wd sourceRoot in
  let target := filepath_Abs wd targetRoot in
  if negb (disjoint_roots source target)
  then throw (EMain "source and target data directories must be disjoint") else
  _ ← lstat_each source.2;
  _ ← lstat_each target.2;
  files ← walk source;
  manifest ← make_manifest source files ∅;
  there ← stat_path target;
  _ ← (if there : bool then found ← walk target; check_target target manifest found else mret tt);
  _ ← copy_each source target (map_to_list manifest);
  recheck_source source (map_to_list manifest).

(** ** What a copy does *)

(** Nothing is overwritten or removed, and what is new is at or below the target, or a
    directory above it. *)
Definition grown (target : Path) (d d' : Disk) : Prop :=
  d ⊆ d' /\ forall p, d' !! p = d !! p \/ under target p = true \/ d' !! p = Some Dir /\ under p target = true.

#[export] Instance grown_preorder target : PreOrder (grown target).
Proof.
  split; [by split; [done|left]|]. intros d1 d2 d3 [K1 O1] [K2 O2]. split; [by etrans|]. intros p.
  destruct (O2 p) as [->|[|[]]]; auto.
Qed.

Definition core_digest (content : string) : string := hex_EncodeToString (sha256_sum content).

Lemma under_child_iff root p : under root p = true <-> exists rel, p = child root rel.
Proof.
  unfold under, child. rewrite andb_true_iff, bool_decide_eq_true. destruct root as [r l], p as [r' l']. simpl. split.
  - intros [<-%Bool.eqb_prop [k ->]]. by exists k.
  - intros [rel [= -> ->]]. split; [apply Bool.eqb_reflx|by exists rel].
Qed.

Lemma elem_of_tree_files d root rel c :
  (rel, c) ∈ tree_files d root <-> d !! child root rel = Some (File c).
Proof.
  unfold tree_files. rewrite list_elem_of_omap. split.
  - intros ([p n] & Hp%elem_of_map_to_list & Hn). simpl in Hn. destruct n as [|c']; [done|].
    destruct (under root p) eqn:Hu; [|done]. apply under_child_iff in Hu as [rel' ->].
    simpl in Hn. rewrite drop_app_length in Hn. by simplify_eq.
  - intros Hd. exists (child root rel, File c). split; [by apply elem_of_map_to_list|]. simpl.
    assert (under root (child root rel) = true) as -> by (apply under_child_iff; eauto).
    by rewrite drop_app_length.
Qed.

Lemma wp_walk root w :
  wp (walk root) (fun files w' => outside w w' /\ forall rel, rel ∈ files <-> exists c, disk w !! child root rel = Some (File c))
    (fun _ w' => outside w w') w.
Proof.
  apply wp_look_disk; [|done]. intros files w' Hf Ho. split; [done|]. destruct (exists_at _ _); [|done].
  injection Hf as <-. intros rel. rewrite list_elem_of_fmap. split.
  - intros ([rel' c] & -> & Hc%elem_of_tree_files). eauto.
  - intros [c Hc%elem_of_tree_files]. by exists (rel, c).
Qed.

Lemma wp_coreFileDigest p w :
  wp (coreFileDigest p)
    (fun digest w' => outside w w' /\ exists c, disk w !! p = Some (File c) /\ digest = core_digest c)
    (fun _ w' => outside w w') w.
Proof.
  apply wp_bind, wp_look_disk; [|done]. intros _ w1 _ Ho1. apply wp_bind, wp_look_disk; [|intros e w2 Ho2; by etrans].
  intros c w2 Hc Ho2. apply wp_ret. split; [by etrans|]. exists c. split; [|done].
  rewrite (outside_disk _ _ Ho1) in Hc. unfold file_at in Hc. by repeat case_match; simplify_eq.
Qed.

Lemma wp_make_manifest source files manifest w :
  wp (make_manifest source files manifest)
    (fun m w' => outside w w' /\ forall rel want, m !! rel = Some want <->
       (rel ∈ files /\ exists c, disk w !! child source rel = Some (File c) /\ want = core_digest c) \/
       (rel ∉ files /\ manifest !! rel = Some want))
    (fun _ w' => outside w w') w.
Proof.
  revert manifest w. induction files as [|rel files IH]; intros manifest w; simpl.
  { apply wp_ret. split; [done|]. set_solver. }
  apply wp_bind. eapply wp_quiet; [apply quiet_call| |done]. intros _ w1 Ho1.
  apply wp_bind. eapply wp_mono; [apply wp_coreFileDigest| |intros e w2 Ho2; by etrans].
  intros digest w2 (Ho2 & c & Hc & ->). eapply wp_mono; [apply IH| |intros e w3 Ho3; do 2 (etrans; [done|]); done].
  intros m w3 (Ho3 & Hm). split; [do 2 (etrans; [done|]); done|].
  rewrite (outside_disk _ _ Ho1) in Hc. assert (disk w2 = disk w) as E2 by (rewrite (outside_disk _ _ Ho2); by apply outside_disk).
  intros r want. rewrite Hm, E2. setoid_rewrite elem_of_cons. destruct (decide (r = rel)) as [->|Hne].
  - rewrite lookup_insert_eq. split.
    + intros [[Hin Hr]|[Hn [= <-]]]; left; [by auto|]. split; [by left|eauto].
    + intros [[Hin (c' & Hc' & ->)]|[[] _]]; [|by left].
      destruct (decide (rel ∈ files)); [left; eauto|right]. split; [done|]. congruence.
  - rewrite lookup_insert_ne by done. tauto.
Qed.

Lemma wp_check_target target manifest files w :
  wp (check_target target manifest files)
    (fun _ w' => outside w w' /\ forall rel, rel ∈ files -> exists c, disk w !! child target rel = Some (File c) /\
       manifest !! rel = Some (core_digest c))
    (fun _ w' => outside w w') w.
Proof.
  revert w. induction files as [|rel files IH]; intros w; simpl.
  { apply wp_ret. split; [done|]. set_solver. }
  destruct (manifest !! rel) as [want|] eqn:Hm; [|by apply wp_throw].
  apply wp_bind. eapply wp_mono; [apply wp_coreFileDigest| |done]. intros got w1 (Ho1 & c & Hc & ->).
  destruct (String.eqb_spec (core_digest c) want) as [E|]; [simpl|by apply wp_throw].
  eapply wp_mono; [apply IH| |intros e w2 Ho2; by etrans]. intros _ w2 (Ho2 & Hall). split; [by etrans|].
  rewrite (outside_disk _ _ Ho1) in Hall. intros r [->|Hr]%elem_of_cons; [|by apply Hall]. exists c. by rewrite E.
Qed.

Lemma wp_recheck_source source entries w :
  wp (recheck_source source entries) (fun _ w' => outside w w') (fun _ w' => outside w w') w.
Proof.
  revert w. induction entries as [|[rel want] entries IH]; intros w; simpl; [by apply wp_ret|].
  apply wp_bind. eapply wp_mono; [apply wp_coreFileDigest| |done]. intros got w1 (Ho1 & _).
  destruct (negb _); [by apply wp_throw|]. eapply wp_mono; [apply IH|..]; intros ? w2 Ho2; by etrans.
Qed.

(** A directory made on the way to a path below the target. *)
Lemma dirs_added_grown target rel d d' :
  dirs_added (child target rel) d d' -> grown target d d'.
Proof.
  intros Ha. split.
  - apply map_subseteq_spec. intros p n Hp. destruct (Ha p) as [->|(Hn & _)]; congruence.
  - intros p. destruct (Ha p) as [->|(_ & Hd & Hu)]; [by left|]. right.
    apply under_child_iff in Hu as [k Hk]. destruct target as [r t], p as [r' l]. unfold child in Hk. simpl in Hk.
    injection Hk as <- Hk. destruct (prefix_weak_total l t (t ++ rel)) as [Hp|Hp].
    + rewrite Hk. by apply prefix_app_r.
    + by apply prefix_app_r.
    + right. split; [done|]. apply under_child_iff. destruct Hp as [m ->]. by exists m.
    + left. apply under_child_iff. destruct Hp as [m ->]. by exists m.
Qed.

Lemma dirs_added_parent p d d' : dirs_added (parent p) d d' -> dirs_added p d d'.
Proof.
  intros Ha q. destruct (Ha q) as [|(Hn & Hd & Hu)]; [by left|]. right. split_and!; [done..|].
  apply under_child_iff in Hu as [k Hk]. apply under_child_iff. destruct p as [r l].
  destruct l as [|x l' _] using rev_ind; unfold parent, child in *; simpl in *.
  - exists k. by rewrite Hk.
  - rewrite removelast_last in Hk. injection Hk as -> ->. exists (k ++ [x]). by rewrite app_assoc.
Qed.

Lemma grown_insert target rel n d d' :
  grown target d d' -> d' !! child target rel = None -> grown target d (<[child target rel := n]> d').
Proof.
  intros [K O] Hn. split.
  - etrans; [exact K|]. by apply insert_subseteq.
  - intros p. destruct (decide (p = child target rel)) as [->|Hp].
    + right. left. apply under_child_iff. eauto.
    + rewrite lookup_insert_ne by done. apply O.
Qed.

Lemma exists_at_None d p : exists_at d p = false -> d !! p = None.
Proof. unfold exists_at. intros [_ Hd]%orb_false_iff. by destruct (d !! p). Qed.

(** The files that were not there before. *)
Definition new_files (P : Path -> Prop) (d d' : Disk) : Prop :=
  forall p c, d' !! p = Some (File c) -> d !! p = Some (File c) \/ P p.

Lemma wp_copy_file target rel from w :
  wp (copy_file from (child target rel))
    (fun _ w' => beside w w' /\ grown target (disk w) (disk w') /\
       new_files (fun p => p = child target rel) (disk w) (disk w') /\
       forall c, disk w !! from = Some (File c) -> disk w' !! child target rel = Some (File c))
    (fun _ w' => beside w w' /\ grown target (disk w) (disk w')) w.
Proof.
  set (dest := child target rel). unfold copy_file.
  assert (forall w', outside w w' -> beside w w' /\ grown target (disk w) (disk w')) as Hout.
  { intros w' Ho. split; [by apply outside_beside|]. by rewrite (outside_disk _ _ Ho). }
  assert (child (dest.1, []) (parent dest).2 = parent dest) as Epar by done.
  apply wp_bind. eapply wp_mono; [apply wp_mkdir_each|..]; rewrite Epar.
  2: { intros e w1 (Hb1 & Ha1). split; [done|]. by eapply dirs_added_grown, dirs_added_parent. }
  intros _ w1 (Hb1 & Ha1%dirs_added_parent & _).
  assert (forall part, new_files (fun p => p = dest) (disk w) (<[dest := File part]> (disk w1))) as Hnew.
  { intros part p c [[<- _]|[_ Hp]]%lookup_insert_Some; [by right|]. left.
    destruct (Ha1 p) as [<-|(_ & Hd & _)]; congruence. }
  apply dirs_added_grown in Ha1.
  assert (forall w', outside w1 w' -> beside w w' /\ disk w' = disk w1) as Hout1.
  { intros w' Ho. split; [etrans; [done|by apply outside_beside]|by apply outside_disk]. }
  apply wp_bind, wp_look_disk; [|intros e w2 Ho; destruct (Hout1 w2 Ho) as [? ->]; done].
  intros _ w2 _ (Hb2 & E2)%Hout1. apply wp_bind, wp_file_call; rewrite ?E2.
  2: { intros e w3 Ho. split; [etrans; [done|by apply outside_beside]|]. by rewrite (outside_disk _ _ Ho), E2. }
  intros d w3 Hc Hb3 E3. unfold create_new in Hc. destruct (exists_at (disk w1) dest) eqn:Hex; [done|].
  apply exists_at_None in Hex. unfold create_at in Hc. destruct (_ && _); [|done]. injection Hc as <-.
  assert (forall part w', beside w3 w' -> disk w' = appended dest part (disk w3) ->
    beside w w' /\ disk w' = <[dest := File part]> (disk w1)) as Hpart.
  { intros part w' Hb E. split; [do 2 (etrans; [done|]); done|]. rewrite E, E3. unfold appended.
    by rewrite lookup_insert_eq, insert_insert_eq. }
  assert (forall part, grown target (disk w) (<[dest := File part]> (disk w1))) as Hgrow
    by (intros part; by apply grown_insert).
  assert (forall (r : error + unit) w', beside w w' -> grown target (disk w) (disk w') ->
    (r = inr tt -> new_files (fun p => p = dest) (disk w) (disk w') /\
       forall c, disk w !! from = Some (File c) -> disk w' !! dest = Some (File c)) ->
    wp (synced ← attempt call; closed ← attempt file_Close;
        match r, synced, closed with
        | inl err, _, _ | _, inl err, _ | _, _, inl err => throw err
        | inr _, inr _, inr _ => mret tt
        end)
      (fun _ w' => beside w w' /\ grown target (disk w) (disk w') /\
         new_files (fun p => p = dest) (disk w) (disk w') /\
         forall c, disk w !! from = Some (File c) -> disk w' !! dest = Some (File c))
      (fun _ w' => beside w w' /\ grown target (disk w) (disk w')) w') as Hend.
  { intros r w' Hb Hg Hr. apply wp_bind, wp_attempt. eapply (wp_quiet _ _ _ w'); [apply quiet_call|..].
    all: intros a w4 Ho4; apply wp_bind, wp_attempt; eapply (wp_quiet _ _ _ w4); [apply quiet_call|..].
    all: intros b w5 Ho5; assert (outside w' w5) as Ho by (by etrans).
    all: assert (beside w w5) by (etrans; [done|by apply outside_beside]).
    all: pose proof (outside_disk _ _ Ho) as E5; destruct r as [err|[]].
    all: first [apply wp_throw|apply wp_ret]; rewrite E5; auto. }
  apply wp_bind, wp_attempt, wp_bind, wp_look_disk.
  2: { intros e w4 Ho. pose proof (outside_disk _ _ Ho) as E4. apply (Hend (inl e)); [..|done].
    - do 2 (etrans; [done|]). by apply outside_beside.
    - rewrite E4, E3. apply Hgrow. }
  intros content w4 Hread Ho4. pose proof (outside_disk _ _ Ho4) as E4. pose proof (outside_beside _ _ Ho4) as Hb4.
  apply wp_path_Write; rewrite E4.
  - intros w5 Hb5 E5. destruct (Hpart content w5) as [Hb E]; [by etrans|done|]. apply (Hend (inr tt)); [done|by rewrite E|].
    intros _. rewrite E. split; [apply Hnew|]. intros c Hc. rewrite lookup_insert_eq. do 2 f_equal.
    rewrite E3 in Hread. unfold file_at in Hread. rewrite lookup_insert_ne in Hread.
    + destruct Ha1 as [K _]. rewrite (lookup_weaken _ _ _ _ Hc K) in Hread. congruence.
    + intros <-. destruct Ha1 as [K _]. rewrite (lookup_weaken _ _ _ _ Hc K) in Hex. done.
  - intros e w5 part Hb5 E5. destruct (Hpart part w5) as [Hb E]; [by etrans|done|]. apply (Hend (inl e)); [done|by rewrite E|done].
Qed.

(** The files of the source are there, and a new file at the target is one of them. *)
Lemma wp_copy_each source target entries w :
  (forall rel want, (rel, want) ∈ entries -> exists c, disk w !! child source rel = Some (File c)) ->
  wp (copy_each source target entries)
    (fun _ w' => beside w w' /\ grown target (disk w) (disk w') /\
       new_files (fun p => exists rel c, rel ∈ entries.*1 /\ p = child target rel /\
         disk w !! child source rel = Some (File c) /\ disk w' !! p = Some (File c)) (disk w) (disk w') /\
       forall rel want, (rel, want) ∈ entries ->
         exists c, disk w' !! child target rel = Some (File c) /\ want = core_digest c)
    (fun _ w' => beside w w' /\ grown target (disk w) (disk w')) w.
Proof.
  revert w. induction entries as [|[rel want] entries IH]; intros w Hsrc; simpl.
  { apply wp_ret. split_and!; [done..|by left|]. set_solver. }
  destruct (Hsrc rel want) as [c Hc]; [by left|].
  assert (forall w', outside w w' -> beside w w' /\ disk w' = disk w) as Hout.
  { intros w' Ho. split; [by apply outside_beside|by apply outside_disk]. }
  apply wp_bind, wp_look_disk; [|intros e w' [Hb ->]%Hout; done]. intros there w1 _ [Hb1 E1]%Hout.
  set (Rest := fun (_ : unit) w' => beside w w' /\ grown target (disk w) (disk w') /\
    new_files (fun p => p = child target rel /\ disk w' !! p = Some (File c)) (disk w) (disk w')).
  apply wp_bind. apply (wp_mono _ Rest _ (fun _ w' => beside w w' /\ grown target (disk w) (disk w')));
    [| |done].
  { destruct there; [apply wp_ret; unfold Rest; rewrite E1; split_and!; [done..|by left]|].
    eapply wp_mono; [apply wp_copy_file|..]; rewrite E1.
    - intros [] w2 (Hb2 & Hg2 & Hn2 & Hd2). split_and!; [by etrans|done|]. intros p c' Hp.
      destruct (Hn2 p c' Hp) as [|Hp']; [by left|right]. rewrite Hp'. auto.
    - intros e w2 (Hb2 & Hg2). split; [by etrans|done]. }
  intros [] w2 (Hb2 & Hg2 & Hn2). apply wp_bind. eapply wp_mono; [apply wp_coreFileDigest|..].
  2: { intros e w3 Ho3. split; [etrans; [done|by apply outside_beside]|]. by rewrite (outside_disk _ _ Ho3). }
  intros got w3 (Ho3 & c' & Hc' & ->). pose proof (outside_disk _ _ Ho3) as E3. pose proof (outside_beside _ _ Ho3) as Hb3.
  destruct (String.eqb_spec (core_digest c') want) as [Hw|]; simpl.
  2: { apply wp_throw. rewrite E3. split; [by etrans|done]. }
  eapply wp_mono; [apply IH|..]; rewrite ?E3.
  - intros r wt Hr. destruct (Hsrc r wt) as [x Hx]; [by right|]. exists x. destruct Hg2 as [K _]. by eapply lookup_weaken.
  - intros _ w4 (Hb4 & Hg4 & Hn4 & Hall). pose proof Hg2 as [K2 _]. pose proof Hg4 as [K4 _].
    split_and!; [do 2 (etrans; [done|]); done|by etrans| |].
    + intros p x Hp. destruct (Hn4 p x Hp) as [Hp2|(r & y & Hr & -> & Hy & Hd)].
      * destruct (Hn2 p x Hp2) as [|[-> Hx]]; [by left|right]. exists rel, c.
        split_and!; [by left|done|done|by eapply lookup_weaken].
      * right. exists r, y. split_and!; [by right|done| |done].
        apply list_elem_of_fmap in Hr as ([r' wt] & -> & Hr). destruct (Hsrc r' wt) as [z Hz]; [by right|].
        pose proof (lookup_weaken _ _ _ _ Hz K2). simpl in *. congruence.
    + intros r wt [[= -> ->]|Hr]%elem_of_cons; [|by apply Hall]. exists c'. split; [|done]. by eapply lookup_weaken.
  - intros e w4 (Hb4 & Hg4). split; [do 2 (etrans; [done|]); done|by etrans].
Qed.

(** ** Disjoint roots *)

Lemma rel_names_prefix base k : rel_names base (base ++ k) = k.
Proof. induction base as [|b base IH]; simpl; [by destruct k|]. by rewrite String.eqb_refl. Qed.

Lemma under_stays base targ :
  Forall plain targ.2 -> under base targ = true -> stays_inside (rel_names base.2 targ.2) = true.
Proof.
  intros Hp [k ->]%under_child_iff. unfold child in *. simpl in *. rewrite rel_names_prefix.
  destruct k as [|n k]; [done|]. apply Forall_app in Hp as [_ [(_ & _ & _ & Hn) _]%Forall_cons]. simpl.
  unfold is_dots. by rewrite (proj2 (String.eqb_neq _ _) Hn).
Qed.

Lemma Abs_plain wd s : rooted wd = true -> Forall plain (filepath_Abs wd s).2.
Proof.
  intros Hwd. assert ((filepath_Abs wd s).1 = true) as Hr.
  { unfold filepath_Abs. destruct (rooted s) eqn:Hs; [exact Hs|]. simpl. rewrite rooted_app; [done|by intros ->]. }
  pose proof (path_of_clean (if rooted s then s else (wd +:+ "/" +:+ s)%string)) as [(k & rest & E & Hrest & Hk)].
  fold (filepath_Abs wd s) in E, Hk. rewrite (Hk Hr) in E. by rewrite E.
Qed.

Lemma disjoint_roots_apart source target p :
  Forall plain source.2 -> Forall plain target.2 -> disjoint_roots source target = true ->
  under source p = true -> under target p = true \/ under p target = true -> False.
Proof.
  intros Hs Ht [Hd1%negb_true_iff Hd2%negb_true_iff]%andb_true_iff Hu Hor.
  assert (under source target = false) as N1 by (destruct (under source target) eqn:E; [by apply under_stays in E; congruence|done]).
  assert (under target source = false) as N2 by (destruct (under target source) eqn:E; [by apply under_stays in E; congruence|done]).
  apply under_child_iff in Hu as [k ->]. destruct source as [r l], target as [r' l']. unfold child in *. simpl in *.
  destruct Hor as [[m [= -> E]]%under_child_iff|[m [= -> E]]%under_child_iff].
  - destruct (prefix_weak_total l l' (l ++ k)) as [[x ->]|[x ->]]; [by apply prefix_app_r|rewrite E; by apply prefix_app_r|..].
    + assert (under (r', l) (r', l ++ x) = true); [|congruence]. apply under_child_iff. by exists x.
    + assert (under (r', l') (r', l' ++ x) = true); [|congruence]. apply under_child_iff. by exists x.
  - assert (under (r, l) (r, l') = true); [|congruence]. apply under_child_iff. exists (k ++ m).
    unfold child. simpl. by rewrite E, app_assoc.
Qed.

Lemma quiet_lstat_each names : quiet (lstat_each names).
Proof. induction names; simpl; [apply quiet_call|]. apply quiet_bind; [apply quiet_call|done]. Qed.

(** Every entry is in a directory. *)
Definition is_tree (d : Disk) : Prop := map_Forall (fun p _ => is_dir d (parent p) = true) d.

Lemma is_tree_above d p rel n : is_tree d -> d !! child p rel = Some n -> exists_at d p = true.
Proof.
  intros Ht. revert n. induction rel as [|x rel IH] using rev_ind; intros n Hn.
  - unfold child in Hn. rewrite app_nil_r in Hn. destruct p. unfold exists_at. simpl in Hn. rewrite Hn. apply orb_true_r.
  - apply Ht in Hn. unfold parent, child in Hn. simpl in Hn. rewrite app_assoc, removelast_last in Hn.
    fold (child p rel) in Hn. unfold is_dir in Hn. apply orb_true_iff in Hn as [Hd|Hd].
    + unfold exists_at, is_dir. simpl in Hd. rewrite forallb_app in Hd. by apply andb_true_iff in Hd as [-> _].
    + destruct (d !! child p rel) eqn:E; [by eapply IH|done].
Qed.

(** C21: Copying the media of the old installation is safe and complete. Whether it succeeds
    or fails, no file or directory is changed or removed, the tree of the source is as it was,
    and what is new is at or below the target or a directory above it. When it succeeds, the
    target has a file for each file of the source and no other, with the same SHA-256 digest;
    a file that was not there before is the file of the source. *)
Theorem copyCoreMedia_copies wd sourceRoot targetRoot w :
  rooted wd = true -> is_tree (disk w) ->
  let source := filepath_Abs wd sourceRoot in
  let target := filepath_Abs wd targetRoot in
  let safe w' := beside w w' /\ grown target (disk w) (disk w') /\
                 (forall p, under source p = true -> disk w' !! p = disk w !! p) in
  wp (copyCoreMedia wd sourceRoot targetRoot)
    (fun _ w' => safe w' /\
       (forall rel c, disk w !! child source rel = Some (File c) ->
          exists c', disk w' !! child target rel = Some (File c') /\ core_digest c' = core_digest c) /\
       (forall rel c', disk w' !! child target rel = Some (File c') ->
          exists c, disk w !! child source rel = Some (File c) /\ core_digest c' = core_digest c /\
            (disk w !! child target rel <> Some (File c') -> c' = c)))
    (fun _ w' => safe w') w.
Proof.
  intros Hwd Htree source target safe. unfold copyCoreMedia.
  assert (forall w', outside w w' -> safe w') as Hout.
  { intros w' Ho. unfold safe. rewrite (outside_disk _ _ Ho). split_and!; [by apply outside_beside|done..]. }
  destruct (_ || _); [by apply wp_throw, Hout|]. cbv zeta. fold source target.
  destruct (disjoint_roots source target) eqn:Hdis; simpl negb; cbv iota; [|by apply wp_throw, Hout].
  assert (forall p, under source p = true -> under target p = true \/ under p target = true -> False) as Hapart.
  { intros p. by apply disjoint_roots_apart; [apply Abs_plain..|]. }
  assert (forall w', beside w w' -> grown target (disk w) (disk w') -> safe w') as Hsafe.
  { intros w' Hb Hg. split_and!; [done..|]. intros p Hp. destruct Hg as [_ O].
    destruct (O p) as [|[|[_ ]]]; [done|destruct (Hapart p Hp); auto..]. }
  apply wp_bind. eapply wp_quiet; [apply quiet_lstat_each| |by intros; apply Hout]. intros _ w1 Ho1.
  apply wp_bind. eapply wp_quiet; [apply quiet_lstat_each| |by intros; apply Hout; etrans]. intros _ w2 Ho2.
  assert (outside w w2) as Hw2 by by etrans. clear Ho1 Ho2.
  apply wp_bind. eapply wp_mono; [apply wp_walk| |by intros; apply Hout; etrans].
  rewrite (outside_disk _ _ Hw2). intros files w3 [Ho3 Hfiles]. assert (outside w w3) as Hw3 by by etrans. clear Ho3.
  apply wp_bind. eapply wp_mono; [apply wp_make_manifest| |by intros; apply Hout; etrans].
  rewrite (outside_disk _ _ Hw3). intros manifest w4 [Ho4 Hman]. assert (outside w w4) as Hw4 by by etrans. clear Ho4.
  assert (forall rel want, manifest !! rel = Some want <->
    exists c, disk w !! child source rel = Some (File c) /\ want = core_digest c) as Hm.
  { intros rel want. rewrite Hman, lookup_empty, Hfiles. naive_solver. }
  apply wp_bind, wp_look_disk; [|by intros; apply Hout; etrans]. rewrite (outside_disk _ _ Hw4).
  intros there w5 [= Hthere] Ho5. assert (outside w w5) as Hw5 by by etrans. clear Ho5.
  set (Known := fun (_ : unit) w' => outside w w' /\ forall rel c, disk w !! child target rel = Some (File c) ->
    manifest !! rel = Some (core_digest c)).
  apply wp_bind, (wp_mono _ Known _ (fun _ w' => outside w w')); [| |by auto].
  { destruct there.
    - apply wp_bind. eapply wp_mono; [apply wp_walk| |by intros; etrans]. rewrite (outside_disk _ _ Hw5).
      intros found w6 [Ho6 Hf]. eapply wp_mono; [apply wp_check_target| |by intros; do 2 (etrans; [done|]); done].
      assert (outside w w6) as Hw6 by by etrans. rewrite (outside_disk _ _ Hw6).
      intros [] w7 [Ho7 Hall]. split; [by etrans|]. intros rel c Hc. destruct (Hall rel) as (c' & Hc' & Hw'); [by eapply Hf; eauto|].
      congruence.
    - apply wp_ret. split; [done|]. intros rel c Hc. exfalso. apply is_tree_above in Hc; [|exact Htree]. rewrite Hc in Hthere. discriminate. }
  intros [] w6 [Hw6 Hknown]. apply wp_bind. eapply wp_mono; [apply wp_copy_each|..]; rewrite ?(outside_disk _ _ Hw6).
  - intros rel want (c & Hc & _)%elem_of_map_to_list%Hm. eauto.
  - intros [] w7 (Hb7 & Hg7 & Hn7 & Hall). eapply wp_mono; [apply wp_recheck_source|..].
    + intros [] w8 Ho8. assert (beside w w8) as Hb8.
      { etrans; [by apply outside_beside|]. etrans; [done|by apply outside_beside]. }
      pose proof (outside_disk _ _ Ho8) as E8. rewrite <-E8 in Hg7; rewrite <-E8 in Hn7; setoid_rewrite <-E8 in Hall. split; [by apply Hsafe|]. split.
      * intros rel c Hc. destruct (Hall rel (core_digest c)) as (c' & Hc' & ->); [|eauto].
        apply elem_of_map_to_list, Hm. eauto.
      * intros rel c' Hc'. destruct (Hn7 _ _ Hc') as [Hold|(r & c & _ & Hr & Hc & Hd)].
        -- pose proof (Hknown _ _ Hold) as (c & Hc & ?)%Hm. exists c. split_and!; [done..|]. congruence.
        -- unfold child in Hr. injection Hr as Hr%app_inv_head. subst r. exists c. by replace c' with c by congruence.
    + intros e w8 Ho8. apply Hsafe.
      * etrans; [by apply outside_beside|]. etrans; [done|by apply outside_beside].
      * by rewrite (outside_disk _ _ Ho8).
  - intros e w7 (Hb7 & Hg7). apply Hsafe; [|done]. etrans; [by apply outside_beside|done].
Qed.

Definition old_media : Disk :=
  list_to_map [((true, ["media"%string]), Dir); ((true, ["media"; "uploads"]%string), Dir);
               ((true, ["media"; "a.mp4"]%string), File "clip"); ((true, ["media"; "uploads"; "part"]%string), File "p0");
               ((true, ["copy"%string]), Dir); ((true, ["copy"; "a.mp4"]%string), File "clip")].

Definition old_site : World := mkWorld no_tables ∅ no_redis [] (mkEnv [] [] 0 []) new_process old_media.

Lemma copyCoreMedia_copies_witness :
  wp (copyCoreMedia "/" "media" "copy")
    (fun _ w' => (exists c, disk w' !! (true, ["copy"; "uploads"; "part"]%string) = Some (File c) /\ core_digest c = core_digest "p0") /\
                 disk w' !! (true, ["media"; "a.mp4"]%string) = Some (File "clip"))
    (fun _ _ => False) old_site.
Proof.
  assert (wp (copyCoreMedia "/" "media" "copy") (fun _ _ => True) (fun _ _ => False) old_site) as Hdone by by vm_compute.
  assert (is_tree (disk old_site)) as Ht.
  { apply (bool_decide_unpack (map_Forall (fun p _ => is_dir old_media (parent p) = true) old_media)). by vm_compute. }
  pose proof (copyCoreMedia_copies "/" "media" "copy" old_site eq_refl Ht) as H.
  eapply wp_mono; [exact (wp_both _ _ _ _ _ _ H Hdone)| |by intros e w' [_ []]]; clear H Hdone.
  intros r w' [[(_ & _ & Hsrc) [Hall _]] _]. split.
  - apply (Hall ["uploads"; "part"]%string "p0"). reflexivity.
  - rewrite Hsrc; reflexivity.
Defined.
