(* ===== verification/ServiceExamples.v ===== *)
(** * Concrete libraries and ports for the examples

    A codec and a bcrypt that satisfy the laws the services rely on, simple
    enough to compute with. *)
From Stdlib Require Import Ascii.
From S2P Require Import Prelude.
From S2P Require Import GoStd.
From S2P Require Import GoHash.
From S2P Require Import GoConv.
From S2P Require AccountDomain.
From S2P Require Import FeedDomain.
From S2P Require Import Errors.
From S2P Require Import Files.
From S2P Require Import Models.
From S2P Require Import Redis.
From S2P Require Import Store.
From S2P Require Import FileOps.
From S2P Require Import Codec.
From S2P Require Import Views.
From S2P Require Import Edge.
From S2P Require Import AuthHandlers.
From S2P Require Import OutboxWorker.
From S2P Require Import PublishHandlers.
From S2P Require Import Uploads.
From S2P Require Import System.
From S2P Require Import RepoProperties.
From S2P Require Import Ports.
From S2P Require RecommendationService.
From S2P Require Import Requests.
From S2P Require Import EdgeRequests.
From S2P Require Import UploadRules.
From S2P Require Import UploadFlow.

(** ** Texts as visible characters: each byte as two letters *)

Definition letter (n : N) : Ascii.ascii := Ascii.ascii_of_N (97 + n).
Definition letter_value (c : Ascii.ascii) : N := (Ascii.N_of_ascii c - 97)%N.

Fixpoint spell (s : string) : string :=
  match s with
  | EmptyString => EmptyString
  | String c s => let n := Ascii.N_of_ascii c in
      String (letter (n / 16)) (String (letter (n mod 16)) (spell s))
  end.

Fixpoint unspell (s : string) : option string :=
  match s with
  | EmptyString => Some EmptyString
  | String a (String b s) =>
      rest ← unspell s; Some (String (Ascii.ascii_of_N (letter_value a * 16 + letter_value b)) rest)
  | _ => None
  end.

Lemma spelled_char c : let n := Ascii.N_of_ascii c in
  Ascii.ascii_of_N (letter_value (letter (n / 16)) * 16 + letter_value (letter (n mod 16))) = c /\
  visible_byte (byte_of (letter (n / 16))) /\ visible_byte (byte_of (letter (n mod 16))).
Proof. by destruct c as [[] [] [] [] [] [] [] []]; vm_compute. Qed.

Lemma unspell_spell s : unspell (spell s) = Some s.
Proof.
  induction s as [|c s IH]; [done|]. cbn [spell unspell]. rewrite IH. cbn [mbind option_bind].
  by rewrite (proj1 (spelled_char c)).
Qed.

Lemma spell_visible s : visible (spell s).
Proof.
  induction s as [|c s IH]; [done|]. destruct (spelled_char c) as (_ & Ha & Hb). by split; [|split].
Qed.

(** ** Integers as visible, self-delimiting texts *)

Fixpoint write_pos (p : positive) (rest : string) : string :=
  match p with
  | xH => String "h"%char rest
  | xO p => String "o"%char (write_pos p rest)
  | xI p => String "i"%char (write_pos p rest)
  end.

Fixpoint read_pos (s : string) : option (positive * string) :=
  match s with
  | String "h"%char s => Some (xH, s)
  | String "o"%char s => '(p, s) ← read_pos s; Some (xO p, s)
  | String "i"%char s => '(p, s) ← read_pos s; Some (xI p, s)
  | _ => None
  end.

Definition write_Z (z : Z) (rest : string) : string :=
  match z with
  | Z0 => String "z"%char rest
  | Zpos p => String "p"%char (write_pos p rest)
  | Zneg p => String "n"%char (write_pos p rest)
  end.

Definition read_Z (s : string) : option (Z * string) :=
  match s with
  | String "z"%char s => Some (Z0, s)
  | String "p"%char s => '(p, s) ← read_pos s; Some (Zpos p, s)
  | String "n"%char s => '(p, s) ← read_pos s; Some (Zneg p, s)
  | _ => None
  end.

Lemma read_write_pos p rest : read_pos (write_pos p rest) = Some (p, rest).
Proof. induction p as [p IH|p IH|]; simpl; rewrite ?IH; done. Qed.

Lemma read_write_Z z rest : read_Z (write_Z z rest) = Some (z, rest).
Proof. destruct z; simpl; rewrite ?read_write_pos; done. Qed.

Lemma write_Z_visible z : visible (write_Z z "").
Proof.
  assert (forall p, visible (write_pos p "")) as Hp.
  { induction p as [p IH|p IH|]; (split; [split; by vm_compute|done]). }
  destruct z; (split; [split; by vm_compute|apply Hp || done]).
Qed.

(** ** JSON objects, as the number of their field list *)

#[export] Instance spec_float_countable : Countable spec_float.
Proof.
  refine (inj_countable'
    (fun f => match f with
      | S754_zero s => inl (inl s) | S754_infinity s => inl (inr s)
      | S754_nan => inr (inl tt) | S754_finite s m e => inr (inr (s, m, e)) end)
    (fun x => match x with
      | inl (inl s) => S754_zero s | inl (inr s) => S754_infinity s
      | inr (inl _) => S754_nan | inr (inr (s, m, e)) => S754_finite s m e end) _).
  by intros [].
Defined.

#[export] Instance json_field_countable : Countable json_field.
Proof.
  refine (inj_countable'
    (fun v => match v with JInt n => inl n | JText s => inr (inl s) | JFloat f => inr (inr f) end)
    (fun x => match x with inl n => JInt n | inr (inl s) => JText s | inr (inr f) => JFloat f end) _).
  by intros [].
Defined.

Definition json_write (fields : list (string * json_field)) : string :=
  write_pos (encode fields) "".

Definition json_parse (s : string) : option (list (string * json_field)) :=
  '(p, _) ← read_pos s; decode p.

Lemma write_pos_visible p : visible (write_pos p "").
Proof. induction p as [p IH|p IH|]; (split; [split; by vm_compute|done]). Qed.

#[export] Instance plain_codec : Codec := {|
  RawURL_EncodeToString := spell;
  RawURL_DecodeString := unspell;
  Std_DecodeString := unspell;
  json_Marshal := json_write;
  json_Unmarshal shape s := json_read shape <$> json_parse s;
  json_MarshalFloats l := Some (write_pos (encode l) "");
  json_UnmarshalFloats s := '(p, _) ← read_pos s; decode p;
  FormatRFC3339Nano t := write_Z t "";
  ParseRFC3339Nano s := '(t, rest) ← read_Z s; if String.eqb rest "" then Some t else None;
|}.

#[export] Instance plain_codec_laws : CodecLaws.
Proof.
  split.
  - apply unspell_spell.
  - apply spell_visible.
  - by intros [].
  - intros fields. cbn [json_Marshal plain_codec]. unfold json_write. by destruct (encode fields).
  - intros shape fields _ _ _. cbn [json_Marshal json_Unmarshal plain_codec].
    unfold json_parse, json_write. rewrite read_write_pos. cbn [mbind option_bind]. by rewrite decode_encode.
  - intros l s [= <-]. cbn [json_UnmarshalFloats plain_codec]. split; [|apply write_pos_visible].
    rewrite read_write_pos. cbn [mbind option_bind]. by rewrite decode_encode.
  - intros t _. apply write_Z_visible.
  - by intros [].
  - intros t _. cbn [FormatRFC3339Nano ParseRFC3339Nano plain_codec]. by rewrite read_write_Z.
Qed.

(** ** Passwords *)

#[export] Instance plain_bcrypt : AccountDomain.Bcrypt := {|
  AccountDomain.GenerateFromPassword _ p := if 72 <? len p then None else Some (spell p);
  AccountDomain.CompareHashAndPassword h p := String.eqb h (spell p);
|}.

#[export] Instance plain_bcrypt_laws : AccountDomain.BcryptLaws plain_bcrypt.
Proof.
  split; intros salt p h; cbn [AccountDomain.GenerateFromPassword plain_bcrypt]; case_match; try done; intros [= <-].
  - apply String.eqb_refl.
  - apply visible_trimmed, spell_visible.
Qed.

(** ** Arithmetic of the ranking *)

#[export] Instance plain_math : RecommendationService.MathLib := {| RecommendationService.Log1p x := x |}.

(** * A small run of the main package for the examples

    A plain way to write tokens, the letters and digits of ASCII, and a run from the empty
    database: an invite, the registration of ann, her login, a second invite. *)

(** ** Tokens: the fields between colons *)

Definition write_token (key : string) (c : tokenClaims) : string :=
  (key +:+ ":" +:+ tc_Kind c +:+ ":" +:+ tc_SessionID c +:+ ":" +:+ tc_Subject c +:+ ":" +:+
   fmt_d (tc_ExpiresAt c / second) +:+ ":" +:+ tc_ID c)%string.

Definition read_token (key : string) (now : Time) (raw : string) : option tokenClaims :=
  '(k, raw) ← cut_colon raw;
  '(kind, raw) ← cut_colon raw;
  '(sid, raw) ← cut_colon raw;
  '(subject, raw) ← cut_colon raw;
  '(expires, id) ← cut_colon raw;
  let t := (ParseInt expires).1 * second in
  if String.eqb k key && (now <? t) then Some (mkClaims kind sid subject 0 t id) else None.

#[export] Instance plain_jwt : JWT := {|
  SignedString key c := Some (write_token key c);
  ParseWithClaims := read_token;
|}.

#[export] Instance ascii_unicode : Unicode := {|
  letter_or_number r := (97 <=? r) && (r <=? 122) || (65 <=? r) && (r <=? 90) || (48 <=? r) && (r <=? 57);
  unicode_IsLetter r := (97 <=? r) && (r <=? 122) || (65 <=? r) && (r <=? 90);
  unicode_IsDigit r := (48 <=? r) && (r <=? 57);
  unicode_IsPunct r := bool_decide (r ∈ string_bytes "!#%&'()*,-./:;?@[\]_{}");
  unicode_IsSymbol r := bool_decide (r ∈ string_bytes "$+<=>^`|~");
  unicode_ToLower := ToLower;
|}.

#[export] Instance short_uuid : UUID := {| uuid_Parse id := negb (String.eqb id "") |}.

Definition plain_config : Config := mkConfig "key" 1000000 second second "data".

(** ** A run *)

Definition names : Env :=
  mkEnv [] (repeat (10 ^ 9)%N 256) (63000000000 * second)
    ["s1"; "t1"; "t2"; "s2"; "t3"; "t4"; "t5"; "t6"; "t7"; "t8"; "t9"]%string.

Definition an_invite : string := "invite-invite-invite-1".
Definition ann : register_body := mkRegister "ann" "correct horse" an_invite.

Definition v0 : World := mkWorld no_tables ∅ no_redis [] names new_process ∅.
Definition v1 : World := after (createInvite an_invite) v0.
Definition v2 : World := after (register plain_config "salt" (Some ann)) v1.
Definition v3 : World := after (login plain_config (Some ("Ann", "correct horse")%string)) v2.

Definition status {A} (r : (error + Response) * A) : Z := match r.1 with inr r => rs_Status r | inl _ => 0 end.
Definition tokens_of {A} (r : (error + Response) * A) : string * string :=
  match r.1 with inr r => match rs_Cookies r with SetTokens a b => (a, b) | _ => (""%string, ""%string) end
  | inl _ => (""%string, ""%string) end.

(** The cookies that ann got when she logged in. *)
Definition ann_tokens : string * string :=
  Eval vm_compute in tokens_of (login plain_config (Some ("Ann", "correct horse")%string) v2).

Definition ann_request : Request := mkRequest "" (Some ann_tokens.1) (Some ann_tokens.2) "::1".

Example registration_answers :
  status (register plain_config "salt" (Some ann) v1) = 201 /\
  status (register plain_config "salt" (Some ann) v2) = 400 /\
  status (login plain_config (Some ("Ann", "correct horse")%string) v2) = 200 /\
  status (login plain_config (Some ("ann", "wrong")%string) v2) = 401 /\
  status (refresh plain_config ann_request v3) = 200 /\
  status (refresh plain_config ann_request (after (refresh plain_config ann_request) v3)) = 401 /\
  status (authed plain_config ann_request me v3) = 200 /\
  status (admin_only plain_config ann_request (fun p => adminUpdateVideo "1" None) v3) = 403 /\
  status (admin_only plain_config ann_request (fun p => adminUpdateVideo "1" None) (after (grantAdmin "ANN") v3)) = 400.
Proof. vm_compute. done. Qed.

Lemma v1_reachable : reachable v1.
Proof. eapply reachable_step; [apply (reachable_init names)|apply step_plain, step_createInvite]. Qed.

Lemma v2_reachable : reachable v2.
Proof. eapply steps_reachable; [apply plain_steps, register_keeps|apply v1_reachable]. Qed.

Lemma v2_v3 : rtc step v2 v3.
Proof. apply plain_steps, login_keeps. Qed.

Lemma v3_reachable : reachable v3.
Proof. eapply steps_reachable; [apply v2_v3|apply v2_reachable]. Qed.

(** Ann publishes a video. *)
Definition a_publication : publication :=
  mkPublication 1 "First #Sea" "#sky and #sky" "videos/a.mp4" "" 5000 (63000000000 * second) "up1" "First #Sea".

Definition v4 : World := after (publish_tx a_publication) v3.

Lemma v4_reachable : reachable v4.
Proof. eapply reachable_step; [apply v3_reachable|apply step_publish]. Qed.

Example publication_tables :
  (size (video (db v4)), size (video_tags (extension (db v4))), size (outbox (extension (db v4)))) = (1, 2, 1)%nat.
Proof. by vm_compute. Qed.

Lemma v4_calm : faults (env v4) = [] /\ len_z (select_rows pending (outbox (extension (db v4)))) = 1 /\
  Resilience.Memory.entries (local_videos (process v4)) = ∅.
Proof. split_and!; by vm_compute. Qed.

(** From here on the run is computed by [vm_compute] only. *)
#[global] Opaque v1 v2 v3 v4.

(** * Ann uploads a clip and publishes it

    The run goes on: an upload of one chunk, its assembly, its publication. *)

(** The same run through the routes, which are limited. *)
Definition a_visit : Request := mkRequest "" None None "::1".
Definition u_registered : World :=
  after (limited "register" 20 hour None a_visit (register plain_config "salt" (Some ann))) v1.
Definition ann_logs_in : M Response :=
  limited "login" 60 hour None a_visit (login plain_config (Some ("Ann", "correct horse")%string)).
Definition u0 : World := after ann_logs_in u_registered.
Definition ann_cookies : string * string := Eval vm_compute in tokens_of (ann_logs_in u_registered).

(** What a route of uploads does when ann asks. *)
Definition ann_asks (h : Z -> M Response) : M Response :=
  authed plain_config (mkRequest "" (Some ann_cookies.1) (Some ann_cookies.2) "::1") (fun p => h (pr_ID p)).

Definition clip : string := "clipftypisom".
Definition clip_md5 : string := Eval vm_compute in hex_EncodeToString (md5_sum clip).

Definition clip_init : init_body := mkInitBody clip_md5 12 1.
Definition u1 : World := after (ann_asks (fun uid => initUpload plain_config uid (Some clip_init) None)) u0.

Definition clip_id : string := Eval vm_compute in
  match (ann_asks (fun uid => initUpload plain_config uid (Some clip_init) None) u0).1 with
  | inr r => match rs_Body r with BUpload id => id | _ => "" end
  | inl _ => ""
  end.

Definition clip_chunk : chunk_request := mkChunkRequest "0" 12 clip clip_md5.
Definition u2 : World := after (ann_asks (fun uid => uploadChunk plain_config uid clip_id clip_chunk)) u1.
Definition u3 : World := after (ann_asks (fun uid => completeUpload plain_config uid clip_id)) u2.
Definition clip_body : publish_body := mkPublishBody clip_id "First #Sea" "of ann" "".
Definition u4 : World := after (ann_asks (fun uid => publishVideo plain_config uid (Some clip_body))) u3.

Example upload_answers :
  status (ann_asks (fun uid => initUpload plain_config uid (Some clip_init) None) u0) = 201 /\
  status (ann_asks (fun uid => uploadChunk plain_config uid clip_id clip_chunk) u1) = 200 /\
  status (ann_asks (fun uid => completeUpload plain_config uid clip_id) u1) = 500 /\
  status (ann_asks (fun uid => completeUpload plain_config uid clip_id) u2) = 200 /\
  status (ann_asks (fun uid => publishVideo plain_config uid (Some clip_body)) u2) = 404 /\
  status (ann_asks (fun uid => publishVideo plain_config uid (Some clip_body)) u3) = 201 /\
  status (ann_asks (fun uid => publishVideo plain_config uid (Some clip_body)) u4) = 404.
Proof. vm_compute. done. Qed.

(** ** The run is one of requests, and its names are new *)

Lemma u0_run : media_run plain_config u0.
Proof.
  apply (run_request plain_config u_registered); [|by vm_compute|apply any_plain, any_served, sv_login].
  apply (run_request plain_config v1); [|by vm_compute|apply any_plain, any_served, sv_register].
  apply (run_request plain_config v0); [apply run_init|by vm_compute|].
  apply any_plain. with_strategy transparent [v1] (apply any_invite).
Qed.

Lemma u1_run : media_run plain_config u1.
Proof.
  apply (run_request plain_config u0); [exact u0_run|by vm_compute|]. apply any_upload, uh_init.
Qed.

Lemma u2_run : media_run plain_config u2.
Proof.
  apply (run_request plain_config u1); [exact u1_run|by vm_compute|]. apply any_upload, uh_chunk.
Qed.

Lemma u3_run : media_run plain_config u3.
Proof.
  apply (run_request plain_config u2); [exact u2_run|by vm_compute|]. apply any_upload, uh_complete.
Qed.

Lemma u4_run : media_run plain_config u4.
Proof.
  apply (run_request plain_config u3); [exact u3_run|by vm_compute|]. apply any_upload, uh_publish.
Qed.

#[global] Opaque u_registered u0 u1 u2 u3 u4.
