(* ===== verification/HttpProperties.v ===== *)
(** * The API as its clients see it

    What each route answers, who is let through to a route, and an account from its
    registration to its profile. *)
From S2P Require Import Prelude.
From S2P Require Import GoStd.
From S2P Require Import GoConv.
From S2P Require AccountDomain.
From S2P Require Import Errors.
From S2P Require Import Models.
From S2P Require Import Redis.
From S2P Require Import Store.
From S2P Require AccountRepo.
From S2P Require Import Codec.
From S2P Require Import Ports.
From S2P Require RecommendationService.
From S2P Require Import FeedService.
From S2P Require OtherServices.
From S2P Require Import Wiring.
From S2P Require Import HttpDto.
From S2P Require Import Tokens.
From S2P Require Import System.
From S2P Require Import Requests.
From S2P Require Import HttpRouter.
From S2P Require Import HttpAnswers.
From S2P Require Import RepoProperties.
From S2P Require Import ServiceExamples.

(** ** Who is let through *)

Section guards.
Context `{Collation, !CollationLaws} `{Codec} `{AccountDomain.Bcrypt} `{RecommendationService.MathLib}
  `{JWTLib}.
Variables (manager : Manager) (internalToken : string).

(** The user and the role are those of an access token that the library accepted, under the
    secret of the manager, behind the scheme of the header. *)
Definition vouched (rq : HttpRequest) (i : identity) : Prop :=
  match i with
  | None => True
  | Some (user, role) => exists scheme rest now c,
      split_space (TrimSpace (hr_Header rq "Authorization")) = (scheme, Some rest) /\
      equal_fold_bearer (TrimSpace scheme) = true /\
      HS256_ParseWithClaims (mg_secret manager) now (TrimSpace (TrimSpace rest)) = Some c /\
      tk_TokenType c = TokenTypeAccess /\ 0 < user /\ user = tk_UserID c /\ role = tk_Role c
  end.

Definition internal_caller (rq : HttpRequest) : Prop :=
  TrimSpace internalToken <> ""%string /\ TrimSpace (hr_Header rq "X-Internal-Token") = TrimSpace internalToken.

Definition passed (rq : HttpRequest) (g : guard) (i : identity) : Prop :=
  match g with
  | Private => vouched rq i /\ i <> None
  | OptionalIdentity => vouched rq i
  | Internal => internal_caller rq /\ i = None
  end.

Definition turned_away (a : Answer) : Prop := exists text, a = mkAnswer 401 (AAbort text).

Lemma wp_ParseAndValidateToken token w :
  wp (ParseAndValidateToken manager token TokenTypeAccess)
    (fun cl w' => db w' = db w /\ exists now c,
       HS256_ParseWithClaims (mg_secret manager) now (TrimSpace token) = Some c /\
       tk_TokenType c = TokenTypeAccess /\ 0 < cl_UserID cl /\ cl_UserID cl = tk_UserID c /\ cl_Role cl = tk_Role c)
    (fun _ w' => db w' = db w) w.
Proof.
  unfold ParseAndValidateToken. cbv zeta. destruct (String.eqb _ ""); [by apply wp_throw|].
  apply wp_bind, wp_time_now. intros now e _ _. destruct (HS256_ParseWithClaims _ _ _) as [c|] eqn:Hc; [|by apply wp_throw].
  destruct (String.eqb_spec (tk_TokenType c) TokenTypeAccess); [|by apply wp_throw]. simpl.
  destruct (Z.leb_spec (tk_UserID c) 0); [by apply wp_throw|]. apply wp_ret. split; [done|]. by exists now, c.
Qed.

Lemma wp_middleware rq g w :
  wp (middleware manager internalToken rq g)
    (fun r w' => db w' = db w /\ match r with inl a => turned_away a | inr i => passed rq g i end)
    (fun _ _ => False) w.
Proof.
  assert (forall text w, wp (abort text) (fun r w' => db w' = db w /\
    match r with inl a => turned_away a | inr i => passed rq g i end) (fun _ _ => False) w) as Habort.
  { intros text w1. apply wp_ret. split; [done|]. by exists text. }
  destruct g; simpl; unfold NewJWTAuth, NewOptionalJWTAuth, NewInternalTokenAuth; cbv zeta.
  - destruct (String.eqb _ ""); [apply Habort|]. destruct (split_space _) as [scheme [rest|]] eqn:Hs; [|apply Habort].
    destruct (equal_fold_bearer _) eqn:Hb; [|apply Habort]. simpl.
    apply wp_bind, wp_attempt. eapply wp_mono; [apply wp_ParseAndValidateToken|..].
    + intros cl w' (Hdb & now & c & Hc & Hty & Hpos & Hu & Hr). apply wp_ret. split; [done|]. simpl.
      split; [|done]. by exists scheme, rest, now, c.
    + intros err w' Hdb. apply wp_ret. split; [done|]. by eexists.
  - destruct (String.eqb _ ""); [by apply wp_ret|]. destruct (split_space _) as [scheme [rest|]] eqn:Hs; [|by apply wp_ret].
    destruct (equal_fold_bearer _) eqn:Hb; [|by apply wp_ret]. simpl.
    apply wp_bind, wp_attempt. eapply wp_mono; [apply wp_ParseAndValidateToken|..].
    + intros cl w' (Hdb & now & c & Hc & Hty & Hpos & Hu & Hr). apply wp_ret. split; [done|]. simpl.
      by exists scheme, rest, now, c.
    + intros err w' Hdb. by apply wp_ret.
  - destruct (String.eqb_spec (TrimSpace internalToken) ""); [apply Habort|].
    destruct (String.eqb_spec (TrimSpace (hr_Header rq "X-Internal-Token")) (TrimSpace internalToken)); [|apply Habort].
    by apply wp_ret.
Qed.

(** What the guards of a request established when its handler runs. *)
Definition let_in (rq : HttpRequest) (guards : list guard) (i : identity) : Prop :=
  vouched rq i /\ (Private ∈ guards -> i <> None) /\ (Internal ∈ guards -> internal_caller rq).

Lemma wp_serve_from rq h guards i done w :
  let_in rq done i ->
  wp (serve_from manager internalToken rq i guards h)
    (fun a w' => db w' = db w /\ turned_away a \/
       exists i' w1, db w1 = db w /\ let_in rq (done ++ guards) i' /\ h (context_of rq i') w1 = (inr a, w'))
    (fun e w' => exists i' w1, h (context_of rq i') w1 = (inl e, w')) w.
Proof.
  revert i done w. induction guards as [|g guards IH]; intros i done w Hi; simpl.
  { unfold wp. rewrite app_nil_r. destruct (h _ w) as [[e|a] w'] eqn:Hh; [by exists i, w|]. right. by exists i, w. }
  apply wp_bind. eapply wp_mono; [apply wp_middleware| |done].
  intros [a|found] w1 [Hdb Hp]; [apply wp_ret; by left|].
  eapply wp_mono; [apply (IH _ (done ++ [g]))| |intros e w' H'; exact H'].
  - destruct Hi as (Hv & Hpr & Hin). unfold let_in.
    assert (forall P Q R : Prop, P /\ (Private ∈ done ++ [g] -> Q) /\ (Internal ∈ done ++ [g] -> R) <->
      P /\ (Private ∈ done \/ Private = g -> Q) /\ (Internal ∈ done \/ Internal = g -> R)) as ->.
    { intros P Q R. rewrite !elem_of_app, !list_elem_of_singleton. done. }
    clear -Hv Hpr Hin Hp. destruct g, found as [f|]; unfold passed in Hp; intuition (try congruence).
  - intros a w' [[Hd Ht]|(i' & w2 & Hd & Hl & Hh)]; [left; split; [congruence|done]|].
    right. exists i', w2. rewrite <-app_assoc in Hl. split_and!; [congruence|done..].
Qed.

Lemma wp_serve_let_in rq guards h w :
  wp (serve manager internalToken rq guards h)
    (fun a w' => db w' = db w /\ turned_away a \/
       exists i w1, db w1 = db w /\ let_in rq guards i /\ h (context_of rq i) w1 = (inr a, w'))
    (fun e w' => exists i w1, h (context_of rq i) w1 = (inl e, w')) w.
Proof. apply (wp_serve_from rq h guards None []). by repeat split; set_unfold. Qed.

End guards.

(** ** Accounts *)

Section accounts.
Context `{Collation, !CollationLaws} `{AccountDomain.Bcrypt, !AccountDomain.BcryptLaws _} `{JWTLib, !JWTLibLaws _}.
Import OtherServices.AccountService.

Lemma Register_stored salt w acct pw nick :
  wp (OtherServices.AccountService.Register salt acct pw nick)
    (fun p w' => exists u r, AccountDomain.NewUser salt acct pw nick = inr u /\
       AccountRepo.user_stored w u r w' /\ p_ID p = am_ID r /\ p_Account p = AccountDomain.u_Account u)
    (fun err w' => db w' = db w) w.
Proof.
  unfold OtherServices.AccountService.Register.
  destruct (AccountDomain.NewUser salt acct pw nick) as [e|u] eqn:Hu; [by apply wp_throw|].
  apply wp_bind, wp_attempt. eapply wp_mono; [apply AccountRepo.wp_SaveAccount|..].
  - intros u' w' (r & Hst & Hid & Hacc). apply wp_ret. exists u, r. split_and!; done.
  - intros err w' [[Hdb _] [[-> _]|[t ->]]]; by apply wp_throw.
Qed.

(** The row of [u] was stored as the one named [r], with the role of a plain user. *)
Definition registered (d : Tables) (salt acct pw : string) (id : Z) (hash : string) : Prop :=
  AccountDomain.GenerateFromPassword salt (TrimSpace pw) = Some hash /\
  exists r, account d !! id = Some r /\ am_ID r = id /\ am_Account r = TrimSpace acct /\ am_Password r = hash /\
    am_Role r = AccountDomain.RoleUser /\
    forall name, collate name = collate (TrimSpace acct) ->
      find_row (AccountRepo.account_is name) (account d) = Some r.

Lemma stored_registered salt acct pw nick w u r w' :
  AccountDomain.NewUser salt acct pw nick = inr u -> AccountRepo.user_stored w u r w' ->
  registered (db w') salt acct pw (am_ID r) (AccountDomain.u_Password u).
Proof.
  intros Hu Hst. pose proof (AccountDomain.NewUser_inv _ _ _ _ _ Hu) as (Hh & _ & Hrole & _).
  pose proof (AccountDomain.NewUser_account _ _ _ _ _ Hu) as Hacct. split; [done|]. exists r.
  pose proof Hst as ((now & Hr) & Hdb & _). split_and!; try done.
  - by rewrite Hdb; simpl; rewrite lookup_insert_eq.
  - by rewrite Hr.
  - by rewrite Hr.
  - by rewrite Hr.
  - intros name Hn. eapply AccountRepo.stored_found; [exact Hst|]. by rewrite Hacct.
Qed.

(** A login with a name of a registered account: a token for its id, unless the password is
    not the one, the database fails or the library does not sign. *)
Lemma wp_Login_registered m salt acct pw id hash name pw' w :
  registered (db w) salt acct pw id hash ->
  collate (TrimSpace name) = collate (TrimSpace acct) -> TrimSpace name <> ""%string ->
  wp (OtherServices.AccountService.Login (token_signer m) name pw')
    (fun r w' => db w' = db w /\ AccountDomain.CompareHashAndPassword hash (TrimSpace pw') = true /\ 0 < id /\
       signed_at m id AccountDomain.RoleUser (lg_AccessToken r) (clock (env w')))
    (fun err w' => db w' = db w /\
       (err = EAccount AccountDomain.ErrEmptyPassword /\ TrimSpace pw' = ""%string \/
        err = EAccount AccountDomain.ErrInvalidCredentials /\
          AccountDomain.CompareHashAndPassword hash (TrimSpace pw') = false \/
        err = EApp ErrSignAccessTokenFailed \/ err = EApp ErrLoadAccountFailed)) w.
Proof.
  intros (Hh & r & _ & Hid & _ & Hp & Hro & Hfind) Hc Hne.
  unfold OtherServices.AccountService.Login. cbv zeta.
  destruct (String.eqb_spec (TrimSpace name) ""); [done|].
  apply wp_bind, wp_attempt. eapply wp_mono; [by apply AccountRepo.wp_FindByAccount, Hfind|..].
  2: { intros err w2 [Hdb [t ->]]. apply wp_throw. auto. }
  intros user w2 [Hdb ->]. unfold AccountRepo.restoreUser, AccountRepo.userWithStatSelect.
  unfold AccountDomain.Authenticate. cbn [AccountRepo.uw_user AccountDomain.u_Password AccountDomain.RestoreUserWithStats
    AccountDomain.u_ID AccountDomain.u_Role]. cbv zeta. rewrite Hp, Hro, Hid.
  destruct (String.eqb_spec (TrimSpace pw') ""); [apply wp_throw; auto|].
  pose proof (AccountDomain.bcrypt_trimmed _ _ _ Hh) as Htr. unfold trimmed in Htr. rewrite Htr.
  destruct (AccountDomain.CompareHashAndPassword _ _) eqn:Hcmp; [|apply wp_throw; auto].
  apply wp_bind, wp_map_error. eapply wp_mono; [apply wp_SignAccessToken|..].
  - intros token w3 (Hpos & Hdb3 & _ & Hs). apply wp_ret. split_and!; [congruence|done..].
  - intros err w3 [Hdb3 _]. split; [congruence|]. auto.
Qed.

Lemma wp_GetProfile id r w :
  0 < id -> account (db w) !! id = Some r ->
  wp (GetProfile id)
    (fun p w' => db w' = db w /\ p_ID p = am_ID r /\ p_Account p = TrimSpace (am_Account r))
    (fun err w' => db w' = db w /\ err = EApp ErrLoadAccountFailed) w.
Proof.
  intros Hpos Hr. unfold GetProfile, load_user. destruct (Z.leb_spec id 0); [lia|].
  apply wp_bind, wp_bind, wp_attempt. unfold AccountRepo.FindByID. apply wp_map_error, wp_bind, wp_take_row.
  - intros m e Hm. rewrite Hr in Hm. injection Hm as <-. by apply wp_ret, wp_ret, wp_ret.
  - intros e Hn. by rewrite Hr in Hn.
  - intros t e. by apply wp_throw.
Qed.

(** ** The three requests *)

(** A client that shows [token] is told its own account until [expiry], and nothing after. *)
Definition opens (manager : Manager) (internalToken : string) (p : AccountHttp.userProfileResponse)
    (token : string) (expiry : Time) (d : Tables) : Prop :=
  forall rq scheme w, db w = d -> visible scheme -> equal_fold_bearer scheme = true ->
    hr_Header rq "Authorization" = (scheme +:+ " " +:+ token)%string ->
    wp (serve manager internalToken rq [Private] AccountHandler.Me)
      (fun a w' => db w' = d /\
         if now_in w <? expiry
         then a = internal_error \/
              exists p', a = mkAnswer 200 (AProfile p') /\ AccountHttp.pr_ID p' = AccountHttp.pr_ID p /\
                AccountHttp.pr_Account p' = AccountHttp.pr_Account p
         else a = mkAnswer 401 (AAbort "invalid access token"))
      (fun _ _ => False) w.

Lemma signed_opens manager internalToken salt acct pw id hash p token t d :
  registered d salt acct pw id hash -> 0 < id ->
  AccountHttp.pr_ID p = id -> AccountHttp.pr_Account p = TrimSpace acct ->
  signed_at manager id AccountDomain.RoleUser token t ->
  opens manager internalToken p token (time_Truncate (t + AccessTTL manager) second) d.
Proof.
  intros (_ & r & Hr & Hrid & Hacc & _) Hpos Hpid Hpacc Hs rq scheme w <- Hv Hb Hh.
  unfold serve. cbn [serve_from middleware]. rewrite Hh. apply wp_bind.
  eapply wp_mono; [eapply wp_NewJWTAuth_signed; [exact Hs|done..]| |done].
  intros x w1 [Hdb ->]. unfold AccessTTL. destruct (now_in w <? _); [|by apply wp_ret].
  unfold AccountHandler.Me, with_user, AccountHandler.userIDFromContext, user_id_from_context, context_of. simpl.
  destruct (Z.ltb_spec 0 id); [|lia]. simpl. unfold respond. apply wp_bind, wp_attempt.
  rewrite <-Hdb in Hr. eapply wp_mono; [exact (wp_GetProfile id r w1 Hpos Hr)|..].
  - intros q w2 (Hdb2 & Hq1 & Hq2). apply wp_ret. split; [congruence|]. right. eexists. split; [reflexivity|]. simpl.
    rewrite Hq1, Hq2, Hpid, Hpacc, Hacc, TrimSpace_idemp. done.
  - intros err w2 [Hdb2 ->]. apply wp_ret. split; [congruence|]. by left.
Qed.

End accounts.

(** ** The properties *)

Section HttpProperties.
Context `{Collation, !CollationLaws} `{Codec} `{AccountDomain.Bcrypt} `{RecommendationService.MathLib}
  `{JWTLib}.
Variables (manager : Manager) (internalToken : string).

(** C5: the API answers: each of the routes of [HttpRouter.route] — all of [router.go] but
    [POST /api/uploads], [/metrics] and the static files — never fails to answer, a 500 has a fixed text
    and stands for a failure inside the operation behind the route, every other refusal is a
    401 of the middleware or a 4xx with a fixed text or the text of a sentinel of the service's
    domain, and what is not refused is 200, 201 or 204. *)
Theorem api_answers group redis rabbit rq guards s h w :
  let sv := register_services group redis rabbit in
  group_keeps group -> route manager sv guards s h ->
  wp (serve manager internalToken rq guards h) (fun a w' => well_answered sv s a w') (fun _ _ => False) w.
Proof.
  intros sv Hg Hr. pose proof (register_services_keeps group redis rabbit Hg) as Hk.
  eapply wp_mono; [apply wp_serve_let_in|..].
  - intros a w' [[_ [text ->]]|(i & w1 & _ & _ & Hh)]; [done|].
    pose proof (route_answers manager sv guards s h (context_of rq i) Hr w1) as Ha. unfold wp in Ha. by rewrite Hh in Ha.
  - intros e w' (i & w1 & Hh).
    pose proof (route_answers manager sv guards s h (context_of rq i) Hr w1) as Ha. unfold wp in Ha. by rewrite Hh in Ha.
Qed.

(** C6: the guards of a route: either the answer is a 401 and the database is as it was, or the
    handler ran, with the user and the role of an access token that the library accepted under
    the manager's secret, if with any; with one if the route is private; and for a caller who
    showed the internal token if the route is internal. *)
Theorem routes_are_guarded group redis rabbit rq guards s h w :
  let sv := register_services group redis rabbit in
  group_keeps group -> route manager sv guards s h ->
  wp (serve manager internalToken rq guards h)
    (fun a w' => db w' = db w /\ turned_away a \/
       exists i w1, db w1 = db w /\ let_in manager internalToken rq guards i /\
         h (context_of rq i) w1 = (inr a, w'))
    (fun _ _ => False) w.
Proof.
  intros sv Hg Hr. pose proof (register_services_keeps group redis rabbit Hg) as Hk.
  eapply wp_mono; [apply wp_serve_let_in|intros a w' Ha; exact Ha|].
  intros e w' (i & w1 & Hh).
  pose proof (route_answers manager sv guards s h (context_of rq i) Hr w1) as Ha. unfold wp in Ha. by rewrite Hh in Ha.
Qed.

(** C4: an account from its registration to its profile: once POST /users answered a profile,
    POST /sessions with any spelling of its name that the collation takes for the same answers
    a token, and then the password is one that bcrypt accepts for the stored hash, or refuses
    the password, never the right one, or reports a failure inside; and GET /users/me with that
    token, behind any spelling of "Bearer", answers the same account until the token expires,
    the time to live of the manager after the login, cut to seconds, and 401 from then on. No
    request but the first changes the database, nor does that one if it is refused. *)
Theorem account_over_http `{!AccountDomain.BcryptLaws _, !JWTLibLaws _} rq salt r w :
  wp (serve manager internalToken rq [] (fun _ => AccountHandler.Register salt (Some r)))
    (fun a1 w1 =>
       ((forall p, an_Body a1 <> AProfile p) -> db w1 = db w) /\
       forall p, an_Body a1 = AProfile p -> exists hash,
         AccountDomain.GenerateFromPassword salt (TrimSpace (AccountHttp.rr_Password r)) = Some hash /\
         forall rq' name pw, collate (TrimSpace name) = collate (TrimSpace (AccountHttp.rr_Account r)) ->
           TrimSpace name <> ""%string ->
           wp (serve manager internalToken rq' [] (fun _ => AccountHandler.Login (token_signer manager)
                 (Some (AccountHttp.mkLoginByPasswordRequest name pw))))
             (fun a2 w2 => db w2 = db w1 /\
                ((exists t, a2 = mkAnswer 200 (AToken t) /\
                    AccountDomain.CompareHashAndPassword hash (TrimSpace pw) = true /\
                    opens manager internalToken p (AccountHttp.tr_AccessToken t)
                      (time_Truncate (clock (env w2) + AccessTTL manager) second) (db w1)) \/
                 a2 = internal_error \/
                 a2 = error_answer 400 "password is required" /\ TrimSpace pw = ""%string \/
                 a2 = error_answer 401 "invalid credentials" /\
                   TrimSpace pw <> TrimSpace (AccountHttp.rr_Password r)))
             (fun _ _ => False) w1)
    (fun _ _ => False) w.
Proof.
  unfold serve. cbn [serve_from]. unfold AccountHandler.Register, AccountHandler.Login, with_body, respond.
  apply wp_bind, wp_attempt. eapply wp_mono; [apply Register_stored|..].
  2: { intros err w1 Hdb. apply wp_ret. split; [done|]. intros p. unfold AccountHandler.register_error.
       repeat case_match; simpl; discriminate. }
  intros q w1 (u & row & Hu & Hst & Hq1 & Hq2). apply wp_ret. split; [by intros Hn; destruct (Hn _ eq_refl)|].
  simpl. intros p [= <-]. pose proof (stored_registered _ _ _ _ _ _ _ _ Hu Hst) as Hreg.
  exists (AccountDomain.u_Password u). pose proof (proj1 Hreg) as Hh. split; [done|].
  intros rq' name pw Hc Hne. apply wp_bind, wp_attempt. simpl.
  eapply wp_mono; [by eapply wp_Login_registered|..].
  - intros t w2 (Hdb & Hcmp & Hpos & Hs). apply wp_ret. split; [done|]. left. eexists. split; [reflexivity|].
    split; [done|]. eapply signed_opens; [exact Hreg|done..| |exact Hs].
    simpl. rewrite Hq2. by apply (AccountDomain.NewUser_account _ _ _ _ _ Hu).
  - intros err w2 [Hdb Herr]. apply wp_ret. split; [done|]. right.
    destruct Herr as [[-> He]|[[-> Hcmp]|[-> | ->]]]; [right; left|right; right|by left..]; (split; [reflexivity|]); [done|].
    intros Heq. rewrite Heq, (AccountDomain.bcrypt_accepts _ _ _ Hh) in Hcmp. discriminate.
Qed.

End HttpProperties.

(** ** Access tokens: the key and the claims, spelled *)

Definition claim_fields (c : tokenClaims) :=
  (tk_UserID c, tk_Role c, tk_TokenType c, tk_IssuedAt c, tk_ExpiresAt c, tk_ID c).

Definition claims_of (x : Z * string * string * option Z * option Z * string) : tokenClaims :=
  let '(u, r, t, i, e, j) := x in mkTokenClaims u r t i e j.

#[export] Instance plain_tokens : JWTLib := {|
  NewNumericDate t := time_Truncate t second;
  HS256_SignedString key c := Some (write_pos (encode (key, claim_fields c)) "");
  HS256_ParseWithClaims key now s :=
    '(p, _) ← read_pos s;
    '(k, x) ← decode p;
    if String.eqb k key && (match tk_ExpiresAt (claims_of x) with Some e => now <? e | None => true end)
    then Some (claims_of x) else None;
|}.

#[export] Instance plain_tokens_laws : JWTLibLaws plain_tokens.
Proof.
  split; [done|..].
  - intros key c token [= <-]. split; [apply write_pos_visible|]. by destruct (encode _).
  - intros key c token now exp issued [= <-] _ He. cbn [HS256_ParseWithClaims plain_tokens].
    rewrite read_write_pos. cbn [mbind option_bind]. rewrite decode_encode. cbn [mbind option_bind].
    rewrite String.eqb_refl. destruct c. cbn in *. by rewrite He.
Qed.

(** ** Witnesses *)

Definition alone : Group := fun _ m => m.

Lemma alone_keeps : group_keeps alone.
Proof. intros key m Hm. exact Hm. Qed.

Definition a_manager : Manager := mkManager "secret" (15 * minute).

(** A request with nothing but an [Authorization] header. *)
Definition asks (authorization : string) : HttpRequest :=
  mkHttpRequest (fun _ => "1"%string) (fun _ => ""%string)
    (fun name => if String.eqb name "Authorization" then authorization else ""%string).

Lemma api_answers_witness :
  group_keeps alone /\
  route a_manager (register_services alone true true) [Private] SAccount AccountHandler.Me /\
  wp (serve a_manager "internal" (asks "Bearer x") [Private] AccountHandler.Me)
    (fun a _ => well_answered (register_services alone true true) SAccount a w10) (fun _ _ => False) w10.
Proof.
  split; [exact alone_keeps|]. split; [constructor|].
  pose proof (api_answers a_manager "internal" alone true true (asks "Bearer x") [Private] SAccount AccountHandler.Me w10
    alone_keeps ltac:(constructor)) as Ha.
  vm_compute. vm_compute in Ha. exact Ha.
Defined.

Lemma routes_are_guarded_witness :
  group_keeps alone /\
  wp (serve a_manager "internal" (asks "") [Private] AccountHandler.Me)
    (fun a w' => turned_away a) (fun _ _ => False) w10.
Proof.
  split; [exact alone_keeps|].
  eapply wp_mono; [exact (routes_are_guarded a_manager "internal" alone true true (asks "") [Private] SAccount
    AccountHandler.Me w10 alone_keeps ltac:(constructor))| |intros e w' []].
  intros a w' [[_ H]|(i & w1 & _ & (Hv & Hp & _) & _)]; [exact H|].
  destruct i as [[user role]|]; [|destruct (Hp ltac:(left) eq_refl)].
  destruct Hv as (scheme & rest & now & c & Hs & _). vm_compute in Hs. discriminate Hs.
Defined.

Definition carol : AccountHttp.RegisterRequest := AccountHttp.mkRegisterRequest "carol" "secret" "Carol".

Definition carol_registers : M Answer :=
  serve a_manager "internal" (asks "") [] (fun _ => AccountHandler.Register "salt" (Some carol)).

Definition carol_logs_in (name pw : string) : M Answer :=
  serve a_manager "internal" (asks "") [] (fun _ => AccountHandler.Login (token_signer a_manager)
    (Some (AccountHttp.mkLoginByPasswordRequest name pw))).

Lemma account_over_http_witness :
  AccountDomain.BcryptLaws plain_bcrypt /\ JWTLibLaws plain_tokens /\
  wp carol_registers
    (fun a1 w1 => forall p, an_Body a1 = AProfile p ->
       wp (carol_logs_in " CAROL" "secret")
         (fun a2 w2 => a2 = internal_error \/ exists t, an_Body a2 = AToken t /\
            opens a_manager "internal" p (AccountHttp.tr_AccessToken t)
              (time_Truncate (clock (env w2) + 15 * minute) second) (db w1))
         (fun _ _ => False) w1)
    (fun _ _ => False) w10.
Proof.
  split; [exact plain_bcrypt_laws|]. split; [exact plain_tokens_laws|].
  eapply wp_mono; [exact (account_over_http a_manager "internal" (asks "") "salt" carol w10)| |intros e w' []].
  intros a1 w1 [_ Hp] p Ha. destruct (Hp p Ha) as (hash & _ & Hlogin).
  assert (collate (TrimSpace " CAROL") = collate (TrimSpace (AccountHttp.rr_Account carol))) as Hc
    by (vm_compute; reflexivity).
  assert (TrimSpace " CAROL" <> ""%string) as Hne by (vm_compute; discriminate).
  eapply wp_mono; [exact (Hlogin (asks "") " CAROL"%string "secret"%string Hc Hne)| |intros e w' []].
  intros a2 w2 (_ & [(t & -> & _ & Ho)|[->|[[_ He]|[_ He]]]]).
  - right. exists t. split; [reflexivity|exact Ho].
  - left. reflexivity.
  - vm_compute in He. discriminate He.
  - destruct He. vm_compute. reflexivity.
Defined.

(** The same run, computed: registration, login, the profile before and after the token
    expired. *)
Definition carol_asks (a : Answer) : M Answer :=
  serve a_manager "internal"
    (asks (match an_Body a with AToken t => ("bearer " +:+ AccountHttp.tr_AccessToken t)%string | _ => ""%string end))
    [Private] AccountHandler.Me.

Example carol_run :
  fst <$> (match (a1 ← carol_registers; a2 ← carol_logs_in "Carol " "secret"; a3 ← carol_asks a2;
             _ ← sleep (15 * minute); a4 ← carol_asks a2; a5 ← carol_logs_in "carol" "other";
             mret ([an_Status a1; an_Status a2; an_Status a3; an_Status a4; an_Status a5], tt)) w10 with
           | (inr x, _) => Some x | _ => None end) = Some [201; 200; 200; 401; 401].
Proof. vm_compute. reflexivity. Qed.
