(* ===== verification/EdgeProperties.v ===== *)
(** * Correctness of accounts and sessions in the main package

    [spares] is the frame of the application services' writes: they leave [account] and the
    tables of the main package alone, so that only the handlers of [AuthHandlers] and two
    writes of the account repository matter for [lawful]. *)
From S2P Require Import Prelude.
From S2P Require Import GoStd.
From S2P Require Import GoConv.
From S2P Require AccountDomain.
From S2P Require RecommendationDomain.
From S2P Require Import Errors.
From S2P Require Import Models.
From S2P Require Import Redis.
From S2P Require Import Store.
From S2P Require Import RedisClient.
From S2P Require SessionCache.
From S2P Require Import Codec.
From S2P Require InteractionRepo.
From S2P Require RelationRepo.
From S2P Require MessageRepo.
From S2P Require VideoRepo.
From S2P Require ExposureRepo.
From S2P Require PlaybackRepo.
From S2P Require AccountRepo.
From S2P Require Import Views.
From S2P Require Import Edge.
From S2P Require Import EdgeRules.
From S2P Require Import AuthHandlers.
From S2P Require Import AccountSpec.
From S2P Require Import OutboxWorker.
From S2P Require Import PublishHandlers.
From S2P Require Import SocialHandlers.
From S2P Require Import VideoDetail.
From S2P Require Import Uploads.
From S2P Require Import ExtensionRules.
From S2P Require Import System.
From S2P Require Import Frames.
From S2P Require Import RepoProperties.
From S2P Require Import Requests.
From S2P Require Import EdgeRequests.
From S2P Require Import ServiceExamples.

Section Spares.
Context `{Collation, !CollationLaws}.

Definition same_users (d d' : Tables) : Prop := account d' = account d /\ extension d' = extension d.

#[export] Instance same_users_preorder : PreOrder same_users.
Proof. split; [by intros d|]. intros d1 d2 d3 [A1 E1] [A2 E2]. split; congruence. Qed.

Definition spares {A} (m : M A) : Prop := changes_by same_users m.

End Spares.

Ltac spares_solve := unfold spares; changes_solve.

Section Services.
Context `{Collation, !CollationLaws}.

Lemma SetAction_spares u v t a k : spares (InteractionRepo.SetAction u v t a k).
Proof. spares_solve. Qed.

Lemma CreateComment_spares c : spares (InteractionRepo.CreateComment c).
Proof. spares_solve. Qed.

Lemma DeleteComment_spares id u r : spares (InteractionRepo.DeleteComment id u r).
Proof. spares_solve. Qed.

Lemma SetFollow_spares u t a k : spares (RelationRepo.SetFollow u t a k).
Proof. spares_solve. Qed.

Lemma CreateMessage_spares m k : spares (MessageRepo.Create m k).
Proof. spares_solve. Qed.

Lemma MarkRead_spares u ids : spares (MessageRepo.MarkRead u ids).
Proof. spares_solve. Qed.

Lemma SaveVideo_spares v : spares (VideoRepo.Save v).
Proof. spares_solve. Qed.

Lemma UpdateStatus_spares v : spares (VideoRepo.UpdateStatus v).
Proof. spares_solve. Qed.

Lemma EnsureStats_spares : spares VideoRepo.EnsureStats.
Proof. spares_solve. Qed.

Lemma SaveViewEvent_spares e : spares (ExposureRepo.SaveViewEvent e).
Proof. spares_solve. Qed.

Lemma CreateQoSReport_spares r : spares (PlaybackRepo.CreateQoSReport r).
Proof. spares_solve. Qed.

Lemma SaveVideoEmbedding_spares e : spares (RecommendationRepo.SaveVideoEmbedding e).
Proof. spares_solve. Qed.

Lemma SaveExposures_spares xs : spares (ExposureRepo.SaveExposures xs).
Proof.
  assert (forall ys, spares (ExposureRepo.save_exposures ys)) as Hs.
  { induction ys as [|[y|] ys IH]; simpl; [apply changes_ret, _| |exact IH].
    apply changes_bind; [apply _|spares_solve|]. intros a. apply changes_bind; [apply _|exact IH|].
    intros b. apply changes_ret, _. }
  unfold ExposureRepo.SaveExposures. destruct xs; [apply changes_ret, _|]. apply changes_transaction; [apply _|apply Hs].
Qed.

Lemma mention_spares c u : spares (notify_mention c u).
Proof. spares_solve. Qed.

End Services.

(** ** Every step is lawful *)
Section Lawful.
Context `{Collation, !CollationLaws}.
Variable given : string -> Prop.

Lemma spares_lawful {A} (m : M A) w : spares m -> lawful given (db w) (db (after m w)).
Proof. intros Hm. destruct (Hm w) as [[? ?] _]. by apply lawful_frame. Qed.

Lemma lawful_same w w' : db w' = db w -> lawful given (db w) (db w').
Proof. by intros ->. Qed.

(** [after m w] is lawful if every outcome is. *)
Lemma lawful_after {A} (m : M A) Q E w :
  wp m Q E w -> (forall a w', Q a w' -> lawful given (db w) (db w')) -> (forall e w', E e w' -> db w' = db w) ->
  lawful given (db w) (db (after m w)).
Proof.
  intros Hm HQ HE. apply (after_wp m Q E (fun w' => lawful given (db w) (db w')) w Hm HQ).
  intros e w' He. by apply lawful_same, (HE e).
Qed.

Lemma lawful_extension d g :
  (forall x, sessions (g x) = sessions x /\ invites (g x) = invites x) -> lawful given d (set_extension g d).
Proof.
  intros Hg. destruct (Hg (extension d)) as [Es Ei].
  apply lawful_sessions; [done|done|]. simpl. rewrite Es. intros k s Hs. by exists s.
Qed.

Lemma lawful_new_account w r :
  integrity w -> account (db w) !! am_ID r = None -> lawful given (db w) (set_account <[am_ID r := r]> (db w)).
Proof.
  intros Hi Hn. split; simpl; [intros k s Hs; by exists s|intros k i Hx; by exists i|].
  intros id a Ha. exists a. rewrite lookup_insert_ne; [|intros <-; congruence].
  split_and!; [done..|]. by intros Hd%credentials_same.
Qed.

Lemma lawful_invite d k i uid :
  invites (extension d) !! k = Some i -> iv_UsedBy i = None -> k = iv_ID i ->
  lawful given d (set_extension (set_invites (alter (use_invite uid) (iv_ID i))) d).
Proof.
  intros Hi Hu Hk. destruct (reflexivity d : lawful given d d) as [S _ A]. split; [done| |exact A].
  simpl. intros j o Ho. destruct (decide (j = iv_ID i)) as [->|Hne].
  - rewrite lookup_alter_eq, Ho. eexists. split; [done|]. rewrite <-Hk, Hi in Ho. injection Ho as <-. by split.
  - rewrite lookup_alter_ne by done. by exists o.
Qed.

Lemma user_fresh w u r w' : integrity w -> AccountRepo.user_stored w u r w' -> account (db w) !! am_ID r = None.
Proof.
  intros Hi ((now & ->) & _). eapply ids_below_fresh; [apply (AccountRepo.ac_fresh _ (in_accounts _ Hi))|].
  simpl. lia.
Qed.

Lemma register_lawful w username hash invite :
  integrity w -> lawful given (db w) (db (after (register_tx username hash invite) w)).
Proof.
  intros Hi. eapply lawful_after; [apply wp_register_tx| |by intros e w' [? _]].
  intros u w' (i & r & [(k & Hk) _ [Hu _] Hs ->] & _ & _).
  etrans; [by eapply (lawful_new_account w r), user_fresh|].
  eapply lawful_invite; [exact Hk|done|]. by apply (ex_invite _ (in_extension _ Hi)).
Qed.

Lemma refresh_lawful w uid sid raw token :
  integrity w -> given (shaHex token) -> lawful given (db w) (db (after (refresh_tx uid sid raw token) w)).
Proof.
  intros Hi Hg. eapply lawful_after; [apply wp_refresh_tx| |by intros e w' [[? _] _]].
  intros _ w' [(s & Hs) _]. eapply session_rotated_lawful; [exact Hs|apply (ex_session _ (in_extension _ Hi))|done].
Qed.

Lemma logout_lawful w now ids : lawful given (db w) (db (after (update (revoke_ids now ids)) w)).
Proof.
  apply (lawful_after _ (fun _ w' => db w' = revoke_ids now ids (db w)) (fun _ w' => db w' = db w)).
  - by apply wp_update.
  - intros _ w' ->. apply revoke_ids_lawful.
  - done.
Qed.

Lemma updateMe_lawful w uid bio username : lawful given (db w) (db (after (updateMe_tx uid bio username) w)).
Proof.
  eapply lawful_after; [apply wp_updateMe_tx| |by intros e w' [[? _] _]].
  intros _ w' [Hu _]. destruct username as [name|]; simpl in Hu.
  - destruct Hu as [_ Hr]. eapply lawful_account; [|reflexivity|exact Hr]. by intros a _ Ha.
  - rewrite Hu. by apply lawful_columns.
Qed.

Lemma changePassword_lawful w uid hash : lawful given (db w) (db (after (changePassword_tx uid hash) w)).
Proof.
  eapply lawful_after; [apply wp_changePassword_tx| |by intros e w' [[? _] _]].
  intros _ w' [Hr _]. eapply lawful_account; [|reflexivity|exact Hr]. by intros a _ Ha.
Qed.

Lemma adminUpdateUser_lawful w id b : integrity w -> lawful given (db w) (db (after (adminUpdateUser_tx id b) w)).
Proof.
  intros Hi. eapply lawful_after; [apply wp_adminUpdateUser_tx| |by intros e w' [[? _] _]].
  intros _ w' [(u & Hu & Hp & _ & now & Hd) _]. rewrite (account_key _ _ _ Hi Hu) in *.
  assert (forall a, account (db w) !! id = Some a -> enabled_admin a -> enabled_admin (admin_row b now a)) as Hadm.
  { intros a Ha [Hr Hs]. rewrite Hu in Ha. injection Ha as <-. split; [done|]. simpl.
    unfold disables in Hp. destruct (ab_Status b) as [s|]; simpl; [|done].
    destruct (Z.eqb_spec s 1); [done|]. by destruct (Hp eq_refl). }
  destruct (renames b || disables b) eqn:Hrd; [by eapply lawful_account; [|reflexivity|exact Hd]|].
  rewrite Hd. apply lawful_columns. intros a Ha. apply orb_false_iff in Hrd as [Hn Hdis].
  unfold renames, disables in *. simpl. destruct (ab_Username b); [done|].
  split_and!; [by apply Hadm|done|done|]. intros Hs.
  destruct (ab_Status b) as [s|]; simpl; [|done]. by destruct (Z.eqb_spec s 1).
Qed.

Lemma adminPassword_lawful w id hash : integrity w -> lawful given (db w) (db (after (adminPassword_tx id hash) w)).
Proof.
  intros Hi. eapply lawful_after; [apply wp_adminPassword_tx| |by intros e w' [[? _] _]].
  intros _ w' [(u & now & Hu & Hr) _]. rewrite (account_key _ _ _ Hi Hu) in Hr.
  eapply lawful_account; [|reflexivity|exact Hr]. by intros a _ Ha.
Qed.

Lemma grantAdmin_lawful w username : lawful given (db w) (db (after (grantAdmin username) w)).
Proof.
  eapply lawful_after; [apply wp_grantAdmin| |by intros e w' [? _]].
  intros _ w' [(k & u & now & _ & _ & _ & ->) _]. apply lawful_columns. intros a _. split_and!; try done.
  intros [_ Hs]. by split.
Qed.

Lemma createInvite_lawful w code : integrity w -> lawful given (db w) (db (after (createInvite code) w)).
Proof.
  intros Hi. eapply lawful_after; [apply wp_createInvite| |by intros e w' [? _]].
  intros i w' [(Hid & _ & -> & _) _]. destruct (reflexivity (db w) : lawful given (db w) (db w)) as [S _ A].
  split; [done| |exact A]. simpl. intros k o Ho. exists o.
  rewrite lookup_insert_ne; [done|]. intros <-. rewrite Hid in Ho.
  apply (ex_invite_fresh _ (in_extension _ Hi)) in Ho. lia.
Qed.

Lemma SaveAccount_lawful w u : integrity w -> lawful given (db w) (db (after (AccountRepo.Save u) w)).
Proof.
  intros Hi. eapply lawful_after; [apply AccountRepo.wp_SaveAccount| |by intros e w' [[? _] _]].
  intros u' w' (r & Hr & _). pose proof (user_fresh _ _ _ _ Hi Hr) as Hn.
  destruct Hr as (_ & -> & _). by apply lawful_new_account.
Qed.

Lemma UpdateProfile_lawful w u : lawful given (db w) (db (after (AccountRepo.UpdateProfile u) w)).
Proof.
  eapply lawful_after; [apply AccountRepo.wp_UpdateProfile| |by intros e w' [[? _] _]].
  intros _ w' [(now & row & Hrow & ->) _]. rewrite <-(AccountRepo.alter_profile (db w) u now row Hrow).
  by apply lawful_columns.
Qed.

Lemma session_lawful (J : JWT) cfg w uid : lawful given (db w) (db (after (newSession cfg uid) w)).
Proof.
  eapply lawful_after; [apply wp_newSession| |by intros e w' (_ & ? & _)].
  intros tokens w' [(s & Hs) _]. by eapply session_opened_lawful.
Qed.

Lemma login_lawful (J : JWT) cfg w uid hash : lawful given (db w) (db (after (login_tx cfg uid hash) w)).
Proof.
  eapply lawful_after; [apply wp_login_tx| |by intros e w' [[? _] _]].
  intros tokens w' [(a & s & _ & _ & _ & Hs) _]. by eapply session_opened_lawful.
Qed.

Lemma publish_lawful (U : Unicode) w p : integrity w -> lawful given (db w) (db (after (publish_tx p) w)).
Proof.
  intros Hi. eapply lawful_after; [apply wp_publish_tx; apply Hi| |by intros e w' [? _]].
  intros row w' [_ _ (now & m & r & _ & _ & _ & ->) _ _ _]. unfold published_tables.
  by etrans; [|by apply lawful_extension]; apply lawful_frame.
Qed.

Lemma moderate_lawful (U : Unicode) w id b : integrity w -> lawful given (db w) (db (after (adminUpdateVideo_tx id b) w)).
Proof.
  intros Hi. eapply lawful_after; [apply wp_adminUpdateVideo_tx; apply Hi| |by intros e w' [? _]].
  intros _ w' [(v & now & m & o & _ & _ & _ & _ & ->) _ _]. unfold moderated_tables.
  by etrans; [|by apply lawful_extension]; apply lawful_frame.
Qed.

Lemma mark_published_lawful w now ids : lawful given (db w) (db (after (update (mark_published now ids)) w)).
Proof.
  apply (lawful_after _ (fun _ w' => db w' = mark_published now ids (db w)) (fun _ w' => db w' = db w)).
  - by apply wp_update.
  - intros _ w' ->. by apply lawful_extension.
  - done.
Qed.

Lemma mark_processed_lawful w id : lawful given (db w) (db (after (mark_processed id) w)).
Proof.
  eapply lawful_after; [apply wp_mark_processed| |by intros e w' [? _]].
  intros _ w' ((g & ->) & _). by apply lawful_extension.
Qed.

Lemma direct_lawful w a b text : lawful given (db w) (db (after (insert_direct a b text) w)).
Proof.
  eapply lawful_after; [apply wp_insert_direct| |by intros e w' [? _]].
  intros m w' [_ -> _ _]. by apply lawful_extension.
Qed.

(** The writes of the uploads. *)

Lemma update_lawful w f : lawful given (db w) (f (db w)) -> lawful given (db w) (db (after (update f) w)).
Proof.
  intros Hf. apply (lawful_after _ (fun _ w' => db w' = f (db w)) (fun _ w' => db w' = db w)).
  - by apply wp_update.
  - by intros _ w' ->.
  - done.
Qed.

Lemma create_upload_lawful w uid md5 size chunks id :
  lawful given (db w) (db (after (create_upload uid md5 size chunks id) w)).
Proof.
  apply (lawful_after _ (fun u w' => db w' = set_extension (set_uploads <[collate (ul_ID u) := u]>) (db w))
    (fun _ w' => db w' = db w)); [by apply wp_insert_keyed| |done].
  intros u w' ->. by apply lawful_extension.
Qed.

Lemma avatar_lawful w uid url : lawful given (db w) (db (after (update (set_avatar uid url)) w)).
Proof.
  apply update_lawful. apply lawful_columns. intros a _. unfold credentials_differ, enabled_admin. simpl. tauto.
Qed.

(** A step that gives a session the refresh token with hash [h]. *)
Definition refreshes (w w' : World) (h : string) : Prop :=
  exists uid sid raw token, w' = after (refresh_tx uid sid raw token) w /\ shaHex token = h.

Lemma plain_step_lawful w w' :
  integrity w -> plain_step w w' -> (forall h, refreshes w w' h -> given h) -> lawful given (db w) (db w').
Proof.
  intros Hi Hs Hg. destruct Hs; eauto using spares_lawful, SetAction_spares, CreateComment_spares,
    DeleteComment_spares, SetFollow_spares, CreateMessage_spares, MarkRead_spares, SaveVideo_spares,
    UpdateStatus_spares, EnsureStats_spares, SaveViewEvent_spares, SaveExposures_spares,
    CreateQoSReport_spares, SaveVideoEmbedding_spares, mention_spares.
  - by apply SaveAccount_lawful.
  - apply UpdateProfile_lawful.
  - by apply register_lawful.
  - apply session_lawful.
  - apply login_lawful.
  - apply refresh_lawful; [done|]. apply Hg. by eexists _, _, _, _.
  - apply logout_lawful.
  - apply updateMe_lawful.
  - apply changePassword_lawful.
  - by apply adminUpdateUser_lawful.
  - by apply adminPassword_lawful.
  - apply grantAdmin_lawful.
  - by apply createInvite_lawful.
  - by apply moderate_lawful.
  - apply mark_published_lawful.
  - apply mark_processed_lawful.
  - apply direct_lawful.
  - by apply lawful_frame.
Qed.

Lemma step_lawful w w' :
  integrity w -> step w w' -> (forall h, refreshes w w' h -> given h) -> lawful given (db w) (db w').
Proof.
  intros Hi Hs Hg. destruct Hs.
  - by apply plain_step_lawful.
  - by apply publish_lawful.
  - apply create_upload_lawful.
  - apply update_lawful. by apply lawful_extension.
  - apply update_lawful. by apply lawful_extension.
  - apply avatar_lawful.
  - by apply lawful_frame.
Qed.

End Lawful.

(** ** Every sequence of steps *)
Section Steps.
Context `{Collation, !CollationLaws}.

(** Any refresh token may be given. *)
Definition any_token (h : string) : Prop := True.

Lemma steps_lawful w w' : integrity w -> rtc step w w' -> lawful any_token (db w) (db w').
Proof.
  intros Hi Hs. revert Hi. induction Hs as [w|w1 w2 w3 H12 _ IH]; intros Hi; [reflexivity|].
  etrans; [by apply step_lawful|]. apply IH. by eapply step_integrity.
Qed.



End Steps.

(** ** What the handlers answer *)
Section Handlers.
Context `{Collation, !CollationLaws} `{Codec} `{JWT} `{AccountDomain.Bcrypt} `{Unicode} `{UUID}.
Variable cfg : Config.

(** C10: whatever happens between two moments of the database — any interleaving of the
    transactions of all requests, workers and commands, with any failures — a revoked session
    stays revoked, a used invite stays used by the same account, an enabled administrator
    stays one, and an account whose name or password changed or that was disabled has no
    session left from before. All that the process does are such transactions. *)
Theorem accounts_are_lawful w w' :
  reachable w ->
  (rtc step w w' -> lawful any_token (db w) (db w')) /\ (rtc (any_request cfg) w w' -> rtc step w w').
Proof.
  intros Hw. split; [|apply any_requests_steps]. intros Hs. apply steps_lawful; [by apply reachable_ok|done].
Qed.

(** The account that a user name and a password open. *)
Record opened_by (w : World) (username password : string) (a : UserModel) : Prop := {
  ob_row : account (db w) !! am_ID a = Some a;
  ob_name : collate (am_Account a) = collate username;
  ob_password : AccountDomain.CompareHashAndPassword (am_Password a) password = true;
  ob_enabled : am_Status a = 1;
}.

(** C11: a login that answers 200 gives the cookies of one new session, of an enabled account
    of that name whose password it is, and does nothing else; any other answer leaves the
    tables as they were and gives no tokens. *)
Theorem login_opens_a_session body w :
  reachable w ->
  wp (login cfg body)
    (fun r w' =>
       (rs_Status r = 200 /\ exists username password a tokens s,
          body = Some (username, password) /\ opened_by w username password a /\
          rs_Cookies r = SetTokens tokens.1 tokens.2 /\
          session_opened cfg (am_ID a) tokens (clock (env w)) s (db w) (db w')) \/
       (rs_Status r ∈ [400; 401; 403; 503] /\ db w' = db w /\
          (rs_Cookies r = KeepCookies \/ rs_Cookies r = ClearCookies)))
    (fun _ _ => False) w.
Proof.
  intros Hi%reachable_ok.
  assert (forall r w', rs_Status r ∈ [400; 401; 403; 503] -> db w' = db w ->
    (rs_Cookies r = KeepCookies \/ rs_Cookies r = ClearCookies) -> forall P,
    P \/ (rs_Status r ∈ [400; 401; 403; 503] /\ db w' = db w /\
          (rs_Cookies r = KeepCookies \/ rs_Cookies r = ClearCookies))) as Hno by (intros; by right).
  unfold login. destruct body as [[username password]|]; [|apply wp_ret, Hno; [set_solver|done|by left]].
  apply wp_bind, wp_attempt, wp_take_row_clock.
  2, 3: intros; apply wp_ret, Hno; [set_solver|done|by left].
  intros u e He (k & Hk & Hn%String.eqb_eq)%find_row_Some.
  rewrite users_lookup in Hk. apply fmap_Some in Hk as (a & Ha & ->). simpl.
  destruct (AccountDomain.CompareHashAndPassword (am_Password a) password) eqn:Hp; simpl;
    [|apply wp_ret, Hno; [set_solver|done|by left]].
  pose proof (account_key _ _ _ Hi Ha) as Hkey.
  apply wp_bind, wp_attempt. eapply wp_mono; [apply wp_login_tx| |].
  - intros [access refresh] w' [(a' & s & Ha' & Hst & Hpw & Hs) _]. apply wp_ret. left. split; [done|].
    simpl in Ha'. rewrite Hkey, Ha in Ha'. injection Ha' as <-.
    exists username, password, a, (access, refresh), s. split_and!; [done| |done|].
    + split; [by rewrite Hkey|done..].
    + by rewrite <-He.
  - intros err w' [[Hdb _] _]. apply wp_ret, Hno; [|exact Hdb|by right].
    simpl. repeat case_match; simpl; set_solver.
Qed.




(** The claims of a token do not depend on when it is read. *)
Class JWTLaws := {
  parse_stable : forall key t t' raw c c',
    ParseWithClaims key t raw = Some c -> ParseWithClaims key t' raw = Some c' -> c = c';
}.



(** The account of a registration, and the invite it used up. *)
Record joined (salt : string) (b : register_body) (w w1 : World) (r : UserModel) : Prop := {
  jn_name : usernamePattern (rb_Username b) = true;
  jn_password : password_length (rb_Password b) = true;
  jn_done : exists hash i, AccountDomain.GenerateFromPassword salt (rb_Password b) = Some hash /\
    am_Password r = hash /\ am_Account r = rb_Username b /\ am_Role r = "user"%string /\ am_Status r = 1 /\
    registered (rb_Username b) hash (shaHex (rb_Invite b)) (clock (env w)) w w1 i r;
}.

(** C13: a registration creates an account exactly when it uses up an open invite with the code
    that was given, in one commit. With the account, 201 comes with the cookies of its first
    session, and 500 means that the session alone is missing. Every other answer leaves the
    tables as they were. *)
Theorem register_uses_an_invite salt body w :
  wp (register cfg salt body)
    (fun r w' =>
       (rs_Status r ∈ [400; 500] /\ db w' = db w /\ rs_Cookies r = KeepCookies) \/
       exists b u w1, body = Some b /\ joined salt b w w1 u /\
         ((rs_Status r = 500 /\ db w' = db w1 /\ rs_Cookies r = KeepCookies) \/
          (rs_Status r = 201 /\ exists tokens s, rs_Cookies r = SetTokens tokens.1 tokens.2 /\
             session_opened cfg (am_ID u) tokens (clock (env w1)) s (db w1) (db w'))))
    (fun _ _ => False) w.
Proof.
  assert (forall n code w' P, n ∈ [400; 500] -> db w' = db w ->
    (rs_Status (errorJSON n code) ∈ [400; 500] /\ db w' = db w /\ rs_Cookies (errorJSON n code) = KeepCookies) \/ P)
    as Hno by (intros; by left).
  unfold register. destruct body as [b|]; [|apply wp_ret, Hno; [set_solver|done]].
  destruct (usernamePattern (rb_Username b)) eqn:Hn, (password_length (rb_Password b)) eqn:Hp,
    (len (rb_Invite b) <? 20) eqn:Hl; simpl; try (apply wp_ret, Hno; [set_solver|done]).
  destruct (generate salt (rb_Password b)) as [hash|] eqn:Hg; [|apply wp_ret, Hno; [set_solver|done]].
  apply wp_bind, wp_attempt. eapply wp_mono; [apply wp_register_tx| |].
  2: { intros err w' [Hd _]. apply wp_ret, Hno; [set_solver|done]. }
  intros u w1 (i & r & Hreg & -> & _).
  assert (joined salt b w w1 r) as Hj.
  { split; [done..|]. exists hash, i. destruct (rg_user _ _ _ _ _ _ _ _ Hreg) as ((now & ->) & _).
    split_and!; done. }
  simpl. apply wp_bind, wp_attempt. eapply wp_mono; [apply wp_newSession| |].
  - intros [access refresh] w' [(s & Hs) _]. apply wp_ret. right. exists b, r, w1. split_and!; [done..|].
    right. split; [done|]. by exists (access, refresh), s.
  - intros err w' (_ & Hd & _). apply wp_ret. right. exists b, r, w1. split_and!; [done..|]. left. by split_and!.
Qed.

(** C14: a handler of the group [/api/v1/admin] runs only for a principal that is, in the
    database at that moment, an enabled administrator, and that came with a token of a live
    session; whatever the handler is. Otherwise the answer is 401, 403 or 503 and the tables
    are as they were. *)
Theorem admin_needs_admin rq h w :
  (forall p w', wp (h p) (fun _ _ => True) (fun _ _ => False) w') ->
  wp (admin_only cfg rq h)
    (fun r w' => (refusal r /\ db w' = db w) \/
       exists p a w1, identified cfg w rq p /\ account (db w) !! pr_ID p = Some a /\ enabled_admin a /\
         outside w w1 /\ h p w1 = (inr r, w'))
    (fun _ _ => False) w.
Proof.
  intros Hh. apply wp_admin_only; [intros r w' Ho Hr; left; split; [done|apply Ho]|].
  intros p w1 Ho Hp Hr. specialize (Hh p w1). unfold wp in *. destruct (h p w1) as [[e|r] w'] eqn:Hrun; [done|].
  right. destruct (id_account _ _ _ _ Hp) as (a & Ha & Hst & Hrole).
  exists p, a, w1. split_and!; try done. split; [by rewrite Hrole|done].
Qed.

End Handlers.

(** ** Witnesses *)

#[export] Instance plain_jwt_laws : JWTLaws.
Proof.
  split. intros key t t' raw c c'. cbn. unfold read_token.
  destruct (cut_colon raw) as [[k r1]|]; [|done]. simpl. destruct (cut_colon r1) as [[kind r2]|]; [|done]. simpl.
  destruct (cut_colon r2) as [[sid r3]|]; [|done]. simpl. destruct (cut_colon r3) as [[sub r4]|]; [|done]. simpl.
  destruct (cut_colon r4) as [[ex id]|]; [|done]. simpl. repeat case_match; congruence.
Qed.

Lemma accounts_are_lawful_witness : reachable v2 /\ rtc step v2 v3 /\ lawful any_token (db v2) (db v3).
Proof.
  split; [exact v2_reachable|]. split; [exact v2_v3|].
  exact (proj1 (accounts_are_lawful plain_config v2 v3 v2_reachable) v2_v3).
Defined.

Lemma login_opens_a_session_witness :
  reachable v2 /\
  wp (login plain_config (Some ("Ann", "correct horse")%string))
    (fun r w' => rs_Status r = 200 \/ rs_Status r ∈ [400; 401; 403; 503] /\ db w' = db v2)
    (fun _ _ => False) v2.
Proof.
  split; [exact v2_reachable|].
  pose proof (login_opens_a_session plain_config (Some ("Ann", "correct horse")%string) v2 v2_reachable) as H.
  eapply wp_mono; [exact H| |intros e w' []]. intros r w' [[Hs _]|[Hs [Hd _]]]; [left; exact Hs|right; exact (conj Hs Hd)].
Defined.


Lemma admin_needs_admin_witness :
  (forall (p : Principal) w', wp (adminUpdateVideo "1" None) (fun _ _ => True) (fun _ _ => False) w') /\
  wp (admin_only plain_config ann_request (fun p => adminUpdateVideo "1" None))
    (fun r w' => (refusal r /\ db w' = db v3) \/ exists a : UserModel, enabled_admin a)
    (fun _ _ => False) v3.
Proof.
  assert (forall (p : Principal) w', wp (adminUpdateVideo "1" None) (fun _ _ => True) (fun _ _ => False) w') as Hh.
  { intros p w'. exact I. }
  split; [exact Hh|].
  pose proof (admin_needs_admin plain_config ann_request (fun p => adminUpdateVideo "1" None) v3 Hh) as H.
  eapply wp_mono; [exact H| |intros e w' []].
  intros r w' [Hr|(p & a & w1 & _ & _ & Ha & _)]; [left; exact Hr|right; exact (ex_intro _ a Ha)].
Defined.

Lemma register_uses_an_invite_witness :
  wp (register plain_config "salt" (Some ann))
    (fun r w' => (rs_Status r ∈ [400; 500] /\ db w' = db v1) \/
       exists w1 u, joined "salt" ann v1 w1 u /\ (rs_Status r = 500 \/ rs_Status r = 201))
    (fun _ _ => False) v1.
Proof.
  pose proof (register_uses_an_invite plain_config "salt" (Some ann) v1) as H.
  eapply wp_mono; [exact H| |intros e w' []].
  intros r w' [[Hs [Hd _]]|(b & u & w1 & Hb & Hj & Hr)]; [left; exact (conj Hs Hd)|right].
  exists w1, u. injection Hb as <-. split; [exact Hj|].
  destruct Hr as [[Hs _]|[Hs _]]; [left; exact Hs|right; exact Hs].
Defined.

(** * Correctness of publishing, of the outbox and of the video page *)

Section EdgeProperties.
Context `{Collation, !CollationLaws} `{JWT} `{AccountDomain.Bcrypt} `{Unicode}.
Variable cfg : Config.

Lemma reachable_outbox w : reachable w -> outbox_keys (outbox (extension (db w))).
Proof. intros Hi%reachable_ok k r Hr. by apply (ex_outbox _ (in_extension _ Hi)). Qed.

(** ** Publication *)

Lemma nearest_float64_small n : 0 <= n < 2 ^ 53 -> nearest_float64 n = n.
Proof.
  intros Hn. unfold nearest_float64. assert (Z.log2 n < 53).
  { destruct (Z.eq_dec n 0) as [->|]; [done|]. apply Z.log2_lt_pow2; lia. }
  by assert ((Z.log2 n - 52 <=? 0) = true) as -> by lia.
Qed.

(** C16: the transaction that publishes a video is all or nothing. When it succeeds, the tables
    differ by the video under a new id, visible, with counters at zero and the tags of its
    text, by the mark of its upload, and by one pending event that announces exactly this
    video. When it fails, nothing changed. *)
Theorem publish_all_or_nothing p w :
  reachable w ->
  wp (publish_tx p)
    (fun row w' => exists created now m r,
       row = core_video_row p (next_id "video" w) created /\ video (db w) !! vm_ID row = None /\
       tags_added (vm_ID row) (publication_tags p) (video_tags (extension (db w))) m /\
       announces (vm_ID row) (pu_UserID p) r /\ outbox (extension (db w)) !! collate (ob_ID r) = None /\
       (0 <= vm_ID row < 2 ^ 53 -> eventUint (ob_Payload r) "videoId" = vm_ID row) /\
       db w' = published_tables p row now m r (db w) /\ visible (vm_ID row) (db w') = 1)
    (fun _ w' => db w' = db w) w.
Proof.
  intros Hi%reachable_ok. eapply wp_mono; [apply wp_publish_tx, Hi| |by intros e w' [Hd _]].
  intros row w' [(t & Hrow) _ (now & m & r & Ht & Ha & Hn & Hd) _ _ _].
  exists t, now, m, r. split_and!; try done.
  - eapply ids_below_fresh; [apply (InteractionRepo.ck_video_fresh _ (in_counters _ Hi))|].
    rewrite Hrow. simpl. lia.
  - intros Hid. destruct Ha as [_ ->]. unfold eventUint. simpl. by apply nearest_float64_small.
  - rewrite Hd. unfold visible. simpl. rewrite lookup_insert_eq. by rewrite Hrow.
Qed.

(** ** The outbox *)

(** C22: a round of the outbox worker marks rows as published only after it pushed all of them
    and the broker confirmed all of them, and marks exactly those; a round that fails marks
    nothing, so that its rows are pushed again. *)
Theorem outbox_round_marks_confirmed first notices w :
  reachable w ->
  wp (publishOutbox_round first notices)
    (fun n w' => n = len_z (pending_rows (db w)) /\ n <= outboxBatchSize /\ round_done first notices w w' /\
       unsent (db w) ≡ₚ pending_rows (db w) ++ unsent (db w'))
    (fun err w' => db w' = db w /\
       exists k, queue w' = queue w ++ announcements (take k (pending_rows (db w)))) w.
Proof.
  intros Hk%reachable_outbox. eapply wp_mono; [by apply wp_publishOutbox_round| |done].
  intros n w' [-> Hr]. split_and!; [done|rewrite pending_rows_bound; lia|done|].
  destruct Hr as [_ [[Hn Hd]|[_ [now Hb]]]]; [by rewrite Hn, Hd|by eapply batch_unsent].
Qed.

(** C23: when the database answers and the broker confirms, [publishOutbox] drains the outbox:
    after a round for each 128 pending rows, and more if there are more, none is pending and
    each event was pushed exactly once. *)
Theorem outbox_drains rounds first w :
  reachable w -> calm_world w -> len_z (unsent (db w)) <= outboxBatchSize * Z.of_nat rounds ->
  wp (publishOutbox first (working rounds first))
    (fun _ w' => unsent (db w') = [] /\
       exists sent, queue w' = queue w ++ announcements sent /\ sent ≡ₚ unsent (db w))
    (fun _ _ => False) w.
Proof. intros Hk%reachable_outbox Hc Hl. by apply wp_drain. Qed.

(** C24: no event of the outbox is lost: whatever the order in which events are published and
    delivered, copies expire, consumers fail and the world moves on, an event that reached the
    broker was processed by a consumer — it is marked in the database as it is now, and a video
    that was published when the consumer looked has been announced to the services — or a
    message with it is on the queue of events, on the retry queue, or, after its fourth
    attempt, on the dead-letter queue. This holds as long as no consumer waited in vain for a
    confirmation: one that comes after the five seconds is taken for that of the next copy.
    Nothing else is on the dead-letter queue but messages that are no events; no message is
    tried more than four times; and the worker waits between one second and thirty and a
    quarter before it connects again. *)
Theorem events_are_not_lost s :
  bus_reachable s ->
  (bus_late s = false -> forall e, e ∈ bus_published s -> ev_ID e <> ""%string ->
     (is_Some (processed_events (extension (db (bus_world s))) !! collate (ev_ID e)) /\
      exists w w', (e, w, w') ∈ bus_done s /\ processed e w w' /\ queue w' `prefix_of` queue (bus_world s)) \/
     exists m, dl_body m = Some e /\
       (m ∈ messages_of (bus_queues s) "owlet.events" \/ m ∈ messages_of (bus_queues s) "owlet.retry" \/
        m ∈ messages_of (bus_queues s) "owlet.dead" /\ dl_attempt m = 3)) /\
  (forall m, m ∈ messages_of (bus_queues s) "owlet.dead" ->
     dl_body m = None \/ (exists e, dl_body m = Some e /\ ev_ID e = ""%string) \/ dl_attempt m = 3) /\
  (forall m, m ∈ messages_of (bus_queues s) "owlet.events" \/ m ∈ messages_of (bus_queues s) "owlet.retry" ->
     0 <= dl_attempt m <= 3) /\
  (forall sessions, Forall (fun x => 0 <= x.2 < 250 * millisecond) sessions ->
     Forall (fun wait => second <= wait < 30 * second + 250 * millisecond) (runWorker sessions)).
Proof.
  intros [B1 B2 B3 B4 B5]%bus_reachable_ok. split_and!; [|exact B3| |].
  - intros Hl e He Hid. destruct (B4 Hl e He) as [(w & w' & Hd)|(m & Hb & Hm)].
    + left. destruct (B5 _ _ _ Hd) as [Hw [Hmark Hq]].
      pose proof (wp_processEvent e w) as Hpe. unfold wp in Hpe. rewrite Hw in Hpe. destruct Hpe as [Hpe _].
      split; [apply Hmark, Hpe|]. by exists w, w'.
    + right. exists m. split; [done|]. destruct Hm as [Hm|[Hm|Hm]]; [by left|by right; left|right; right].
      split; [done|]. destruct (B3 m Hm) as [Hn|[(e' & He' & Hi)|]]; [congruence|congruence|done].
  - intros m [Hm|Hm]; [apply B1, Hm|]. specialize (B2 m Hm). lia.
  - intros sessions Hs. apply reconnects_bounds; [done|exact Hs].
Qed.

(** ** The page of one video *)

Definition copy_of (id : Z) (v : videoEnvelope) : Prop := vn_Missing v = true \/ vv_ID (vn_Video v) = id.

(** Each copy in the memory of the process is of the video it is kept for. *)
Definition copies_ok (w : World) : Prop :=
  forall id l, Resilience.Memory.entries (local_videos (process w)) !! id = Some l ->
    copy_of id (Resilience.Memory.value l).

(** Computations that leave the tables [d] alone, keep [copies_ok], and answer in [Q]. *)
Definition careful (d : Tables) {A} (Q : A -> Prop) (m : M A) : Prop :=
  maintains (fun w => db w = d /\ copies_ok w) Q m.

Section Careful.
Variable d : Tables.

Lemma careful_ret {A} (Q : A -> Prop) a : Q a -> careful d Q (mret a).
Proof. apply maintains_ret. Qed.

Lemma careful_throw {A} (Q : A -> Prop) e : careful d Q (throw e).
Proof. apply maintains_throw. Qed.

Lemma careful_bind {A B} (P : A -> Prop) (Q : B -> Prop) (m : M A) (f : A -> M B) :
  careful d P m -> (forall a, P a -> careful d Q (f a)) -> careful d Q (m ≫= f).
Proof. apply maintains_bind. Qed.

Lemma careful_attempt {A} (Q : A -> Prop) (m : M A) :
  careful d Q m -> careful d (fun r => match r with inl _ => True | inr a => Q a end) (attempt m).
Proof. apply maintains_attempt. Qed.

(** What does not touch the copies. *)
Definition frugal {A} (m : M A) : Prop :=
  forall w, db (after m w) = db w /\ local_videos (process (after m w)) = local_videos (process w).

Lemma frugal_careful {A} (m : M A) : frugal m -> careful d (fun _ => True) m.
Proof.
  intros Hm w [Hd Hc]. destruct (Hm w) as [Ed El]. unfold wp, after, copies_ok in *.
  destruct (m w) as [[e|a] w']; simpl in *; rewrite El; split_and!; done || congruence.
Qed.

Lemma frugal_bind {A B} (m : M A) (f : A -> M B) : frugal m -> (forall a, frugal (f a)) -> frugal (m ≫= f).
Proof.
  intros Hm Hf w. specialize (Hm w). unfold after, mbind, M_bind in *.
  destruct (m w) as [[e|a] w']; [done|]. destruct Hm as [Ed El], (Hf a w') as [Ed' El'].
  unfold after in *. simpl in *. split; congruence.
Qed.

Lemma frugal_attempt {A} (m : M A) : frugal m -> frugal (attempt m).
Proof. intros Hm w. specialize (Hm w). unfold after, attempt in *. by destruct (m w). Qed.

Lemma frugal_call : frugal call.
Proof. intros w. unfold after, call. by destruct (faults (env w)) as [|[t|] fs]. Qed.

Lemma frugal_dbSlot : frugal dbSlot.
Proof. intros w. unfold after, dbSlot, map_error, call. by destruct (faults (env w)) as [|[t|] fs]. Qed.

Lemma frugal_ret {A} (a : A) : frugal (mret a).
Proof. by intros w. Qed.

Lemma frugal_request {A} (f : Time -> Redis -> (error + A) * Redis) : frugal (redis_request f).
Proof.
  unfold redis_request. apply frugal_bind; [by intros w|]. intros now. apply frugal_bind; [apply frugal_call|].
  intros _. apply frugal_bind; [intros w; unfold after, redis_step; by destruct (f now (redis w))|].
  intros a. apply frugal_bind; [apply frugal_call|]. intros _. apply frugal_ret.
Qed.

Lemma frugal_withRedis {A} (f : Time -> Redis -> (error + A) * Redis) : frugal (withRedis (redis_request f)).
Proof.
  unfold withRedis. apply frugal_bind; [by intros w|]. intros now.
  apply frugal_bind; [intros w; unfold after, breaker_allow; by destruct (Resilience.Breaker.allow _ _)|].
  intros ok. destruct (negb ok); [apply frugal_ret|].
  apply frugal_bind; [apply frugal_attempt, frugal_request|]. intros r. apply frugal_bind; [by intros w|].
  intros t. apply frugal_bind; [by intros w|]. intros _. apply frugal_ret.
Qed.

Lemma careful_query {A} (f : Tables -> A) : careful d (fun a => a = f d) (query f).
Proof. intros w [Hd Hc]. apply wp_query; [|done]. intros e. by rewrite Hd. Qed.

Lemma careful_take_row {A} (f : Tables -> option A) : careful d (fun a => f d = Some a) (take_row f).
Proof. intros w [Hd Hc]. apply wp_take_row; [|done..]. intros a e Hf. by rewrite <-Hd. Qed.

(** ** The copies *)

Lemma careful_videos_get id stale :
  careful d (fun v => forall x, v = Some x -> copy_of id x) (videos_get id stale).
Proof.
  unfold videos_get. eapply careful_bind; [apply frugal_careful; by intros w|]. intros t1 _.
  eapply careful_bind; [apply frugal_careful; by intros w|]. intros t2 _ w [Hd Hc].
  unfold wp, on_videos. unfold Resilience.Memory.get.
  destruct (Resilience.Memory.entries _ !! id) as [l|] eqn:Hl; [|by split_and!].
  assert (forall x, Some (Resilience.Memory.value l) = Some x -> copy_of id x) as Hx.
  { intros x [= <-]. by apply Hc. }
  destruct (time_Before _ _); [by split_and!|]. destruct (time_After _ _); [|by split_and!].
  split_and!; [done| |done]. intros j k. simpl. intros [_ Hk]%lookup_delete_Some. by apply Hc.
Qed.

Lemma careful_videos_put id v generation : copy_of id v -> careful d (fun _ => True) (videos_put id v generation).
Proof.
  intros Hv. unfold videos_put. eapply careful_bind; [apply frugal_careful; by intros w|]. intros now _ w [Hd Hc].
  unfold wp, on_videos. split_and!; [done| |done]. unfold copies_ok. simpl.
  unfold Resilience.Memory.put. destruct (negb _); [done|]. unfold Resilience.Memory.trim. simpl.
  assert (forall j k, <[id:=Resilience.Memory.mkLocal v (now + second)
    (if vn_Missing v then now + second else now + minute)]> (Resilience.Memory.entries (local_videos (process w))) !! j = Some k ->
    copy_of j (Resilience.Memory.value k)) as Hins.
  { intros j k [[<- <-]|[_ Hk]]%lookup_insert_Some; [done|by apply Hc]. }
  intros j k. destruct (_ <? _)%nat; [|by apply Hins]. destruct (last _); [|by apply Hins].
  simpl. intros [_ Hk]%lookup_delete_Some. by apply Hins.
Qed.

Lemma careful_readVideoCache id :
  careful d (fun r => forall v, r = inr (Some v) -> copy_of id v) (readVideoCache id).
Proof.
  unfold readVideoCache. destruct (videoCacheKeys id) as [key lock].
  eapply careful_bind; [apply frugal_careful, frugal_withRedis|]. intros raw _. apply careful_ret.
  intros v. destruct raw as [err|raw]; [done|]. intros [= Hv].
  apply bind_Some in Hv as (x & _ & Hx). unfold copy_of.
  destruct (vn_Missing x) eqn:Hm, (Z.eqb_spec (vv_ID (vn_Video x)) id); simpl in Hx; try done;
    injection Hx as <-; auto.
Qed.

Definition right_copy (id : Z) (r : videoResult) : Prop := copy_of id (vr_Value r).

Lemma careful_found id v g : copy_of id v -> careful d (right_copy id) (found id v g).
Proof.
  intros Hv. unfold found. eapply careful_bind; [by apply careful_videos_put|]. intros _ _. by apply careful_ret.
Qed.

Lemma careful_stale id : careful d (fun r => forall x, r = Some x -> right_copy id x) (stale_copy id).
Proof.
  unfold stale_copy. eapply careful_bind; [apply careful_videos_get|]. intros [v|] Hv; apply careful_ret; [|done].
  intros x. destruct (vn_Missing v); [done|]. intros [= <-]. by apply Hv.
Qed.

Lemma careful_or_stale id err : careful d (right_copy id) (or_stale id err).
Proof.
  unfold or_stale. eapply careful_bind; [apply careful_stale|]. intros [r|] Hr; [|apply careful_throw].
  apply careful_ret. by apply Hr.
Qed.

Lemma careful_store id g j token v : copy_of id v -> careful d (right_copy id) (store_result id g j token v).
Proof.
  intros Hv. unfold store_result. destruct (videoCacheKeys id) as [key lock].
  eapply (careful_bind (fun _ => True)).
  { destruct token as [token|]; [|by apply careful_ret].
    eapply careful_bind; [apply frugal_careful, frugal_withRedis|]. intros r _. by apply careful_ret. }
  intros ok _. eapply (careful_bind (fun _ => True)).
  { destruct ok; [by apply careful_videos_put|by apply careful_ret]. }
  intros _ _. by apply careful_ret.
Qed.

Lemma careful_load_database id g j token :
  (forall v, video_by_id id d = Some v -> vv_ID v = id) -> careful d (right_copy id) (load_database id g j token).
Proof.
  intros Hid. unfold load_database. eapply careful_bind; [apply careful_attempt, frugal_careful, frugal_dbSlot|].
  intros [err|[]] _; [apply careful_or_stale|].
  eapply careful_bind; [apply careful_attempt, careful_take_row|]. intros [err|v] Hv.
  - destruct (errors_Is err ERecordNotFound); [|apply careful_or_stale]. apply careful_store. by left.
  - apply careful_store. right. exact (Hid v Hv).
Qed.

Lemma careful_wait fuel id g deadline :
  careful d (fun r => forall x, r = Some x -> right_copy id x) (wait_cache fuel id g deadline).
Proof.
  induction fuel as [|fuel IH]; simpl; [apply careful_throw|].
  eapply careful_bind; [apply frugal_careful; by intros w|]. intros _ _.
  eapply careful_bind; [apply frugal_careful; by intros w|]. intros now _.
  destruct (deadline <? now); [apply careful_throw|].
  eapply careful_bind; [apply careful_readVideoCache|]. intros [err|[v|]] Hv; [by apply careful_ret| |exact IH].
  eapply careful_bind; [by apply careful_found, Hv|]. intros r Hr. apply careful_ret. by intros x [= <-].
Qed.

Lemma careful_defer {A} (Q : A -> Prop) (m : M A) last :
  careful d Q m -> careful d (fun _ => True) last -> careful d Q (defer m last).
Proof.
  intros Hm Hl. unfold defer. eapply careful_bind; [by apply careful_attempt|]. intros r Hr.
  eapply careful_bind; [by apply careful_attempt|]. intros _ _.
  destruct r; [apply careful_throw|by apply careful_ret].
Qed.

Lemma careful_load_missed id g j ok :
  (forall v, video_by_id id d = Some v -> vv_ID v = id) -> careful d (right_copy id) (load_missed cfg id g j ok).
Proof.
  intros Hid. unfold load_missed. destruct (videoCacheKeys id) as [key lock].
  eapply careful_bind; [apply frugal_careful; by intros w|]. intros token _.
  eapply (careful_bind (fun _ => True)).
  { destruct ok; [apply frugal_careful, frugal_withRedis|by apply careful_ret]. }
  intros [err|[|]] _; [by apply careful_load_database| |].
  - apply careful_defer.
    + unfold load_locked. eapply careful_bind; [apply careful_readVideoCache|].
      intros [err|[v|]] Hv; [by apply careful_load_database|by apply careful_found, Hv|by apply careful_load_database].
    + eapply careful_bind; [apply frugal_careful, frugal_withRedis|]. intros _ _. by apply careful_ret.
  - eapply careful_bind; [apply careful_stale|]. intros [r|] Hr; [by apply careful_ret, Hr|].
    eapply careful_bind; [apply frugal_careful; by intros w|]. intros now _.
    eapply careful_bind; [apply careful_wait|]. intros [r|] Hr2; [by apply careful_ret, Hr2|by apply careful_load_database].
Qed.

Lemma careful_detail id j :
  (forall v, video_by_id id d = Some v -> vv_ID v = id) -> careful d (right_copy id) (detail cfg id j).
Proof.
  intros Hid. unfold detail. eapply careful_bind; [apply careful_videos_get|]. intros [v|] Hv; [by apply careful_ret, Hv|].
  eapply careful_bind; [apply frugal_careful; by intros w|]. intros g _.
  eapply careful_bind; [apply frugal_careful, frugal_dbSlot|]. intros _ _. unfold load.
  eapply careful_bind; [apply careful_readVideoCache|].
  intros [err|[x|]] Hx; [by apply careful_load_missed|by apply careful_found, Hx|by apply careful_load_missed].
Qed.
End Careful.

Definition page_answered (param : string) (w : World) (r : Response) : Prop :=
  rs_Status r ∈ [200; 400; 404; 503] /\
  (rs_Status r = 200 -> exists id row v, paramID param = Some id /\ video (db w) !! id = Some row /\
     vm_Status row = 2 /\ rs_Body r = BVideo v /\ vv_ID v = id).

Lemma wp_videoDetail param jitter w :
  integrity w -> copies_ok w ->
  wp (videoDetail cfg param jitter) (fun r w' => db w' = db w /\ copies_ok w' /\ page_answered param w r)
    (fun _ _ => False) w.
Proof.
  intros Hi Hc. unfold page_answered.
  assert (forall r w', db w' = db w -> copies_ok w' -> rs_Status r ∈ [400; 404; 503] ->
    db w' = db w /\ copies_ok w' /\ rs_Status r ∈ [200; 400; 404; 503] /\
    (rs_Status r = 200 -> exists id row v, paramID param = Some id /\ video (db w) !! id = Some row /\
       vm_Status row = 2 /\ rs_Body r = BVideo v /\ vv_ID v = id)) as Hno.
  { intros r w' Hd Hc' Hs. split_and!; [done..|set_solver|]. intros E. rewrite E in Hs. set_solver. }
  unfold videoDetail. destruct (paramID param) as [id|] eqn:Hid; [|apply wp_ret, Hno; [done..|simpl; set_solver]].
  apply wp_bind, wp_attempt, wp_query; [|intros t e; apply wp_ret, Hno; [done..|simpl; set_solver]].
  intros e. destruct (Z.eqb_spec (visible id (db w)) 0) as [Hv|Hv].
  { apply wp_ret, Hno; [done..|simpl; set_solver]. }
  assert (exists row, video (db w) !! id = Some row /\ vm_Status row = 2) as (row & Hrow & Hst).
  { unfold visible in Hv. destruct (video (db w) !! id) as [row|]; [|done]. exists row. split; [done|].
    destruct (Z.eqb_spec (vm_Status row) 2); [done|]. by destruct Hv. }
  apply wp_bind, wp_attempt. eapply wp_mono; [apply (careful_detail (db w) id jitter); [|done]| |].
  { unfold video_by_id. intros v (x & Hx & ->)%fmap_Some. destruct (videos_lookup _ _ _ Hx) as (m & Hm & _ & Hvm).
    simpl. rewrite Hvm. by rewrite (ok_video_id _ (in_video _ Hi) _ _ Hm). }
  - intros r w' ((Hd & Hc') & Hr). destruct (vn_Missing (vr_Value r)) eqn:Hm.
    { apply wp_ret, Hno; [done..|simpl; set_solver]. }
    apply wp_ret. split_and!; [done..|simpl; set_solver|]. intros _.
    exists id, row, (vn_Video (vr_Value r)). split_and!; [done..|].
    destruct Hr as [Hr|Hr]; [congruence|done].
  - intros err w' (Hd & Hc'). apply wp_ret, Hno; [done..|simpl; set_solver].
Qed.

(** A process from its start on, when it has no copies of videos. What is in its memory was put
    there by requests for the page ([videos.put] is called by [cache.go] only); whatever else
    happens, to the tables, to Redis, to the clock, removes copies or leaves them. *)
Inductive page_run : World -> Prop :=
  | page_start w : reachable w -> Resilience.Memory.entries (local_videos (process w)) = ∅ -> page_run w
  | page_request w param jitter : page_run w -> page_run (after (videoDetail cfg param jitter) w)
  | page_other w w' : page_run w -> reachable w' ->
      Resilience.Memory.entries (local_videos (process w')) ⊆ Resilience.Memory.entries (local_videos (process w)) ->
      page_run w'.

Lemma page_run_ok w : page_run w -> reachable w /\ copies_ok w.
Proof.
  induction 1 as [w Hw Hp|w param jitter _ [Hw Hc]|w w' _ [_ Hc] Hw Hsub].
  - split; [done|]. intros id l. by rewrite Hp.
  - split; [eapply steps_reachable; [|exact Hw]; apply plain_steps, videoDetail_keeps|].
    pose proof (wp_videoDetail param jitter w (reachable_ok _ Hw) Hc) as Hpage. unfold wp, after in *.
    destruct (videoDetail cfg param jitter w) as [[e|r] w1]; [done|apply Hpage].
  - split; [done|]. intros id l Hl. eapply Hc, lookup_weaken; [exact Hl|exact Hsub].
Qed.

(** C26: the page of a video, whatever Redis holds, whatever earlier requests for pages left in
    the memory of the process, and whatever fails, answers 200 only with the video that was
    asked for, and only while that video is published; it leaves the tables alone. *)
Theorem videoDetail_shows_published param jitter w :
  page_run w ->
  wp (videoDetail cfg param jitter) (fun r w' => db w' = db w /\ page_answered param w r) (fun _ _ => False) w.
Proof.
  intros [Hw Hc]%page_run_ok. eapply wp_mono; [by apply wp_videoDetail; [apply reachable_ok|]| |done].
  by intros r w' (? & _ & ?).
Qed.

(** ** The administration's search *)

(** What a page of the accounts says: the accounts that the search means, all of them over the
    pages and none twice, the newest first; and how many there are. *)
Definition page_of_users (q status : string) (d : Tables) (items : list adminUser) (total page : Z) : Prop :=
  exists rows, (forall a, a ∈ rows <-> (exists id, account d !! id = Some a) /\ found_user q status a) /\
    StronglySorted (fun a b => am_ID b < am_ID a) rows /\
    total = len_z rows /\ items = page_slice page (admin_user d <$> rows) /\
    forall n, mjoin ((fun i => page_slice (Z.of_nat i + 1) (admin_user d <$> rows)) <$> seq 0 n)
              = take (20 * n) (admin_user d <$> rows).

(** C15: the list of accounts: the answer is 200 with the page asked for, of the accounts whose
    name has the text somewhere as it is, wildcards included, in any spelling that collates
    with it, or whose id is the text, and whose status is the one asked for; the pages put one
    after the other are all of them, ordered, each once, and the total is their number; or the
    answer is an error with one of four texts. Nothing changes. *)
Theorem admin_search_is_literal page q status w :
  reachable w ->
  wp (adminUsers page q status)
    (fun r w' => db w' = db w /\
       match rs_Body r with
       | BAdminUsers items total p size =>
           rs_Status r = 200 /\ size = 20 /\ 1 <= p <= 100000 /\ adminPage page = Some p /\
           page_of_users q status (db w) items total p
       | BError code =>
           (rs_Status r, code) ∈ [(400, "invalid_page"); (400, "invalid_search"); (400, "invalid_status");
                                  (503, "admin_unavailable")]%string
       | _ => False
       end)
    (fun _ _ => False) w.
Proof.
  intros Hi%reachable_ok. unfold adminUsers. destruct (adminPage page) as [p|] eqn:Hp.
  2: { apply wp_ret. split; [done|]. simpl. set_solver. }
  destruct (adminQuery q) as [pattern|] eqn:Hq; [|apply wp_ret; split; [done|simpl; set_solver]].
  case_bool_decide as Hs; [|apply wp_ret; split; [done|simpl; set_solver]]. simpl.
  eapply wp_mono; [apply wp_list_page| |done]. intros r w' [Hd [-> | ->]]; (split; [done|]); [|simpl; set_solver].
  cbn [rs_Status rs_Body JSON]. split; [done|]. split; [done|]. split.
  { unfold adminPage in Hp. destruct (ParseInt _) as [v ok]. repeat case_match; simplify_eq.
    rewrite !orb_false_iff in *. lia. }
  split; [done|]. exists (listed_users pattern q status (db w)). split_and!.
  - intros a. by apply elem_of_listed_users.
  - unfold listed_users. apply by_id_desc_sorted, select_rows_NoDup.
    intros i j a b Ha Hb Hab. pose proof (AccountRepo.ac_id _ (in_accounts _ Hi)) as Hid.
    by rewrite (Hid _ _ Ha), (Hid _ _ Hb).
  - unfold len_z. by rewrite length_fmap.
  - done.
  - intros n. apply pages_join.
Qed.

End EdgeProperties.

(** ** Witnesses *)

Lemma publish_all_or_nothing_witness :
  reachable v3 /\
  wp (publish_tx a_publication) (fun row w' => visible (vm_ID row) (db w') = 1) (fun _ w' => db w' = db v3) v3.
Proof.
  split; [exact v3_reachable|].
  pose proof (publish_all_or_nothing a_publication v3 v3_reachable) as H.
  eapply wp_mono; [exact H| |intros e w' Hd; exact Hd].
  intros row w' (? & ? & ? & ? & _ & _ & _ & _ & _ & _ & _ & Hv). exact Hv.
Defined.

Lemma outbox_round_marks_confirmed_witness :
  reachable v4 /\
  wp (publishOutbox_round 1 [Confirmed true 1]) (fun n w' => n = len_z (pending_rows (db v4)))
    (fun _ w' => db w' = db v4) v4.
Proof.
  split; [exact v4_reachable|].
  pose proof (outbox_round_marks_confirmed 1 [Confirmed true 1] v4 v4_reachable) as H.
  eapply wp_mono; [exact H| |]; [intros n w' [Hn _]; exact Hn|intros e w' [Hd _]; exact Hd].
Defined.

Lemma outbox_drains_witness :
  reachable v4 /\ calm_world v4 /\ len_z (unsent (db v4)) <= outboxBatchSize * Z.of_nat 1 /\
  wp (publishOutbox 1 (working 1 1)) (fun _ w' => unsent (db w') = []) (fun _ _ => False) v4.
Proof.
  assert (len_z (unsent (db v4)) <= outboxBatchSize * Z.of_nat 1) as Hl.
  { unfold unsent. rewrite (proj1 (proj2 v4_calm)). by vm_compute. }
  split; [exact v4_reachable|]. split; [exact (proj1 v4_calm)|]. split; [exact Hl|].
  pose proof (outbox_drains 1 1 v4 v4_reachable (proj1 v4_calm) Hl) as H.
  eapply wp_mono; [exact H| |intros e w' []]. intros _ w' [Hu _]. exact Hu.
Defined.

Lemma v4_page : page_run plain_config v4.
Proof. apply page_start; [exact v4_reachable|exact (proj2 (proj2 v4_calm))]. Qed.

Lemma videoDetail_shows_published_witness :
  page_run plain_config (after (videoDetail plain_config "1" 0) v4) /\
  wp (videoDetail plain_config "1" 0)
    (fun r w' => rs_Status r = 200 /\ exists v, rs_Body r = BVideo v /\ vv_ID v = 1) (fun _ _ => False)
    (after (videoDetail plain_config "1" 0) v4).
Proof.
  pose proof (page_request plain_config v4 "1" 0 v4_page) as Hp. split; [exact Hp|].
  pose proof (videoDetail_shows_published plain_config "1" 0 _ Hp) as H.
  assert (wp (videoDetail plain_config "1" 0) (fun r _ => rs_Status r = 200) (fun _ _ => True)
    (after (videoDetail plain_config "1" 0) v4)) as H200 by by vm_compute.
  eapply wp_mono; [exact (wp_both _ _ _ _ _ _ H H200)| |by intros e w' [? _]].
  intros r w' [(_ & _ & Hr) E]. split; [exact E|]. destruct (Hr E) as (id & row & v & Hid & _ & _ & Hb & Hv).
  exists v. split; [exact Hb|]. vm_compute in Hid. injection Hid as <-. exact Hv.
Defined.

(** An event that is delivered, fails, is copied to the retry queue and comes back. *)
Definition a_like : event := mkEvent "e1" "like" [("videoId", 1)]%string.

Definition bus_sent : Bus := mkBus (sent "owlet.events" "events" (Some a_like) 0 ∅) v4 [a_like] [] false.

Definition v5 : World := (consume (Some a_like) 0 None v4).2.

Definition bus_handled : Bus :=
  mkBus (taken "owlet.events" [] [] (bus_queues bus_sent)) v5 [a_like] [(a_like, v4, v5)] false.

Lemma events_are_not_lost_witness :
  bus_reachable bus_handled /\
  is_Some (processed_events (extension (db v5)) !! collate "e1"%string).
Proof.
  assert (bus_reachable bus_handled) as Hr.
  { apply (bus_next bus_sent); [apply (bus_next (mkBus ∅ v4 [] [] false)); [apply bus_init|apply bus_publish]|].
    apply (bus_consume _ v4 [a_like] [] false [] (mkDelivery (Some a_like) 0 "events") [] None Ack None None v5);
      [reflexivity| |discriminate|left; reflexivity].
    by vm_compute. }
  split; [exact Hr|].
  destruct (proj1 (events_are_not_lost bus_handled Hr) eq_refl a_like) as [[Hm _]|(m & _ & Hm)];
    [left|discriminate|exact Hm|].
  exfalso. change (m ∈ ([] : list delivery) \/ m ∈ ([] : list delivery) \/ m ∈ ([] : list delivery) /\ dl_attempt m = 3) in Hm.
  set_solver.
Defined.

Lemma admin_search_is_literal_witness :
  reachable w10 /\
  wp (adminUsers None "AN%" "1") (fun r w' => db w' = db w10) (fun _ _ => False) w10.
Proof.
  split; [exact w10_reachable|].
  eapply wp_mono; [exact (admin_search_is_literal None "AN%" "1" w10 w10_reachable)| |intros e w' []].
  intros r w' [Hd _]. exact Hd.
Defined.

Definition found_names (q : string) : list string :=
  match adminUsers None q "" w10 with
  | (inr r, _) => match rs_Body r with BAdminUsers items _ _ _ => au_Username <$> items | _ => ["error"%string] end
  | _ => ["error"%string]
  end.

Example searches :
  found_names "N" = ["ann"]%string /\ found_names "" = ["bob"; "ann"]%string /\ found_names "a%n" = [] /\
  found_names "2" = ["bob"]%string.
Proof. vm_compute. done. Qed.
