(* ===== verification/UploadProperties.v ===== *)
(** * What uploads guarantee

    From the chunks that a client sends to the file of the published video: what each route
    stores when it answers 200 or 201, that nothing is lost when it does not, and that in every
    world of a run each published video has its whole file. *)
From S2P Require Import Prelude.
From S2P Require Import GoStd.
From S2P Require Import GoConv.
From S2P Require Import GoHash.
From S2P Require AccountDomain.
From S2P Require Import Errors.
From S2P Require Import Files.
From S2P Require Import Models.
From S2P Require Import Redis.
From S2P Require Import Store.
From S2P Require Import FileOps.
From S2P Require Import RedisClient.
From S2P Require Import Codec.
From S2P Require Import Views.
From S2P Require Import Edge.
From S2P Require Import EdgeRules.
From S2P Require Import PublishHandlers.
From S2P Require Import VideoDetail.
From S2P Require Import Uploads.
From S2P Require Import ExtensionRules.
From S2P Require Import System.
From S2P Require Import Requests.
From S2P Require Import EdgeRequests.
From S2P Require Import UploadRules.
From S2P Require Import UploadFlow.
From S2P Require Import RepoProperties.
From S2P Require Import ServiceExamples.

Section UploadProperties.
Context `{Collation, !CollationLaws} `{Codec} `{JWT} `{AccountDomain.Bcrypt} `{Unicode} `{UUID}.
Variable cfg : Config.

(** C3: in every world that requests lead to, a video that was published with a file has that
    file under the media directory: it is the whole file of a published upload of the author,
    with the length and the MD5 that were declared, and it starts as an MP4 does. *)
Theorem published_videos_have_files w id v :
  media_run cfg w -> video (db w) !! id = Some v -> vm_FilePath v <> ""%string ->
  exists u c,
    disk w !! path_of (media_name cfg (vm_FilePath v)) = Some (File c) /\
    uploads (extension (db w)) !! collate (ul_ID u) = Some u /\ ul_Published u = true /\
    ul_UserID u = vm_AuthorID v /\ vm_Size v = ul_Size u /\
    len c = ul_Size u /\ md5_is c (ul_FileMD5 u) = true /\ is_mp4 c = true.
Proof.
  intros Hw%media_run_ok Hv Hne. destruct (fo_video _ _ _ Hw _ _ Hv Hne) as
    (name & u & c & Hn & Hp & Hf & Hu & Hpub & (Hl & Hm & Hi) & Ha & Hs).
  exists u, c. rewrite Hp, <-video_rel_eq, media_name_path by done. by split_and!.
Qed.

(** C19: [uploadChunk] answers 200 only if the body has exactly the length of chunk [i] of an open
    upload of the user and the announced MD5; then the file of chunk [i] is the body, and every
    other file is as it was. Any other answer leaves every file and every row as it was. *)
Theorem uploadChunk_stores uid id rq w :
  media_ok cfg w ->
  wp (uploadChunk cfg uid id rq)
    (fun r w' => db w' = db w /\
       ((exists u i, r = JSON 200 BOk /\ owned_upload uid id (db w) = Some u /\ ul_Completed u = false /\
           ParseInt (cr_Index rq) = (i, true) /\ 0 <= i < ul_Chunks u /\
           len (cr_Body rq) = expected_size u i /\ md5_is (cr_Body rq) (cr_MD5 rq) = true /\
           disk w' !! path_of (chunk_name (upload_dir cfg u) i) = Some (File (cr_Body rq)) /\
           (forall q n, q <> path_of (chunk_name (upload_dir cfg u) i) -> disk w !! q = Some n -> disk w' !! q = Some n)) \/
        rs_Status r ∈ [400; 404; 409; 410; 500] /\ forall q n, disk w !! q = Some n -> disk w' !! q = Some n))
    (fun _ _ => False) w.
Proof.
  intros Hw. apply (wp_owned cfg); [done| |].
  - intros resp w' Ho Hr. apply wp_ret. split; [apply Ho|]. right. split; [set_solver|]. by rewrite (outside_disk _ _ Ho).
  - intros u w' Ho _ _ Hown Hid. eapply wp_mono; [by apply wp_receive_chunk| |done].
    intros r w2 Hr. destruct Ho as (Edb & _ & _ & _ & Ed). unfold chunk_answer, chunk_stored, nothing_lost in Hr.
    rewrite Edb, Ed in Hr. destruct Hr as [(i & -> & Hc & Hp & Hi & Hl & Hm & Hdb & Hf & Hk)|(Hst & Hdb & Hk)].
    + split; [done|]. left. by exists u, i.
    + split; [done|]. right. split; [set_solver|done].
Qed.

(** C18: [completeUpload] of an upload that is not completed answers 200 only if the chunks, one after the
    other, are a file of the declared length and MD5 that starts as an MP4; then that file is
    stored, and the row is completed with its path and otherwise as it was. Any other answer
    leaves the tables and every file as they were, but for the place of the assembled file. *)
Theorem completeUpload_assembles uid id u w :
  media_ok cfg w -> owned_upload uid id (db w) = Some u -> ul_Completed u = false ->
  wp (completeUpload cfg uid id)
    (fun r w' => media_ok cfg w' /\
       ((exists c, r = JSON 200 (BUpload (ul_ID u)) /\
           chunks_content (upload_dir cfg u) (disk w) (seqZ 0 (ul_Chunks u)) = Some c /\
           len c = ul_Size u /\ md5_is c (ul_FileMD5 u) = true /\ is_mp4 c = true /\
           disk w' !! path_of (stored_name cfg (ul_ID u)) = Some (File c) /\
           db w' = complete_upload (ul_ID u) (stored_name cfg (ul_ID u)) (db w)) \/
        rs_Status r ∈ [400; 404; 409; 410; 500] /\ db w' = db w /\
        forall q n, q <> path_of (stored_name cfg (ul_ID u)) -> disk w !! q = Some n -> disk w' !! q = Some n))
    (fun _ _ => False) w.
Proof.
  intros Hw Hown Hc. apply (wp_owned cfg); [done| |].
  - intros resp w' Ho Hr. apply wp_ret. split; [by eapply (stable_outside cfg); [apply media_stable|exact Hw|]|].
    right. split_and!; [set_solver|apply Ho|]. by rewrite (outside_disk _ _ Ho).
  - intros u' w' Ho Hok Hu Hown' Hid. assert (u' = u) as -> by congruence.
    eapply wp_mono; [apply wp_complete_owned; by split_and!| |done]. intros r w2 [Hok2 Hr]. split; [done|].
    rewrite stored_path by done. destruct Ho as (Edb & _ & _ & _ & Ed). rewrite Ed in Hr. unfold is_completed in Hr.
    rewrite Edb in Hr.
    destruct Hr as [(c & -> & (Hl & Hm & Hi) & Hch & Hdb & Hf)|(Hst & Hdb & Hk)]; [left; exists c|right]; split_and!; try done.
    set_solver.
Qed.

(** C20: what was cut into chunks comes together again: when the chunk files of an upload are the
    parts of a file and [completeUpload] answers 200, the stored file is that file. *)
Theorem upload_comes_together uid id u file w :
  media_ok cfg w -> owned_upload uid id (db w) = Some u -> ul_Completed u = false ->
  0 < ul_Chunks u -> (ul_Chunks u - 1) * chunkSize <= len file ->
  (forall i, 0 <= i < ul_Chunks u ->
     file_at (disk w) (path_of (chunk_name (upload_dir cfg u) i)) = Some (part_of file (ul_Chunks u) i)) ->
  wp (completeUpload cfg uid id)
    (fun r w' => rs_Status r = 200 -> file_at (disk w') (path_of (stored_name cfg (ul_ID u))) = Some file)
    (fun _ _ => False) w.
Proof.
  intros Hw Hown Hc Hpos Hsize Hparts. apply (wp_owned cfg); [done| |].
  - intros resp w' _ Hr. apply wp_ret. intros E. rewrite E in Hr. set_solver.
  - intros u' w' Ho Hok Hu Hown' Hid. assert (u' = u) as -> by congruence.
    eapply wp_mono; [apply wp_complete_owned; by split_and!| |done].
    intros r w2 [_ [(c & _ & _ & Hch & _ & Hf)|(Hst & _)]] E; [|rewrite E in Hst; set_solver].
    rewrite stored_path by done. unfold file_at. rewrite Hf. f_equal. rewrite (outside_disk _ _ Ho) in Hch.
    rewrite (chunks_are_parts _ _ file (ul_Chunks u)) in Hch; [|lia..|done]. injection Hch as <-.
    apply substring_all. unfold len. lia.
Qed.

(** C17: [publishVideo] answers 201 only for a completed upload of the user that is not published, when its
    whole file now has the name of the new video; the tables have that video, its tags, its
    event and the mark of the upload. An answer 500 leaves the tables as they were, with the
    file at its old or at its new place; any other answer changes nothing. *)
Theorem publishVideo_moves_the_file uid b w :
  media_run cfg w -> fresh_name cfg w ->
  wp (publishVideo cfg uid (Some b))
    (fun r w' => media_ok cfg w' /\
       ((exists u c, ready_upload uid (pb_UploadID b) (db w) = Some u /\ whole u c /\
           disk w !! path_of (ul_StoredPath u) = Some (File c) /\
           ((exists row cover now,
               r = JSON 201 (BVideo (hydrateVideo (created_view row))) /\
               row_published (mkPublication uid (TrimSpace (pb_Title b)) (pb_Description b)
                 ("videos/" +:+ mp4 (next_name w))%string cover (ul_Size u) now (ul_ID u) (pb_Title b)) row (db w) (db w') /\
               disk w' !! path_of (media_name cfg (vm_FilePath row)) = Some (File c)) \/
            rs_Status r = 500 /\ db w' = db w /\
              (disk w' !! path_of (ul_StoredPath u) = Some (File c) \/
               disk w' !! path_of (media_name cfg (video_rel (next_name w))) = Some (File c)))) \/
        rs_Status r ∈ [400; 404; 409] /\ db w' = db w /\ disk w' = disk w))
    (fun _ _ => False) w.
Proof.
  intros Hrun Hfresh. pose proof (media_run_ok cfg w Hrun) as Hok.
  assert (extension_ok w) as Hx by (by apply reachable_ok, (media_run_reachable cfg)).
  eapply wp_mono; [by apply wp_publishVideo| |done].
  intros r w' [(b' & u & c & [= <-] & _ & Hready & Hwhole & Hf & Hok' & Hr)|(Hst & Hok' & Hdb & Hd)]; (split; [done|]); [left|by right].
  destruct (ready_lookup _ _ _ _ Hready) as (Hu & _ & Hc & _). destruct (fo_upload _ _ _ Hok _ _ Hu) as [_ Hid].
  pose proof (fo_stored _ _ _ Hok _ _ Hu) as Hstored. unfold stored_whole in Hstored. rewrite Hc in Hstored.
  destruct Hstored as [Hp _]. exists u, c. rewrite Hp, stored_path by done. split_and!; [done..|].
  destruct Hr as [(row & cover & now & -> & Hrow & Hfile)|(Hst & Hdb & Hplace)]; [left|right].
  - exists row, cover, now. split_and!; [done..|]. destruct Hrow as ([t ->] & _). simpl.
    rewrite <-video_rel_eq, media_name_path by apply next_random. done.
  - rewrite media_name_path by apply next_random. done.
Qed.

End UploadProperties.

(** ** Witnesses *)

(** The answer is not one of those that refuse. *)
Ltac refused := match goal with Hst : rs_Status ?r ∈ _, E : rs_Status ?r = _ |- _ => rewrite E in Hst; clear -Hst; exfalso; set_solver end.

Definition clip_upload : UploadModel := mkUploadModel clip_id 1 clip_md5 12 1 false false ""
  (default 0 (ul_CreatedAt <$> uploads (extension (db u1)) !! collate clip_id)).

Lemma u1_upload : owned_upload 1 clip_id (db u1) = Some clip_upload /\ owned_upload 1 clip_id (db u2) = Some clip_upload.
Proof. split; by vm_compute. Qed.

Lemma clip_open : ul_Completed clip_upload = false.
Proof. reflexivity. Qed.

Lemma u2_ok : media_ok plain_config u2.
Proof. exact (media_run_ok _ _ u2_run). Qed.

Lemma clip_parts i : 0 <= i < 1 ->
  file_at (disk u2) (path_of (chunk_name (upload_dir plain_config clip_upload) i)) = Some (part_of clip 1 i).
Proof. intros Hi. assert (i = 0) as -> by lia. by vm_compute. Qed.

Lemma clip_length : (ul_Chunks clip_upload - 1) * chunkSize <= len clip.
Proof. by vm_compute. Qed.

Lemma u3_fresh : fresh_name plain_config u3.
Proof. by vm_compute. Qed.

Lemma published_videos_have_files_witness : exists v,
  video (db u4) !! 1 = Some v /\ vm_FilePath v <> ""%string /\
  exists u, file_at (disk u4) (path_of (media_name plain_config (vm_FilePath v))) <> None /\
    uploads (extension (db u4)) !! collate (ul_ID u) = Some u /\ ul_UserID u = vm_AuthorID v.
Proof.
  assert (is_Some (video (db u4) !! 1)) as [v Hv] by (apply (bool_decide_unpack _); by vm_compute).
  assert (match video (db u4) !! 1 with Some v => String.eqb (vm_FilePath v) "" | None => true end = false) as Hne by by vm_compute.
  rewrite Hv in Hne. apply String.eqb_neq in Hne.
  pose proof (published_videos_have_files plain_config u4 1 v u4_run Hv Hne) as (u & c & Hf & Hu & _ & Ha & _).
  exists v. split_and!; [done..|]. exists u. split_and!; [|done..]. unfold file_at. by rewrite Hf.
Defined.

Lemma uploadChunk_stores_witness :
  wp (uploadChunk plain_config 1 clip_id clip_chunk)
    (fun r w' => rs_Status r = 200 /\ exists u, owned_upload 1 clip_id (db u1) = Some u /\
       file_at (disk w') (path_of (chunk_name (upload_dir plain_config u) 0)) = Some clip) (fun _ _ => False) u1.
Proof.
  assert (wp (uploadChunk plain_config 1 clip_id clip_chunk) (fun r _ => rs_Status r = 200) (fun _ _ => True) u1) as H200 by by vm_compute.
  pose proof (uploadChunk_stores plain_config 1 clip_id clip_chunk u1 (media_run_ok _ _ u1_run)) as H.
  eapply wp_mono; [exact (wp_both _ _ _ _ _ _ H H200)| |by intros e w' [? _]]; clear H H200.
  assert (ParseInt (cr_Index clip_chunk) = (0, true)) as Hi by (vm_cast_no_check (eq_refl (0, true))).
  intros r w' [[_ [(u & i & _ & Hu & _ & Hpi & _ & _ & _ & Hf & _)|[Hst _]]] E].
  2: { by refused. }
  rewrite Hi in Hpi. injection Hpi as <-. clear Hi.
  split; [done|]. exists u. split; [done|]. unfold file_at. by rewrite Hf.
Defined.

Lemma completeUpload_assembles_witness :
  wp (completeUpload plain_config 1 clip_id)
    (fun r w' => rs_Status r = 200 /\ db w' = complete_upload clip_id (stored_name plain_config clip_id) (db u2))
    (fun _ _ => False) u2.
Proof.
  assert (wp (completeUpload plain_config 1 clip_id) (fun r _ => rs_Status r = 200) (fun _ _ => True) u2) as H200 by by vm_compute.
  pose proof (completeUpload_assembles plain_config 1 clip_id clip_upload u2 u2_ok (proj2 u1_upload) clip_open) as H.
  eapply wp_mono; [exact (wp_both _ _ _ _ _ _ H H200)| |by intros e w' [? _]]; clear H H200.
  intros r w' [[_ [(c & _ & _ & _ & _ & _ & _ & Hdb)|[Hst _]]] E]; [by split|by refused].
Defined.

Lemma upload_comes_together_witness :
  wp (completeUpload plain_config 1 clip_id)
    (fun r w' => rs_Status r = 200 /\ file_at (disk w') (path_of (stored_name plain_config clip_id)) = Some clip)
    (fun _ _ => False) u2.
Proof.
  assert (wp (completeUpload plain_config 1 clip_id) (fun r _ => rs_Status r = 200) (fun _ _ => True) u2) as H200 by by vm_compute.
  pose proof (upload_comes_together plain_config 1 clip_id clip_upload clip u2 u2_ok (proj2 u1_upload) clip_open
    eq_refl clip_length clip_parts) as H.
  eapply wp_mono; [exact (wp_both _ _ _ _ _ _ H H200)| |by intros e w' [? _]]; clear H H200. intros r w' [Hf E].
  split; [exact E|exact (Hf E)].
Defined.

Lemma publishVideo_moves_the_file_witness :
  wp (publishVideo plain_config 1 (Some clip_body))
    (fun r w' => rs_Status r = 201 /\ exists row, file_at (disk w') (path_of (media_name plain_config (vm_FilePath row))) <> None /\
       video (db w') !! vm_ID row = Some row) (fun _ _ => False) u3.
Proof.
  assert (wp (publishVideo plain_config 1 (Some clip_body)) (fun r _ => rs_Status r = 201) (fun _ _ => True) u3) as H201 by by vm_compute.
  pose proof (publishVideo_moves_the_file plain_config 1 clip_body u3 u3_run u3_fresh) as H.
  eapply wp_mono; [exact (wp_both _ _ _ _ _ _ H H201)| |by intros e w' [? _]]; clear H H201.
  intros r w' [[_ [(u & c & _ & _ & _ & [(row & cover & now & _ & Hrow & Hf)|[Hst _]])|[Hst _]]] E].
  - split; [done|]. exists row. unfold file_at. rewrite Hf. split; [done|].
    destruct Hrow as (_ & _ & now' & m & ev & _ & _ & _ & ->). simpl. by rewrite lookup_insert_eq.
  - congruence.
  - by refused.
Defined.
