(* ===== verification/ServiceProperties.v ===== *)
(** * What the services guarantee

    The properties of the application layer: what any sequence of requests leaves in the
    database, which errors reach a client, and what the single operations promise. *)
From S2P Require Import Prelude.
From S2P Require Import GoStd.
From S2P Require Import GoConv.
From S2P Require InteractionDomain.
From S2P Require RelationDomain.
From S2P Require VideoDomain.
From S2P Require MessageDomain.
From S2P Require PlaybackDomain.
From S2P Require AccountDomain.
From S2P Require Import FeedDomain.
From S2P Require Import Models.
From S2P Require Import Errors.
From S2P Require Import Redis.
From S2P Require Import Store.
From S2P Require Import Paging.
From S2P Require InteractionRepo.
From S2P Require MessageRepo.
From S2P Require VideoRepo.
From S2P Require PlaybackRepo.
From S2P Require FeedRepo.
From S2P Require RelationRepo.
From S2P Require AccountRepo.
From S2P Require Import System.
From S2P Require Import RepoProperties.
From S2P Require Import Codec.
From S2P Require Import Ports.
From S2P Require MessageService.
From S2P Require InteractionService.
From S2P Require RelationService.
From S2P Require VideoService.
From S2P Require OtherServices.
From S2P Require MessageBroker.
From S2P Require Import Wiring.
From S2P Require Import Requests.
From S2P Require Import Edge.
From S2P Require Import PublishHandlers.
From S2P Require Import EdgeRequests.
From S2P Require Import Uploads.
From S2P Require Import ServiceExamples.

Section ServiceProperties.
Context `{Collation, !CollationLaws} `{Codec} `{AccountDomain.Bcrypt} `{JWT} `{Unicode} `{UUID}.

(** ** All requests *)

(** C27: whatever requests the process serves — to the services or to the handlers of the main
    package — whatever messages its workers handle and whatever commands it runs, in whatever
    order, with whatever failures of the database, of Redis and of the queue: the database
    satisfies every invariant at every moment. *)
Theorem requests_keep_integrity cfg e p f w :
  rtc (any_request cfg) (mkWorld no_tables ∅ no_redis [] e p f) w -> integrity w.
Proof.
  intros Hr%any_requests_steps. apply reachable_ok. eapply steps_reachable; [exact Hr|constructor].
Qed.



(** ** Videos *)

Lemma CreatePublished_found pub w a title desc media cover key row :
  TrimSpace key <> ""%string -> len (TrimSpace key) <= VideoDomain.MaxIdempotencyKeyLength ->
  find_row (VideoRepo.video_key_is a (TrimSpace key)) (video (db w)) = Some row ->
  wp (VideoService.CreatePublished pub a title desc media cover key)
    (fun r w' => r = VideoService.mkVideoCreateResult
                       (VideoRepo.restoreVideo (VideoRepo.videoWithStatSelect (db w) row)) false /\
                 db w' = db w)
    (fun err w' => err = EApp ErrLoadVideoFailed /\ db w' = db w) w.
Proof.
  intros Hk Hlen Hrow. unfold VideoService.CreatePublished. cbv zeta.
  destruct (Z.ltb_spec VideoDomain.MaxIdempotencyKeyLength (len (TrimSpace key))); [lia|].
  destruct (String.eqb_spec (TrimSpace key) ""); [done|].
  apply wp_bind, wp_attempt. eapply wp_mono; [by apply VideoRepo.wp_FindByAuthorAndIdempotencyKey|..].
  - intros v w' [Hdb (row' & Hrow' & ->)]. apply wp_ret. split; [|done].
    rewrite Hrow in Hrow'. by injection Hrow' as <-.
  - intros err w' [Hdb [[_ Hn]|[t ->]]]; [congruence|]. by apply wp_throw.
Qed.

(** Announcing the video leaves the database alone. *)
Lemma publishCreatedVideo_wp pub v (Q : unit -> World -> Prop) E w :
  if_some (fun P => forall ev, keeps_db (PublishVideoPublished P ev)) pub ->
  (forall w', db w' = db w -> Q tt w') -> wp (VideoService.publishCreatedVideo pub v) Q E w.
Proof.
  intros Hpub HQ. unfold VideoService.publishCreatedVideo. destruct pub as [P|]; [|by apply wp_ret, HQ].
  apply wp_bind. unfold VideoService.NewPublishedEvent. destruct (VideoDomain.v_PublishedAt v); [|by apply wp_ret, wp_ret, HQ].
  apply wp_bind, wp_new_event_id. intros id e. apply wp_bind, wp_time_now. intros now e' _ _.
  apply wp_ret, wp_ignore. apply wp_keeps_db; [by apply Hpub|..]; intros; by apply HQ.
Qed.

(** Publishing with an idempotency key is done once: a retry with the same key, whatever
    else it carries, answers the same video, writes nothing and says it created nothing. *)
Theorem CreatePublished_retry pub w a title desc media cover title' desc' media' cover' key :
  reachable w -> if_some (fun P => forall ev, keeps_db (PublishVideoPublished P ev)) pub ->
  TrimSpace key <> ""%string ->
  wp (VideoService.CreatePublished pub a title desc media cover key)
    (fun r w' => wp (VideoService.CreatePublished pub a title' desc' media' cover' key)
       (fun r' w'' => r' = VideoService.mkVideoCreateResult (VideoService.vc_Video r) false /\
                      db w'' = db w')
       (fun err w'' => err = EApp ErrLoadVideoFailed /\ db w'' = db w') w')
    (fun _ w' => db w' = db w) w.
Proof.
  intros Hw Hpub Hk. pose proof (reachable_ok _ Hw) as Hi.
  unfold VideoService.CreatePublished at 1. cbv zeta.
  destruct (Z.ltb_spec VideoDomain.MaxIdempotencyKeyLength (len (TrimSpace key))) as [|Hlen];
    [by apply wp_throw|].
  destruct (String.eqb_spec (TrimSpace key) ""); [done|].
  apply wp_bind, wp_attempt. eapply wp_mono; [by apply VideoRepo.wp_FindByAuthorAndIdempotencyKey|..].
  { intros v w' [Hdb (row & Hrow & ->)]. apply wp_ret. simpl.
    rewrite <-Hdb. apply CreatePublished_found; [done|done|by rewrite Hdb]. }
  intros err w1 [Hdb1 Herr]. destruct (errors_Is err (EVideo VideoDomain.ErrVideoNotFound)); simpl;
    [|by apply wp_throw].
  unfold VideoService.create_new_video. apply wp_bind, wp_time_now. intros now e1 _ _.
  destruct (VideoDomain.NewPublished _ _ _ _ _ _ _) as [err'|v] eqn:Hnew; [by apply wp_throw|].
  pose proof (VideoDomain.NewPublished_fields _ _ _ _ _ _ _ _ Hnew) as (Ha & Hkey & _).
  rewrite TrimSpace_idemp in Hkey.
  apply wp_bind, wp_attempt. eapply wp_mono; [apply VideoRepo.wp_SaveVideo|..].
  - intros r w2 (row & Hs & ->). simpl.
    pose proof (VideoRepo.saved_restored _ _ _ _ _ _ _ _ _ _ _ Hnew Hs) as Hback.
    assert (forall w3, db w3 = db w2 ->
      find_row (VideoRepo.video_key_is a (TrimSpace key)) (video (db w3)) = Some row) as Hfind.
    { intros w3 ->. rewrite <-Ha. by eapply VideoRepo.saved_found. }
    apply wp_bind.
    assert (forall w3, db w3 = db w2 ->
      wp (VideoService.CreatePublished pub a title' desc' media' cover' key)
       (fun r' w'' => r' = VideoService.mkVideoCreateResult (VideoRepo.saved_video v row) false /\
                      db w'' = db w3)
       (fun err w'' => err = EApp ErrLoadVideoFailed /\ db w'' = db w3) w3) as Hagain.
    { intros w3 Hw3. rewrite <-Hback, <-Hw3. apply CreatePublished_found; [done|done|by apply Hfind]. }
    apply (publishCreatedVideo_wp pub _ _ _ _ Hpub). intros w3 Hw3. apply wp_ret. by apply Hagain.
  - intros err' w2 [[Hdb2 _] _]. destruct (_ && _); [|by apply wp_throw; simpl in Hdb2; congruence].
    apply wp_bind, wp_attempt. eapply wp_mono; [by apply VideoRepo.wp_FindByAuthorAndIdempotencyKey|..].
    + intros v' w3 [Hdb3 (row & Hrow & ->)]. apply wp_ret. simpl.
      rewrite <-Hdb3. apply CreatePublished_found; [done|done|by rewrite Hdb3].
    + intros err3 w3 [Hdb3 _]. apply wp_throw. simpl in Hdb2. congruence.
Qed.

(** A deleted video is not found. *)
Lemma deleted_is_gone w v row :
  0 < v -> vm_Status row = VideoDomain.StatusDeleted -> video (db w) !! v = Some row ->
  wp (VideoService.Get v) (fun _ _ => False)
    (fun err _ => err = EVideo VideoDomain.ErrVideoNotFound \/ err = EApp ErrLoadVideoFailed) w.
Proof.
  intros Hv Hst Hrow. unfold VideoService.Get. destruct (Z.leb_spec v 0); [lia|].
  apply wp_bind, wp_attempt. eapply wp_mono; [eapply VideoRepo.wp_FindByID_hidden; [exact Hrow|by rewrite Hst]|done|].
  intros err w' [->|[t ->]]; apply wp_throw; [by left|by right].
Qed.

(** C33: a video is deleted by its author only. Afterwards it is not found any more, and nothing
    else in the database has changed. A refused or failed deletion changes nothing; it is a
    permission error exactly when the video is another author's. *)
Theorem DeleteVideo_by_author w a v :
  reachable w ->
  wp (VideoService.Delete a v)
    (fun _ w' => exists row row', video (db w) !! v = Some row /\ vm_AuthorID row = a /\
       db w' = set_video <[v := row']> (db w) /\ vm_AuthorID row' = a /\
       vm_Status row' = VideoDomain.StatusDeleted /\
       forall w'', db w'' = db w' -> wp (VideoService.Get v) (fun _ _ => False)
         (fun err _ => err = EVideo VideoDomain.ErrVideoNotFound \/ err = EApp ErrLoadVideoFailed) w'')
    (fun err w' => db w' = db w /\
       (err = EVideo VideoDomain.ErrVideoPermissionDenied ->
        exists row, video (db w) !! v = Some row /\ vm_AuthorID row <> a) /\
       (0 < a -> forall row, video (db w) !! v = Some row -> vm_AuthorID row <> a -> 0 < v ->
        err = EVideo VideoDomain.ErrVideoPermissionDenied \/ err = EApp ErrLoadVideoFailed)) w.
Proof.
  intros Hw. pose proof (in_video _ (reachable_ok _ Hw)) as Hi. unfold VideoService.Delete.
  destruct (Z.leb_spec a 0) as [|Ha]; [apply wp_throw; split_and!; [done|done|lia]|].
  destruct (Z.leb_spec v 0) as [|Hv]; [apply wp_throw; split_and!; [done|done|lia]|].
  apply wp_bind, wp_attempt. eapply wp_mono; [apply VideoRepo.wp_FindByIDAnyStatus|..].
  2: { intros err w1 [[Hdb _] [[-> Hn]|[t ->]]]; simpl; apply wp_throw; split_and!; try done.
       - intros _ row Hrow. congruence.
       - intros _ row Hrow. by right. }
  intros vid w1 [[Hdb Hg] (row & Hrow & ->)].
  pose proof (ok_video_id _ Hi _ _ Hrow) as Hid.
  pose proof (VideoRepo.restored_fields (db w) row) as (Hfi & Hfa & Hfs).
  destruct (VideoDomain.DeleteBy _ a) as [err|vid] eqn:Hdel.
  { apply wp_throw. apply VideoDomain.DeleteBy_refuses in Hdel as [-> Hne]; [|done].
    rewrite Hfa in Hne. split_and!; [done|by exists row|]. by left. }
  apply VideoDomain.DeleteBy_deletes in Hdel as (Hst & Hvid & Hauth & _).
  rewrite Hfs. rewrite Hfi, <-Hid in Hvid. rewrite Hfa in Hauth.
  destruct (Z.eqb_spec (vm_Status row) VideoDomain.StatusDeleted) as [He|He].
  - apply wp_ret. exists row, row. split_and!; try done.
    + rewrite Hdb. by rewrite set_video_id.
    + intros w2 Hw2. apply (deleted_is_gone _ _ row); [done|done|by rewrite Hw2, Hdb].
  - apply wp_bind, wp_attempt. eapply wp_mono; [apply VideoRepo.wp_UpdateStatus|..]; rewrite Hvid, Hdb.
    + intros [] w2 [(now & row' & Hrow' & Hdb2) _]. apply wp_ret. rewrite Hst in Hdb2.
      rewrite Hrow in Hrow'. injection Hrow' as <-.
      exists row, (VideoRepo.set_status VideoDomain.StatusDeleted now row). split_and!; try done.
      intros w3 Hw3. eapply deleted_is_gone; [done| |rewrite Hw3, Hdb2; simpl; apply lookup_insert_eq]. done.
    + intros err w2 [[Hdb2 Herr] _]. destruct (errors_Is _ _); apply wp_throw;
        split_and!; try done; intros _ row' Hrow' Hne _; congruence.
Qed.

(** ** The worker behind the asynchronous path *)

(** Who has an active action on what. *)
Definition same_activity (d d' : Tables) : Prop := forall k,
  InteractionRepo.was_active d' k = InteractionRepo.was_active d k.

(** The queue may deliver an event twice: handling it again, whatever its idempotency key,
    leaves everybody's actions and the video's counter as the first time did. *)
Theorem HandleActionChanged_redelivery w event t :
  reachable w -> InteractionDomain.NormalizeActionType (ae_ActionType event) = inr t ->
  let count d := map_count (InteractionRepo.active_action (ae_VideoID event) t) (interaction_action d) in
  wp (InteractionService.HandleActionChanged (Some event))
    (fun _ w1 => wp (InteractionService.HandleActionChanged (Some event))
       (fun _ w2 => same_activity (db w1) (db w2) /\ count (db w2) = count (db w1))
       (fun _ w2 => db w2 = db w1) w1)
    (fun _ w1 => db w1 = db w) w.
Proof.
  intros Hw HT count. pose proof (reachable_ok _ Hw) as Hi.
  pose proof (InteractionDomain.NormalizeActionType_cases _ _ HT) as Ht.
  unfold InteractionService.HandleActionChanged. apply wp_bind.
  eapply wp_mono; [apply wp_reachable; [exact Hw|apply step_plain, step_SetAction|]|..].
  { apply InteractionRepo.wp_SetAction; [apply Hi|exact HT]. }
  2: { by intros err w1 [[[? _] _] _]. }
  intros [[a n] delta] w1 [[Hspec _] Hw1]. pose proof (reachable_ok _ Hw1) as Hi1.
  apply wp_ret, wp_bind.
  eapply wp_mono; [apply wp_reachable; [exact Hw1|apply step_plain, step_SetAction|]|..].
  { apply InteractionRepo.wp_SetAction; [apply Hi1|exact HT]. }
  2: { by intros err w2 [[[? _] _] _]. }
  intros [[a2 n2] delta2] w2 [[Hspec2 _] Hi2%reachable_ok]. apply wp_ret. simpl in *.
  destruct (decide (TrimSpace (ae_IdempotencyKey event) = ""%string)) as [Hkey|Hkey].
  - rewrite Hkey in *. eapply InteractionRepo.set_action_redo; [apply Hi|apply Hi1|apply Hi2|exact Ht|..]; done.
  - eapply InteractionRepo.set_action_again in Hspec2 as (_ & _ & _ & Hdb);
      [by rewrite Hdb|exact Hkey|apply TrimSpace_trimmed|exact Hspec].
Qed.

(** ** Notifications *)

Definition is_id (z : Z) : Prop := 0 < z < 2 ^ 63.

(** Facts about string literals, by computation. *)
Lemma literal_visible s : forallb (fun b => (33 <=? b) && (b <=? 126)) (string_bytes s) = true -> visible s.
Proof.
  unfold visible. induction s as [|c s IH]; [done|]. simpl. intros [Hc Hs]%andb_true_iff.
  split; [unfold visible_byte; lia|by apply IH].
Qed.

Lemma literal_fits s n :
  bool_decide (trimmed s) && (0 <? len s) && (len s <=? n) = true -> trimmed s /\ 0 < len s <= n.
Proof. intros [[?%bool_decide_eq_true ?]%andb_true_iff ?]%andb_true_iff. split; [done|lia]. Qed.

Lemma event_id_fits p a b :
  visible p -> len p <= 20 -> is_id a -> is_id b ->
  trimmed (p +:+ fmt_d a +:+ ":" +:+ fmt_d b) /\
  len (p +:+ fmt_d a +:+ ":" +:+ fmt_d b) <= MessageDomain.MaxEventIDLength.
Proof.
  intros Hp Hl Ha%fmt_d_len Hb%fmt_d_len. split.
  - apply visible_trimmed. unfold visible. rewrite !string_forall_app.
    split_and!; [done|apply fmt_d_visible|split; [split; by vm_compute|done]|apply fmt_d_visible].
  - rewrite !len_append. change (len ":") with 1. unfold MessageDomain.MaxEventIDLength. lia.
Qed.

Lemma comment_event_id_fits id :
  is_id id -> trimmed (InteractionService.comment_event_id id) /\
  len (InteractionService.comment_event_id id) <= MessageDomain.MaxEventIDLength.
Proof.
  intros Hid%fmt_d_len. unfold InteractionService.comment_event_id. split.
  - apply visible_trimmed. unfold visible. rewrite !string_forall_app.
    split; [repeat (split; [split; by vm_compute|]); done|apply fmt_d_visible].
  - rewrite !len_append. change (len "interaction:comment:") with 20.
    unfold MessageDomain.MaxEventIDLength. lia.
Qed.

(** The notification of a like, a comment or a follow is always a valid message: whoever
    caused it and whatever the ids are, its event id fits the column and the text of a valid
    comment fits the content. *)
Theorem notifications_accepted author v u id content :
  is_id author -> is_id v -> is_id u -> is_id id ->
  trimmed content -> 0 < len content <= InteractionDomain.MaxCommentContentLength ->
  (exists m, MessageDomain.NewMessage author MessageDomain.TypeLike "收到点赞" "点赞了你的视频"
               (InteractionService.like_event_id v u) = inr m /\
             MessageDomain.m_EventID m = InteractionService.like_event_id v u) /\
  (exists m, MessageDomain.NewMessage author MessageDomain.TypeFollow "新增关注" "关注了你"
               (RelationService.follow_event_id author u) = inr m /\
             MessageDomain.m_EventID m = RelationService.follow_event_id author u) /\
  (exists m, MessageDomain.NewMessage author MessageDomain.TypeComment "收到评论" content
               (InteractionService.comment_event_id id) = inr m /\
             MessageDomain.m_EventID m = InteractionService.comment_event_id id /\
             MessageDomain.m_Content m = content).
Proof.
  intros Ha Hv Hu Hid Hct Hcl. destruct (comment_event_id_fits id Hid) as [Hce1 Hce2].
  destruct (event_id_fits "interaction:like:" v u) as [Hle1 Hle2]; [by apply literal_visible|done|done|done|].
  destruct (event_id_fits "relation:follow:" author u) as [Hfe1 Hfe2]; [by apply literal_visible|done|done|done|].
  split_and!.
  - destruct (literal_fits "收到点赞" MessageDomain.MaxTitleLength eq_refl) as [Ht1 Ht2].
    destruct (literal_fits "点赞了你的视频" MessageDomain.MaxContentLength eq_refl) as [Hc1 Hc2].
    destruct (MessageDomain.NewMessage_accepts author MessageDomain.TypeLike _ _ _
      (proj1 Ha) eq_refl Ht1 Ht2 Hc1 Hc2 Hle1 Hle2) as (m & Hm & _ & He & _). by exists m.
  - destruct (literal_fits "新增关注" MessageDomain.MaxTitleLength eq_refl) as [Ht1 Ht2].
    destruct (literal_fits "关注了你" MessageDomain.MaxContentLength eq_refl) as [Hc1 Hc2].
    destruct (MessageDomain.NewMessage_accepts author MessageDomain.TypeFollow _ _ _
      (proj1 Ha) eq_refl Ht1 Ht2 Hc1 Hc2 Hfe1 Hfe2) as (m & Hm & _ & He & _). by exists m.
  - destruct (literal_fits "收到评论" MessageDomain.MaxTitleLength eq_refl) as [Ht1 Ht2].
    assert (0 < len content <= MessageDomain.MaxContentLength) as Hcl'.
    { unfold InteractionDomain.MaxCommentContentLength, MessageDomain.MaxContentLength in *. lia. }
    destruct (MessageDomain.NewMessage_accepts author MessageDomain.TypeComment _ _ _
      (proj1 Ha) eq_refl Ht1 Ht2 Hct Hcl' Hce1 Hce2) as (m & Hm & _ & He & Hc). by exists m.
Qed.

(** The event id of a notification tells what caused it: the ids of two likes, follows or
    comments are the same only for the same like, follow or comment, and the ids of different
    kinds differ. So removing duplicates by event id never drops another event's message. *)
Theorem event_ids_identify v u v' u' id id' :
  (InteractionService.like_event_id v u = InteractionService.like_event_id v' u' -> v = v' /\ u = u') /\
  (RelationService.follow_event_id v u = RelationService.follow_event_id v' u' -> v = v' /\ u = u') /\
  (InteractionService.comment_event_id id = InteractionService.comment_event_id id' -> id = id') /\
  InteractionService.like_event_id v u <> InteractionService.comment_event_id id /\
  InteractionService.like_event_id v u <> RelationService.follow_event_id v' u' /\
  InteractionService.comment_event_id id <> RelationService.follow_event_id v' u'.
Proof.
  assert (forall p a b a' b', p +:+ fmt_d a +:+ ":" +:+ fmt_d b = p +:+ fmt_d a' +:+ ":" +:+ fmt_d b' ->
    a = a' /\ b = b') as Hpair.
  { intros p a b a' b' Heq%(inj (String.app p)).
    apply colon_split in Heq as [->%fmt_d_inj ->%fmt_d_inj]; [done|apply fmt_d_no_colon..]. }
  split_and!; try apply Hpair; try done.
  by intros ->%(inj (String.app _))%fmt_d_inj.
Qed.

(** ** Lists *)

(** The comments a page shows to the client. *)
Definition shown_comments (d : Tables) (page : list CommentModel) : list InteractionDomain.Comment :=
  InteractionRepo.restoreComment <$> (InteractionRepo.commentWithUserSelect d <$> page).

(** Creation times and ids that a cursor can carry. *)
Definition cursor_range (w : World) : Prop := forall k c, interaction_comment (db w) !! k = Some c ->
  0 < cm_CreatedAt c /\ rfc3339_range (cm_CreatedAt c) /\ is_id (cm_ID c).

Lemma wp_ListComments_page w v cursor pos limit :
  0 < v -> InteractionService.parseCommentCursor cursor = inr pos ->
  let n := InteractionService.normalizeCommentLimit limit in
  wp (InteractionService.ListComments v cursor limit)
    (fun r w' => db w' = db w /\
       InteractionService.cl_Items r = shown_comments (db w) (InteractionRepo.comment_page v pos n (db w)) /\
       (InteractionService.cl_HasMore r = true -> exists c,
          last (InteractionRepo.comment_page v pos n (db w)) = Some c /\
          InteractionService.cl_NextCursor r = InteractionService.encodeCommentCursor
            (Some (InteractionDomain.mkCommentCursor (cm_CreatedAt c) (cm_ID c)))) /\
       (InteractionService.cl_HasMore r = false ->
          InteractionService.cl_Items r = shown_comments (db w) (InteractionRepo.comment_page v pos (-1) (db w))))
    (fun err w' => err = EApp ErrLoadInteractionFailed /\ db w' = db w) w.
Proof.
  intros Hv Hpos n. unfold InteractionService.ListComments. destruct (Z.leb_spec v 0); [lia|].
  rewrite Hpos. fold n.
  assert (0 < n) as Hn by (apply (normalize_limit_bounds 20 100); done).
  apply wp_bind, wp_attempt. unfold InteractionRepo.ListComments.
  apply wp_bind, wp_query; [|intros t e; by apply wp_throw]. intros e. apply wp_ret.
  unfold shown_comments, InteractionRepo.comment_page. rewrite <-!list_fmap_compose.
  set (cur := (fun c => _) <$> pos). set (rows := select_rows _ _).
  match goal with |- context [page_of n (?f <$> _)] =>
    pose proof (page_of_query InteractionRepo.comment_pos f cur n rows Hn) as Hpage end.
  destruct (page_of n _) as [items more]. destruct Hpage as (-> & Hmore & Hless).
  apply wp_ret. simpl. split_and!; [done|done| |exact Hless].
  intros Hm. apply Hmore in Hm. destruct (last (sql_page _ cur n rows)) as [c|] eqn:Hlast.
  - exists c. split; [done|]. rewrite fmap_last, Hlast. simpl.
    unfold InteractionRepo.commentWithUserSelect. by destruct (account (db w) !! cm_UserID c).
  - by apply last_None in Hlast.
Qed.

Lemma comment_cursor_roundtrip `{!CodecLaws} t id :
  0 < t -> rfc3339_range t -> is_id id ->
  let c := Some (InteractionDomain.mkCommentCursor t id) in
  InteractionService.parseCommentCursor (InteractionService.encodeCommentCursor c) = inr c.
Proof.
  intros Ht Hr Hid c. unfold InteractionService.parseCommentCursor, InteractionService.encodeCommentCursor, c.
  change ((fun c => (InteractionDomain.cc_CreatedAt c, InteractionDomain.cc_CommentID c)) <$>
          Some (InteractionDomain.mkCommentCursor t id)) with (Some (t, id)).
  by rewrite parse_encode_cursor.
Qed.

(** C34: the comment list can be walked to its end: a page shows the comments from its position
    on, newest first; when it says there are more, its cursor is accepted, and the page read
    with it continues where this one ended, without a gap or a repetition; when it says there
    are none, nothing is left out. *)
Theorem comment_list_continues `{!CodecLaws} w v cursor pos limit limit' :
  reachable w -> cursor_range w -> 0 < v -> InteractionService.parseCommentCursor cursor = inr pos ->
  wp (InteractionService.ListComments v cursor limit)
    (fun r w' => db w' = db w /\
       let page n := shown_comments (db w) (InteractionRepo.comment_page v pos n (db w)) in
       let n := InteractionService.normalizeCommentLimit limit in
       InteractionService.cl_Items r = page n /\
       (InteractionService.cl_HasMore r = false -> InteractionService.cl_Items r = page (-1)) /\
       (InteractionService.cl_HasMore r = true -> forall w1, db w1 = db w ->
          wp (InteractionService.ListComments v (InteractionService.cl_NextCursor r) limit')
            (fun r' _ => InteractionService.cl_Items r ++ InteractionService.cl_Items r'
                         = page (n + InteractionService.normalizeCommentLimit limit'))
            (fun err _ => err = EApp ErrLoadInteractionFailed) w1))
    (fun err w' => err = EApp ErrLoadInteractionFailed /\ db w' = db w) w.
Proof.
  intros Hw Hrange Hv Hpos. pose proof (reachable_ok _ Hw) as Hi.
  pose proof (InteractionRepo.comment_positions w v (in_counters _ Hi)) as Hnd.
  eapply wp_mono; [by apply wp_ListComments_page| |done].
  intros r w' (Hdb & Hitems & Hmore & Hless). split; [done|]. cbv zeta. split; [done|]. split; [done|].
  intros Hm w1 Hw1. destruct (Hmore Hm) as (c & Hlast & ->).
  assert (c ∈ InteractionRepo.comment_page v pos (InteractionService.normalizeCommentLimit limit) (db w))
    as Hin by by apply last_Some_elem_of.
  apply elem_of_sql_page in Hin as [(k & Hc & _)%elem_of_select_rows _].
  destruct (Hrange _ _ Hc) as (Ht & Hr & Hid).
  eapply wp_mono; [apply (wp_ListComments_page _ _ _ (Some (InteractionDomain.mkCommentCursor (cm_CreatedAt c) (cm_ID c))));
    [done|]| |by intros err w2 [He _]].
  { by apply comment_cursor_roundtrip. }
  intros r' w2 (_ & Hitems' & _). rewrite Hitems, Hitems', Hw1. unfold shown_comments.
  rewrite <-!fmap_app. do 2 f_equal.
  apply (sql_page_app InteractionRepo.comment_pos); try done;
    apply Z.lt_le_incl, (normalize_limit_bounds 20 100); done.
Qed.

(** ** Playback configuration *)

(** The stored configuration a client gets: the one of its platform and network, or the
    platform's default one. *)
Definition config_for (p n : string) (d : Tables) : option ConfigModel :=
  match find_row (PlaybackRepo.config_is p n) (playback_config d) with
  | Some c => Some c
  | None => if String.eqb n PlaybackDomain.NetworkDefault then None
            else find_row (PlaybackRepo.config_is p PlaybackDomain.NetworkDefault) (playback_config d)
  end.

Lemma normalized_config row p n :
  let c := OtherServices.PlaybackService.normalizeConfig (PlaybackRepo.restoreConfig row) p n in
  1 <= PlaybackDomain.cf_PreloadCount c <= PlaybackDomain.MaxPreloadLimit /\
  0 < PlaybackDomain.cf_BufferMs c /\ PlaybackDomain.cf_ID c = fgm_ID row /\
  (1 <= fgm_PreloadCount row <= PlaybackDomain.MaxPreloadLimit ->
   PlaybackDomain.cf_PreloadCount c = fgm_PreloadCount row) /\
  (0 < fgm_BufferMs row -> PlaybackDomain.cf_BufferMs c = fgm_BufferMs row).
Proof.
  unfold OtherServices.PlaybackService.normalizeConfig, PlaybackDomain.MaxPreloadLimit,
    PlaybackDomain.DefaultPreloadCount, PlaybackDomain.DefaultBufferMs. simpl.
  repeat case_match; split_and!; try done; lia.
Qed.

(** A client always gets a usable configuration, whatever the table holds: 1 to 10 videos to
    preload and a positive buffer. It is the stored one of its platform and network, else the
    platform's default one, else the built-in one; only a value out of range is replaced. *)
Theorem GetConfig_usable w platform network :
  wp (OtherServices.PlaybackService.GetConfig platform network)
    (fun c w' => db w' = db w /\
       1 <= PlaybackDomain.cf_PreloadCount c <= PlaybackDomain.MaxPreloadLimit /\
       0 < PlaybackDomain.cf_BufferMs c /\
       match config_for (PlaybackDomain.NormalizePlatform platform)
               (PlaybackDomain.NormalizeNetworkType network) (db w) with
       | Some row => PlaybackDomain.cf_ID c = fgm_ID row /\
           (1 <= fgm_PreloadCount row <= PlaybackDomain.MaxPreloadLimit ->
            PlaybackDomain.cf_PreloadCount c = fgm_PreloadCount row) /\
           (0 < fgm_BufferMs row -> PlaybackDomain.cf_BufferMs c = fgm_BufferMs row)
       | None => PlaybackDomain.cf_ID c = 0 /\
           PlaybackDomain.cf_PreloadCount c = PlaybackDomain.DefaultPreloadCount /\
           PlaybackDomain.cf_BufferMs c = PlaybackDomain.DefaultBufferMs
       end)
    (fun err w' => db w' = db w /\
       (err = EPlayback PlaybackDomain.ErrInvalidPlatform /\
        PlaybackDomain.MaxPlatformLength < len (PlaybackDomain.NormalizePlatform platform) \/
        err = EPlayback PlaybackDomain.ErrInvalidNetworkType /\
        PlaybackDomain.MaxNetworkTypeLength < len (PlaybackDomain.NormalizeNetworkType network) \/
        err = EApp ErrLoadPlaybackFailed)) w.
Proof.
  unfold OtherServices.PlaybackService.GetConfig, config_for. cbv zeta.
  set (p := PlaybackDomain.NormalizePlatform platform).
  set (n := PlaybackDomain.NormalizeNetworkType network).
  destruct (Z.ltb_spec PlaybackDomain.MaxPlatformLength (len p)); [apply wp_throw; auto|].
  destruct (Z.ltb_spec PlaybackDomain.MaxNetworkTypeLength (len n)); [apply wp_throw; auto|].
  apply wp_bind, wp_map_error. eapply wp_mono; [apply PlaybackRepo.wp_FindConfig| |by auto].
  intros c w1 [Hdb1 ->].
  destruct (find_row (PlaybackRepo.config_is p n) _) as [row|] eqn:Hrow; simpl.
  { apply wp_bind, wp_ret, wp_bind, wp_ret, wp_ret.
    pose proof (normalized_config row p n) as (Hpre & Hbuf & Hrid & Hp & Hb).
    split; [done|]. by split; [|split; [|split]]. }
  apply wp_bind. destruct (String.eqb n PlaybackDomain.NetworkDefault); simpl.
  { apply wp_ret, wp_bind, wp_bind, wp_time_now. intros now e _ _. by apply wp_ret, wp_ret. }
  apply wp_map_error. eapply wp_mono; [apply PlaybackRepo.wp_FindConfig| |intros; split; [congruence|auto]].
  intros c w2 [Hdb2 ->]. rewrite Hdb1 in *.
  destruct (find_row (PlaybackRepo.config_is p PlaybackDomain.NetworkDefault) _) as [row|] eqn:Hrow2; simpl.
  - apply wp_bind, wp_ret, wp_ret.
    pose proof (normalized_config row p n) as (Hpre & Hbuf & Hrid & Hp & Hb).
    split; [done|]. by split; [|split; [|split]].
  - apply wp_bind, wp_bind, wp_time_now. intros now e _ _. by apply wp_ret, wp_ret.
Qed.

(** ** The broker *)

(** C25: the broker loses no event of the services: publishing, when it succeeds, sends the
    event once; the topology the client declares, whatever names are configured, takes it to
    the queue of each of its consumers, and to no other if the exchanges have different names;
    a consumer that works on its queue removes only deliveries that did not decode or that its
    handler accepted, and if the handler accepts every event it empties the queue. *)
Theorem broker_loses_no_event raw w :
  let c := MessageBroker.normalizeRabbitMQConfig raw in
  (forall times ev, wp (MessageBroker.marshalled times (MessageBroker.broker_publish ev))
     (fun _ w' => db w' = db w /\ queue w' = queue w ++ [ev])
     (fun _ w' => db w' = db w /\ (queue w' = queue w \/ queue w' = queue w ++ [ev])) w) /\
  (forall ev exchange key, MessageBroker.address c ev = Some (exchange, key) ->
     let queues := MessageBroker.bound_queues (MessageBroker.ensureTopology c) exchange key in
     MessageBroker.consumers c ev ⊆ queues /\
     (NoDup [MessageBroker.rm_InteractionExchange c; MessageBroker.rm_VideoExchange c;
             MessageBroker.rm_ExposureExchange c] -> queues = MessageBroker.consumers c ev)) /\
  (forall A fuel (handler : A -> M unit) (deliveries : list (option A)),
     wp (MessageBroker.work fuel handler deliveries)
       (fun rest _ =>
          (exists done, deliveries = done ++ rest /\ Forall (MessageBroker.handled handler) done) /\
          ((forall e w1 err w2, handler e w1 <> (inl err, w2)) -> (length deliveries <= fuel)%nat -> rest = []))
       (fun _ _ => False) w).
Proof.
  intros c. split_and!.
  - intros times ev. apply MessageBroker.wp_publish_event.
  - intros ev exchange key Ha. split; [by apply MessageBroker.bound_queues_own|by apply MessageBroker.bound_queues_only].
  - intros A fuel handler deliveries. apply MessageBroker.wp_work.
Qed.

End ServiceProperties.

(** ** Witnesses *)

Definition register_ann := OtherServices.AccountService.Register "salt" "ann" "secret" "Ann".

Lemma requests_keep_integrity_witness :
  any_request plain_config w0 (System.after register_ann w0) /\ integrity (System.after register_ann w0).
Proof.
  assert (any_request plain_config w0 (System.after register_ann w0)) as Hr.
  { apply any_plain, any_service. exact (request_endpoint _ _ _ (ep_Register _ _ _ _)). }
  split; [exact Hr|].
  apply (requests_keep_integrity plain_config calm new_process ∅). apply rtc_once. exact Hr.
Defined.


Lemma CreatePublished_retry_witness :
  TrimSpace "vk2" <> ""%string /\
  wp (VideoService.CreatePublished None 1 "second" "" "n.mp4" "d.jpg" "vk2")
    (fun r w' => wp (VideoService.CreatePublished None 1 "third" "" "o.mp4" "e.jpg" "vk2")
       (fun r' w'' => r' = VideoService.mkVideoCreateResult (VideoService.vc_Video r) false /\
                      db w'' = db w')
       (fun err w'' => err = EApp ErrLoadVideoFailed /\ db w'' = db w') w')
    (fun _ w' => db w' = db w10) w10.
Proof.
  assert (TrimSpace "vk2" <> ""%string) as Hk by (vm_compute; discriminate).
  split; [exact Hk|].
  refine (CreatePublished_retry None w10 1 "second" "" "n.mp4" "d.jpg" "third" "" "o.mp4" "e.jpg" "vk2"
            w10_reachable _ Hk).
  intros P HP. discriminate HP.
Defined.

Lemma DeleteVideo_by_author_witness :
  reachable w10 /\
  wp (VideoService.Delete 2 1) (fun _ _ => False) (fun _ w' => db w' = db w10) w10.
Proof.
  split; [exact w10_reachable|].
  eapply wp_mono; [exact (DeleteVideo_by_author w10 2 1 w10_reachable)|..].
  - intros u w' (row & row' & Hrow & Ha & _). vm_compute in Hrow. injection Hrow as Hrow.
    subst row. vm_compute in Ha. discriminate Ha.
  - intros err w' [H _]. exact H.
Defined.

Lemma notifications_accepted_witness :
  is_id 7 /\ exists m, MessageDomain.NewMessage 1 MessageDomain.TypeLike "收到点赞" "点赞了你的视频"
    (InteractionService.like_event_id 7 9) = inr m.
Proof.
  assert (forall n, 0 < n < 1000 -> is_id n) as Hid by (unfold is_id; lia).
  split; [apply Hid; lia|].
  refine (match proj1 (notifications_accepted 1 7 9 3 "nice" _ _ _ _ _ _) with
          | ex_intro _ m (conj Hm _) => ex_intro _ m Hm end);
    [apply Hid; lia..|vm_compute; reflexivity|vm_compute; split; [reflexivity|discriminate]].
Defined.

Lemma HandleActionChanged_redelivery_witness :
  reachable w10 /\
  let event := Some (mkActionChangedEvent "e" 1 1 "LIKE" true "" 0) in
  wp (InteractionService.HandleActionChanged event)
    (fun _ w1 => wp (InteractionService.HandleActionChanged event)
       (fun _ w2 => same_activity (db w1) (db w2)) (fun _ w2 => db w2 = db w1) w1)
    (fun _ w1 => db w1 = db w10) w10.
Proof.
  split; [exact w10_reachable|]. cbv zeta.
  pose proof (HandleActionChanged_redelivery w10 (mkActionChangedEvent "e" 1 1 "LIKE" true "" 0) "LIKE"
    w10_reachable eq_refl) as H. cbv zeta in H.
  eapply wp_mono; [exact H| |intros err w' He; exact He].
  intros u w1 H1. eapply wp_mono; [exact H1| |intros err w' He; exact He].
  intros u' w2 [H2 _]. exact H2.
Defined.

Lemma comment_list_continues_witness :
  cursor_range w10 /\
  wp (InteractionService.ListComments 1 "" 1)
    (fun r w' => InteractionService.cl_Items r
                 = shown_comments (db w10) (InteractionRepo.comment_page 1 None 1 (db w10)))
    (fun err w' => err = EApp ErrLoadInteractionFailed /\ db w' = db w10) w10.
Proof.
  assert (cursor_range w10) as Hr.
  { intros k c Hc. assert (interaction_comment (db w10) = {[ 1 := w10_comment ]}) as Hm
      by (vm_compute; reflexivity).
    rewrite Hm in Hc. apply lookup_singleton_Some in Hc as [_ Hc]. subst c.
    vm_compute. repeat split; discriminate. }
  split; [exact Hr|].
  pose proof (comment_list_continues w10 1 "" None 1 1 w10_reachable Hr ltac:(lia) eq_refl) as H.
  cbv zeta in H. eapply wp_mono; [exact H|..].
  - intros r w' (_ & Hi & _). exact Hi.
  - intros err w' He. exact He.
Defined.

(** The names of [initCore], and a consumer that cannot handle its second delivery. *)
Definition core_broker : MessageBroker.RabbitMQConfig :=
  MessageBroker.mkRabbitMQConfig "amqp://localhost" "owlet.core.interaction" "owlet.core.action_changed" ""
    "owlet.core.video" "owlet.core.published" "owlet.core.embedding" "" "owlet.core.exposure"
    "owlet.core.view_events" "".

Lemma broker_loses_no_event_witness :
  let c := MessageBroker.normalizeRabbitMQConfig core_broker in
  MessageBroker.bound_queues (MessageBroker.ensureTopology c) "owlet.core.video" "video.published"
    = ["owlet.core.published"; "owlet.core.embedding"]%string /\
  wp (MessageBroker.work 9 (fun n => if n =? 2 then throw (EMain "no") else mret tt) [None; Some 1; Some 2; Some 3])
    (fun rest _ => rest = [Some 2; Some 3]) (fun _ _ => False) w10 /\
  wp (MessageBroker.work 9 (fun n : Z => mret tt) [None; Some 1])
    (fun rest _ => rest = []) (fun _ _ => False) w10.
Proof.
  cbv zeta. destruct (broker_loses_no_event core_broker w10) as (_ & Hr & Hw).
  assert (NoDup ["owlet.core.interaction"; "owlet.core.video"; "owlet.core.exposure"]%string) as Hnd
    by (apply (bool_decide_unpack _); vm_compute; exact I).
  split; [|split].
  - exact (proj2 (Hr (EvVideoPublished (mkPublishedEvent "e" 1 1 "t" "" "m" "c" 0 0)) _ _ eq_refl) Hnd).
  - vm_compute. reflexivity.
  - eapply wp_mono; [exact (Hw Z 9%nat (fun n => mret tt) [None; Some 1])| |intros e w' []].
    intros rest w' [_ Hd]. apply Hd; [intros e w1 err w2; discriminate|]. vm_compute. lia.
Defined.
