(* ===== verification/FeedProperties.v ===== *)
(** * What the feed guarantees

    The feed of the repository, with and without the cache. *)
From S2P Require Import Prelude.
From S2P Require Import GoStd.
From S2P Require Import GoHash.
From S2P Require Import GoConv.
From S2P Require InteractionDomain.
From S2P Require VideoDomain.
From S2P Require Import FeedDomain.
From S2P Require Import RecommendationDomain.
From S2P Require Import Errors.
From S2P Require Import Models.
From S2P Require Import Redis.
From S2P Require Import Store.
From S2P Require Import RedisClient.
From S2P Require Import Paging.
From S2P Require Import Codec.
From S2P Require InteractionRepo.
From S2P Require FeedRepo.
From S2P Require RecommendationRepo.
From S2P Require Import System.
From S2P Require Import RepoProperties.
From S2P Require EmbeddingDomain.
From S2P Require OtherServices.
From S2P Require Import RecommendationService.
From S2P Require Import FeedService.
From S2P Require FeedCache.
From S2P Require Import Wiring.
From S2P Require Import ServiceExamples.

Section FeedProperties.
Context `{Collation, !CollationLaws} `{Codec}.

(** ** What is shown is published *)

Definition is_published (d : Tables) (id : Z) : Prop :=
  exists k v, video d !! k = Some v /\ vm_ID v = id /\ vm_Status v = VideoDomain.StatusPublished.

Lemma lookup_true_list (l : list Z) id (b : bool) :
  (list_to_map ((fun id => (id, true)) <$> l) : gmap Z bool) !! id = Some b <-> id ∈ l /\ b = true.
Proof.
  split.
  - intros Hl. apply elem_of_list_to_map_2 in Hl. apply list_elem_of_fmap in Hl as (x & [= -> ->] & Hx). done.
  - intros [Hid ->]. by apply (FeedRepo.lookup_list_to_map_ids (fun _ => true)).
Qed.

Lemma wp_PublishedVideoIDs ids w :
  wp (FeedRepo.PublishedVideoIDs ids)
    (fun m w' => db w' = db w /\ forall id, m !! id = Some true <-> id ∈ ids /\ is_published (db w) id)
    (fun e w' => (exists text, e = EDriver text) /\ db w' = db w) w.
Proof.
  unfold FeedRepo.PublishedVideoIDs. apply wp_bind, wp_query; [|by eauto]. intros e. apply wp_ret. split; [done|].
  intros id. rewrite lookup_true_list, list_elem_of_fmap. split.
  - intros [(v & -> & (k & Hk & [Hin Hst%Z.eqb_eq]%andb_true_iff)%elem_of_select_rows) _].
    split; [by apply FeedRepo.in_ids_spec|by exists k, v].
  - intros [Hin (k & v & Hk & Hid & Hst)]. split; [|done]. exists v. split; [done|].
    apply elem_of_select_rows. exists k. split; [done|].
    rewrite Hid, (proj2 (FeedRepo.in_ids_spec ids id) Hin), Hst. done.
Qed.

Lemma wp_recheck result w :
  wp (recheck sql_feed result)
    (fun r w' => db w' = db w /\ fr_Scene r = fr_Scene result /\ fr_NextCursor r = fr_NextCursor result /\
       fr_HasMore r = fr_HasMore result /\ (fr_Items r) `sublist_of` (fr_Items result) /\
       (forall i, i ∈ fr_Items r <-> i ∈ fr_Items result /\ is_published (db w) (fi_VideoID i)) /\
       (Forall (fun i => is_published (db w) (fi_VideoID i)) (fr_Items result) ->
          fr_Items r = fr_Items result))
    (fun e w' => (exists text, e = EDriver text) /\ db w' = db w) w.
Proof.
  unfold recheck. simpl. destruct (fr_Items result) as [|i items] eqn:Hi.
  { apply wp_ret. rewrite Hi. repeat split; try done; intros; by set_solver. }
  rewrite <-Hi. apply wp_bind. eapply wp_mono; [apply wp_PublishedVideoIDs| |done].
  intros m w' [Hdb Hm]. apply wp_ret. simpl. split_and!; [done..| | |].
  - apply sublist_filter.
  - intros j. rewrite list_elem_of_filter, Hm, list_elem_of_fmap. split.
    + intros [[_ Hp] Hj]. done.
    + intros [Hj Hp]. repeat split; [by exists j|done|done].
  - intros Hall. apply filter_all. rewrite Forall_forall in Hall. intros j Hj. apply Hm.
    split; [apply list_elem_of_fmap; by exists j|by apply Hall].
Qed.

(** C30: whatever the cache holds and whatever strategies are registered, the feed never shows a
    video that is not published when it answers: a stale page, card or index entry of a deleted
    video is dropped by the recheck, and the rest of the page stays as it was. *)
Theorem feed_shows_published s req w :
  sv_repo s = sql_feed ->
  wp (GetFeed s req)
    (fun r w' => Forall (fun i => is_published (db w') (fi_VideoID i)) (fr_Items r))
    (fun e w' => True) w.
Proof.
  intros Hs. unfold GetFeed. case_match; [|by apply wp_throw]. rewrite Hs.
  apply wp_bind. unfold wp at 1. destruct (Strategy_List _ _ w) as [[err|r] w']; [done|].
  eapply wp_mono; [apply wp_recheck| |done].
  intros r' w'' (Hdb & _ & _ & _ & _ & Hall & _). apply Forall_forall. intros i Hi.
  rewrite Hdb. by apply Hall in Hi as [_ ?].
Qed.

(** ** The feed without a cache *)

(** A video as the feed should show it to a viewer: the author's name of now, the true
    numbers, and the viewer's own marks. *)
Definition shown (d : Tables) (viewer score : Z) (v : VideoModel) : FeedItem :=
  let c := FeedRepo.feed_card d v in
  let s := FeedRepo.true_stat d (vm_ID v) in
  let marked t := (0 <? viewer) && InteractionRepo.was_active d (viewer, vm_ID v, collate t) in
  {| fi_VideoID := vm_ID v; fi_AuthorID := vm_AuthorID v;
     fi_AuthorNickname := TrimSpace (fc_AuthorNickname c);
     fi_AuthorAvatarURL := TrimSpace (fc_AuthorAvatarURL c); fi_Title := TrimSpace (vm_Title v);
     fi_Description := TrimSpace (vm_Description v); fi_MediaURL := TrimSpace (vm_MediaURL v);
     fi_CoverURL := TrimSpace (vm_CoverURL v); fi_LikeCount := fs_LikeCount s;
     fi_CommentCount := fs_CommentCount s; fi_FavoriteCount := fs_FavoriteCount s;
     fi_Liked := marked InteractionDomain.ActionTypeLike;
     fi_Favorited := marked InteractionDomain.ActionTypeFavorite; fi_HotScore := score;
     fi_PublishedAt := FeedRepo.published_at v |}.

(** A row a page may have. *)
Definition page_row (d : Tables) (v : VideoModel) : Prop :=
  video d !! vm_ID v = Some v /\ FeedRepo.basePageQuery v = true /\ 0 < vm_ID v.

Lemma wp_BatchGetFeedCards ids w :
  videos_ok (db w) ->
  wp (FeedRepo.BatchGetFeedCards ids)
    (fun cards w' => db w' = db w /\ forall v, page_row (db w) v -> vm_ID v ∈ ids ->
       cards !! vm_ID v = Some (FeedRepo.feed_card (db w) v))
    (fun e w' => db w' = db w) w.
Proof.
  intros Hok. unfold FeedRepo.BatchGetFeedCards. destruct ids as [|i ids].
  { apply wp_ret. split; [done|]. by intros v _ ?%elem_of_nil. }
  apply wp_bind, wp_query; [|done]. intros e. apply wp_ret. split; [done|]. intros v (Hv & Hb & _) Hin.
  set (all := i :: ids) in *. rewrite <-list_fmap_compose.
  apply elem_of_list_to_map_1'.
  - intros c Hc. apply list_elem_of_fmap in Hc as (u & [= Hid ->] & (k & Hk & _)%elem_of_select_rows).
    pose proof (ok_video_id _ Hok _ _ Hk) as ->. rewrite <-Hid, Hv in Hk. by injection Hk as ->.
  - apply list_elem_of_fmap. exists v. split; [done|]. apply elem_of_select_rows. exists (vm_ID v).
    by rewrite Hv, Hb, (proj2 (FeedRepo.in_ids_spec all (vm_ID v)) Hin).
Qed.

Lemma missingIDs_empty {A} ids : missingIDs ids (∅ : gmap Z A) = ids.
Proof. apply filter_all. intros id _. apply lookup_empty. Qed.

Lemma wp_load_cards ids w :
  videos_ok (db w) ->
  wp (load_cards sql_feed None (missingCardIDs ids ∅) ∅)
    (fun cards w' => db w' = db w /\ forall v, page_row (db w) v -> vm_ID v ∈ ids ->
       cards !! vm_ID v = Some (FeedRepo.feed_card (db w) v))
    (fun e w' => db w' = db w) w.
Proof.
  intros Hok. unfold missingCardIDs. rewrite missingIDs_empty. destruct ids as [|i ids].
  { apply wp_ret. split; [done|]. by intros v _ ?%elem_of_nil. }
  apply wp_bind. eapply wp_mono; [by apply wp_BatchGetFeedCards| |done].
  intros cards w' [Hdb Hc]. apply wp_bind, wp_ret, wp_ret. split; [done|]. intros v Hv Hin. unfold mergeCards.
  rewrite map_union_empty. by apply Hc.
Qed.

Lemma wp_load_stats ids w0 w :
  InteractionRepo.counters_ok w0 -> db w = db w0 ->
  wp (load_stats sql_feed None (missingStatIDs ids ∅) ∅)
    (fun stats w' => db w' = db w /\ forall id, id ∈ ids -> stats !! id = Some (FeedRepo.true_stat (db w) id))
    (fun e w' => db w' = db w) w.
Proof.
  intros Hok Hdb0. unfold missingStatIDs. rewrite missingIDs_empty. destruct ids as [|i ids].
  { apply wp_ret. split; [done|]. by intros id ?%elem_of_nil. }
  apply wp_bind. eapply wp_mono; [by apply (FeedRepo.wp_BatchGetFeedStats w0)| |done].
  intros stats w' [Hdb Hs]. apply wp_bind, wp_ret, wp_ret. split; [done|]. intros id Hid. unfold mergeStats.
  rewrite map_union_empty. by apply Hs.
Qed.

Lemma wp_viewer_marks viewer ids w0 w :
  InteractionRepo.counters_ok w0 -> db w = db w0 ->
  wp (if 0 <? viewer then rp_BatchGetViewerActionStates sql_feed viewer ids else mret ∅)
    (fun marks w' => db w' = db w0 /\ forall id, id ∈ ids ->
       let marked t := (0 <? viewer) && InteractionRepo.was_active (db w0) (viewer, id, collate t) in
       match marks !! id with
       | Some a => (va_Liked a, va_Favorited a)
       | None => (false, false)
       end = (marked InteractionDomain.ActionTypeLike, marked InteractionDomain.ActionTypeFavorite))
    (fun e w' => db w' = db w0) w.
Proof.
  intros Hok Hdb. destruct (Z.ltb_spec 0 viewer).
  - eapply wp_mono; [by apply FeedRepo.wp_BatchGetViewerActionStates| |by intros e w' ->].
    intros marks w' [Hdb' Hm]. split; [congruence|]. intros id Hid. by rewrite (Hm id Hid).
  - apply wp_ret. split; [done|]. intros id _. by rewrite lookup_empty.
Qed.

Lemma elem_of_page_ids (score : VideoModel -> Z) (l : list VideoModel) id :
  id ∈ feedPageVideoIDs ((fun v => Some (FeedRepo.page_item (score v) v)) <$> l) <->
  0 < id /\ exists v, v ∈ l /\ vm_ID v = id.
Proof.
  unfold feedPageVideoIDs. rewrite elem_of_dedup, list_elem_of_filter, list_elem_of_omap.
  split; intros [Hpos Hex]; (split; [done|]).
  - destruct Hex as (i & (v & -> & Hv)%list_elem_of_fmap & [= <-]). by exists v.
  - destruct Hex as (v & Hv & <-). exists (Some (FeedRepo.page_item (score v) v)). split; [|done].
    apply list_elem_of_fmap. by exists v.
Qed.

(** A page of rows is assembled into what should be shown. *)
Lemma wp_assemble (score : VideoModel -> Z) (l : list VideoModel) viewer w0 w :
  integrity w0 -> db w = db w0 -> Forall (page_row (db w0)) l ->
  wp (assembleFeedItems sql_feed None ((fun v => Some (FeedRepo.page_item (score v) v)) <$> l) viewer)
    (fun items w' => db w' = db w0 /\ items = (fun v => shown (db w0) viewer (score v) v) <$> l)
    (fun e w' => db w' = db w0) w.
Proof.
  intros Hi Hdb0 Hl. rewrite Forall_forall in Hl. unfold assembleFeedItems.
  pose proof (elem_of_page_ids score l) as Hids. set (ids := feedPageVideoIDs _) in *.
  assert (forall v, v ∈ l -> vm_ID v ∈ ids) as Hin.
  { intros v Hv. apply Hids. split; [by apply Hl|by exists v]. }
  clearbody ids. destruct ids as [|i ids].
  { apply wp_ret. split; [done|]. destruct l as [|v l]; [done|].
    by specialize (Hin v (list_elem_of_here v l)) as ?%elem_of_nil. }
  set (all := i :: ids) in *. do 2 (apply wp_bind, wp_ret). apply wp_bind.
  eapply wp_mono; [apply wp_load_cards; rewrite Hdb0; apply Hi| |by intros e w1 ->].
  intros cards w1 [Hdb1 Hcards]. rewrite Hdb0 in Hdb1, Hcards. apply wp_bind.
  eapply wp_mono; [apply (wp_load_stats all w0); [apply Hi|done]| |by intros e w2 ->].
  intros stats w2 [Hdb2 Hstats]. rewrite Hdb1 in Hdb2, Hstats. apply wp_bind.
  eapply wp_mono; [apply (wp_viewer_marks viewer all w0 w2); [apply Hi|done]| |done].
  intros marks w3 [Hdb3 Hmarks]. apply wp_ret. split; [done|].
  apply omap_all. intros v Hv. specialize (Hl v Hv).
  specialize (Hmarks _ (Hin v Hv)). specialize (Hstats _ (Hin v Hv)).
  unfold assemble_item. cbn [mbind option_bind pi_VideoID FeedRepo.page_item].
  rewrite (Hcards v Hl (Hin v Hv)). cbn [mbind option_bind]. rewrite Hstats.
  cbn [fi_VideoID RestoreFeedItem fc_VideoID FeedRepo.feed_card fi_Liked fi_Favorited].
  cbv zeta in Hmarks. cbn [fi_VideoID]. unfold shown. cbv zeta.
  destruct (marks !! vm_ID v) as [a|]; injection Hmarks as <- <-; simpl;
    by destruct (time_IsZero (FeedRepo.published_at v)).
Qed.

(** ** The reference: what a request should be answered *)

(** The rows of a scene from a cursor on, with the score the scene sorts by; a negative [n]
    asks for all of them. *)
Definition scene_rows (scene : string) (viewer : Z) (cursor : string) (n : Z) (d : Tables)
    : feed_error + list (Z * VideoModel) :=
  if String.eqb scene SceneTimeline then
    match parseTimelineCursor cursor with
    | inl err => inl err
    | inr c => inr ((fun v => (0, v)) <$> FeedRepo.timeline_page c n d)
    end
  else if String.eqb scene SceneHot then
    match parseHotCursor cursor with
    | inl err => inl err
    | inr c => inr ((fun v => (FeedRepo.hotScoreExpression d v, v)) <$> FeedRepo.hot_page c n d)
    end
  else if String.eqb scene SceneFollowing then
    if viewer <=? 0 then inl ErrViewerRequired else
    match parseTimelineCursor cursor with
    | inl err => inl err
    | inr c => inr ((fun v => (0, v)) <$> FeedRepo.following_page viewer c n d)
    end
  else inl ErrUnsupportedScene.

(** Times, ids and scores that a cursor can carry. *)
Definition video_range (d : Tables) : Prop := forall k v, video d !! k = Some v ->
  0 < vm_ID v < 2 ^ 63 /\ - 2 ^ 63 <= FeedRepo.hotScoreExpression d v < 2 ^ 63 /\
  (FeedRepo.basePageQuery v = true ->
     0 < FeedRepo.published_at v /\ rfc3339_range (FeedRepo.published_at v)).

(** What the page of a query says of its rows. *)
Definition page_says (rows : Z -> list VideoModel) (score : VideoModel -> Z)
    (cursor_of : FeedPageItem -> string) (n : Z) (page : FeedPage) : Prop :=
  fp_Items page = (fun v => Some (FeedRepo.page_item (score v) v)) <$> rows n /\
  (fp_HasMore page = true -> exists v, last (rows n) = Some v /\
     fp_NextCursor page = cursor_of (FeedRepo.page_item (score v) v)) /\
  (fp_HasMore page = false -> rows n = rows (-1)).

Lemma wp_page {K} `{PositionLaws K} (pos : VideoModel -> K) c rows score scene cursor_of n
    (q : Z -> M (list FeedPageItem)) w :
  0 < n ->
  (forall k, wp (q k) (fun items w' => db w' = db w /\
     items = (fun v => FeedRepo.page_item (score v) v) <$> sql_page pos c k rows)
     (fun e w' => db w' = db w) w) ->
  wp (items ← load_failed (q (n + 1)); mret (page_from scene n cursor_of items))
    (fun page w' => db w' = db w /\ page_says (fun k => sql_page pos c k rows) score cursor_of n page)
    (fun e w' => e = EApp ErrLoadFeedFailed /\ db w' = db w) w.
Proof.
  intros Hn Hq. apply wp_bind, wp_map_error. eapply wp_mono; [apply Hq| |done].
  intros items w' [Hdb ->]. apply wp_ret. split; [done|]. unfold page_from.
  pose proof (page_of_query pos (fun v => FeedRepo.page_item (score v) v) c n rows Hn) as Hpage.
  destruct (page_of n _) as [items more]. destruct Hpage as (-> & Hmore & Hless). unfold page_says. simpl.
  split_and!; [by rewrite <-list_fmap_compose| |].
  - intros Hm. specialize (Hmore Hm). destruct (last (sql_page pos c n rows)) as [v|] eqn:Hl.
    + exists v. split; [done|]. by rewrite fmap_last, Hl.
    + by apply last_None in Hl.
  - intros Hm. specialize (Hless Hm). apply (f_equal (fmap pi_VideoID)) in Hless.
    apply (f_equal length) in Hless. rewrite !length_fmap in Hless.
    assert (sql_page pos c n rows = take (length (sql_page pos c n rows)) (sql_page pos c (-1) rows)) as ->.
    { unfold sql_page, sql_limit. destruct (Z.ltb_spec n 0); [lia|]. simpl.
      rewrite length_take. by destruct (decide (Z.to_nat n <= length (merge_sort (newest_first pos)
        (filter (fun x => past pos c x = true) rows)))%nat); [rewrite Nat.min_l|rewrite Nat.min_r, !take_ge by lia]. }
    rewrite Hless. by apply take_ge.
Qed.

(** The answer made of such a page. *)
Definition answer_says (d : Tables) (viewer : Z) (rows : Z -> list VideoModel) (score : VideoModel -> Z)
    (cursor_of : FeedPageItem -> string) (n : Z) (r : FeedResult) : Prop :=
  fr_Items r = (fun v => shown d viewer (score v) v) <$> rows n /\
  (fr_HasMore r = true -> exists v, last (rows n) = Some v /\
     fr_NextCursor r = cursor_of (FeedRepo.page_item (score v) v)) /\
  (fr_HasMore r = false -> rows n = rows (-1)).

Lemma wp_answer rows score cursor_of n scene viewer page w0 w :
  integrity w0 -> db w = db w0 -> Forall (page_row (db w0)) (rows n) -> page_says rows score cursor_of n page ->
  wp (finish scene sql_feed None viewer page)
    (fun r w' => db w' = db w0 /\ answer_says (db w0) viewer rows score cursor_of n r)
    (fun e w' => e = EApp ErrLoadFeedFailed /\ db w' = db w0) w.
Proof.
  intros Hi Hdb Hrows (Hitems & Hmore & Hless). unfold finish. rewrite Hitems.
  apply wp_bind, wp_map_error. eapply wp_mono; [by apply wp_assemble| |by auto].
  intros items w' [Hdb' ->]. by apply wp_ret.
Qed.

Definition scene_cursor (scene : string) (row : Z * VideoModel) : string :=
  let item := FeedRepo.page_item row.1 row.2 in
  if String.eqb scene SceneHot then hot_cursor_of item else timeline_cursor_of item.

(** The answer to a request for [n] videos of a scene. *)
Definition answers (d : Tables) (scene : string) (viewer : Z) (cursor : string) (n : Z) (r : FeedResult) : Prop :=
  exists page, scene_rows scene viewer cursor n d = inr page /\
    fr_Items r = (fun row => shown d viewer row.1 row.2) <$> page /\
    (fr_HasMore r = true -> exists row, last page = Some row /\ fr_NextCursor r = scene_cursor scene row) /\
    (fr_HasMore r = false -> scene_rows scene viewer cursor (-1) d = inr page).

Lemma page_rows {K} `{PositionLaws K} (pos : VideoModel -> K) P c n w :
  integrity w -> video_range (db w) -> (forall v, P v = true -> FeedRepo.basePageQuery v = true) ->
  Forall (page_row (db w)) (sql_page pos c n (select_rows P (video (db w)))).
Proof.
  intros Hi Hr HP. apply Forall_forall. intros v [Hv _]%elem_of_sql_page.
  apply elem_of_select_rows in Hv as (k & Hk & Hv). destruct (Hr _ _ Hk) as (Hid & _).
  rewrite (ok_video_id _ (in_video _ Hi) _ _ Hk) in Hk. split; [done|]. split; [by apply HP|lia].
Qed.

Lemma wp_strategy {K} `{PositionLaws K} (pos : VideoModel -> K) c P score scene cursor_of n viewer cursor
    (q : Z -> M (list FeedPageItem)) w :
  integrity w -> video_range (db w) -> 0 < n -> (forall v, P v = true -> FeedRepo.basePageQuery v = true) ->
  (forall k, scene_rows scene viewer cursor k (db w)
     = inr ((fun v => (score v, v)) <$> sql_page pos c k (select_rows P (video (db w))))) ->
  (forall v, cursor_of (FeedRepo.page_item (score v) v) = scene_cursor scene (score v, v)) ->
  (forall k, wp (q k) (fun items w' => db w' = db w /\
     items = (fun v => FeedRepo.page_item (score v) v) <$> sql_page pos c k (select_rows P (video (db w))))
     (fun e w' => db w' = db w) w) ->
  wp (page ← (items ← load_failed (q (n + 1)); mret (page_from scene n cursor_of items));
      finish scene sql_feed None viewer page)
    (fun r w' => db w' = db w /\ answers (db w) scene viewer cursor n r)
    (fun e w' => e = EApp ErrLoadFeedFailed /\ db w' = db w) w.
Proof.
  intros Hi Hrange Hn HP Hrows Hcur Hq. apply wp_bind. eapply wp_mono; [by apply (wp_page pos c)| |done].
  intros page w1 [Hdb1 Hpage].
  eapply wp_mono; [eapply (wp_answer _ score cursor_of n scene viewer page w w1 Hi Hdb1); [|exact Hpage]| |done].
  { by apply page_rows. }
  intros r w2 [Hdb2 (Hitems & Hmore & Hless)]. split; [done|]. eexists. split; [apply Hrows|]. split_and!.
  - by rewrite Hitems, <-list_fmap_compose.
  - intros Hm. destruct (Hmore Hm) as (v & Hl & ->). exists (score v, v). split; [|apply Hcur].
    by rewrite fmap_last, Hl.
  - intros Hm. rewrite Hrows. by rewrite <-(Hless Hm).
Qed.

Lemma wp_feed_query (page : Z -> Tables -> list VideoModel) score k w :
  wp (models ← query (page k); mret ((fun v => FeedRepo.page_item (score v) v) <$> models))
    (fun items w' => db w' = db w /\ items = (fun v => FeedRepo.page_item (score v) v) <$> page k (db w))
    (fun e w' => db w' = db w) w.
Proof. apply wp_bind, wp_query; [|done]. intros e. by apply wp_ret. Qed.

(** The errors of a request. *)
Definition feed_failure (d : Tables) (scene : string) (viewer : Z) (cursor : string) (e : error) : Prop :=
  (exists err, e = EFeed err /\ forall n, scene_rows scene viewer cursor n d = inl err) \/
  e = EApp ErrLoadFeedFailed \/ exists text, e = EDriver text.

Lemma limit_positive limit : 0 < normalizeLimit limit.
Proof. by apply (normalize_limit_bounds 10 100). Qed.

(** The strategies [New] registers when it is given no options. *)
Lemma New_strategies group repo scene :
  sv_strategies (New group repo []) !! scene =
  if String.eqb scene SceneTimeline then Some (Timeline (NewTimelineStrategy group SceneTimeline repo))
  else if String.eqb scene SceneHot then Some (Hot (NewHotStrategy repo))
  else if String.eqb scene SceneFollowing then Some (Following (NewFollowingStrategy repo))
  else None.
Proof.
  assert (NormalizeScene SceneTimeline = SceneTimeline) as Ht by (vm_compute; reflexivity).
  assert (NormalizeScene SceneHot = SceneHot) as Hh by (vm_compute; reflexivity).
  assert (NormalizeScene SceneFollowing = SceneFollowing) as Hf by (vm_compute; reflexivity).
  unfold New, RegisterStrategy. cbn [foldl sv_strategies Strategy_Scene].
  unfold NewTimelineStrategy at 1. cbn [ts_scene]. rewrite !Ht, Hh, Hf.
  destruct (String.eqb_spec scene SceneTimeline) as [->|Hnt].
  { rewrite lookup_insert_ne, lookup_insert_ne by done. apply lookup_insert_eq. }
  destruct (String.eqb_spec scene SceneHot) as [->|Hnh].
  { rewrite lookup_insert_ne by done. apply lookup_insert_eq. }
  destruct (String.eqb_spec scene SceneFollowing) as [->|Hnf]; [apply lookup_insert_eq|].
  by rewrite !lookup_insert_ne, lookup_empty.
Qed.

Lemma timeline_answer cursor viewer limit ctx group w :
  integrity w -> video_range (db w) ->
  wp (TimelineStrategy_List (NewTimelineStrategy group SceneTimeline sql_feed)
        (mkFeedRequest SceneTimeline cursor limit viewer ctx))
    (fun r w' => db w' = db w /\ answers (db w) SceneTimeline viewer cursor (normalizeLimit limit) r)
    (fun e w' => feed_failure (db w) SceneTimeline viewer cursor e /\ db w' = db w) w.
Proof.
  intros Hi Hrange. unfold TimelineStrategy_List. cbn [fq_Cursor fq_Limit fq_ViewerID].
  destruct (parseTimelineCursor cursor) as [err|c] eqn:Hc.
  { apply wp_throw. split; [|done]. left. exists err. split; [done|]. intros n. unfold scene_rows.
    simpl. by rewrite Hc. }
  cbn [ts_cache NewTimelineStrategy ts_scene ts_repo]. unfold loadFeedPage.
  eapply wp_mono; [apply (wp_strategy FeedRepo.timeline_pos (FeedRepo.timeline_cursor <$> c) FeedRepo.basePageQuery
    (fun _ => 0) _ _ _ viewer cursor (FeedRepo.ListTimelinePage c))|..]; try done.
  - apply limit_positive.
  - intros k. unfold scene_rows. simpl. by rewrite Hc.
  - intros k. apply (wp_feed_query (FeedRepo.timeline_page c) (fun _ => 0)).
  - intros e w' [-> Hdb]. split; [|done]. right. by left.
Qed.

Lemma hot_answer cursor viewer limit ctx w :
  integrity w -> video_range (db w) ->
  wp (HotStrategy_List (NewHotStrategy sql_feed) (mkFeedRequest SceneHot cursor limit viewer ctx))
    (fun r w' => db w' = db w /\ answers (db w) SceneHot viewer cursor (normalizeLimit limit) r)
    (fun e w' => feed_failure (db w) SceneHot viewer cursor e /\ db w' = db w) w.
Proof.
  intros Hi Hrange. unfold HotStrategy_List. cbn [fq_Cursor fq_Limit fq_ViewerID].
  destruct (parseHotCursor cursor) as [err|c] eqn:Hc.
  { apply wp_throw. split; [|done]. left. exists err. split; [done|]. intros n. unfold scene_rows.
    simpl. by rewrite Hc. }
  cbn [hs_cache hs_repo NewHotStrategy].
  eapply wp_mono; [apply (wp_strategy (FeedRepo.hot_pos (db w)) (FeedRepo.hot_cursor <$> c) FeedRepo.basePageQuery
    (FeedRepo.hotScoreExpression (db w)) _ _ _ viewer cursor (FeedRepo.ListHotPage c))|..]; try done.
  - apply limit_positive.
  - intros k. unfold scene_rows. simpl. by rewrite Hc.
  - intros k. by apply wp_query.
  - intros e w' [-> Hdb]. split; [|done]. right. by left.
Qed.

Lemma following_answer cursor viewer limit ctx w :
  integrity w -> video_range (db w) ->
  wp (FollowingStrategy_List (NewFollowingStrategy sql_feed)
        (mkFeedRequest SceneFollowing cursor limit viewer ctx))
    (fun r w' => db w' = db w /\ answers (db w) SceneFollowing viewer cursor (normalizeLimit limit) r)
    (fun e w' => feed_failure (db w) SceneFollowing viewer cursor e /\ db w' = db w) w.
Proof.
  intros Hi Hrange. unfold FollowingStrategy_List. cbn [fq_Cursor fq_Limit fq_ViewerID].
  destruct (viewer <=? 0) eqn:Hv.
  { apply wp_throw. split; [|done]. left. exists ErrViewerRequired. split; [done|]. intros n.
    unfold scene_rows. simpl. by rewrite Hv. }
  destruct (parseTimelineCursor cursor) as [err|c] eqn:Hc.
  { apply wp_throw. split; [|done]. left. exists err. split; [done|]. intros n. unfold scene_rows.
    simpl. by rewrite Hv, Hc. }
  eapply wp_mono; [apply (wp_strategy FeedRepo.timeline_pos (FeedRepo.timeline_cursor <$> c)
    (fun v => FeedRepo.basePageQuery v && FeedRepo.viewer_follows viewer (db w) (vm_AuthorID v))
    (fun _ => 0) _ _ _ viewer cursor (FeedRepo.ListFollowingPage viewer c))|..]; try done.
  - apply limit_positive.
  - by intros v [? _]%andb_true_iff.
  - intros k. unfold scene_rows. simpl. by rewrite Hv, Hc.
  - intros k. apply (wp_feed_query (FeedRepo.following_page viewer c) (fun _ => 0)).
  - intros e w' [-> Hdb]. split; [|done]. right. by left.
Qed.

(** The rows of a page are published. *)
Lemma scene_rows_published scene viewer cursor n w page :
  integrity w -> scene_rows scene viewer cursor n (db w) = inr page ->
  forall row, row ∈ page -> video (db w) !! vm_ID row.2 = Some row.2 /\ FeedRepo.basePageQuery row.2 = true.
Proof.
  intros Hi Hrows row Hrow.
  assert (exists K (_ : Position K) (_ : PositionLaws K) (pos : VideoModel -> K) c P score,
    (forall v, P v = true -> FeedRepo.basePageQuery v = true) /\
    page = (fun v => (score v : Z, v)) <$> sql_page pos c n (select_rows P (video (db w))))
    as (K & HK & HL & pos & c & P & score & HP & ->).
  { unfold scene_rows in Hrows. repeat case_match; simplify_eq.
    - exists _, pair_position, _, FeedRepo.timeline_pos, (FeedRepo.timeline_cursor <$> o).
      by exists FeedRepo.basePageQuery, (fun _ => 0).
    - exists _, triple_position, _, (FeedRepo.hot_pos (db w)), (FeedRepo.hot_cursor <$> o).
      by exists FeedRepo.basePageQuery, (FeedRepo.hotScoreExpression (db w)).
    - exists _, pair_position, _, FeedRepo.timeline_pos, (FeedRepo.timeline_cursor <$> o).
      exists (fun v => FeedRepo.basePageQuery v && FeedRepo.viewer_follows viewer (db w) (vm_AuthorID v)),
        (fun _ => 0). split; [|done]. by intros v [? _]%andb_true_iff. }
  apply list_elem_of_fmap in Hrow as (v & -> & [Hv _]%elem_of_sql_page).
  apply elem_of_select_rows in Hv as (k & Hk & Hv). simpl.
  rewrite (ok_video_id _ (in_video _ Hi) _ _ Hk) in Hk. split; [done|by apply HP].
Qed.

Lemma base_published v : FeedRepo.basePageQuery v = true -> vm_Status v = VideoDomain.StatusPublished.
Proof. by intros [?%Z.eqb_eq _]%andb_true_iff. Qed.

Lemma wp_GetFeed group scene cursor limit viewer ctx w :
  integrity w -> video_range (db w) ->
  let scene' := NormalizeScene scene in
  wp (GetFeed (New group sql_feed []) (mkFeedRequest scene cursor limit viewer ctx))
    (fun r w' => db w' = db w /\ answers (db w) scene' viewer cursor (normalizeLimit limit) r)
    (fun e w' => feed_failure (db w) scene' viewer cursor e /\ db w' = db w) w.
Proof.
  intros Hi Hrange scene'. unfold GetFeed. cbn [fq_Scene fq_Cursor fq_Limit fq_ViewerID fq_ClientContext].
  fold scene'. assert (String.eqb scene' "" = false) as ->.
  { unfold scene', NormalizeScene. cbv zeta.
    by destruct (String.eqb (TrimSpace (ToLower scene)) "") eqn:Hempty. }
  rewrite New_strategies. change (sv_repo (New group sql_feed [])) with sql_feed.
  destruct (if String.eqb scene' SceneTimeline then _ else _) as [s|] eqn:Hs.
  - apply wp_bind. apply (wp_mono _ (fun r w' => db w' = db w /\
      answers (db w) scene' viewer cursor (normalizeLimit limit) r) _
      (fun e w' => feed_failure (db w) scene' viewer cursor e /\ db w' = db w) _).
    + destruct (String.eqb_spec scene' SceneTimeline) as [->|_].
      { injection Hs as <-. by apply timeline_answer. }
      destruct (String.eqb_spec scene' SceneHot) as [->|_].
      { injection Hs as <-. by apply hot_answer. }
      destruct (String.eqb_spec scene' SceneFollowing) as [->|_]; [|done].
      injection Hs as <-. by apply following_answer.
    + intros r w1 [Hdb1 (page & Hpage & Hitems & Hmore & Hless)].
      eapply wp_mono; [apply wp_recheck|..].
      * intros r' w2 (Hdb2 & _ & Hcur & Hhas & _ & _ & Hall). split; [congruence|].
        exists page. rewrite Hcur, Hhas. split_and!; [done| |done|done].
        rewrite Hall; [done|]. apply Forall_forall. rewrite Hitems, Hdb1.
        intros i (row & -> & Hrow)%list_elem_of_fmap.
        destruct (scene_rows_published _ _ _ _ _ _ Hi Hpage row Hrow) as [Hv Hb]. simpl.
        exists (vm_ID row.2), row.2. split_and!; [done|done|by apply base_published].
      * intros e w2 [Htext Hdb2]. split; [right; by right|congruence].
    + done.
  - apply wp_throw. split; [|done]. left. exists ErrUnsupportedScene. split; [done|]. intros n.
    unfold scene_rows. by repeat case_match.
Qed.

(** ** Cursors carry on *)

Context `{!CodecLaws}.

Lemma timeline_cursor_roundtrip i :
  0 < pi_VideoID i < 2 ^ 63 -> 0 < pi_PublishedAt i -> rfc3339_range (pi_PublishedAt i) ->
  parseTimelineCursor (timeline_cursor_of i) = inr (Some (mkTimelineCursor (pi_PublishedAt i) (pi_VideoID i))).
Proof.
  intros Hid Ht Hr. unfold parseTimelineCursor, timeline_cursor_of, encodeTimelineCursor.
  cbn [fmap option_fmap option_map tc_PublishedAt tc_VideoID]. by rewrite parse_encode_cursor.
Qed.

Lemma hot_cursor_roundtrip i :
  0 < pi_VideoID i < 2 ^ 63 -> 0 < pi_PublishedAt i -> rfc3339_range (pi_PublishedAt i) ->
  - 2 ^ 63 <= pi_HotScore i < 2 ^ 63 ->
  parseHotCursor (hot_cursor_of i)
  = inr (Some (mkHotCursor (pi_HotScore i) (pi_PublishedAt i) (pi_VideoID i) 0 0)).
Proof.
  intros Hid Ht Hr Hs. unfold hot_cursor_of, encodeHotCursor.
  assert ((pi_VideoID i <=? 0) || time_IsZero (pi_PublishedAt i) = false) as -> by (unfold time_IsZero; lia).
  unfold marshal_hot. cbn [String.eqb Z.eqb app].
  pose proof (rfc3339_visible _ Hr) as Hvis.
  destruct (cursor_decoded hotCursorPayload
    [("hot_score"%string, JInt (pi_HotScore i));
     ("published_at"%string, JText (FormatRFC3339Nano (pi_PublishedAt i)));
     ("video_id"%string, JInt (pi_VideoID i))]) as (Htrim & Hne & Hdec).
  - by apply (bool_decide_unpack _).
  - by apply (bool_decide_unpack _).
  - repeat constructor; simpl.
    + exists KInt. split; [by left|unfold json_fits; simpl; lia].
    + exists KText. split; [by right; left|done].
    + exists KInt. split; [by do 2 right; left|unfold json_fits; simpl; lia].
  - unfold parseHotCursor. cbv zeta. rewrite Htrim, Hne. apply bind_Some in Hdec as (content & -> & ->).
    change (json_read _ _) with [JInt (pi_HotScore i); JText (FormatRFC3339Nano (pi_PublishedAt i));
      JInt (pi_VideoID i); JText ""; JInt 0].
    cbn [negb]. change (String.eqb (TrimSpace "") "") with true. cbn [negb].
    rewrite (visible_trimmed _ Hvis), rfc3339_roundtrip by done.
    by destruct (Z.leb_spec (pi_VideoID i) 0); [lia|].
Qed.

Lemma scene_continues scene viewer cursor n m w page row :
  integrity w -> video_range (db w) -> 0 <= n -> 0 <= m ->
  scene_rows scene viewer cursor n (db w) = inr page -> last page = Some row ->
  exists page', scene_rows scene viewer (scene_cursor scene row) m (db w) = inr page' /\
    scene_rows scene viewer cursor (n + m) (db w) = inr (page ++ page').
Proof.
  intros Hi Hrange Hn Hm Hpage Hlast.
  destruct (scene_rows_published _ _ _ _ _ _ Hi Hpage row) as [Hv Hb]; [by apply last_Some_elem_of|].
  destruct (Hrange _ _ Hv) as (Hid & Hscore & Htime). destruct (Htime Hb) as [Ht Hr].
  pose proof (in_video _ Hi) as Hok.
  pose proof (fun P => video_positions (FeedRepo.hot_pos (db w)) w P Hok) as Hh.
  pose proof (fun P => video_positions FeedRepo.timeline_pos w P Hok) as Htl.
  unfold scene_rows in *. destruct (String.eqb_spec scene SceneTimeline) as [->|Hnt].
  { destruct (parseTimelineCursor cursor) as [err|c]; [done|]. injection Hpage as <-.
    rewrite fmap_last in Hlast. apply fmap_Some in Hlast as (v & Hlast & ->). simpl in *.
    unfold scene_cursor. simpl. rewrite timeline_cursor_roundtrip by done. eexists. split; [done|].
    f_equal. rewrite <-fmap_app. f_equal. symmetry.
    apply (sql_page_app FeedRepo.timeline_pos); try done. apply Htl. by intros a b [= _ ?]. }
  destruct (String.eqb_spec scene SceneHot) as [->|Hnh].
  { destruct (parseHotCursor cursor) as [err|c]; [done|]. injection Hpage as <-.
    rewrite fmap_last in Hlast. apply fmap_Some in Hlast as (v & Hlast & ->). simpl in *.
    unfold scene_cursor. simpl. rewrite hot_cursor_roundtrip by done. eexists. split; [done|].
    f_equal. rewrite <-fmap_app. f_equal. symmetry.
    apply (sql_page_app (FeedRepo.hot_pos (db w))); try done. apply Hh. by intros a b [= _ _ ?]. }
  destruct (String.eqb_spec scene SceneFollowing) as [->|Hnf]; [|done].
  destruct (viewer <=? 0); [done|]. destruct (parseTimelineCursor cursor) as [err|c]; [done|].
  injection Hpage as <-. rewrite fmap_last in Hlast. apply fmap_Some in Hlast as (v & Hlast & ->). simpl in *.
  unfold scene_cursor. simpl. rewrite timeline_cursor_roundtrip by done. eexists. split; [done|].
  f_equal. rewrite <-fmap_app. f_equal. symmetry.
  apply (sql_page_app FeedRepo.timeline_pos); try done. apply Htl. by intros a b [= _ ?].
Qed.

(** C29: without a cache the feed is the reference: a request for a scene is answered with the
    rows of its list from the cursor on, in the order of the scene, each with its author's name,
    the true numbers of likes, comments and favourites and the viewer's own marks; or with the
    error the reference gives. When it says there is more, its cursor is accepted, and the
    answer to it continues where this one ended; when not, nothing is left. *)
Theorem feed_is_the_reference group scene cursor limit viewer ctx limit' w :
  reachable w -> video_range (db w) ->
  let scene' := NormalizeScene scene in
  let n := normalizeLimit limit in
  wp (GetFeed (New group sql_feed []) (mkFeedRequest scene cursor limit viewer ctx))
    (fun r w' => db w' = db w /\ exists page, scene_rows scene' viewer cursor n (db w) = inr page /\
       fr_Items r = (fun row => shown (db w) viewer row.1 row.2) <$> page /\
       (fr_HasMore r = false -> scene_rows scene' viewer cursor (-1) (db w) = inr page) /\
       (fr_HasMore r = true -> exists page',
          scene_rows scene' viewer (fr_NextCursor r) (normalizeLimit limit') (db w) = inr page' /\
          scene_rows scene' viewer cursor (n + normalizeLimit limit') (db w) = inr (page ++ page')))
    (fun e w' => feed_failure (db w) scene' viewer cursor e /\ db w' = db w) w.
Proof.
  intros Hw Hrange scene' n. pose proof (reachable_ok _ Hw) as Hi.
  eapply wp_mono; [by apply wp_GetFeed| |done].
  intros r w' [Hdb (page & Hpage & Hitems & Hmore & Hless)]. split; [done|]. exists page. split_and!; try done.
  intros Hm. destruct (Hmore Hm) as (row & Hlast & ->).
  eapply scene_continues; try done; apply Z.lt_le_incl, limit_positive.
Qed.
End FeedProperties.

(** ** Examples *)

Lemma w10_videos : map_to_list (video (db w10)) = [(1, w10_video)].
Proof. vm_compute. reflexivity. Qed.

Lemma w10_video_in_range :
  vm_ID w10_video = 1 /\ FeedRepo.hotScoreExpression (db w10) w10_video = 8 /\
  FeedRepo.published_at w10_video = 63000000000 * second.
Proof. vm_compute. repeat split. Qed.

Lemma w10_video_range : video_range (db w10).
Proof.
  intros k v Hk. apply elem_of_map_to_list in Hk. rewrite w10_videos in Hk.
  apply list_elem_of_singleton in Hk as [= -> ->].
  destruct w10_video_in_range as (-> & -> & ->). unfold rfc3339_range, second. lia.
Qed.

(** A feed with the cache in front. *)
Definition cached_feed : Service := New (fun _ load => load) sql_feed [WithFeedCache FeedCache.feed_cache].

Lemma feed_shows_published_witness :
  sv_repo cached_feed = sql_feed /\
  wp (GetFeed cached_feed (mkFeedRequest "timeline" "" 10 2 ∅))
    (fun r w' => Forall (fun i => is_published (db w') (fi_VideoID i)) (fr_Items r)) (fun _ _ => True) w10.
Proof.
  assert (sv_repo cached_feed = sql_feed) as Hs by reflexivity. split; [exact Hs|].
  exact (feed_shows_published cached_feed (mkFeedRequest "timeline" "" 10 2 ∅) w10 Hs).
Defined.

Lemma feed_is_the_reference_witness :
  reachable w10 /\ video_range (db w10) /\
  wp (GetFeed (New (fun _ load => load) sql_feed []) (mkFeedRequest "hot" "" 10 2 ∅))
    (fun r w' => fi_LikeCount <$> fr_Items r = [1] /\ fi_Liked <$> fr_Items r = [true])
    (fun e w' => db w' = db w10) w10.
Proof.
  split; [exact w10_reachable|]. split; [exact w10_video_range|].
  pose proof (feed_is_the_reference (fun _ load => load) "hot" "" 10 2 ∅ 10 w10
    w10_reachable w10_video_range) as Hfeed.
  cbv zeta in Hfeed. eapply wp_mono; [exact Hfeed|..].
  - intros r w' (_ & page & Hpage & Hitems & _). rewrite Hitems.
    vm_compute in Hpage. injection Hpage as Hpage. subst page. split; vm_compute; reflexivity.
  - intros e w' [_ H]. exact H.
Defined.

(** * What the recommendations guarantee *)

Section RecommendationProperties.
Context `{Collation, !CollationLaws} `{Codec} `{MathLib}.

(** A candidate that may be shown: a published video the user has not been shown in the seven
    days before some moment of the request. *)
Definition fresh (w w' : World) (userID : Z) (c : Candidate) : Prop :=
  exists v now, video (db w) !! cd_VideoID c = Some v /\ vm_AuthorID v = cd_AuthorID c /\
    vm_Status v = VideoDomain.StatusPublished /\ clock_of w <= now <= clock_of w' /\
    forall x, exposures (db w) !! (userID, cd_VideoID c) = Some x ->
      xm_LastExposedAt x < now - RecentExposureWindow.

Definition pool_ok (w w' : World) (userID : Z) (pool : list Candidate) : Prop :=
  NoDup (cd_VideoID <$> pool) /\ Forall (fresh w w' userID) pool.

(** Only the environment changed. *)
Definition quiet (w w' : World) : Prop := db w' = db w /\ clock_of w <= clock_of w'.

Lemma quiet_trans w1 w2 w3 : quiet w1 w2 -> quiet w2 w3 -> quiet w1 w3.
Proof. intros [Hd1 Hc1] [Hd2 Hc2]. split; [congruence|lia]. Qed.

Lemma fresh_later w w1 w2 u c : quiet w1 w2 -> fresh w w1 u c -> fresh w w2 u c.
Proof.
  intros [_ Hc] (v & now & Hv & Ha & Hs & Hnow & Hx). exists v, now. split_and!; try done; lia.
Qed.

Lemma wp_quiet_query {A} (f : Tables -> A) w :
  wp (query f) (fun a w' => a = f (db w) /\ quiet w w') (fun e w' => quiet w w') w.
Proof.
  unfold query, wp, mbind, M_bind, call, read_db, quiet, clock_of.
  destruct (faults (env w)) as [|[t|] fs]; simpl; repeat split; done || lia.
Qed.

Lemma wp_ListCandidatePool u limit w :
  videos_ok (db w) ->
  wp (RecommendationRepo.ListCandidatePool u limit)
    (fun pool w' => quiet w w' /\ pool_ok w w' u pool) (fun e w' => quiet w w') w.
Proof.
  intros Hok. unfold RecommendationRepo.ListCandidatePool. destruct (limit <=? 0).
  { apply wp_ret. split; [split; [done|lia]|]. split; constructor. }
  apply wp_bind, wp_time_now. intros now e Hnow Hc.
  assert (quiet w (with_env w e)) as Hq by (split; [done|unfold clock_of in *; simpl; lia]).
  eapply wp_mono; [apply wp_quiet_query| |by intros err w' ?%(quiet_trans _ _ _ Hq)].
  intros pool w' [-> Hq']. simpl. split; [by eapply quiet_trans|]. split.
  - rewrite <-list_fmap_compose.
    assert (NoDup (RecommendationRepo.candidate_page u (now - RecentExposureWindow) limit (db w))) as Hnd.
    { apply sql_page_NoDup, (video_positions (FeedRepo.hot_pos (db w)) w); [done|]. by intros a b [= _ _ ?]. }
    apply NoDup_fmap_2_strong; [|done].
    intros a b ((ka & Hka) & _)%RecommendationRepo.elem_of_candidate_page
      ((kb & Hkb) & _)%RecommendationRepo.elem_of_candidate_page Heq. simpl in Heq.
    apply (ok_video_id _ Hok) in Hka as Ha, Hkb as Hb. subst. rewrite Heq in Hka. congruence.
  - apply Forall_forall. intros c (v & -> & Hv)%list_elem_of_fmap.
    apply RecommendationRepo.elem_of_candidate_page in Hv as ((k & Hk) & Hb & Hx).
    pose proof (ok_video_id _ Hok _ _ Hk) as ->. exists v, now. simpl. split_and!; [done|done| | | |].
    + by apply andb_true_iff in Hb as [?%Z.eqb_eq _].
    + exact Hnow.
    + destruct Hq' as [_ Hq']. unfold clock_of in *. simpl in Hq'. lia.
    + intros x Hxx. unfold RecommendationRepo.recently_exposed in Hx. rewrite Hxx in Hx. lia.
Qed.

Definition quietly {A} (m : M A) : Prop := forall w, wp m (fun _ w' => quiet w w') (fun _ w' => quiet w w') w.

Lemma quietly_ret {A} (a : A) : quietly (mret a).
Proof. intros w. apply wp_ret. split; [done|unfold clock_of; lia]. Qed.

Lemma quietly_bind {A B} (m : M A) (f : A -> M B) : quietly m -> (forall a, quietly (f a)) -> quietly (m ≫= f).
Proof.
  intros Hm Hf w. apply wp_bind. eapply wp_mono; [apply Hm| |done]. intros a w1 Hq.
  eapply wp_mono; [apply Hf|..]; intros ? w2 Hq2; exact (quiet_trans _ _ _ Hq Hq2).
Qed.

Lemma quietly_query {A} (f : Tables -> A) : quietly (query f).
Proof. intros w. eapply wp_mono; [apply wp_quiet_query| |done]. by intros a w' [_ ?]. Qed.

Lemma quietly_time_now : quietly time_now.
Proof.
  intros w. apply wp_time_now. intros now e Hnow Hc. split; [done|]. unfold clock_of. simpl. lia.
Qed.

Ltac quiet_solve :=
  repeat first [apply quietly_ret | apply quietly_query | apply quietly_time_now
               | apply quietly_bind; [|intros ?] | case_match].

Lemma rank_quietly u pool : quietly (rankCandidates u pool).
Proof.
  unfold rankCandidates, service_now. case_match; [apply quietly_ret|]. cbv zeta.
  apply quietly_bind; [|intros vectors; apply quietly_bind; [|intros v; quiet_solve]].
  - unfold RecommendationRepo.LoadVideoVectors. quiet_solve.
  - unfold RecommendationRepo.LoadUserInterestVector. quiet_solve.
Qed.

Lemma wp_rankCandidates u pool w :
  wp (rankCandidates u pool)
    (fun ranked w' => quiet w w' /\ exists score, ranked ≡ₚ score <$> pool /\
       forall c, cd_VideoID (score c) = cd_VideoID c /\ cd_AuthorID (score c) = cd_AuthorID c)
    (fun e w' => quiet w w') w.
Proof.
  pose proof (rank_quietly u pool w) as Hq. unfold rankCandidates in *. destruct pool as [|c pool].
  { apply wp_ret. split; [split; [done|lia]|]. by exists id. }
  cbv zeta in *. unfold wp, mbind, M_bind, mret, M_ret, service_now in *.
  destruct (RecommendationRepo.LoadVideoVectors _ w) as [[e|vectors] w1]; [done|].
  destruct (RecommendationRepo.LoadUserInterestVector u w1) as [[e|v] w2]; [done|].
  set (score := score_candidate (time_Truncate (clock (env w2) + Z.of_N (default 0%N (head (ticks (env w2))))) minute) v vectors).
  split; [exact Hq|]. exists score. split; [|done].
  exact (stable_sort_Permutation candidate_less (score <$> c :: pool)).
Qed.

Lemma pool_ok_fmap w w' u (score : Candidate -> Candidate) pool :
  (forall c, cd_VideoID (score c) = cd_VideoID c /\ cd_AuthorID (score c) = cd_AuthorID c) ->
  pool_ok w w' u pool -> pool_ok w w' u (score <$> pool).
Proof.
  intros Hs [Hnd Hf]. split.
  - rewrite <-list_fmap_compose. erewrite list_fmap_ext; [exact Hnd|]. intros i c _. by apply Hs.
  - apply Forall_fmap. eapply Forall_impl; [exact Hf|]. intros c. unfold fresh. simpl.
    by destruct (Hs c) as [-> ->].
Qed.

Lemma pool_ok_submseteq w w' u pool pool' : pool' ⊆+ pool -> pool_ok w w' u pool -> pool_ok w w' u pool'.
Proof.
  intros [rest Hperm]%submseteq_Permutation [Hnd Hf]. unfold pool_ok. rewrite Hperm in Hf, Hnd.
  rewrite fmap_app in Hnd. apply NoDup_app in Hnd as [Hnd _]. by apply Forall_app in Hf as [Hf _].
Qed.

Lemma filterByCursor_submseteq cs cursor : filterByCursor cs cursor ⊆+ cs.
Proof.
  unfold filterByCursor. case_match; [|done]. apply sublist_submseteq, sublist_filter.
Qed.

(** The candidates of one author stand apart, as far as there are others to put between: the
    list is a part without neighbours of one author, followed by candidates of the author of
    its last element only. *)
Definition spread_out (l : list Candidate) : Prop :=
  exists a b, l = a ++ b /\
    (forall i c c', a !! i = Some c -> a !! S i = Some c' -> cd_AuthorID c <> cd_AuthorID c') /\
    forall c, c ∈ b -> exists c', last a = Some c' /\ cd_AuthorID c' = cd_AuthorID c.

Lemma interleave_spread cs :
  Forall (fun c => 0 < cd_AuthorID c) cs -> (2 < length cs)%nat -> spread_out (interleaveByAuthor cs).
Proof.
  intros Hcs Hlen. unfold interleaveByAuthor.
  destruct (interleave_total cs Hcs Hlen) as (out & -> & _ & a & b & -> & Ha & Hb). simpl.
  exists a, b. split; [done|]. split.
  - intros i c c'. by apply (apart_lookup None).
  - intros c Hc. rewrite Forall_forall in Hb. specialize (Hb c Hc). unfold last_author in Hb.
    destruct (last a) as [c'|]; [|done]. exists c'. split; [done|congruence].
Qed.

(** C31: recommendations are fresh: an answer holds at most the number of videos asked for (100
    at most), no video twice, each of them published and not shown to the user in the last
    seven days, and, when it has more than two, spread over their authors; the database does
    not change. Every failure is an error of the service itself. *)
Theorem recommendations_are_fresh input w :
  reachable w -> (forall k v, video (db w) !! k = Some v -> 0 < vm_AuthorID v) ->
  wp (Recommend input)
    (fun r w' => db w' = db w /\ len_z (rr_Candidates r) <= RecommendationService.normalizeLimit (rq_Limit input) <= 100 /\
       NoDup (cd_VideoID <$> rr_Candidates r) /\
       Forall (fresh w w' (rq_UserID input)) (rr_Candidates r) /\
       ((2 < length (rr_Candidates r))%nat -> spread_out (rr_Candidates r)))
    (fun e w' => db w' = db w /\
       (e = EApp ErrLoadRecommendationFailed \/ exists err, e = ERecommendation err)) w.
Proof.
  intros Hw Hauthors. pose proof (in_video _ (reachable_ok _ Hw)) as Hok. unfold Recommend. cbv zeta.
  destruct (parseCursor (rq_Cursor input)) as [err|cursor]; [apply wp_throw; eauto|].
  destruct (NewCandidateRequest _ _ _ _ _) as [err|req] eqn:Hreq; [apply wp_throw; eauto|].
  assert (cr_UserID req = rq_UserID input) as ->.
  { unfold NewCandidateRequest in Hreq. cbv zeta in Hreq. repeat case_match; simplify_eq; done. }
  apply wp_bind, wp_map_error. eapply wp_mono; [by apply wp_ListCandidatePool| |by intros e w' [-> _]; auto].
  intros pool w1 [Hq1 Hpool]. apply wp_bind, wp_map_error.
  eapply wp_mono; [apply wp_rankCandidates| |by intros e w' [-> _]; destruct Hq1 as [-> _]; auto].
  intros ranked w2 (Hq2 & score & Hperm & Hscore).
  set (cut := filterByCursor ranked (cr_Cursor req)).
  pose proof (normalize_limit_bounds 10 100 (rq_Limit input)) as Hlim.
  set (n := RecommendationService.normalizeLimit (rq_Limit input)). change (normalize_limit 10 100 _) with n in Hlim.
  destruct (page_of n cut) as [page more] eqn:Hpage.
  assert (page ⊆+ cut /\ len_z page <= n) as [Hsub Hlen].
  { unfold page_of in Hpage. injection Hpage as <- _. destruct (Z.ltb_spec n (Z.of_nat (length cut))).
    - split; [apply sublist_submseteq, sublist_take|]. unfold len_z. rewrite length_take. lia.
    - split; [done|]. unfold len_z. lia. }
  apply wp_ret. simpl.
  assert (pool_ok w w2 (rq_UserID input) (interleaveByAuthor page)) as [Hnd Hfresh].
  { eapply (pool_ok_submseteq _ _ _ (score <$> pool)).
    - rewrite interleaveByAuthor_Permutation, Hsub. unfold cut. by rewrite filterByCursor_submseteq, Hperm.
    - apply pool_ok_fmap; [done|]. destruct Hpool as [Hnd Hf]. split; [done|].
      eapply Forall_impl; [exact Hf|]. intros c. by apply fresh_later. }
  split_and!; try done.
  - destruct Hq1, Hq2. congruence.
  - unfold len_z.
    rewrite (Permutation_length (interleaveByAuthor_Permutation page)). exact Hlen.
  - lia.
  - rewrite (Permutation_length (interleaveByAuthor_Permutation page)). apply interleave_spread.
    rewrite <-(interleaveByAuthor_Permutation page). eapply Forall_impl; [exact Hfresh|].
    intros c (v & now & Hv & <- & _). by eapply Hauthors.
Qed.
End RecommendationProperties.

(** ** An example: the one video was made by account 1 and shown to account 2 just now *)

Lemma w10_authors k v : video (db w10) !! k = Some v -> 0 < vm_AuthorID v.
Proof.
  assert (forallb (fun kv => 0 <? vm_AuthorID kv.2) (map_to_list (video (db w10))) = true) as Ha
    by (vm_compute; reflexivity).
  intros Hk%elem_of_map_to_list. rewrite forallb_forall in Ha. apply list_elem_of_In in Hk.
  by apply Z.ltb_lt, (Ha _ Hk).
Qed.

Lemma recommendations_are_fresh_witness :
  reachable w10 /\ (forall k v, video (db w10) !! k = Some v -> 0 < vm_AuthorID v) /\
  wp (Recommend (mkRecommendInput 2 "recommend" "r" "" 10))
    (fun r w' => NoDup (cd_VideoID <$> rr_Candidates r)) (fun e w' => db w' = db w10) w10.
Proof.
  split; [exact w10_reachable|]. split; [exact w10_authors|].
  eapply wp_mono; [exact (recommendations_are_fresh (mkRecommendInput 2 "recommend" "r" "" 10) w10
    w10_reachable w10_authors)|..].
  - intros r w' (_ & _ & H & _). exact H.
  - intros e w' [H _]. exact H.
Defined.

(** ** The vectors of the videos' texts *)

Section EmbeddingProperties.
Context `{Collation, !CollationLaws} `{Codec, !CodecLaws} `{Unicode}.
Import EmbeddingDomain.
Import OtherServices.EmbeddingService.

Definition video_text (event : PublishedEvent) : string :=
  BuildVideoText (pe_Title event) (pe_Description event).

(** The row of the video has the vector of its text; nothing else is changed. *)
Definition embedded (event : PublishedEvent) (d d' : Tables) : Prop :=
  exists b, d' = set_video_embedding <[(pe_VideoID event, collate HashNgramModel) := b]> d /\
    bm_VideoID b = pe_VideoID event /\ collate (bm_Model b) = collate HashNgramModel /\
    bm_Dimension b = 128 /\ bm_TextHash b = TextHash (video_text event) /\
    json_UnmarshalFloats (bm_EmbeddingJSON b) = Some (Vectorize 128 (video_text event)) /\
    (forall old, RecommendationRepo.embedding_of d (pe_VideoID event) = Some old ->
       bm_CreatedAt b = bm_CreatedAt old).

(** The event is delivered [n] times. *)
Fixpoint deliveries (n : nat) (event : PublishedEvent) : M unit :=
  match n with
  | O => mret tt
  | S n => _ ← HandleVideoPublished NewHashNgramVectorizer (Some event); deliveries n event
  end.

Lemma TextHash_trimmed text : trimmed (TextHash text).
Proof. apply visible_trimmed, hex_visible, sha256_bytes. Qed.

Lemma wp_HandleVideoPublished event w :
  RecommendationRepo.embeddings_ok (db w) -> 0 < pe_VideoID event ->
  wp (HandleVideoPublished NewHashNgramVectorizer (Some event))
    (fun _ w' => embedded event (db w) (db w') /\ grows w w') (fun _ w' => db w' = db w /\ grows w w') w.
Proof.
  intros Hi Hid. unfold HandleVideoPublished, GenerateForPublishedVideo.
  destruct (Z.leb_spec (pe_VideoID event) 0); [lia|]. cbv zeta. apply wp_bind.
  simpl vz_Vectorize. simpl vz_Model. fold (video_text event).
  destruct (json_MarshalFloats _) as [content|] eqn:Hj; [|apply wp_throw; auto with store].
  apply json_floats in Hj as [Hj Hv%visible_trimmed].
  apply wp_bind, wp_map_error. eapply wp_mono; [apply RecommendationRepo.wp_SaveVideoEmbedding| |done].
  intros [] w' [[now Hs] Hg]. do 2 apply wp_ret. split; [|done].
  simpl in Hs. replace (TrimSpace HashNgramModel) with HashNgramModel in Hs by (by vm_compute).
  eexists. split; [exact Hs|]. unfold RecommendationRepo.merge_embedding.
  pose proof (TextHash_trimmed (video_text event)) as Ht. unfold trimmed in Hv, Ht.
  pose proof (Vectorize_length HashNgramDimension (video_text event)) as Hlen.
  unfold RecommendationRepo.embedding_of.
  destruct (video_embedding (db w) !! _) as [old|] eqn:Hold; simpl; rewrite ?Hv, ?Ht, ?Hlen.
  - apply Hi in Hold as [= E1 E2]. by split_and!; [..|intros o [= <-]].
  - by split_and!.
Qed.

Lemma embedded_ok event d d' :
  RecommendationRepo.embeddings_ok d -> embedded event d d' -> RecommendationRepo.embeddings_ok d'.
Proof.
  intros Hd (b & -> & Hv & Hm & _). unfold RecommendationRepo.embeddings_ok. simpl.
  apply map_Forall_insert_2; [|done]. by rewrite Hv, Hm.
Qed.

(** Delivered again, the event leaves the same row, with the time of its creation. *)
Lemma embedded_again event d d1 d2 : embedded event d d1 -> embedded event d1 d2 -> embedded event d d2.
Proof.
  intros (a & -> & _ & _ & _ & _ & _ & Ha) (b & -> & Hv & Hm & Hdim & Hth & Hj & Hb). exists b.
  unfold RecommendationRepo.embedding_of in *. cbn in Hb. rewrite lookup_insert_eq in Hb.
  split_and!; try done.
  - unfold set_video_embedding. simpl. by rewrite insert_insert_eq.
  - intros old Hold. rewrite (Hb a eq_refl). by apply Ha.
Qed.

Lemma wp_deliveries n event w :
  RecommendationRepo.embeddings_ok (db w) -> 0 < pe_VideoID event ->
  wp (deliveries n event)
    (fun _ w' => db w' = db w /\ n = O \/ embedded event (db w) (db w'))
    (fun _ w' => db w' = db w \/ embedded event (db w) (db w')) w.
Proof.
  intros Hok Hid. revert w Hok. induction n as [|n IH]; intros w Hok; [apply wp_ret; auto|].
  apply wp_bind. eapply wp_mono; [by apply wp_HandleVideoPublished| |intros e w' [E _]; by left].
  intros [] w1 [Hem _]. eapply wp_mono; [apply IH; by eapply embedded_ok|..]; cbv beta.
  - intros _ w2 [[-> _]|Hem2]; right; [done|by eapply embedded_again].
  - intros _ w2 [->|Hem2]; right; [done|by eapply embedded_again].
Qed.

(** C32: the vector of a video's text reaches the recommender. However often the event of a
    published video is delivered to the worker of the embeddings, once it was handled the
    recommender loads the 128 numbers of the video's text for that video, and what it loaded
    before for any other; the tables change in the row of the video's vector only, which keeps
    the time of its creation. A delivery that fails leaves the tables or that row. *)
Theorem embeddings_reach_the_recommender n event ids w :
  reachable w -> 0 < pe_VideoID event ->
  wp (_ ← deliveries (S n) event; RecommendationRepo.LoadVideoVectors ids)
    (fun vectors w' => embedded event (db w) (db w') /\
       len_z (Vectorize HashNgramDimension (video_text event)) = 128 /\
       forall v, vectors !! v =
         if negb (FeedRepo.in_ids ids v) then None
         else if v =? pe_VideoID event then Some (Vectorize HashNgramDimension (video_text event))
         else RecommendationRepo.vector_of (db w) v)
    (fun _ w' => db w' = db w \/ embedded event (db w) (db w')) w.
Proof.
  intros Hw Hid. pose proof (in_embedding _ (reachable_ok _ Hw)) as Hok.
  apply wp_bind. eapply wp_mono; [by apply wp_deliveries| |done].
  intros [] w1 [[_ [=]]|Hem]. pose proof (embedded_ok _ _ _ Hok Hem) as Hok1.
  eapply wp_mono; [by apply RecommendationRepo.wp_LoadVideoVectors|..]; cbv beta;
    [intros vectors w2 [-> Hl]|intros e w2 ->; by right].
  split; [done|]. split; [apply Vectorize_length|]. intros v. rewrite Hl.
  destruct (FeedRepo.in_ids ids v); [simpl|done].
  destruct Hem as (b & -> & Hv & Hm & _ & _ & Hj & _).
  unfold RecommendationRepo.vector_of, RecommendationRepo.embedding_of. simpl.
  destruct (Z.eqb_spec v (pe_VideoID event)) as [->|Hne].
  - by rewrite lookup_insert_eq.
  - rewrite lookup_insert_ne; [done|]. intros [=]. congruence.
Qed.
End EmbeddingProperties.

(** ** An example: the event of a video, delivered twice *)

Definition a_published_event : PublishedEvent := mkPublishedEvent "e" 1 1 "first" "" "m.mp4" "c.jpg" 0 0.

Lemma embeddings_reach_the_recommender_witness :
  reachable w10 /\ 0 < pe_VideoID a_published_event /\
  wp (_ ← deliveries 2 a_published_event; RecommendationRepo.LoadVideoVectors [1; 2])
    (fun vectors _ => vectors !! 1 = Some (EmbeddingDomain.Vectorize 128 "first") /\ vectors !! 2 = None)
    (fun _ _ => False) w10.
Proof.
  split; [exact w10_reachable|]. split; [done|].
  assert (exists vectors w', (_ ← deliveries 2 a_published_event; RecommendationRepo.LoadVideoVectors [1; 2]) w10
    = (inr vectors, w')) as (vectors & w' & Hrun) by (eexists _, _; vm_compute; reflexivity).
  pose proof (embeddings_reach_the_recommender 1 a_published_event [1; 2] w10 w10_reachable eq_refl) as H.
  unfold wp in H |- *. rewrite Hrun in H |- *. destruct H as (_ & _ & H).
  split; rewrite H; vm_compute; reflexivity.
Defined.
