(* ===== verification/FeedCacheProperties.v ===== *)
(** * What the feed cache guarantees

    The fast path of likes and favourites is the ledger; what is written into the indexes is
    read back. *)
From S2P Require Import Prelude.
From S2P Require Import GoStd.
From S2P Require Import GoConv.
From S2P Require Import InteractionDomain.
From S2P Require Import FeedDomain.
From S2P Require Import Errors.
From S2P Require Import Models.
From S2P Require Import Redis.
From S2P Require Import Store.
From S2P Require Import RedisClient.
From S2P Require Import Codec.
From S2P Require Import Ports.
From S2P Require Import FeedCache.
From S2P Require Import ActionLedger.
From S2P Require Import RepoProperties.
From S2P Require Import ServiceExamples.

(** ** The counters that are read *)

Definition int_range (n : Z) : Prop := - 2 ^ 62 <= n < 2 ^ 62.

Definition stat_range (s : VideoStat) : Prop :=
  int_range (vs_LikeCount s) /\ int_range (vs_CommentCount s) /\ int_range (vs_FavoriteCount s).

(** Numbers small enough for an [int]. *)
Definition ledger_range (L : Ledger) : Prop :=
  Z.of_nat (size (lg_rows L)) < 2 ^ 61 /\ map_Forall (fun _ => stat_range) (lg_base L).

Lemma sum_fields (field : string) (c : Z -> Z) (l : list Z) hs acc :
  Forall2 (fun s h => counter_field h field (c s)) l hs -> (forall s, 0 <= c s) -> 0 <= acc ->
  acc + sum_Z (c <$> l) < 2 ^ 63 ->
  foldl (fun n values => int64_of (n + actionStatFieldInt values field)) acc hs = acc + sum_Z (c <$> l).
Proof.
  intros Hf Hc. revert acc. induction Hf as [|s h l hs Hh Hl IH]; intros acc Ha Hs; [simpl; lia|].
  rewrite fmap_cons, sum_Z_cons in *. assert (0 <= sum_Z (c <$> l)).
  { clear -Hc. induction l as [|x l IH]; [done|]. rewrite fmap_cons, sum_Z_cons. specialize (Hc x). lia. }
  pose proof (Hc s). cbn [foldl]. rewrite (field_of_counter _ _ (c s)) by (done || lia).
  rewrite int64_of_id by lia. rewrite IH by lia. lia.
Qed.

Lemma Forall2_exists {A B} (P : A -> B -> Prop) (l : list A) :
  (forall x, x ∈ l -> exists y, P x y) -> exists k, Forall2 P l k.
Proof.
  induction l as [|x l IH]; intros H; [by exists []|]. destruct (H x) as (y & Hy); [left|].
  destruct IH as (k & Hk); [intros z Hz; apply H; by right|]. exists (y :: k). by constructor.
Qed.

Definition ledger_stat (L : Ledger) (video : Z) : FeedStat :=
  mkFeedStat video (ledger_count L video ActionTypeLike)
    (match lg_base L !! video with Some s => vs_CommentCount s | None => 0 end)
    (ledger_count L video ActionTypeFavorite).

Lemma clamp_max z : clampRedisCount z = Z.max 0 z.
Proof. unfold clampRedisCount. destruct (Z.ltb_spec z 0); lia. Qed.

Lemma active_count_range L v ty : ledger_range L -> 0 <= active_count L v ty < 2 ^ 61.
Proof.
  intros [Hs _]. unfold active_count. pose proof (map_count_nonneg (row_counts v ty) (lg_rows L)).
  pose proof (map_count_le_size (row_counts v ty) (lg_rows L)). lia.
Qed.

(** The deltas of the shards add up to the active rows. *)
Lemma apply_deltas_before until L video stat w :
  tracks (clock_of w) until (redis w) L -> ledger_range L ->
  int_range (fs_LikeCount stat) -> int_range (fs_FavoriteCount stat) ->
  before until (applyActionStatShardDeltas stat (interactionStatCounterShardKeys video))
    (fun r w' => redis w' = redis w /\ r.1 = mkFeedStat (fs_VideoID stat)
       (Z.max 0 (fs_LikeCount stat + active_count L video ActionTypeLike)) (fs_CommentCount stat)
       (Z.max 0 (fs_FavoriteCount stat + active_count L video ActionTypeFavorite)))
    (fun e w' => redis w' = redis w) w.
Proof.
  intros Ht Hr Hl Hf. unfold applyActionStatShardDeltas.
  assert (exists k ks, interactionStatCounterShardKeys video = k :: ks) as (k & ks & Hk).
  { eexists _, _. reflexivity. }
  rewrite Hk. cbv iota beta. rewrite <-Hk. clear k ks Hk. apply before_bind.
  { intros a. apply external_ret. }
  apply before_read; [|done]. intros now w' hs Hnow Ho Hredis Hhs.
  destruct (Forall2_exists (fun s h => holds (clock_of w) until (redis w) (interactionStatCounterShardKey video s) h
    /\ shard_hash h L video s) shards (tk_shard _ _ _ _ Ht video)) as (hs' & Hall).
  assert (hs = hs') as ->.
  { apply mapM_Some in Hhs. unfold interactionStatCounterShardKeys in Hhs. fold shards in Hhs.
    apply Forall2_fmap_l in Hhs. revert Hhs. induction Hall as [|s h l hs' [Hh _] Hall IH] in hs |- *; intros Hhs.
    - by apply Forall2_nil_inv_l in Hhs.
    - apply Forall2_cons_inv_l in Hhs as (h2 & hs2 & Hh2 & Hhs & ->). simpl in Hh2.
      rewrite (Hh now) in Hh2 by lia. injection Hh2 as <-. f_equal. by apply IH. }
  assert (forall ty, action_type ty ->
    sum_field hs' (interactionStatField ty) = active_count L video ty) as Hsum.
  { intros ty Hty. unfold sum_field. rewrite <-shards_sum.
    assert (Z.of_nat (size (lg_rows L)) < 2 ^ 62) as Hsize by (destruct Hr; lia).
    rewrite (sum_fields _ (shard_count L video ty) shards); [done| |intros s; by apply shard_count_range|done|].
    - eapply Forall2_impl; [exact Hall|]. intros s h [_ Hh]. by apply Hh.
    - rewrite shards_sum. pose proof (active_count_range L video ty Hr). lia. }
  pose proof (active_count_range L video ActionTypeLike Hr). pose proof (active_count_range L video ActionTypeFavorite Hr).
  unfold int_range in *. apply before_ret. intros _. split; [done|].
  pose proof (Hsum ActionTypeLike (or_introl eq_refl)) as Hlike.
  pose proof (Hsum ActionTypeFavorite (or_intror eq_refl)) as Hfavorite.
  change (interactionStatField _) with "like_count"%string in Hlike.
  change (interactionStatField _) with "favorite_count"%string in Hfavorite.
  cbn [fst]. rewrite Hlike, Hfavorite. rewrite !clamp_max, !int64_of_id by lia. done.
Qed.

Lemma external_actionStat base keys json video init : external (actionStat base keys json video init).
Proof.
  unfold actionStat, actionStatWithPresence, actionStatFallback, applyActionStatShardDeltas. external_solve.
Qed.

Lemma base_fields_read h video s : stat_range s -> base_hash h (Some s) ->
  h <> ∅ /\ applyActionStatFields video h
  = mkFeedStat video (vs_LikeCount s) (vs_CommentCount s) (vs_FavoriteCount s).
Proof.
  intros (Hl & Hc & Hf) (Hhl & Hhc & Hhf). unfold int_range in *. split; [by intros ->|].
  unfold applyActionStatFields. by rewrite (field_of_fmt _ _ (vs_LikeCount s) ltac:(lia) Hhl),
    (field_of_fmt _ _ (vs_CommentCount s) ltac:(lia) Hhc),
    (field_of_fmt _ _ (vs_FavoriteCount s) ltac:(lia) Hhf).
Qed.

(** The counters of a video that is in the ledger. *)
Lemma actionStat_before until L video json init w :
  tracks (clock_of w) until (redis w) L -> ledger_range L -> is_Some (lg_base L !! video) ->
  before until (actionStat (interactionStatCounterBaseKey video) (interactionStatCounterShardKeys video)
      json video init)
    (fun stat w' => redis w' = redis w /\ stat = ledger_stat L video) (fun e w' => redis w' = redis w) w.
Proof.
  intros Ht Hr [s Hs]. unfold actionStat. apply before_bind; [intros ?; apply external_ret|].
  unfold actionStatWithPresence. apply before_bind.
  { intros h. unfold actionStatFallback, applyActionStatShardDeltas. external_solve. }
  destruct (tk_base _ _ _ _ Ht video) as (hb & Hhb & Hbase). rewrite Hs in Hbase.
  pose proof (proj2 Hr video s Hs) as Hsr. destruct (base_fields_read hb video s Hsr Hbase) as [Hne Hread].
  apply before_read; [|done]. intros now w1 h Hnow Ho1 Hr1 Hh. rewrite (Hhb now) in Hh by lia. injection Hh as <-.
  rewrite decide_False by done. apply before_bind.
  { intros ?. unfold applyActionStatShardDeltas. external_solve. }
  apply before_ret. intros _. simpl default. apply before_bind; [intros []; apply external_ret|].
  assert (tracks (clock_of w1) until (redis w1) L) as Ht1.
  { rewrite Hr1. eapply tracks_later; [|exact Ht]. by apply outside_clock. }
  rewrite Hread. destruct Hsr as (Hl & _ & Hf).
  eapply wp_mono; [exact (apply_deltas_before until L video
    (mkFeedStat video (vs_LikeCount s) (vs_CommentCount s) (vs_FavoriteCount s)) w1 Ht1 Hr Hl Hf)|..].
  - intros [stat found] w2 [Ho2 Hst]. split; [done|]. intros Hu. destruct (Hst Hu) as [Hr2 Hstat]. simpl in Hstat.
    apply before_ret. intros _. apply before_ret. intros _. split; [congruence|].
    assert (bool_decide (is_Some (Some (mkFeedStat video (vs_LikeCount s) (vs_CommentCount s) (vs_FavoriteCount s))))
      || found = true) as -> by done. simpl. rewrite Hstat. unfold ledger_stat, ledger_count, base_count.
    by rewrite Hs.
  - intros e w2 [Ho2 He]. split; [done|]. intros Hu. rewrite (He Hu). exact Hr1.
Qed.

Lemma request_in_base L u v ty active key init :
  is_Some (lg_base (request_of L u v ty active key init) !! v).
Proof. rewrite request_base, lookup_insert_eq. by eexists. Qed.

Lemma request_range L u v ty active key init :
  ledger_range L -> Z.of_nat (size (lg_rows L)) < 2 ^ 61 - 1 ->
  match init with Some s => stat_range s | None => True end ->
  ledger_range (request_of L u v ty active key init).
Proof.
  intros [_ Hb] Hs Hi. split.
  - rewrite request_rows. rewrite map_size_insert. destruct (lg_rows L !! _); simpl; lia.
  - rewrite request_base. apply map_Forall_insert_2; [|done]. destruct (lg_base L !! v) as [s|] eqn:Hv.
    + by eapply Hb.
    + simpl. destruct init as [s|]; [done|]. repeat split; simpl; lia.
Qed.

Section FeedCacheProperties.
Context `{Codec}.

(** What the ledger answers. *)
Definition ledger_result (L : Ledger) (user video : Z) (type : string) (active : bool) (key : string)
    (initialStat : option VideoStat) : ActionStateResult :=
  let L' := request_of L user video type active key initialStat in
  let '(effective, delta) := answer_of L user video type active key initialStat in
  mkActionStateResult video type effective (ledger_count L' video ActionTypeLike)
    (ledger_count L' video ActionTypeFavorite) delta key.

Lemma stat_key_free video (L : Ledger) t until now r s ttl :
  tracks t until r L -> tracks t until (redis_set now (feedStatKey video) s ttl r) L.
Proof. apply tracks_other with (feedStatKey video); [apply set_only|discriminate..]. Qed.

(** The last steps: the counters are read and copied to the key of the feed. *)
Lemma finish_action until L video type key active delta init w :
  tracks (clock_of w) until (redis w) L -> ledger_range L -> is_Some (lg_base L !! video) ->
  before until
    (stat ← actionStat (interactionStatCounterBaseKey video) (interactionStatCounterShardKeys video)
              (feedStatKey video) video init;
     _ ← ignore (setActionStatJSON (feedStatKey video) stat);
     mret (mkActionStateResult video type active (fs_LikeCount stat) (fs_FavoriteCount stat) delta key))
    (fun r w' => tracks (clock_of w') until (redis w') L /\
       r = mkActionStateResult video type active (ledger_count L video ActionTypeLike)
             (ledger_count L video ActionTypeFavorite) delta key)
    (fun e w' => tracks (clock_of w') until (redis w') L) w.
Proof.
  intros Ht Hr Hb. apply before_bind.
  { intros s. unfold ignore. external_solve. }
  eapply wp_mono; [exact (actionStat_before until L video (feedStatKey video) init w Ht Hr Hb)|..].
  2: { intros e w1 [Ho Hw]. split; [done|]. intros Hu. rewrite (Hw Hu).
       eapply tracks_later; [|exact Ht]. by apply outside_clock. }
  intros stat w1 [Ho Hw]. split; [done|]. intros Hu. destruct (Hw Hu) as [Hr1 ->].
  assert (tracks (clock_of w1) until (redis w1) L) as Ht1.
  { rewrite Hr1. eapply tracks_later; [|exact Ht]. by apply outside_clock. }
  apply before_bind; [intros; apply external_ret|]. unfold ignore.
  apply before_bind; [intros; apply external_ret|]. apply before_attempt. unfold setActionStatJSON.
  apply before_request. intros now w2 Hnow Hle Ho2. simpl.
  assert (forall r, r = redis w1 \/ r = redis_set now (feedStatKey video) (JStat (ledger_stat L video)) actionStatJSONTTL (redis w1) ->
    tracks (clock_of w2) until r L) as Hset.
  { intros r Hrr. eapply tracks_later; [by apply outside_clock|].
    destruct Hrr as [-> | ->]; [done|by apply stat_key_free]. }
  split; [intros Hr2|intros e Hr2]; apply before_ret; intros _; apply before_ret; intros _; auto.
Qed.

Ltac external_action :=
  unfold ignore, setActionStatJSON, redis_watch_exec; external_solve;
  try apply external_actionStat.

(** C8: likes and favourites are a ledger: as long as the keys of Redis hold a ledger (a new
    cache holds the empty one) and the request ends within a day, a request is answered as the
    ledger answers it, and the keys then hold the ledger with the request. In particular a
    repeated key changes nothing, every other request sets the state of one user, and the
    counters are those the video began with and the number of users whose action is active,
    however the users are spread over the shards. A request that fails leaves one of the two
    ledgers. *)
Theorem SetActionState_is_the_ledger (user video : Z) actionType active key init L until w :
  tracks (clock_of w) until (redis w) L -> ledger_range L ->
  Z.of_nat (size (lg_rows L)) < 2 ^ 61 - 1 -> match init with Some s => stat_range s | None => True end ->
  until <= clock_of w + actionStatTTL ->
  before until (SetActionState user video actionType active key init)
    (fun r w' => exists type, NormalizeActionType actionType = inr type /\
       tracks (clock_of w') until (redis w') (request_of L user video type active (TrimSpace key) init) /\
       r = ledger_result L user video type active (TrimSpace key) init)
    (fun e w' => (NormalizeActionType actionType = inl ErrInvalidActionType /\
         e = EInteraction ErrInvalidActionType /\ w' = w) \/
       exists type, NormalizeActionType actionType = inr type /\
         (tracks (clock_of w') until (redis w') L \/
          tracks (clock_of w') until (redis w') (request_of L user video type active (TrimSpace key) init))) w.
Proof.
  intros Ht Hr Hs Hi Hu. unfold SetActionState. destruct (NormalizeActionType actionType) as [err|type] eqn:Hn.
  { unfold NormalizeActionType in Hn. case_match; [|done]. injection Hn as <-. apply wp_throw. split; [done|]. by left. }
  pose proof (NormalizeActionType_cases _ _ Hn) as Htype. cbv zeta. set (id := TrimSpace key).
  apply before_bind; [intros values; by external_action|].
  destruct (tk_action _ _ _ _ Ht user video type Htype) as (h & Hh & Hact).
  apply before_read.
  2: { intros e w1 Ho Hr1. right. exists type. split; [done|]. left. rewrite Hr1.
       eapply tracks_later; [by apply outside_clock|exact Ht]. }
  intros now w1 values Hnow Ho1 Hr1 Hv. rewrite (Hh now) in Hv by lia. injection Hv as <-.
  pose proof (action_decision_ledger h _ active id Hact) as Hdec.
  rewrite <-(answer_decision L user video type active id init) in Hdec.
  destruct (answer_of L user video type active id init) as [effective delta] eqn:Hans. rewrite Hdec.
  assert (tracks (clock_of w1) until (redis w1) L) as Ht1.
  { rewrite Hr1. eapply tracks_later; [|exact Ht]. by apply outside_clock. }
  apply before_bind; [intros t; by external_action|]. apply before_time_now. intros t w2 Ho2 Hr2.
  apply before_bind; [intros []; by external_action|]. rewrite <-Hr2 in Ht1.
  apply before_request. intros now2 w3 Hnow2 Hle Ho3.
  pose proof (tracks_later _ now2 _ _ _ (proj1 Hnow2) (tracks_later _ (clock_of w2) _ _ _
    ltac:(by apply outside_clock) Ht1)) as Ht2.
  unfold redis_watch_exec. cbv beta.
  assert (outside w w2) as Ho12 by by etrans. destruct Ho12 as (_ & _ & _ & Hw2).
  rewrite decide_True by (rewrite Hr2, Hr1; apply Hh; lia).
  destruct (run_request until now2 (redis w2) L user video type active id (FormatRFC3339Nano t) init Ht2 Htype)
    as (r3 & Hrun & Hafter); [destruct Hr; lia|lia|lia|].
  pose proof (after_tracks until now2 (redis w2) L user video type active id init Ht2 Htype r3 Hafter) as Ht3.
  rewrite Hans in Hrun. cbn [fst snd] in Hrun. rewrite Hrun.
  set (L' := request_of L user video type active id init) in *. cbn [pipe_answer fst snd]. split.
  - intros Hr3. eapply wp_mono; [apply (finish_action until L' video type id effective delta init w3)|..].
    + rewrite Hr3. by eapply tracks_later; [|exact Ht3].
    + by apply request_range.
    + apply request_in_base.
    + intros a w4 [Ho4 Hq]. split; [done|]. intros Hu4. destruct (Hq Hu4) as [Ht4 ->]. exists type.
      split_and!; [done..|]. unfold ledger_result. by rewrite Hans.
    + intros e w4 [Ho4 He]. split; [done|]. intros Hu4. right. exists type. split; [done|]. right. by apply He.
  - intros e [Hr3|Hr3]; right; exists type; (split; [done|]); rewrite Hr3; [left|right];
      by eapply tracks_later; [exact Hle|].
Qed.
(** ** Members of the indexes *)

Lemma no_colon_fmt_split (video author : Z) (at_ : string) :
  split3_colon (fmt_d video +:+ ":" +:+ fmt_d author +:+ ":" +:+ at_) = [fmt_d video; fmt_d author; at_].
Proof.
  unfold split3_colon. rewrite cut_colon_app by apply fmt_d_no_colon.
  by rewrite cut_colon_app by apply fmt_d_no_colon.
Qed.

(** What the following index stores is what it shows: the member of a published video is
    read back as the video, its author and its time, to the nanosecond, whatever colons the
    time has. *)
Theorem following_member_roundtrip `{!CodecLaws} video author publishedAt :
  0 < video < 2 ^ 63 -> - 2 ^ 63 <= author < 2 ^ 63 -> rfc3339_range publishedAt -> publishedAt <> 0 ->
  feedPageItemFromFollowingMember (followingIndexMember video author publishedAt)
  = Some (mkFeedPageItem video author publishedAt 0).
Proof.
  intros Hv Ha Hp Hzero. unfold feedPageItemFromFollowingMember, followingIndexMember.
  rewrite no_colon_fmt_split, ParseInt_fmt_d, Atoi_fmt_d, rfc3339_roundtrip by (done || lia).
  destruct (Z.leb_spec video 0); [lia|]. unfold time_IsZero. by destruct (Z.eqb_spec publishedAt 0).
Qed.

Lemma hot_rank_roundtrip video : 0 < video < 2 ^ 63 -> hotRankVideoID (hotRankMember video) = Some video.
Proof.
  intros Hv. unfold hotRankVideoID, hotRankMember, fmt_0d. destruct (Z.ltb_spec video 0); [lia|].
  destruct (fmt_d_digits video) as (ds & Hds & Hd & Hval & Hne); [lia|]. rewrite <-Hds in Hd, Hval.
  destruct (pad_zeros_digits 20 _ Hd) as [Hpd Hpv]. destruct (trim_zeros_value _ Hpd) as [Htd Htv].
  assert (digits_value 0 (string_bytes (trim_zeros (pad_zeros 20 (fmt_d video)))) = video) as Hfinal by congruence.
  destruct (String.eqb_spec (trim_zeros (pad_zeros 20 (fmt_d video))) "") as [He|He].
  - rewrite He in Hfinal. simpl in Hfinal. lia.
  - rewrite ParseInt_digits by (done || (rewrite Hfinal; lia)). rewrite Hfinal.
    destruct (Z.ltb_spec 0 video); [done|lia].
Qed.
End FeedCacheProperties.

(** ** Examples *)

Definition a_day_from_now : Time := clock_of w0 + actionStatTTL.

Lemma empty_range : ledger_range empty_ledger.
Proof. split; [by vm_compute|]. apply map_Forall_empty. Qed.

(** Two likes already counted, and one more. *)
Lemma SetActionState_is_the_ledger_witness :
  tracks (clock_of w0) a_day_from_now (redis w0) empty_ledger /\ ledger_range empty_ledger /\
  before a_day_from_now (SetActionState 7 1 "like" true "k" (Some (mkVideoStat 1 2 0 0)))
    (fun r w' => st_LikeCount r = 3 /\ st_Delta r = 1) (fun e w' => True) w0.
Proof.
  assert (tracks (clock_of w0) a_day_from_now (redis w0) empty_ledger) as Ht by apply empty_tracks.
  assert (ledger_range empty_ledger) as Hr by exact empty_range.
  split; [exact Ht|]. split; [exact Hr|].
  assert (Z.of_nat (size (lg_rows empty_ledger)) < 2 ^ 61 - 1) as Hs by (vm_compute; reflexivity).
  assert (stat_range (mkVideoStat 1 2 0 0)) as Hi.
  { split; [split; vm_compute; congruence|]. split; split; vm_compute; congruence. }
  assert (a_day_from_now <= clock_of w0 + actionStatTTL) as Hu by (vm_compute; congruence).
  pose proof (SetActionState_is_the_ledger 7 1 "like" true "k" (Some (mkVideoStat 1 2 0 0)) empty_ledger
    a_day_from_now w0 Ht Hr Hs Hi Hu) as Hledger.
  unfold before in Hledger |- *. eapply wp_mono; [exact Hledger|..].
  - intros r w' [Ho Hq]. split; [exact Ho|]. intros Hlt. destruct (Hq Hlt) as (type & Hn & _ & Heq).
    vm_compute in Hn. injection Hn as Hn. subst type. rewrite Heq. split; vm_compute; reflexivity.
  - intros e w' [Ho _]. split; [exact Ho|]. intros _. exact I.
Defined.

Lemma following_member_roundtrip_witness :
  rfc3339_range (63000000000 * second) /\
  feedPageItemFromFollowingMember (followingIndexMember 12 7 (63000000000 * second))
  = Some (mkFeedPageItem 12 7 (63000000000 * second) 0).
Proof.
  assert (rfc3339_range (63000000000 * second)) as Hr by (split; vm_compute; congruence).
  split; [exact Hr|]. apply following_member_roundtrip.
  - split; vm_compute; reflexivity.
  - split; vm_compute; congruence.
  - exact Hr.
  - vm_compute. discriminate.
Defined.
