(* ===== verification/FanoutProperties.v ===== *)
(** * What the fan-out worker delivers ([fanout_worker.go], [feed_cache.go])

    The worker as the main package starts it, down to the sorted sets in Redis. *)
From S2P Require Import Prelude.
From S2P Require Import GoStd.
From S2P Require Import FeedDomain.
From S2P Require Import Errors.
From S2P Require Import Models.
From S2P Require Import Paging.
From S2P Require Import Redis.
From S2P Require Import Store.
From S2P Require Import RedisClient.
From S2P Require Import Codec.
From S2P Require RelationRepo.
From S2P Require FeedRepo.
From S2P Require Import Ports.
From S2P Require RecommendationService.
From S2P Require Import FeedCache.
From S2P Require VideoService.
From S2P Require Import Wiring.
From S2P Require Import Edge.
From S2P Require Import EdgeRules.
From S2P Require Import System.
From S2P Require Import RepoProperties.
From S2P Require Import ServiceExamples.

(** ** Sorted sets that are cut *)

Lemma insert_sorted_scores x l :
  StronglySorted (fun a b : string * Z => b.2 <= a.2) l ->
  StronglySorted (fun a b : string * Z => b.2 <= a.2) (insert_sorted zset_less x l).
Proof.
  induction 1 as [|y l Hs IH Hall]; simpl; [by repeat constructor|].
  destruct (zset_less y x) eqn:Hl; unfold zset_less in Hl.
  - constructor; [exact IH|]. rewrite insert_sorted_Permutation. constructor; [|exact Hall].
    apply orb_true_iff in Hl as [Hl|[Hl _]%andb_true_iff]; lia.
  - apply orb_false_iff in Hl as [Hl _]. constructor; [by constructor|]. constructor; [lia|].
    eapply Forall_impl; [exact Hall|]. simpl. intros b Hb. lia.
Qed.

Lemma zset_desc_scores z : StronglySorted (fun a b : string * Z => b.2 <= a.2) (zset_desc z).
Proof.
  unfold zset_desc, stable_sort. induction (map_to_list z) as [|x l IH]; simpl; [constructor|].
  by apply insert_sorted_scores.
Qed.

Lemma zset_desc_NoDup z : NoDup (zset_desc z).*1.
Proof. unfold zset_desc. rewrite stable_sort_Permutation. apply NoDup_fst_map_to_list. Qed.

(** A member stays among the [n] highest, or they all have at least its score. *)
Lemma highest_kept z member score n :
  z !! member = Some score -> 0 < n ->
  let z' := list_to_map (M := gmap string Z) (take (Z.to_nat n) (zset_desc z)) in
  z' <> ∅ /\
  (z' !! member = Some score \/ Z.of_nat (size z') = n /\ forall m s, z' !! m = Some s -> score <= s).
Proof.
  intros Hz Hn z'. pose proof (zset_desc_NoDup z) as Hnd. pose proof (zset_desc_scores z) as Hsorted.
  assert ((member, score) ∈ zset_desc z) as Hin.
  { unfold zset_desc. rewrite stable_sort_Permutation. by apply elem_of_map_to_list. }
  subst z'. rewrite <-(take_drop (Z.to_nat n) (zset_desc z)) in Hnd, Hin, Hsorted.
  rewrite fmap_app in Hnd. apply NoDup_app in Hnd as (Hnt & _ & _).
  apply elem_of_app in Hin as [Hin|Hin].
  - assert (list_to_map (M := gmap string Z) (take (Z.to_nat n) (zset_desc z)) !! member = Some score) as Hl
      by by apply elem_of_list_to_map_1.
    split; [|by left]. intros E. by rewrite E in Hl.
  - assert (length (take (Z.to_nat n) (zset_desc z)) = Z.to_nat n) as Hlen.
    { rewrite length_take. assert (length (drop (Z.to_nat n) (zset_desc z)) <> 0%nat) as Hd.
      { intros E%nil_length_inv. rewrite E in Hin. by apply not_elem_of_nil in Hin. }
      rewrite length_drop in Hd. lia. }
    assert (size (list_to_map (M := gmap string Z) (take (Z.to_nat n) (zset_desc z))) = Z.to_nat n) as Hsize.
    { by rewrite map_size_list_to_map. }
    split; [intros E; rewrite E, map_size_empty in Hsize; lia|]. right. split; [lia|].
    intros m s Hm%elem_of_list_to_map_2. by apply (StronglySorted_app_1_elem_of _ _ _ _ _ Hsorted Hm Hin).
Qed.

(** ** The commands of the index *)

(** The sorted set at [key] has the item, or is full of items that are at least as new; and it
    stays for the time of an index after [from]. *)
Definition indexed (key member : string) (score maxLen : Z) (from : Time) (r : Redis) : Prop :=
  exists z t, r !! key = Some (mkEntry (RZset z) (Some t)) /\ from + followingIndexKeyTTL <= t /\
    (z !! member = Some score \/ Z.of_nat (size z) = maxLen /\ forall m s, z !! m = Some s -> score <= s).

Lemma indexed_earlier key member score n from from' r :
  from' <= from -> indexed key member score n from r -> indexed key member score n from' r.
Proof. intros Hle (z & t & Hr & Ht & Hz). exists z, t. split_and!; [done|lia|done]. Qed.

Lemma zset_at_put now key z r : z <> ∅ -> zset_at now (zset_put now key z r) key = Some z.
Proof. intros Hz. unfold zset_put, zset_at. rewrite decide_False by done. by rewrite redis_get_put. Qed.

Lemma zset_put_ne now key key' z r : key' <> key -> zset_put now key z r !! key' = r !! key'.
Proof.
  intros Hk. unfold zset_put, redis_put. case_decide; [by rewrite lookup_delete_ne|by rewrite lookup_insert_ne].
Qed.

Lemma run_pipe_cons now cmd cmds r r' :
  run_pipe now (cmd :: cmds) r = (true, r') ->
  exists r1, cmd now r = Some r1 /\ run_pipe now cmds r1 = (true, r').
Proof. cbn [run_pipe]. destruct (cmd now r) as [r1|]; [by exists r1|]. by destruct (run_pipe now cmds r). Qed.

Lemma run_index now key member score n rest r r' :
  0 < n -> run_pipe now (index_commands key member score n ++ rest) r = (true, r') ->
  exists r1, run_pipe now rest r1 = (true, r') /\ indexed key member score n now r1 /\
    forall key', key' <> key -> r1 !! key' = r !! key'.
Proof.
  intros Hn. unfold index_commands, redis_zadd, redis_zkeep, pipe_expire, redis_expire. cbn [app].
  intros (r1 & Hadd & (r2 & Hkeep & (r3 & [= <-] & Hrun)%run_pipe_cons)%run_pipe_cons)%run_pipe_cons.
  destruct (zset_at now r key) as [z|]; [|done]. injection Hadd as <-.
  assert (<[member:=score]> z <> ∅) as Hz1 by apply insert_non_empty.
  rewrite zset_at_put in Hkeep by done. injection Hkeep as <-.
  destruct (highest_kept (<[member:=score]> z) member score n) as [Hz2 Hkept]; [apply lookup_insert_eq|done|].
  set (z2 := list_to_map _) in *. set (r1 := zset_put now key _ r) in *.
  assert (redis_get now (zset_put now key z2 r1) key
          = Some (mkEntry (RZset z2) (e ← redis_get now r1 key; e_deadline e))) as Hget.
  { unfold zset_put. rewrite decide_False by done. apply redis_get_put. }
  rewrite Hget in Hrun. eexists. split; [exact Hrun|]. split.
  - exists z2, (now + followingIndexKeyTTL). rewrite lookup_insert_eq. split_and!; [done|lia|exact Hkept].
  - intros key' Hk. rewrite lookup_insert_ne by done. unfold r1. by rewrite !zset_put_ne.
Qed.

Lemma inbox_key_inj u v : followingInboxKey u = followingInboxKey v -> u = v.
Proof. unfold followingInboxKey. intros E. by apply fmt_d_inj, (inj (String.append _) _ _ E). Qed.

(** The inboxes of some users, one after the other. *)
Lemma run_inboxes now member score n ids r r' :
  0 < n -> Forall (fun u => 0 < u) ids ->
  run_pipe now (flat_map (fun u => if u <=? 0 then [] else index_commands (followingInboxKey u) member score n) ids) r
  = (true, r') ->
  (forall u, u ∈ ids -> indexed (followingInboxKey u) member score n now r') /\
  (forall key, (forall u, u ∈ ids -> key <> followingInboxKey u) -> r' !! key = r !! key).
Proof.
  intros Hn Hpos. revert r. induction Hpos as [|u ids Hu Hpos IH]; intros r.
  { cbn. intros [= ->]. split; [|done]. by intros u ?%not_elem_of_nil. }
  cbn [flat_map]. destruct (Z.leb_spec u 0); [lia|]. intros (r1 & Hrun & Hix & Hne)%run_index; [|done].
  destruct (IH _ Hrun) as [Hids Hother]. split.
  - intros v [->|Hv]%elem_of_cons; [|by apply Hids]. destruct (decide (u ∈ ids)) as [|Hu']; [by apply Hids|].
    destruct Hix as (z & t & Hr & Hz). exists z, t. rewrite Hother; [done|].
    intros v Hv E%inbox_key_inj. by subst.
  - intros key Hk. rewrite Hother; [apply Hne, Hk; by left|]. intros v Hv. apply Hk. by right.
Qed.

Section Fanout.
Context `{CollationLaws} `{Codec} `{RecommendationService.MathLib}.

(** ** The steps of the worker *)

Lemma wp_query_quiet {A} (f : Tables -> A) Q E w :
  (forall w', outside w w' -> redis w' = redis w -> Q (f (db w)) w') ->
  (forall e w', outside w w' -> E e w') -> wp (query f) Q E w.
Proof.
  intros HQ HE. eapply wp_mono; [apply wp_both; [apply (quiet_query f w)|]| |].
  - apply (wp_query _ (fun a w' => a = f (db w) /\ redis w' = redis w) (fun _ _ => True)); by intros.
  - intros a w' [Ho [-> Hr]]. by apply HQ.
  - intros e w' [Ho _]. by apply HE.
Qed.

(** Values under keys that are no inboxes. *)
Lemma wp_set_values {B} (key : B -> string) (v : B -> json_value) ttl l w :
  (forall b u, key b <> followingInboxKey u) ->
  wp (redis_pipe ((fun b => pipe_set (key b) (v b) ttl) <$> l))
    (fun _ w' => outside w w' /\ forall u, redis w' !! followingInboxKey u = redis w !! followingInboxKey u)
    (fun _ w' => outside w w') w.
Proof.
  intros Hk. apply wp_redis_pipe; [|by intros].
  intros now w' _ _ Ho Hrun. split; [done|]. intros u. revert Hrun. generalize (redis w).
  induction l as [|b l IH]; intros r; [by intros [= ->]|]. cbn. intros Hrun%IH. rewrite Hrun.
  apply lookup_insert_ne, Hk.
Qed.

Lemma wp_preheat videoID ttl w :
  wp (PreheatFeedVideo (NewFeedPreheater feed_repository FeedCache.feed_cache_writer) videoID ttl)
    (fun _ w' => outside w w' /\ forall u, redis w' !! followingInboxKey u = redis w !! followingInboxKey u)
    (fun _ w' => db w' = db w) w.
Proof.
  cbn [PreheatFeedVideo NewFeedPreheater]. unfold VideoService.preheat_video.
  destruct (videoID <=? 0); [by apply wp_ret|].
  apply wp_bind, wp_bind, wp_query_quiet; [|by intros e w' [? _]]. intros w1 Ho1 Hr1. apply wp_ret, wp_bind.
  eapply (wp_mono _ (fun _ w' => outside w1 w' /\ forall u, redis w' !! followingInboxKey u = redis w1 !! followingInboxKey u)
            _ (fun _ w' => outside w1 w')).
  { case_match; [|by apply wp_ret]. cbn [cw_SetCards FeedCache.feed_cache_writer]. unfold FeedCache.SetCards.
    case_match; [|by apply wp_throw]. by apply wp_set_values. }
  2: { intros e w2 Ho2. by destruct (transitivity Ho1 Ho2). }
  intros _ w2 [Ho2 Hr2]. apply wp_bind, wp_bind, wp_query_quiet.
  2: { intros e w3 Ho3. by destruct (transitivity Ho1 (transitivity Ho2 Ho3)). }
  intros w3 Ho3 Hr3. apply wp_ret. pose proof (transitivity Ho1 (transitivity Ho2 Ho3)) as Ho.
  assert (forall u, redis w3 !! followingInboxKey u = redis w !! followingInboxKey u) as Hr.
  { intros u. by rewrite Hr3, Hr2, Hr1. }
  case_match; [|by apply wp_ret]. cbn [cw_SetStats FeedCache.feed_cache_writer]. unfold FeedCache.SetStats.
  eapply wp_mono; [by apply wp_set_values|..].
  - intros _ w4 [Ho4 Hr4]. split; [by etrans|]. intros u. by rewrite Hr4.
  - intros e w4 Ho4. by destruct (transitivity Ho Ho4).
Qed.

Lemma wp_AddInboxItems author ids item n w :
  0 < author -> 0 < pi_VideoID item -> time_IsZero (pi_PublishedAt item) = false -> 0 < n ->
  Forall (fun u => 0 < u) ids ->
  let member := followingIndexMember (pi_VideoID item) author (pi_PublishedAt item) in
  let score := followingIndexScore (pi_PublishedAt item) (pi_VideoID item) in
  wp (AddInboxItems author ids (Some item) n)
    (fun _ w' => outside w w' /\
       (forall u, u ∈ ids -> indexed (followingInboxKey u) member score n (clock_of w) (redis w')) /\
       (forall key, (forall u, u ∈ ids -> key <> followingInboxKey u) -> redis w' !! key = redis w !! key))
    (fun _ w' => outside w w') w.
Proof.
  intros Ha Hv Ht Hn Hpos member score. unfold AddInboxItems.
  destruct (Z.leb_spec author 0); [lia|]. destruct (Z.leb_spec (pi_VideoID item) 0); [lia|]. rewrite Ht. cbn [orb].
  case_bool_decide; [subst; apply wp_ret; split_and!; [done| |done]; by intros u ?%not_elem_of_nil|].
  destruct (Z.leb_spec n 0); [lia|]. apply wp_redis_pipe; [|by intros].
  intros now w' Hnow _ Ho (Hids & Hother)%run_inboxes; [|done..]. split_and!; [done| |done].
  intros u Hu. eapply indexed_earlier; [exact Hnow|]. by apply Hids.
Qed.

Lemma wp_AddAuthorOutboxItem author item n w :
  0 < author -> 0 < pi_VideoID item -> time_IsZero (pi_PublishedAt item) = false -> 0 < n ->
  wp (AddAuthorOutboxItem author (Some item) n)
    (fun _ w' => outside w w' /\
       indexed (followingAuthorOutboxKey author) (followingIndexMember (pi_VideoID item) author (pi_PublishedAt item))
         (followingIndexScore (pi_PublishedAt item) (pi_VideoID item)) n (clock_of w) (redis w') /\
       (forall key, key <> followingAuthorOutboxKey author -> redis w' !! key = redis w !! key))
    (fun _ w' => outside w w') w.
Proof.
  intros Ha Hv Ht Hn. unfold AddAuthorOutboxItem.
  destruct (Z.leb_spec author 0); [lia|]. destruct (Z.leb_spec (pi_VideoID item) 0); [lia|]. rewrite Ht. cbn [orb].
  destruct (Z.leb_spec n 0); [lia|]. apply wp_redis_pipe; [|by intros].
  intros now w' Hnow _ Ho Hrun. rewrite <-(app_nil_r (index_commands _ _ _ _)) in Hrun.
  apply run_index in Hrun as (r1 & [= ->] & Hix & Hother); [|done]. split_and!; [done| |done].
  by eapply indexed_earlier.
Qed.

Lemma quiet_CountFollowers author : quiet (FeedRepo.CountFollowers author).
Proof. unfold FeedRepo.CountFollowers. repeat quiet_step. Qed.

(** ** The loop over the followers *)

Lemma wp_fanout_loop author item fuel cursor rest w :
  RelationRepo.relation_ok (db w) -> Forall (fun u => 0 < u) (FeedRepo.followers author (db w)) ->
  filter (fun id => FeedRepo.beyond cursor id = true) (FeedRepo.followers author (db w)) = rest ->
  (length rest < fuel)%nat ->
  0 < author -> 0 < pi_VideoID item -> time_IsZero (pi_PublishedAt item) = false ->
  let member := followingIndexMember (pi_VideoID item) author (pi_PublishedAt item) in
  let score := followingIndexScore (pi_PublishedAt item) (pi_VideoID item) in
  wp (VideoService.fanout_loop fuel feed_repository FeedCache.following_index core_fanout author item cursor)
    (fun r w' => r = Some tt /\ db w' = db w /\
       (forall u, u ∈ rest -> indexed (followingInboxKey u) member score 1000 (clock_of w) (redis w')) /\
       (forall key, (forall u, u ∈ rest -> key <> followingInboxKey u) -> redis w' !! key = redis w !! key))
    (fun _ w' => db w' = db w) w.
Proof.
  intros Hok Hpos Hrest Hfuel Ha Hv Ht member score.
  revert cursor rest w Hok Hpos Hrest Hfuel. induction fuel as [|fuel IH]; intros cursor rest w Hok Hpos Hrest Hfuel; [lia|].
  cbn [VideoService.fanout_loop]. apply wp_bind. cbn [fr_ListFollowerIDs feed_repository].
  apply wp_query_quiet; [|by intros e w' [? _]]. intros w1 Ho1 Hr1. pose proof (proj1 Ho1) as Hdb1. rewrite Hrest.
  change (VideoService.fw_batchSize core_fanout) with 500. change (VideoService.fw_inboxMaxLen core_fanout) with 1000.
  unfold sql_limit. change (500 <? 0) with false. cbv iota. set (n := Z.to_nat 500).
  assert (Z.of_nat n = 500) as Hn by done. clearbody n.
  destruct (last (take n rest)) as [lastID|] eqn:Hlast.
  2: { apply wp_ret. apply last_None in Hlast. assert (rest = []) as ->.
       { apply length_zero_iff_nil. apply (f_equal length) in Hlast. rewrite length_take in Hlast. simpl in Hlast. lia. }
       split_and!; [done|done| |by rewrite Hr1]. by intros u ?%not_elem_of_nil. }
  assert (Forall (fun u => 0 < u) (take n rest)) as Hbatch.
  { apply Forall_take. rewrite Forall_forall in Hpos |- *. rewrite <-Hrest.
    intros u [_ Hu]%list_elem_of_filter. by apply Hpos. }
  apply wp_bind. cbn [ix_AddInboxItems FeedCache.following_index].
  eapply wp_mono; [by apply wp_AddInboxItems| |intros e w2 [Hdb2 _]; congruence].
  intros [] w2 (Ho2 & Hids & Hother). pose proof (transitivity Ho1 Ho2) as Ho. pose proof (proj1 Ho) as Hdb2.
  fold member score in Hids. pose proof Ho1 as (_ & _ & _ & Hc1 & _). pose proof Ho as (_ & _ & _ & Hc & _).
  rewrite length_take. destruct (Z.ltb_spec (Z.of_nat (n `min` length rest)) 500).
  { apply wp_ret. rewrite take_ge in Hids, Hother by lia. split_and!; [done|done|..].
    - intros u Hu. by eapply indexed_earlier, Hids.
    - intros key Hk. by rewrite Hother, Hr1. }
  eapply wp_mono; [apply (IH lastID (drop n rest)); rewrite ?Hdb2; try done|..].
  - eapply FeedRepo.filter_beyond; [by apply FeedRepo.followers_sorted|done|exact Hrest|done].
  - rewrite length_drop. lia.
  - intros r w3 (-> & Hdb3 & Hids3 & Hother3). split_and!; [done|congruence|..].
    + intros u Hu. destruct (decide (u ∈ drop n rest)) as [Hd|Hd]; [by eapply indexed_earlier, Hids3|].
      rewrite <-(take_drop n rest) in Hu. apply elem_of_app in Hu as [Hu|Hu]; [|done].
      destruct (Hids _ Hu) as (z & t & Hz & Hlife & Hkept). exists z, t.
      rewrite Hother3; [split_and!; [done|lia|done]|]. intros v Hv' E%inbox_key_inj. by subst.
    + intros key Hk. rewrite Hother3, Hother, Hr1; [done|..]; intros u Hu; apply Hk;
        rewrite <-(take_drop n rest), elem_of_app; auto.
  - intros e w3 Hdb3. congruence.
Qed.

(** C35: the worker that the main package starts gives a published video to the inbox of every
    follower of its author: a run that does not fail ends (one round more than there are
    followers is enough) and leaves, for each follower and nobody else, a sorted set with the
    video under its score, or, if the inbox is full, one whose 1000 items all have at least that
    score; it stays for thirty days. The followers of an author with
    [BigCreatorFollowerThreshold] followers or more are not written to: the video is in the
    author's own outbox of 500 items, which they read. The tables stay, and so they do in a run
    that fails. *)
Theorem fanout_reaches_all_followers event fuel w :
  reachable w ->
  0 < pe_VideoID event -> 0 < pe_AuthorID event -> time_IsZero (pe_PublishedAt event) = false ->
  Forall (fun id => 0 < id) (FeedRepo.followers (pe_AuthorID event) (db w)) ->
  (length (FeedRepo.followers (pe_AuthorID event) (db w)) < fuel)%nat ->
  let author := pe_AuthorID event in
  let member := followingIndexMember (pe_VideoID event) author (pe_PublishedAt event) in
  let score := followingIndexScore (pe_PublishedAt event) (pe_VideoID event) in
  let follows u := RelationRepo.is_following (user_follow (db w)) u author = true in
  wp (VideoService.HandleVideoPublished fuel core_fanout (Some event))
    (fun r w' => r = Some tt /\ db w' = db w /\
       if BigCreatorFollowerThreshold <=? map_count (RelationRepo.followed author) (user_follow (db w))
       then indexed (followingAuthorOutboxKey author) member score 500 (clock_of w) (redis w') /\
            (forall u, redis w' !! followingInboxKey u = redis w !! followingInboxKey u)
       else (forall u, follows u -> indexed (followingInboxKey u) member score 1000 (clock_of w) (redis w')) /\
            (forall u, ~ follows u -> redis w' !! followingInboxKey u = redis w !! followingInboxKey u))
    (fun _ w' => db w' = db w) w.
Proof.
  intros Hw Hv Ha Ht Hpos Hfuel author member score follows. pose proof (in_relation _ (reachable_ok _ Hw)) as Hok.
  unfold VideoService.HandleVideoPublished.
  destruct (Z.leb_spec (pe_VideoID event) 0); [lia|]. destruct (Z.leb_spec (pe_AuthorID event) 0); [lia|].
  cbn [orb VideoService.fw_preheater VideoService.fw_repo VideoService.fw_index core_fanout VideoService.NewFanoutWorker].
  apply wp_bind. eapply wp_mono; [apply wp_preheat| |done]. intros _ w1 [Ho1 Hr1]. pose proof (proj1 Ho1) as Hdb1.
  apply wp_bind. rewrite <-Hdb1 in Hok. pose proof (FeedRepo.wp_CountFollowers w1 (pe_AuthorID event) Hok) as Hcount.
  eapply wp_mono; [apply (wp_both _ _ _ _ _ _ Hcount (quiet_CountFollowers (pe_AuthorID event) w1))| |].
  2: { intros e w2 [Hdb2 _]. congruence. }
  intros count w2 [(_ & [e He] & ->) Ho2]. assert (redis w2 = redis w1) as Hr2 by by rewrite He.
  clear He Hcount. pose proof (transitivity Ho1 Ho2) as Ho. pose proof (proj1 Ho) as Hdb2.
  pose proof Ho as (_ & _ & _ & Hc & _). rewrite Hdb1.
  destruct (BigCreatorFollowerThreshold <=? _).
  - apply wp_bind. eapply wp_mono; [by apply wp_AddAuthorOutboxItem| |intros e' w3 [Hdb3 _]; congruence].
    intros [] w3 (Ho3 & Hix & Hother). apply wp_ret. split_and!; [done|by destruct (transitivity Ho Ho3)|..].
    + by eapply indexed_earlier.
    + intros u. by rewrite Hother, Hr2, Hr1.
  - eapply wp_mono; [apply wp_fanout_loop with (rest := FeedRepo.followers author (db w)); rewrite ?Hdb2; try done|..].
    + by rewrite Hdb1 in Hok.
    + apply filter_all. by intros id _.
    + intros r w3 (-> & Hdb3 & Hids & Hother). rewrite Hdb1 in Hok. split_and!; [done|congruence|..].
      * intros u Hu. by eapply indexed_earlier, Hids, FeedRepo.elem_of_followers.
      * intros u Hu. rewrite Hother, Hr2, Hr1; [done|]. intros v Hv' E%inbox_key_inj. subst v.
        apply Hu. by apply FeedRepo.elem_of_followers in Hv'.
    + intros e' w3 Hdb3. congruence.
Qed.

End Fanout.

(** The first video of the example world: its author has one follower. *)
Definition first_published : PublishedEvent :=
  mkPublishedEvent "e" 1 1 "first" "" "m.mp4" "c.jpg" (63000000000 * second) 0.

Lemma fanout_reaches_all_followers_witness :
  FeedRepo.followers 1 (db w10) = [2] /\
  (VideoService.HandleVideoPublished 2 core_fanout (Some first_published) w10).1 = inr (Some tt) /\
  wp (VideoService.HandleVideoPublished 2 core_fanout (Some first_published))
    (fun r w' => r = Some tt /\
       indexed (followingInboxKey 2) (followingIndexMember 1 1 (63000000000 * second)) (followingIndexScore (63000000000 * second) 1)
         1000 (clock_of w10) (redis w'))
    (fun _ w' => db w' = db w10) w10.
Proof.
  assert (FeedRepo.followers 1 (db w10) = [2]) as Hf by (vm_compute; reflexivity).
  split; [exact Hf|]. split; [vm_compute; reflexivity|].
  eapply wp_mono; [apply (fanout_reaches_all_followers first_published 2 w10 w10_reachable)|..].
  - vm_compute. reflexivity.
  - vm_compute. reflexivity.
  - vm_compute. reflexivity.
  - change (pe_AuthorID first_published) with 1. rewrite Hf. constructor; [lia|constructor].
  - change (pe_AuthorID first_published) with 1. rewrite Hf. simpl. lia.
  - intros r w' (Hr & _ & Hindexed). split; [exact Hr|].
    assert (BigCreatorFollowerThreshold <=? map_count (RelationRepo.followed (pe_AuthorID first_published))
              (user_follow (db w10)) = false) as Hsmall by (vm_compute; reflexivity).
    rewrite Hsmall in Hindexed. apply Hindexed. vm_compute. reflexivity.
  - intros err w' H. exact H.
Defined.
