(* ===== verification/ResilienceProperties.v ===== *)
(** * What the protection against overload and outages guarantees

    The properties of the breaker, the single-flight group, the video cache and the limiter
    of [Resilience], and of the session cache of [SessionCache]. *)
From S2P Require Import Prelude.
From S2P Require Import GoStd.
From S2P Require Resilience.
From S2P Require SessionCache.

(** ** The circuit breaker *)
Module BreakerProperties.
Import Resilience.Breaker.

Definition call_time (c : call) : Time := match c with Allow now => now | Result now _ => now end.

Lemma streak_nonneg cs n last :
  0 <= last -> Forall (fun c => 0 <= call_time c) cs -> 0 <= (streak n last cs).2.
Proof.
  revert n last. induction cs as [|[now|now []] cs IH]; intros n last Hl Hall; [done|..];
    inversion Hall; subst; apply IH; done.
Qed.

(** The times of the requests since the last report, the latest first. *)
Fixpoint waiting (ts : list Time) (cs : list call) : list Time :=
  match cs with
  | [] => ts
  | Allow now :: cs => waiting (now :: ts) cs
  | Result _ _ :: cs => waiting [] cs
  end.

(** What the breaker promises, as a function of the calls so far: a request passes while fewer
    than three failures were reported in a row; after that, from two seconds after the last of
    them on, if it is the first such request since the last report. *)
Definition policy (cs : list call) (now : Time) : bool :=
  let '(n, last) := streak 0 0 cs in
  (n <? 3) || (last + 2 * second <=? now) && negb (existsb (fun t => last + 2 * second <=? t) (waiting [] cs)).

(** A probe is under way exactly when a request passed the open circuit and nothing was
    reported since. *)
Definition probes (b : circuitBreaker) (s : Z * Time) (ts : list Time) : Prop :=
  probing b = (3 <=? s.1) && existsb (fun t => s.2 + 2 * second <=? t) ts.

Lemma run_probes cs b n last ts :
  0 <= last -> Forall (fun c => 0 <= call_time c) cs -> tracks b (n, last) -> probes b (n, last) ts ->
  probes (run b cs) (streak n last cs) (waiting ts cs).
Proof.
  revert b n last ts. induction cs as [|c cs IH]; intros b n last ts Hl Hall Hb Hp; [done|].
  apply Forall_cons in Hall as [Hc Hall]. destruct c as [now|now failed]; simpl in *.
  - apply IH; [done|done|by apply allow_tracks|]. destruct Hb as (_ & _ & Hu). unfold probes, allow in *.
    unfold time_IsZero, time_Before. rewrite Hu. simpl in *. destruct (Z.leb_spec 3 n); simpl in *; [|done].
    assert (0 < second) by done. destruct (Z.eqb_spec (last + 2 * second) 0); [lia|].
    destruct (Z.ltb_spec now (last + 2 * second)), (Z.leb_spec (last + 2 * second) now); try lia; simpl; [done|].
    by destruct (probing b) eqn:E.
  - apply (result_tracks b now failed) in Hb. unfold probes in *. destruct failed; simpl in *.
    + apply IH; [done..|]. unfold probes. simpl. by rewrite andb_false_r.
    + by apply IH.
Qed.

(** C36: the breaker is its policy: after any calls of the requests that it let in or refused
    and of the reports of their outcomes, at any time, it lets a request through exactly when
    fewer than three failures in a row were reported, or the last of them was at least two
    seconds ago and no request has passed the open circuit since the last report. So each
    report, a success or a failure, makes room for another probe. A report is of any request
    that was let in, also of one from before the circuit opened. *)
Theorem breaker_policy cs now :
  Forall (fun c => 0 <= call_time c) cs -> (allow (run new cs) now).1 = policy cs now.
Proof.
  intros Hall. pose proof (run_tracks cs new 0 0 new_tracks) as (_ & _ & Hu).
  pose proof (run_probes cs new 0 0 [] ltac:(lia) Hall new_tracks eq_refl) as Hp.
  pose proof (streak_nonneg cs 0 0 ltac:(lia) Hall) as Hlast. unfold policy, probes in *.
  destruct (streak 0 0 cs) as [n last]. simpl in *. assert (0 < second) as Hsec by done.
  unfold allow, time_IsZero, time_Before. rewrite Hu.
  destruct (Z.leb_spec 3 n), (Z.ltb_spec n 3); try lia; simpl in *; [|done].
  destruct (Z.eqb_spec (last + 2 * second) 0); [lia|]. rewrite Hp.
  by destruct (Z.ltb_spec now (last + 2 * second)), (Z.leb_spec (last + 2 * second) now), (existsb _ _); try lia.
Qed.

Definition three_failures : list call := [Result 5 true; Allow 6; Result 6 true; Result 7 true].

Lemma breaker_policy_witness :
  Forall (fun c => 0 <= call_time c) three_failures /\
  (allow (run new three_failures) (1 * second)).1 = false /\
  (allow (run new (three_failures ++ [Allow (3 * second)])) (4 * second)).1 = false /\
  (allow (run new (three_failures ++ [Allow (3 * second); Result (4 * second) true])) (6 * second)).1 = true.
Proof.
  assert (Forall (fun c => 0 <= call_time c) three_failures) as Hall by (repeat constructor; simpl; lia).
  split; [exact Hall|]. split_and!; rewrite breaker_policy; [by vm_compute|exact Hall|by vm_compute| |by vm_compute|].
  - apply Forall_app; split; [exact Hall|]. by repeat constructor.
  - apply Forall_app; split; [exact Hall|]. by repeat constructor.
Defined.
End BreakerProperties.

(** ** The single-flight group *)
Module FlightProperties.
Import Resilience.Flight.

(** C37: at any moment at most 1024 loads run, no two of them for the same key; a request for a
    key that is being loaded joins that load, and one for another key starts a load unless
    1024 are running; a load that ended is forgotten, so the next request starts a new one,
    and every request that joined it sees the one outcome it had. *)
Theorem flights_are_single {V} (g g' : flightGroup V) key f v :
  reachable g -> rtc step g g' ->
  Z.of_nat (size (calls g)) <= capacity /\
  (forall f1 f2, flights g !! f1 = Some (key, None) -> flights g !! f2 = Some (key, None) -> f1 = f2) /\
  (flights g !! f = Some (key, None) -> enter g key = (Join f, g)) /\
  ((forall f1, flights g !! f1 <> Some (key, None)) ->
     (Z.of_nat (size (calls g)) < capacity -> exists f1 g1, enter g key = (Started f1, g1) /\
        flights g1 !! f1 = Some (key, None)) /\
     (capacity <= Z.of_nat (size (calls g)) -> enter g key = (Busy, g))) /\
  (flights g !! f = Some (key, None) -> forall k', flights (finish g f v) !! f <> Some (k', None)) /\
  (outcome g f = Some v -> outcome g' f = Some v).
Proof.
  intros Hr Hsteps. pose proof (flights_ok g Hr) as [Hc Hrun Hs]. split_and!.
  - done.
  - intros f1 f2 H1%Hrun H2%Hrun. congruence.
  - intros Hf%Hrun. unfold enter. by rewrite Hf.
  - intros Hno. assert (calls g !! key = None) as Hk.
    { destruct (calls g !! key) as [f1|] eqn:Hk; [|done]. by destruct (Hno f1), (Hc _ _ Hk). }
    unfold enter. rewrite Hk. split; intros Hsize.
    + destruct (Z.leb_spec capacity (Z.of_nat (size (calls g)))); [lia|]. do 2 eexists. split; [done|].
      simpl. by rewrite lookup_app_r, Nat.sub_diag by lia.
    + by destruct (Z.leb_spec capacity (Z.of_nat (size (calls g)))); [|lia].
  - intros Hf k'. unfold finish. rewrite Hf. simpl. rewrite list_lookup_insert_eq; [done|].
    by apply lookup_lt_Some in Hf.
  - by apply steps_outcome.
Qed.

Definition one_flight : flightGroup nat := (enter new "k").2.

Lemma flights_are_single_witness :
  rtc step new one_flight /\ enter one_flight "k" = (Join 0, one_flight) /\
  outcome (finish one_flight 0 7%nat) 0 = Some 7%nat.
Proof.
  assert (rtc step new one_flight) as Hr by (apply rtc_once; apply step_enter).
  split; [exact Hr|]. split; [|vm_compute; reflexivity].
  refine (proj1 (proj2 (proj2 (flights_are_single one_flight one_flight "k" 0 7%nat Hr (rtc_refl _ _)))) _).
  vm_compute. reflexivity.
Defined.
End FlightProperties.

(** ** The video cache of a process *)
Module MemoryProperties.
Import Resilience.Memory.

(** C38: the cache never holds more than 512 videos, its list and its map have the same ids, and
    an invalidation cannot be undone: what was loaded before it (with an older generation) is
    not stored after it, whatever calls follow. *)
Theorem memory_is_bounded_and_fenced {V} (Missing : V -> bool) cs cs' id :
  let m := run Missing new cs in
  Z.of_nat (length cs) + Z.of_nat (length cs') + 1 < 2 ^ 64 ->
  Forall (old_put id (generation m)) cs' ->
  memory_ok m /\ (size (entries m) <= limit)%nat /\
  entries (run Missing (invalidate m id) cs') !! id = None.
Proof.
  intros m Hlen Hold.
  assert (memory_ok m) as Hok by apply run_ok, new_ok.
  pose proof (run_epoch Missing cs new) as He. fold m in He. simpl in He.
  split_and!; [done|by apply memory_size|].
  apply run_fenced with (g := generation m); unfold generation in *; simpl.
  - rewrite Z.mod_small; lia.
  - rewrite Z.mod_small; lia.
  - rewrite Z.mod_small; lia.
  - apply lookup_delete_eq.
  - done.
Qed.

Definition put_once : list (@call nat) := [Put 1 7%nat 0 0].

Lemma memory_is_bounded_and_fenced_witness :
  is_Some (entries (run (fun _ => false) new put_once) !! 1) /\
  entries (run (fun _ => false) (invalidate (run (fun _ => false) new put_once) 1) put_once) !! 1 = None.
Proof.
  split; [vm_compute; eexists; reflexivity|].
  refine (proj2 (proj2 (memory_is_bounded_and_fenced (fun _ => false) put_once put_once 1 _ _))).
  - vm_compute. reflexivity.
  - constructor; [|constructor]. intros _. vm_compute. discriminate.
Defined.
End MemoryProperties.

(** ** The limiter *)
Module LimiterProperties.
Import Resilience.Limiter.

Lemma run_size rs l : Z.of_nat (size l) <= capacity -> Z.of_nat (size (run l rs).2) <= capacity.
Proof.
  revert l. induction rs as [|r rs IH]; intros l Hl; [done|]. simpl.
  pose proof (take_size l (r_key r) (r_max r) (r_window r) (r_now r) Hl) as Ht.
  destruct (take l (r_key r) (r_max r) (r_window r) (r_now r)) as [a l']. simpl in Ht.
  specialize (IH l' Ht). by destruct (run l' rs).
Qed.

(** The limiter never keeps more than 10000 keys, and lets at most [max] requests for a key
    through in a window that begins when the key has no budget in use; the requests of other
    keys do not matter. *)
Theorem limiter_budget l key max window t0 rs :
  Z.of_nat (size l) <= capacity -> 0 <= max -> 0 <= t0 ->
  (forall v, l !! key = Some v -> expires v <= t0) ->
  Forall (fun r => t0 <= r_now r < t0 + window /\
            (r_key r = key -> r_max r = max /\ r_window r = window)) rs ->
  granted key rs (run l rs).1 <= max /\ Z.of_nat (size (run l rs).2) <= capacity.
Proof.
  intros Hs Hmax H0 Hfree Hall. split; [|by apply run_size]. clear Hs.
  revert l Hfree. induction rs as [|r rs IH]; intros l Hfree; [done|]. simpl.
  inversion Hall as [|? ? [Hnow Hkey] Hall']; subst.
  pose proof (take_free l key r t0 Hfree ltac:(lia)) as Ht.
  destruct (take l (r_key r) (r_max r) (r_window r) (r_now r)) as [a l'].
  destruct (String.eqb_spec (r_key r) key) as [Hk|Hne].
  - destruct (Hkey Hk) as [Hm Hw]. rewrite Hm, Hw in Ht. destruct Ht as [[-> Hfree']|[-> Hl']].
    + specialize (IH Hall' l' Hfree'). destruct (run l' rs) as [out l'']. simpl in *. lia.
    + pose proof (run_budget key max rs l' _ Hl') as Hb.
      destruct (run l' rs) as [out l'']. simpl in *.
      assert (granted key rs out <= Z.max 0 (max - 1)).
      { apply Hb. eapply Forall_impl; [exact Hall'|]. simpl. intros r' [Hn' Hk']. split; [lia|].
        intros Hr'. by apply Hk'. }
      destruct (Z.leb_spec 1 max); simpl; lia.
  - specialize (IH Hall' l' Ht). destruct (run l' rs) as [out l'']. simpl in *. lia.
Qed.

Definition four_requests : list request := repeat (mkRequest "k" 2 60 5) 4.

Lemma limiter_budget_witness :
  granted "k" four_requests (run ∅ four_requests).1 = 2 /\
  granted "k" four_requests (run ∅ four_requests).1 <= 2.
Proof.
  split; [vm_compute; reflexivity|].
  refine (proj1 (limiter_budget ∅ "k" 2 60 5 four_requests _ _ _ _ _)).
  - vm_compute. discriminate.
  - lia.
  - lia.
  - intros v Hv. rewrite lookup_empty in Hv. discriminate Hv.
  - apply Forall_forall. intros r Hr. apply list_elem_of_In, repeat_spec in Hr. subst r. simpl.
    split; [lia|]. intros _. split; reflexivity.
Defined.
End LimiterProperties.

(** ** Sessions *)
Module SessionProperties.
Import SessionCache.

(** C39: a revoked session is not accepted: however the steps of the loads, of the revocation, of
    Redis (which may execute a command long after the client gave up on it) and of time
    interleave, no load that began after the revocation was reported as done, or five seconds
    after it was committed, ever accepts the session. *)
Theorem revoked_session_rejected acts t expires s l se :
  exec_all acts (init t (mkSession None expires)) = Some s ->
  l ∈ loads s -> fenced l = true -> pc l <> LDone (inr se).
Proof.
  intros Hrun Hl Hf Hpc.
  pose proof (exec_all_ok _ _ _ (init_ok t expires) Hrun) as Hok.
  pose proof (proj1 (Forall_forall _ _) (so_loads s Hok) l Hl) as Hld.
  unfold load_ok in Hld. rewrite Hpc in Hld. congruence.
Qed.

Lemma exec_all_app a1 a2 s : exec_all (a1 ++ a2) s = s' ← exec_all a1 s; exec_all a2 s'.
Proof.
  revert s. induction a1 as [|a a1 IH]; intros s; simpl; [done|]. destruct (exec a s); simpl; [apply IH|done].
Qed.

(** The deadline of [retireSessions] is at most a lease away. *)
Definition deadline (r : retire) : option Time :=
  match r with RStarted d | RSent d _ | RFailed d => Some d | _ => None end.

Definition deadline_ok (s : State) : Prop :=
  forall d, deadline (stage s) = Some d -> d <= now s + sessionLease.

Lemma exec_deadline a s s' : deadline_ok s -> exec a s = Some s' -> deadline_ok s'.
Proof.
  unfold deadline_ok. intros Hok. destruct a as [d| |i fails|e| |fails|j]; simpl.
  - intros [= <-] d' Hd. simpl in *. specialize (Hok d' Hd). lia.
  - by intros [= <-].
  - destruct (loads s !! i); [|done]. simpl. destruct (load_step _ _ _). by intros [= <-].
  - destruct (RevokedAt (row s)); [done|]. by intros [= <-].
  - destruct (stage s); try done. by intros [= <-].
  - unfold retire_step. destruct (stage s); simpl in *; repeat case_match; try done;
      intros [= <-] d'; simpl; try done; intros [= <-]; [lia|by apply Hok..].
  - destruct (wire s !! j) as [c|]; [|done]. simpl. intros [= <-] d' Hd. simpl in *. apply Hok.
    destruct c; [done|]. by destruct (stage s).
Qed.

Lemma exec_all_deadline acts s s' : deadline_ok s -> exec_all acts s = Some s' -> deadline_ok s'.
Proof.
  revert s. induction acts as [|a acts IH]; intros s Hok; simpl; [by intros [= <-]|].
  destruct (exec a s) as [s1|] eqn:Ha; [|done]. simpl. apply IH. by eapply exec_deadline.
Qed.

(** Steps of the revocation and of time. *)
Definition own_action (a : action) : bool :=
  match a with Retire _ | Tick _ => true | _ => false end.

Lemma retire_failed s deadline : stage s = RFailed deadline ->
  exists acts s', exec_all acts s = Some s' /\ stage s' = RDone /\ forallb own_action acts = true /\
    now s' = Z.max (now s) deadline.
Proof.
  intros Hst. exists [Tick (Z.to_N (deadline - now s)); Retire false]. eexists. simpl.
  unfold retire_step. simpl. rewrite Hst. rewrite decide_True by lia. simpl.
  split; [done|]. simpl. split_and!; [done|done|]. lia.
Qed.

(** C40: a revocation that was committed can always be completed without Redis: whatever the
    state, the remaining steps of [retireSessions] and the passing of time lead to its success,
    at most five seconds later. *)
Theorem revocation_completes acts t expires s :
  exec_all acts (init t (mkSession None expires)) = Some s -> is_Some (RevokedAt (row s)) ->
  exists acts' s', exec_all acts' s = Some s' /\ stage s' = RDone /\
    forallb own_action acts' = true /\ now s <= now s' <= now s + sessionLease.
Proof.
  intros Hrun Hrev. pose proof (exec_all_ok _ _ _ (init_ok t expires) Hrun) as Hok.
  assert (deadline_ok s) as Hd by by eapply exec_all_deadline; [|exact Hrun].
  pose proof (so_stage s Hok) as Hst. unfold stage_ok in Hst. unfold deadline_ok in Hd.
  assert (0 < sessionLease) as Hlease by done.
  assert (forall pre s1 d, exec_all pre s = Some s1 -> forallb own_action pre = true -> now s1 = now s ->
    stage s1 = RFailed d -> d <= now s + sessionLease ->
    exists acts' s', exec_all acts' s = Some s' /\ stage s' = RDone /\
      forallb own_action acts' = true /\ now s <= now s' <= now s + sessionLease) as Hfin.
  { intros pre s1 d Hpre Hown Hnow Hs1 Hle. destruct (retire_failed s1 d Hs1) as (a & s' & Ha & Hdone & Ho & Hn).
    exists (pre ++ a), s'. rewrite exec_all_app, Hpre, forallb_app, Hown. split_and!; [done|done|done|lia..]. }
  destruct (stage s) as [| |d|d b|d|] eqn:Hs.
  - rewrite Hst in Hrev. by destruct Hrev.
  - eapply (Hfin [Retire false; Retire false; Retire true]);
      [simpl; unfold retire_step; rewrite Hs; reflexivity|done..|simpl; lia].
  - eapply (Hfin [Retire false; Retire true]);
      [simpl; unfold retire_step; rewrite Hs; reflexivity|done..|by apply Hd].
  - eapply (Hfin [Retire true]);
      [simpl; unfold retire_step; rewrite Hs; reflexivity|done..|by apply Hd].
  - eapply (Hfin []); [done..|exact Hs|by apply Hd].
  - exists [], s. split_and!; [done|done|done|lia..].
Qed.

(** How many steps a load has left at most. *)
Definition rank (l : load) : nat :=
  match l with
  | LGet => 6 | LCheck _ _ => 5 | LLease => 4 | LRead _ => 3 | LVerify _ _ => 2 | LStore _ _ => 1
  | LDone _ => 0
  end.

Lemma load_step_rank s fails l : (rank (load_step s fails l).1 <= pred (rank l))%nat.
Proof.
  destruct l; simpl; repeat case_match; simpl; lia.
Qed.

(** Steps of one load, in the states it finds. *)
Definition load_steps (l : load) (steps : list (State * bool)) : load :=
  fold_left (fun l '(s, fails) => (load_step s fails l).1) steps l.

(** A load always ends: six of its steps, whatever calls fail and however the other steps
    change the state in between, bring it to its answer, and the answer stays. *)
Theorem load_terminates steps l :
  (6 <= length steps)%nat -> exists r, load_steps l steps = LDone r.
Proof.
  intros Hlen. assert (rank (load_steps l steps) = 0)%nat as H0.
  { assert (rank l <= length steps)%nat as Hr by (destruct l; simpl; lia). clear Hlen.
    revert l Hr. induction steps as [|[s fails] steps IH]; intros l Hr; simpl in *; [lia|].
    apply IH. pose proof (load_step_rank s fails l). lia. }
  destruct (load_steps l steps); try done. by eexists.
Qed.

(** A request is let in, the session is revoked while Redis answers, and a request that comes
    after the success is turned away. *)
Definition logout_run : list action :=
  [Spawn; Load 0 false; Load 0 false; Load 0 false; Load 0 false; Load 0 false;
   Revoke; Retire false; Retire false; Deliver 0; Deliver 0; Retire true; Tick (Z.to_N sessionLease);
   Retire false; Spawn; Load 1 true; Load 1 false; Load 1 false; Load 1 false].

Definition logged_out : State :=
  Eval vm_compute in default (init 0 (mkSession None 0)) (exec_all logout_run (init second (mkSession None hour))).

Lemma logout_run_ends : exec_all logout_run (init second (mkSession None hour)) = Some logged_out.
Proof. vm_compute. reflexivity. Qed.

Lemma revoked_session_rejected_witness :
  loads logged_out !! 1%nat = Some (mkLoader (LDone (inl ErrInvalidSession)) true) /\
  forall se, pc (mkLoader (LDone (inl ErrInvalidSession)) true) <> LDone (inr se).
Proof.
  assert (loads logged_out !! 1%nat = Some (mkLoader (LDone (inl ErrInvalidSession)) true)) as Hl
    by (vm_compute; reflexivity).
  split; [exact Hl|]. intros se.
  exact (revoked_session_rejected logout_run second hour logged_out _ se logout_run_ends
           (list_elem_of_lookup_2 _ _ _ Hl) eq_refl).
Defined.

Definition just_revoked : State :=
  Eval vm_compute in default (init 0 (mkSession None 0)) (exec_all [Revoke] (init second (mkSession None hour))).

Lemma revocation_completes_witness :
  stage just_revoked = RCommitted /\
  exists acts' s', exec_all acts' just_revoked = Some s' /\ stage s' = RDone.
Proof.
  split; [vm_compute; reflexivity|].
  destruct (revocation_completes [Revoke] second hour just_revoked) as (acts' & s' & H1 & H2 & _).
  - vm_compute. reflexivity.
  - vm_compute. eexists. reflexivity.
  - exists acts', s'. split; [exact H1|exact H2].
Defined.

Lemma load_terminates_witness :
  exists r, load_steps LGet (repeat (init second (mkSession None hour), false) 6) = LDone r.
Proof. apply (load_terminates (repeat (init second (mkSession None hour), false) 6) LGet). simpl. lia. Defined.
End SessionProperties.
