(* ===== verification/Findings.v ===== *)
(** * Where the code does not do what it means to

    Runs of the modelled code that show a defect, by computation. *)
From S2P Require Import Prelude.
From S2P Require Import GoStd.
From S2P Require Import GoConv.
From S2P Require InteractionDomain.
From S2P Require MessageDomain.
From S2P Require RecommendationDomain.
From S2P Require Import FeedDomain.
From S2P Require Import Errors.
From S2P Require Import Models.
From S2P Require Import Redis.
From S2P Require Import Store.
From S2P Require Import RedisClient.
From S2P Require Import Codec.
From S2P Require InteractionRepo.
From S2P Require FeedRepo.
From S2P Require RecommendationService.
From S2P Require FeedService.
From S2P Require FeedCache.
From S2P Require Ports.
From S2P Require Resilience.
From S2P Require Import Edge.
From S2P Require Import PublishHandlers.
From S2P Require Import Uploads.
From S2P Require Import ExtensionRules.
From S2P Require Import System.
From S2P Require OutboxWorker.
From S2P Require SocialHandlers.
From S2P Require HttpDto.
From S2P Require CoreHandlers.
From S2P Require Import Wiring.
From S2P Require Import FeedProperties.
From S2P Require Import RepoProperties.
From S2P Require Import ServiceExamples.

(** The last query of the feed fails: the text of the driver is the error, and as it contains
    the word "invalid" it is answered with status 400 and sent to the client. *)
Definition last_query_fails : World :=
  with_env w10 (mkEnv [None; None; None; Some "invalid connection"%string] [] 0 []).

Example driver_text_reaches_client :
  ((FeedService.GetFeed (FeedService.New (fun _ load => load) sql_feed [])
      (FeedService.mkFeedRequest "timeline" "" 10 0 ∅) last_query_fails).1,
   coreError (EDriver "invalid connection"))
  = (inl (EDriver "invalid connection"), (400, "invalid connection"%string)).
Proof. vm_compute. reflexivity. Qed.

(** A request with a bad id is answered as if the service were down. *)
Example bad_id_is_503 :
  coreError (EInteraction InteractionDomain.ErrInvalidVideoID) = (503, "operation_failed"%string).
Proof. vm_compute. reflexivity. Qed.

(** A like stored by the migration, whose type is in lower case, is counted but not shown as
    the viewer's own. *)
Definition migrated_like : ActionModel := mkActionModel 1 2 1 "like" 1 None 0 0.

Example migrated_like_is_not_shown :
  (InteractionRepo.active_action 1 InteractionDomain.ActionTypeLike migrated_like,
   va_Liked <$> FeedRepo.add_action ∅ migrated_like !! 1) = (true, Some false).
Proof. vm_compute. reflexivity. Qed.

(** Two videos published in the same second have one score when their ids are a million
    apart, and the cursor excludes its score: the page after the first loses the second. *)
Definition one_second : Time := 63000000000 * second.
Definition two_videos : World :=
  (FeedCache.AddInboxItems 7 [2] (Some (mkFeedPageItem 1000001 7 one_second 0)) 100
     (FeedCache.AddInboxItems 7 [2] (Some (mkFeedPageItem 1 7 one_second 0)) 100 w0).2).2.

Example index_page_loses_a_video :
  let page cursor := match (FeedCache.ListFollowingIndexPage 2 [] cursor 1 two_videos).1 with
                     | inr (Some items) => Some (pi_VideoID <$> items) | _ => None end in
  (page None, page (Some (mkTimelineCursor one_second 1))) = (Some [1], Some []).
Proof. vm_compute. reflexivity. Qed.

(** The state of a like is gone from Redis (or never was there) while the database counts it:
    liking again adds one more. *)
Example forgotten_like_counts_twice :
  match (FeedCache.SetActionState 2 1 "LIKE" true "k" (Some (InteractionDomain.mkVideoStat 1 1 0 0)) w0).1 with
  | inr r => (Ports.st_LikeCount r, Ports.st_Delta r) | inl _ => (0, 0) end = (2, 1).
Proof. vm_compute. reflexivity. Qed.

(** Two exposures of one video in a batch, of two users: the second is dropped. *)
Example second_user_is_dropped :
  match RecommendationService.exposure_writes []
    [RecommendationService.mkExposureInput 1 5 "feed" "r"; RecommendationService.mkExposureInput 2 5 "feed" "r"]
  with inr l => RecommendationDomain.ew_UserID <$> l | inl _ => [] end = [1].
Proof. vm_compute. reflexivity. Qed.

(** A call that entered before the circuit opened returns while the probe is under way: the
    probe's mark is gone, and a second probe is let through. *)
Definition probe_under_way : Resilience.Breaker.circuitBreaker :=
  Resilience.Breaker.run (Resilience.Breaker.mkBreaker 2 0 false)
    [Resilience.Breaker.Allow 10; Resilience.Breaker.Allow 10; Resilience.Breaker.Result 20 true;
     Resilience.Breaker.Allow (3 * second)].

Example two_probes :
  (Resilience.Breaker.probing probe_under_way,
   (Resilience.Breaker.allow (Resilience.Breaker.result probe_under_way (3 * second) true) (6 * second)).1)
  = (true, true).
Proof. vm_compute. reflexivity. Qed.

(** The notification of a mention has a type the message domain does not know: it is read back
    without a type. *)
Example mention_has_no_type :
  MessageDomain.m_Type (MessageDomain.RestoreMessage 1 2 "mention" "t" "c" "e" false 0 None) = ""%string.
Proof. vm_compute. reflexivity. Qed.

(** The transaction of a publication fails after the cover was moved: the video goes back, the
    cover does not, and publishing again with this cover is refused. *)
Definition jpeg : string := string_of_bytes [255; 216; 255].
Definition with_cover : World := System.after (ann_asks (fun uid => uploadCover plain_config uid (Some jpeg))) u3.
Definition cover_id : string := Eval vm_compute in
  match (ann_asks (fun uid => uploadCover plain_config uid (Some jpeg)) u3).1 with
  | inr r => match rs_Body r with BCover id => id | _ => "" end
  | inl _ => ""
  end.
Definition covered : M Response :=
  publishVideo plain_config 1 (Some (mkPublishBody clip_id "With a cover" "" cover_id)).
Definition database_down_late : World :=
  with_env with_cover (mkEnv (repeat None 14 ++ [Some "down"%string]) [] (clock (env with_cover)) []).

Definition answer_code {A} (r : (error + Response) * A) : Z * string :=
  match r.1 with
  | inr r => (rs_Status r, match rs_Body r with BError code => code | _ => ""%string end)
  | inl _ => (0, ""%string)
  end.

Example cover_is_lost :
  (answer_code (covered database_down_late), answer_code (covered (System.after covered database_down_late)),
   (answer_code (covered with_cover)).1)
  = ((500, "publish_failed"%string), (400, "cover_not_found"%string), 201).
Proof. vm_compute. reflexivity. Qed.

(** Tags that differ by bytes and are one for the collation (as "café" and "cafe" are for
    utf8mb4_0900_ai_ci): the second is refused as a duplicate, and with it the publication. *)
Theorem accents_refuse_publication `{Collation} `{Unicode} p w t1 t2 :
  extension_ok w -> t1 ∈ publication_tags p -> t2 ∈ publication_tags p -> t1 <> t2 -> collate t1 = collate t2 ->
  wp (publish_tx p) (fun _ _ => False) (fun _ w' => db w' = db w) w.
Proof.
  intros Hx H1 H2 Hne E. eapply wp_mono; [by apply wp_publish_tx| |by intros e w' [? _]].
  intros row w' [_ _ (now & m & r & Ht & _ & _ & Hdb) Hx' _ _].
  destruct (ta_all _ _ _ _ Ht _ H1) as (i & a & Ha & Hva & Hta), (ta_all _ _ _ _ Ht _ H2) as (j & b & Hb & Hvb & Htb).
  assert (i = j) as ->.
  { apply (ex_tag_once _ Hx' i j a b); [by rewrite Hdb..|]. split; congruence. }
  congruence.
Qed.

(** The consumer takes the first confirmation on its channel, whosever copy it is for: after
    five seconds without one the copy of a first delivery is given up; its late confirmation
    is then taken for the copy of the next delivery, which the broker refuses. That delivery
    is acknowledged and on no queue. *)
Definition first_confirmation (channel : list (Z * bool)) : option bool := snd <$> head channel.

Example late_confirmation_loses_a_delivery :
  let down := with_env v4 (mkEnv [Some "gone"%string] [] (clock (env v4)) []) in
  let timed_out := fst (OutboxWorker.consume (Some (mkEvent "e1" "like" [])) 0 (first_confirmation []) down) in
  let next := fst (OutboxWorker.consume (Some (mkEvent "e2" "like" [])) 0
                     (first_confirmation [(1, true); (2, false)]) down) in
  (timed_out, next) = (inr (OutboxWorker.Requeue, Some 1), inr (OutboxWorker.Ack, Some 1)).
Proof. vm_compute. reflexivity. Qed.

(** A cursor of the recommendations that does not parse is the fault of the server for the
    handler of the feed. *)
Example bad_cursor_is_internal :
  HttpDto.FeedHandler.writeFeedError (ERecommendation RecommendationDomain.ErrInvalidCursor) = HttpDto.internal_error.
Proof. reflexivity. Qed.

(** A favourite is answered as if the video were liked. *)
Example favorite_answers_liked :
  (match (CoreHandlers.coreInteraction (initCore (fun _ m => m)) "favorite" (mkPrincipal 1 "user" "s") "1" "k" None w10).1 with
   | inr r => rs_Body r | inl _ => BOk end,
   match (SocialHandlers.isLiked (mkPrincipal 1 "user" "s") "1" w10).1 with inr r => rs_Body r | inl _ => BOk end)
  = (BAction true true 1 1, BFlag "liked" false).
Proof. vm_compute. reflexivity. Qed.
